(** * Lunark transaction preparation engine: a shallow embedding

    The development follows the TypeScript sources of the agent's tools:
    - [config/networks.ts], [config/tokens.ts], [config/dex.ts]: the static
      registries, kept as association lists in declaration order;
    - [tools/transfer.ts], [tools/approve.ts], [tools/swap.ts]: the three
      preparation handlers, written in a small state-and-exception monad
      over the data store, the notification channel and the call log of
      the chain data provider.  The swap tool is the second half of the
      file [tools/token-utils.ts] of the source tree; line numbers for it
      count from the top of that file;
    - the utility tools of the first half of [tools/token-utils.ts]
      ([resolve_token], [is_native_token], [switch_network]), the address
      book tools of [tools/contacts.ts] over a table-based store, the
      network information helpers that follow [config/dex.ts], and
      [formatUptime] of the status route.

    BigInt values are [Z] (unbounded, as in JavaScript); BigInt division is
    [Z.quot] (truncation toward zero).  Strings are [string].  Where the
    source compares against a table key or an address, the case
    conversions and [trim] are those of the ASCII range; free text (a
    contact name, an amount string) is lower-cased by [lowerCase] of the
    environment, which stands for JavaScript's own [toLowerCase]. *)

From Stdlib Require Import ZArith List String Ascii Bool Lia.
From Stdlib Require Import Sorted Permutation DecimalString.
Import ListNotations.

Open Scope string_scope.
Open Scope Z_scope.

Set Implicit Arguments.

(* ------------------------------------------------------------------ *)
(** ** JavaScript string primitives (ASCII range)                      *)
(* ------------------------------------------------------------------ *)

Module JsString.

Definition lowerChar (c : ascii) : ascii :=
  let n := N_of_ascii c in
  if (N.leb 65 n && N.leb n 90)%bool then ascii_of_N (n + 32) else c.

Definition upperChar (c : ascii) : ascii :=
  let n := N_of_ascii c in
  if (N.leb 97 n && N.leb n 122)%bool then ascii_of_N (n - 32) else c.

Fixpoint mapChars (f : ascii -> ascii) (s : string) : string :=
  match s with
  | EmptyString => EmptyString
  | String c s' => String (f c) (mapChars f s')
  end.

(** [s.toLowerCase()] and [s.toUpperCase()] on the letters A to Z; they
    are used on table keys and addresses only. *)
Definition toLowerCase : string -> string := mapChars lowerChar.
Definition toUpperCase : string -> string := mapChars upperChar.

(** White space removed by [trim]: TAB, LF, VT, FF, CR and SPACE. *)
Definition isSpace (c : ascii) : bool :=
  let n := N_of_ascii c in
  ((N.leb 9 n && N.leb n 13) || N.eqb n 32)%bool.

Fixpoint trimStart (s : string) : string :=
  match s with
  | EmptyString => EmptyString
  | String c s' => if isSpace c then trimStart s' else s
  end.

Fixpoint trimEnd (s : string) : string :=
  match s with
  | EmptyString => EmptyString
  | String c s' =>
      let t := trimEnd s' in
      if (isSpace c && String.eqb t EmptyString)%bool
      then EmptyString else String c t
  end.

Definition trim (s : string) : string := trimEnd (trimStart s).

(** [s.endsWith(suffix)]. *)
Definition endsWith (s suffix : string) : bool :=
  let n := String.length s in
  let k := String.length suffix in
  (Nat.leb k n && String.eqb (substring (n - k) k s) suffix)%bool.

(** Truthiness of a possibly missing string: [undefined] and the empty
    string are falsy. *)
Definition truthy (o : option string) : option string :=
  match o with
  | Some s => if String.eqb s EmptyString then None else Some s
  | None => None
  end.

End JsString.

(** Property lookup [table[key]] on an object literal, by string key and
    by numeric key.  Only own properties are modelled. *)
Fixpoint lookup {A : Type} (k : string) (table : list (string * A)) : option A :=
  match table with
  | [] => None
  | (k', v) :: rest => if String.eqb k k' then Some v else lookup k rest
  end.

Fixpoint lookupZ {A : Type} (k : Z) (table : list (Z * A)) : option A :=
  match table with
  | [] => None
  | (k', v) :: rest => if Z.eqb k k' then Some v else lookupZ k rest
  end.

(* ------------------------------------------------------------------ *)
(** ** config/networks.ts                                              *)
(* ------------------------------------------------------------------ *)

Module Networks.

Record NetworkConfig := {
  chainId : Z;
  name : string;
  symbol : string;
  rpcUrl : string;
  explorerUrl : string
}.

Definition NETWORKS : list (Z * NetworkConfig) := [
  (1, {| chainId := 1; name := "Ethereum"; symbol := "ETH";
     rpcUrl := "https://ethereum-rpc.publicnode.com";
     explorerUrl := "https://etherscan.io" |});
  (42161, {| chainId := 42161; name := "Arbitrum"; symbol := "ETH";
     rpcUrl := "https://arb1.arbitrum.io/rpc";
     explorerUrl := "https://arbiscan.io" |});
  (137, {| chainId := 137; name := "Polygon"; symbol := "MATIC";
     rpcUrl := "https://polygon-bor-rpc.publicnode.com";
     explorerUrl := "https://polygonscan.com" |});
  (56, {| chainId := 56; name := "BNB Chain"; symbol := "BNB";
     rpcUrl := "https://bsc-dataseed1.bnbchain.org";
     explorerUrl := "https://bscscan.com" |});
  (43114, {| chainId := 43114; name := "Avalanche"; symbol := "AVAX";
     rpcUrl := "https://api.avax.network/ext/bc/C/rpc";
     explorerUrl := "https://snowtrace.io" |});
  (10, {| chainId := 10; name := "Optimism"; symbol := "ETH";
     rpcUrl := "https://optimism-rpc.publicnode.com";
     explorerUrl := "https://optimistic.etherscan.io" |});
  (8453, {| chainId := 8453; name := "Base"; symbol := "ETH";
     rpcUrl := "https://base-rpc.publicnode.com";
     explorerUrl := "https://basescan.org" |});
  (11155111, {| chainId := 11155111; name := "Sepolia"; symbol := "ETH";
     rpcUrl := "https://ethereum-sepolia-rpc.publicnode.com";
     explorerUrl := "https://sepolia.etherscan.io" |})
].

Definition getNetwork (c : Z) : option NetworkConfig := lookupZ c NETWORKS.

Definition getRpcUrl (c : Z) : string :=
  match lookupZ c NETWORKS with
  | Some n => rpcUrl n
  | None => "https://eth.llamarpc.com"
  end.

Definition getNativeSymbol (c : Z) : string :=
  match lookupZ c NETWORKS with
  | Some n => symbol n
  | None => "ETH"
  end.

Definition getExplorerUrl (c : Z) : string :=
  match lookupZ c NETWORKS with
  | Some n => explorerUrl n
  | None => "https://etherscan.io"
  end.

End Networks.

(* ------------------------------------------------------------------ *)
(** ** config/tokens.ts                                                *)
(* ------------------------------------------------------------------ *)

Module Tokens.

Record TokenConfig := {
  symbol : string;
  name : string;
  decimals : Z;
  addresses : list (Z * string)
}.

Definition TOKENS : list (string * TokenConfig) := [
  ("USDC", {| symbol := "USDC"; name := "USD Coin"; decimals := 6;
     addresses := [(1, "0xA0b86991c6218b36c1d19D4a2e9Eb0cE3606eB48");
       (137, "0x3c499c542cEF5E3811e1192ce70d8cC03d5c3359");
       (42161, "0xaf88d065e77c8cC2239327C5EDb3A432268e5831");
       (10, "0x0b2C639c533813f4Aa9D7837CAf62653d097Ff85");
       (8453, "0x833589fCD6eDb6E08f4c7C32D4f71b54bdA02913");
       (43114, "0xB97EF9Ef8734C71904D8002F8b6Bc66Dd9c48a6E");
       (56, "0x8AC76a51cc950d9822D68b83fE1Ad97B32Cd580d");
       (11155111, "0x1c7D4B196Cb0C7B01d743Fbc6116a902379C7238")] |});
  ("USDT", {| symbol := "USDT"; name := "Tether USD"; decimals := 6;
     addresses := [(1, "0xdAC17F958D2ee523a2206206994597C13D831ec7");
       (137, "0xc2132D05D31c914a87C6611C10748AEb04B58e8F");
       (42161, "0xFd086bC7CD5C481DCC9C85ebE478A1C0b69FCbb9");
       (10, "0x94b008aA00579c1307B0EF2c499aD98a8ce58e58");
       (8453, "0xfde4C96c8593536E31F229EA8f37b2ADa2699bb2");
       (43114, "0x9702230A8Ea53601f5cD2dc00fDBc13d4dF4A8c7");
       (56, "0x55d398326f99059fF775485246999027B3197955");
       (11155111, "0xaA8E23Fb1079EA71e0a56F48a2aA51851D8433D0")] |});
  ("DAI", {| symbol := "DAI"; name := "Dai Stablecoin"; decimals := 18;
     addresses := [(1, "0x6B175474E89094C44Da98b954EescdeCB5BE3830");
       (137, "0x8f3Cf7ad23Cd3CaDbD9735AFf958023239c6A063");
       (42161, "0xDA10009cBd5D07dd0CeCc66161FC93D7c9000da1");
       (10, "0xDA10009cBd5D07dd0CeCc66161FC93D7c9000da1");
       (8453, "0x50c5725949A6F0c72E6C4a641F24049A917DB0Cb");
       (43114, "0xd586E7F844cEa2F87f50152665BCbc2C279D8d70");
       (11155111, "0xFF34B3d4Aee8ddCd6F9AFFFB6Fe49bD371b8a357")] |});
  ("WETH", {| symbol := "WETH"; name := "Wrapped Ether"; decimals := 18;
     addresses := [(1, "0xC02aaA39b223FE8D0A0e5C4F27eAD9083C756Cc2");
       (137, "0x7ceB23fD6bC0adD59E62ac25578270cFf1b9f619");
       (42161, "0x82aF49447D8a07e3bd95BD0d56f35241523fBab1");
       (10, "0x4200000000000000000000000000000000000006");
       (8453, "0x4200000000000000000000000000000000000006");
       (43114, "0x49D5c2BdFfac6CE2BFdB6640F4F80f226bc10bAB");
       (11155111, "0x7b79995e5f793A07Bc00c21412e50Ecae098E7f9")] |});
  ("WBTC", {| symbol := "WBTC"; name := "Wrapped Bitcoin"; decimals := 8;
     addresses := [(1, "0x2260FAC5E5542a773Aa44fBCfeDf7C193bc2C599");
       (137, "0x1BFD67037B42Cf73acF2047067bd4F2C47D9BfD6");
       (42161, "0x2f2a2543B76A4166549F7aaB2e75Bef0aefC5B0f");
       (10, "0x68f180fcCe6836688e9084f035309E29Bf0A2095");
       (43114, "0x50b7545627a5162F82A992c33b87aDc75187B218")] |});
  ("WMATIC", {| symbol := "WMATIC"; name := "Wrapped Matic"; decimals := 18;
     addresses := [(137, "0x0d500B1d8E8eF31E21C99d1Db9A6444d3ADf1270")] |});
  ("WBNB", {| symbol := "WBNB"; name := "Wrapped BNB"; decimals := 18;
     addresses := [(56, "0xbb4CdB9CBd36B01bD1cBaEBF2De08d9173bc095c")] |});
  ("WAVAX", {| symbol := "WAVAX"; name := "Wrapped AVAX"; decimals := 18;
     addresses := [(43114, "0xB31f66AA3C1e785363F0875A1B74E27b85FD66c7")] |});
  ("LINK", {| symbol := "LINK"; name := "Chainlink"; decimals := 18;
     addresses := [(1, "0x514910771AF9Ca656af840dff83E8264EcF986CA");
       (137, "0x53E0bca35eC356BD5ddDFebbD1Fc0fD03FaBad39");
       (42161, "0xf97f4df75117a78c1A5a0DBb814Af92458539FB4");
       (10, "0x350a791Bfc2C21F9Ed5d10980Dad2e2638ffa7f6");
       (43114, "0x5947BB275c521040051D82396192181b413227A3");
       (11155111, "0x779877A7B0D9E8603169DdbD7836e478b4624789")] |});
  ("UNI", {| symbol := "UNI"; name := "Uniswap"; decimals := 18;
     addresses := [(1, "0x1f9840a85d5aF5bf1D1762F925BDADdC4201F984");
       (137, "0xb33EaAd8d922B1083446DC23f610c2567fB5180f");
       (42161, "0xFa7F8980b0f1E64A2062791cc3b0871572f1F7f0");
       (10, "0x6fd9d7AD17242c41f7131d257212c54A0e816691")] |});
  ("AAVE", {| symbol := "AAVE"; name := "Aave"; decimals := 18;
     addresses := [(1, "0x7Fc66500c84A76Ad7e9c93437bFc5Ac33E2DDaE9");
       (137, "0xD6DF932A45C0f255f85145f286eA0b292B21C90B");
       (42161, "0xba5DdD1f9d7F570dc94a51479a000E3BCE967196");
       (10, "0x76FB31fb4af56892A25e32cFC43De717950c9278");
       (43114, "0x63a72806098Bd3D9520cC43356dD78afe5D386D9")] |});
  ("PEPE", {| symbol := "PEPE"; name := "Pepe"; decimals := 18;
     addresses := [(1, "0x6982508145454Ce325dDbE47a25d4ec3d2311933")] |});
  ("SHIB", {| symbol := "SHIB"; name := "Shiba Inu"; decimals := 18;
     addresses := [(1, "0x95aD61b0a150d79219dCF64E1E6Cc01f0B64C4cE")] |})
].

Record TokenInfo := {
  address : string;
  info_decimals : Z;
  info_name : string
}.

(** [getToken(symbol, chainId)] over a registry [tokens]: the symbol is
    upper-cased before the table lookup; a token without an address on
    the chain is absent. *)
Definition getTokenFrom (tokens : list (string * TokenConfig))
           (sym : string) (c : Z) : option TokenInfo :=
  let upperSymbol := JsString.toUpperCase sym in
  match lookup upperSymbol tokens with
  | None => None
  | Some token =>
      match JsString.truthy (lookupZ c (addresses token)) with
      | None => None
      | Some a =>
          Some {| address := a;
                  info_decimals := decimals token;
                  info_name := name token |}
      end
  end.

Definition getToken : string -> Z -> option TokenInfo := getTokenFrom TOKENS.

Definition nativeTokens : list (Z * list string) :=
  [ (1, ["ETH"; "ETHER"]);
    (137, ["MATIC"; "POL"]);
    (42161, ["ETH"; "ETHER"]);
    (10, ["ETH"; "ETHER"]);
    (8453, ["ETH"; "ETHER"]);
    (43114, ["AVAX"]);
    (56, ["BNB"]);
    (11155111, ["ETH"; "ETHER"]) ].

Definition isNativeToken (sym : string) (c : Z) : bool :=
  let upperSymbol := JsString.toUpperCase sym in
  match lookupZ c nativeTokens with
  | Some l => existsb (String.eqb upperSymbol) l
  | None => false
  end.

End Tokens.

(* ------------------------------------------------------------------ *)
(** ** config/dex.ts                                                   *)
(* ------------------------------------------------------------------ *)

Module Dex.

Record DexConfig := {
  name : string;
  slug : string;
  routerAddress : list (Z * string);
  quoterAddress : option (list (Z * string));
  factoryAddress : option (list (Z * string));
  website : string;
  supportedChains : list Z
}.

Definition UNISWAP : DexConfig := {|
  name := "Uniswap";
  slug := "uniswap";
  routerAddress :=
      [(1, "0x68b3465833fb72A70ecDF485E0e4C7bD8665Fc45");
       (42161, "0x68b3465833fb72A70ecDF485E0e4C7bD8665Fc45");
       (137, "0x68b3465833fb72A70ecDF485E0e4C7bD8665Fc45");
       (10, "0x68b3465833fb72A70ecDF485E0e4C7bD8665Fc45");
       (8453, "0x2626664c2603336E57B271c5C0b26F421741e481");
       (56, "0xB971eF87ede563556b2ED4b1C0b0019111Dd85d2");
       (43114, "0xbb00FF08d01D300023C629E8fFfFcb65A5a578cE");
       (11155111, "0x3bFA4769FB09eefC5a80d6E87c3B9C650f7Ae48E")];
  quoterAddress :=
      Some
      [(1, "0x61fFE014bA17989E743c5F6cB21bF9697530B21e");
       (42161, "0x61fFE014bA17989E743c5F6cB21bF9697530B21e");
       (137, "0x61fFE014bA17989E743c5F6cB21bF9697530B21e");
       (10, "0x61fFE014bA17989E743c5F6cB21bF9697530B21e");
       (8453, "0x3d4e44Eb1374240CE5F1B871ab261CD16335B76a");
       (56, "0x78D78E420Da98ad378D7799bE8f4AF69033EB077");
       (43114, "0xbe0F5544EC67e9B3b2D979aaA43f18Fd87E6257F");
       (11155111, "0xEd1f6473345F45b75F8179591dd5bA1888cf2FB3")];
  factoryAddress :=
      None;
  website := "https://uniswap.org";
  supportedChains := [1; 42161; 137; 10; 8453; 56; 43114; 11155111]
|}.

Definition SUSHISWAP : DexConfig := {|
  name := "SushiSwap";
  slug := "sushiswap";
  routerAddress :=
      [(1, "0xd9e1cE17f2641f24aE83637ab66a2cca9C378B9F");
       (42161, "0x1b02dA8Cb0d097eB8D57A175b88c7D8b47997506");
       (137, "0x1b02dA8Cb0d097eB8D57A175b88c7D8b47997506");
       (10, "0x4C5D5234f232BD2D76B96aA33F5AE4FCF0E4BFAb");
       (56, "0x1b02dA8Cb0d097eB8D57A175b88c7D8b47997506");
       (43114, "0x1b02dA8Cb0d097eB8D57A175b88c7D8b47997506")];
  quoterAddress :=
      None;
  factoryAddress :=
      Some
      [(1, "0xC0AEe478e3658e2610c5F7A4A2E1777cE9e4f2Ac");
       (42161, "0xc35DADB65012eC5796536bD9864eD8773aBc74C4");
       (137, "0xc35DADB65012eC5796536bD9864eD8773aBc74C4");
       (10, "0xFbc12984689e5f15626Bad03Ad60160Fe98B303C");
       (56, "0xc35DADB65012eC5796536bD9864eD8773aBc74C4");
       (43114, "0xc35DADB65012eC5796536bD9864eD8773aBc74C4")];
  website := "https://sushi.com";
  supportedChains := [1; 42161; 137; 10; 56; 43114]
|}.

Definition CURVE : DexConfig := {|
  name := "Curve";
  slug := "curve";
  routerAddress :=
      [(1, "0x99a58482BD75cbab83b27EC03CA68fF489b5788f");
       (42161, "0xF0d4c12A5768D806021F80a262B4d39d26C58b8D");
       (137, "0xF0d4c12A5768D806021F80a262B4d39d26C58b8D");
       (10, "0x0DCDED3545D565bA3B19E683431381007245d983");
       (43114, "0x0DCDED3545D565bA3B19E683431381007245d983")];
  quoterAddress :=
      None;
  factoryAddress :=
      None;
  website := "https://curve.fi";
  supportedChains := [1; 42161; 137; 10; 43114]
|}.

Definition PANCAKESWAP : DexConfig := {|
  name := "PancakeSwap";
  slug := "pancakeswap";
  routerAddress :=
      [(56, "0x10ED43C718714eb63d5aA57B78B54704E256024E");
       (1, "0x13f4EA83D0bd40E75C8222255bc855a974568Dd4");
       (42161, "0x8cFe327CEc66d1C090Dd72bd0FF11d690C33a2Eb")];
  quoterAddress :=
      None;
  factoryAddress :=
      Some
      [(56, "0xcA143Ce32Fe78f1f7019d7d551a6402fC5350c73");
       (1, "0x1097053Fd2ea711dad45caCcc45EfF7548fCB362");
       (42161, "0x02a84c1b3BBD7401a5f7fa98a384EBC70bB5749E")];
  website := "https://pancakeswap.finance";
  supportedChains := [56; 1; 42161]
|}.

Definition TRADERJOE : DexConfig := {|
  name := "TraderJoe";
  slug := "traderjoe";
  routerAddress :=
      [(43114, "0xb4315e873dBcf96Ffd0acd8EA43f689D8c20fB30");
       (42161, "0xb4315e873dBcf96Ffd0acd8EA43f689D8c20fB30")];
  quoterAddress :=
      None;
  factoryAddress :=
      None;
  website := "https://traderjoexyz.com";
  supportedChains := [43114; 42161]
|}.

(** The venue table, in registration order ([Object.values] follows the
    insertion order of these string keys). *)
Definition DEX_PROTOCOLS : list (string * DexConfig) :=
  [ ("uniswap", UNISWAP);
    ("sushiswap", SUSHISWAP);
    ("curve", CURVE);
    ("pancakeswap", PANCAKESWAP);
    ("traderjoe", TRADERJOE) ].

Definition getDex (n : string) : option DexConfig :=
  lookup (JsString.toLowerCase n) DEX_PROTOCOLS.

Definition includes (c : Z) (l : list Z) : bool := existsb (Z.eqb c) l.

Definition getDexesForChain (c : Z) : list DexConfig :=
  filter (fun dex => includes c (supportedChains dex)) (map snd DEX_PROTOCOLS).

Definition WRAPPED_NATIVE : list (Z * string) :=
  [(1, "0xC02aaA39b223FE8D0A0e5C4F27eAD9083C756Cc2");
       (42161, "0x82aF49447D8a07e3bd95BD0d56f35241523fBab1");
       (137, "0x0d500B1d8E8eF31E21C99d1Db9A6444d3ADf1270");
       (10, "0x4200000000000000000000000000000000000006");
       (8453, "0x4200000000000000000000000000000000000006");
       (56, "0xbb4CdB9CBd36B01bD1cBaEBF2De08d9173bc095c");
       (43114, "0xB31f66AA3C1e785363F0875A1B74E27b85FD66c7");
       (11155111, "0xfFf9976782d46CC05630D1f6eBAb18b2324d6B14")].

Module FEE_TIERS.
Definition LOWEST : Z := 100.
Definition LOW : Z := 500.
Definition MEDIUM : Z := 3000.
Definition HIGH : Z := 10000.
End FEE_TIERS.

Definition DEFAULT_SLIPPAGE_BPS : Z := 50.

Definition SWAP_DEADLINE_SECONDS : Z := 20 * 60.

End Dex.


(* ------------------------------------------------------------------ *)
(** ** Array.prototype.sort                                            *)
(* ------------------------------------------------------------------ *)

(** The server runs on Node.js (V8).  For arrays shorter than 64 elements
    V8's sort is a single pass of [CountAndMakeRun] followed by
    [BinaryInsertionSort]; the venue table has five entries, so every
    array sorted by [getAllQuotes] is in that regime.  The comparator is
    always called as [comparefn later earlier]. *)
Module JsArray.

Section Sort.

Variable A : Type.
Variable comparefn : A -> A -> Z.

(** Number of further elements that extend the run whose last element is
    [previous]. *)
Fixpoint extendRun (isDescending : bool) (previous : A) (rest : list A) : nat :=
  match rest with
  | [] => O
  | current :: rest' =>
      let order := comparefn current previous in
      if (if isDescending then 0 <=? order else order <? 0)
      then O
      else S (extendRun isDescending current rest')
  end.

(** [CountAndMakeRun]: splits the array into its initial run, reversed in
    place when it is strictly descending, and the remaining elements. *)
Definition CountAndMakeRun (l : list A) : list A * list A :=
  match l with
  | elementHigh :: elementLow :: rest =>
      let isDescending := comparefn elementLow elementHigh <? 0 in
      let runLength := (2 + extendRun isDescending elementLow rest)%nat in
      let run := firstn runLength l in
      (if isDescending then rev run else run, skipn runLength l)
  | _ => (l, [])
  end.

(** Insertion point of [pivot] in [work[left..right)]; [fuel] bounds the
    number of halvings. *)
Fixpoint findInsertionPoint (fuel : nat) (work : list A) (pivot : A)
         (left right : nat) : nat :=
  match fuel with
  | O => left
  | S fuel' =>
      if (left <? right)%nat then
        let mid := (left + Nat.div2 (right - left))%nat in
        match nth_error work mid with
        | Some element =>
            if comparefn pivot element <? 0
            then findInsertionPoint fuel' work pivot left mid
            else findInsertionPoint fuel' work pivot (mid + 1)%nat right
        | None => left
        end
      else left
  end.

(** [BinaryInsertionSort]: [sorted] is [work[low..start)], [pending] is
    [work[start..high)]. *)
Fixpoint BinaryInsertionSort (sorted pending : list A) : list A :=
  match pending with
  | [] => sorted
  | pivot :: pending' =>
      let n := List.length sorted in
      let left := findInsertionPoint n sorted pivot O n in
      BinaryInsertionSort (firstn left sorted ++ pivot :: skipn left sorted)
                          pending'
  end.

Definition sort (l : list A) : list A :=
  match l with
  | [] | [_] => l
  | _ => let (run, pending) := CountAndMakeRun l in
         BinaryInsertionSort run pending
  end.

End Sort.

End JsArray.


(* ------------------------------------------------------------------ *)
(** ** The world of a request                                          *)
(* ------------------------------------------------------------------ *)

(** Read-only requests to the chain data provider. *)
Inductive Call :=
| CallGetBalance (chain : Z) (holder : string)
| CallBalanceOf (chain : Z) (token holder : string)
| CallDecimals (chain : Z) (token : string)
| CallSymbol (chain : Z) (token : string)
| CallAllowance (chain : Z) (token owner : string) (spender : option string)
| CallQuoteExactInputSingle (chain : Z) (quoter tokenIn tokenOut : string)
                            (amountIn fee : Z)
| CallGetAmountsOut (chain : Z) (router : string) (amountIn : Z)
                    (path : list string)
| CallResolveName (chain : Z) (ensName : string).

(** Decoded replies; a call that rejects has no reply. *)
Inductive Reply :=
| RInt (n : Z)
| RStr (s : string)
| RNull.

(** Call data produced by [encodeFunctionData], kept symbolic: one
    constructor per ABI function, the arguments in ABI order. *)
#[warnings="-register-all"]
Inductive CallData :=
| Raw0x
| Erc20Transfer (recipient : string) (amount : Z)
| Erc20Approve (spender : string) (amount : Z)
| ExactInputSingle (tokenIn tokenOut : string) (fee : Z) (recipient : string)
                   (amountIn amountOutMinimum sqrtPriceLimitX96 : Z)
| Multicall (deadline : Z) (data : list CallData)
| SwapExactETHForTokens (amountOutMin : Z) (path : list string)
                        (recipient : string) (deadline : Z)
| SwapExactTokensForETH (amountIn amountOutMin : Z) (path : list string)
                        (recipient : string) (deadline : Z)
| SwapExactTokensForTokens (amountIn amountOutMin : Z) (path : list string)
                           (recipient : string) (deadline : Z).

Inductive TxType := TTransfer | TApprove | TSwap.
Inductive TxStatus := Pending | Confirmed | Failed.

(** The [details] blob of a pending transaction. *)
Inductive Details :=
| TransferDetails (from to amount symbol : string)
                  (tokenAddress resolvedFrom : option string)
| ApproveDetails (from token tokenSymbol spender : string)
                 (spenderName : option string) (amount : string)
| SwapDetails (from fromToken fromSymbol fromAmount toToken toSymbol : string)
              (toAmount toAmountMin dexName rate : string)
              (slippageBps : Z) (needsApproval : bool).

(** Argument of [db.transaction.create]; [to] is missing when a venue has
    no router on the chain. *)
Record TransactionData := {
  td_chatId : string;
  td_userId : string;
  td_type : TxType;
  td_chainId : Z;
  td_to : option string;
  td_value : Z;
  td_data : CallData;
  td_buttonText : string;
  td_details : Details
}.

(** A stored row.  [tx_value] is the quantity that the source stores as a
    hexadecimal string. *)
Record Transaction := {
  tx_id : nat;
  tx_status : TxStatus;
  tx_to : string;
  tx_fields : TransactionData
}.

Record Contact := {
  contact_name : string;
  contact_address : string;
  deletedAt : option Z
}.

Record User := {
  user_id : string;
  user_address : string;
  contacts : list Contact
}.

Record ApprovalData := {
  ap_token : string;
  ap_tokenSymbol : string;
  ap_spender : option string;
  ap_spenderName : string;
  ap_amount : Z
}.

Inductive Payload :=
| NetworkSwitch (network : Networks.NetworkConfig)
| PendingTransaction (id : nat) (chatId : option string) (type : TxType)
                     (to : option string) (value : Z) (data : CallData)
                     (chainId : Z) (details : Details) (buttonText : string)
                     (explorerUrl : string) (approvalData : option ApprovalData).

Record Emit := {
  room : string;
  payload : Payload
}.

Inductive Err :=
| EUserAddressMissing
| EWalletNotConnected
| EUnknownNetwork (network : string)
| ERecipientUnresolved (recipient : string)
| ETokenNotFound (token : string)
| ESpenderUnresolved (spender : string)
| ESameToken
| EInsufficientBalance (symbol : string) (balance : Z)
| EDexNotSupported (dex : string)
| EDexNotAvailable (dex : string)
| ENoLiquidity
| EUserNotFound
| EInvalidAmount (amount : string)
| EInvalidNumber
| ERpc (c : Call)
| EEncode (c : CallData)
| EPersistence
| EFormat (value decimals : Z)
| ESocketNotInitialized
| ESocketEmit
| EAgent.

(** The [transaction]/[swap] summary of a success result. *)
Inductive Summary :=
| TransferSummary (from to amount symbol : string)
                  (tokenAddress : option string) (chainId : Z)
                  (resolvedFrom : option string)
| ApproveSummary (from token tokenSymbol spender : string)
                 (spenderName : option string) (amount : string) (chainId : Z)
| SwapSummary (from fromToken fromAmount toToken toAmount dexName : string)
              (chainId : Z) (needsApproval : bool).

(** [{success: true, data}] or [{success: false, error}]. *)
Inductive ToolResult :=
| Success (data : Summary)
| Failure (error : Err).

Record ToolContext := {
  ctx_userAddress : option string;
  ctx_chainId : option Z;
  ctx_chatId : option string
}.

(** Mutable state reached by a handler: the data store, the socket
    singleton, the console, and the log of provider calls. *)
Record World := {
  users : list User;
  transactions : list Transaction;
  ioInstance : bool;
  emitted : list Emit;
  console : list string;
  calls : list Call;
  agentNetwork : list Z
}.

(** What a request cannot control: the replies of the chain data provider,
    the library functions of ethers and of JavaScript, and whether the
    store and the channel accept a write.
    - [lowerCase] is [String.prototype.toLowerCase] on free text;
    - [formatUnits value decimals] is [ethers.formatUnits], [None] when it
      throws;
    - [toFixed6 s] is [parseFloat(s).toFixed(6)];
    - [rateOf a b] is [(parseFloat(a) / parseFloat(b)).toFixed(6)]. *)
Record Env := {
  isAddress : string -> bool;
  lowerCase : string -> string;
  parseUnits : string -> Z -> option Z;
  parseInt : string -> option Z;
  parseSlippageBps : string -> option Z;
  formatUnits : Z -> Z -> option string;
  toFixed6 : string -> string;
  rateOf : string -> string -> string;
  encodable : CallData -> bool;
  provider : Call -> option Reply;
  storeAccepts : TransactionData -> bool;
  channelAccepts : Emit -> bool;
  agent : option (Z -> bool);
  now : Z
}.

(* ------------------------------------------------------------------ *)
(** ** Handler monad: state, exceptions and early return               *)
(* ------------------------------------------------------------------ *)

Inductive Outcome (A : Type) :=
| Val (a : A)
| Return (r : ToolResult)
| Throw (e : Err).

Arguments Val {A} a.
Arguments Return {A} r.
Arguments Throw {A} e.

Definition M (A : Type) : Type := World -> Outcome A * World.

Definition ret {A : Type} (a : A) : M A := fun w => (Val a, w).

Definition bind {A B : Type} (m : M A) (k : A -> M B) : M B :=
  fun w =>
    match m w with
    | (Val a, w') => k a w'
    | (Return r, w') => (Return r, w')
    | (Throw e, w') => (Throw e, w')
    end.

Notation "x <- m ;; k" := (bind m (fun x => k))
  (at level 61, m at next level, right associativity).
Notation "m ;;; k" := (bind m (fun _ => k))
  (at level 61, right associativity).

(** [throw new Error(...)]. *)
Definition throw {A : Type} (e : Err) : M A := fun w => (Throw e, w).

(** [return result] from the body of a handler. *)
Definition exit {A : Type} (r : ToolResult) : M A := fun w => (Return r, w).

(** [try { m } catch (e) { h e }]: only exceptions are caught. *)
Definition tryCatch {A : Type} (m : M A) (h : Err -> M A) : M A :=
  fun w =>
    match m w with
    | (Throw e, w') => h e w'
    | other => other
    end.

(** The result a handler reports for the outcome of its body: the
    outermost [catch] turns an exception into a failure result. *)
Definition outcomeResult (o : Outcome ToolResult) : ToolResult :=
  match o with
  | Val r => r
  | Return r => r
  | Throw e => Failure e
  end.

(** A handler body run inside its outermost [try]/[catch]. *)
Definition run (m : M ToolResult) (w : World) : ToolResult * World :=
  let (o, w') := m w in (outcomeResult o, w').

Definition liftResult {A : Type} (r : Err + A) : M A :=
  match r with
  | inl e => throw e
  | inr a => ret a
  end.

Definition logCalls (cs : list Call) (w : World) : World :=
  {| users := users w; transactions := transactions w;
     ioInstance := ioInstance w; emitted := emitted w;
     console := console w; calls := calls w ++ cs;
     agentNetwork := agentNetwork w |}.

(** One awaited provider call. *)
Definition call (E : Env) (c : Call) : M Reply :=
  fun w =>
    match provider E c with
    | Some r => (Val r, logCalls [c] w)
    | None => (Throw (ERpc c), logCalls [c] w)
    end.

Definition callInt (E : Env) (c : Call) : M Z :=
  r <- call E c ;;
  match r with
  | RInt n => ret n
  | _ => throw (ERpc c)
  end.

(** [Promise.all([c1, c2])]: both requests are issued, the result rejects
    when either does. *)
Definition promiseAll2 (E : Env) (c1 c2 : Call) : M (Reply * Reply) :=
  fun w =>
    match provider E c1, provider E c2 with
    | Some r1, Some r2 => (Val (r1, r2), logCalls [c1; c2] w)
    | None, _ => (Throw (ERpc c1), logCalls [c1; c2] w)
    | _, None => (Throw (ERpc c2), logCalls [c1; c2] w)
    end.

(** [db.user.findUnique({ where: { address } })]. *)
Definition findUser (address : string) : M (option User) :=
  fun w => (Val (find (fun u => String.eqb (user_address u) address) (users w)), w).

(** [db.transaction.create({ data })]: a new row with status pending. *)
Definition createTransaction (E : Env) (d : TransactionData) : M Transaction :=
  fun w =>
    match td_to d with
    | Some to =>
        if storeAccepts E d then
          let row := {| tx_id := List.length (transactions w);
                        tx_status := Pending;
                        tx_to := to;
                        tx_fields := d |} in
          (Val row,
           {| users := users w; transactions := transactions w ++ [row];
              ioInstance := ioInstance w; emitted := emitted w;
              console := console w; calls := calls w;
              agentNetwork := agentNetwork w |})
        else (Throw EPersistence, w)
    | None => (Throw EPersistence, w)
    end.

(** [getIO().to(room).emit(event, payload)]. *)
Definition emitTo (E : Env) (r : string) (p : Payload) : M unit :=
  fun w =>
    if ioInstance w then
      let e := {| room := r; payload := p |} in
      if channelAccepts E e then
        (Val tt,
         {| users := users w; transactions := transactions w;
            ioInstance := ioInstance w; emitted := emitted w ++ [e];
            console := console w; calls := calls w;
            agentNetwork := agentNetwork w |})
      else (Throw ESocketEmit, w)
    else (Throw ESocketNotInitialized, w).

(** [console.error(message)]. *)
Definition consoleError (message : string) : M unit :=
  fun w =>
    (Val tt,
     {| users := users w; transactions := transactions w;
        ioInstance := ioInstance w; emitted := emitted w;
        console := console w ++ [message]; calls := calls w;
        agentNetwork := agentNetwork w |}).

(** [agent.switchNetwork(chainId)] when the context carries an agent. *)
Definition agentSwitchNetwork (E : Env) (c : Z) : M unit :=
  fun w =>
    match agent E with
    | None => (Val tt, w)
    | Some switch =>
        if switch c then
          (Val tt,
           {| users := users w; transactions := transactions w;
              ioInstance := ioInstance w; emitted := emitted w;
              console := console w; calls := calls w;
              agentNetwork := agentNetwork w ++ [c] |})
        else (Throw EAgent, w)
    end.

(** [ethers.parseUnits(amount, decimals)]. *)
Definition parseUnitsM (E : Env) (amount : string) (decimals : Z) : M Z :=
  match parseUnits E amount decimals with
  | Some n => ret n
  | None => throw (EInvalidAmount amount)
  end.

(** [ethers.formatUnits(value, decimals)]. *)
Definition formatUnitsM (E : Env) (value decimals : Z) : M string :=
  match formatUnits E value decimals with
  | Some text => ret text
  | None => throw (EFormat value decimals)
  end.

(** [iface.encodeFunctionData(...)]. *)
Definition encodeFunctionData (E : Env) (c : CallData) : M CallData :=
  if encodable E c then ret c else throw (EEncode c).

(** [ethers.toQuantity(n)] rejects negative values. *)
Definition toQuantity (n : Z) : M Z :=
  if n <? 0 then throw EInvalidNumber else ret n.

(** [context?.chainId || 1]. *)
Definition contextChainId (ctx : ToolContext) : Z :=
  match ctx_chainId ctx with
  | Some c => if c =? 0 then 1 else c
  | None => 1
  end.

(** [chatId || ''] *)
Definition orEmpty (o : option string) : string :=
  match o with
  | Some s => s
  | None => EmptyString
  end.

Definition dquote : string := String "034"%char EmptyString.

Definition userRoom (userAddress : string) : string :=
  "user:" ++ JsString.toLowerCase userAddress.


(** The closing steps shared by the three handlers (transfer.ts lines
    298-352, approve.ts lines 183-243, swap.ts lines 769-848): the user
    row is read, the pending row is stored, and the same payload is
    published to the user's room; a failed publish is written to the
    console and nothing else happens. *)
Definition storeAndPublish (E : Env) (ctx : ToolContext) (userAddress : string)
           (user : User)
           (type : TxType) (chainId : Z) (to : option string) (value : Z)
           (data : CallData) (buttonText : string) (details : Details)
           (approvalData : option ApprovalData) (logMessage : string)
  : M Transaction :=
  savedTx <- createTransaction E
               {| td_chatId := orEmpty (ctx_chatId ctx);
                  td_userId := user_id user;
                  td_type := type;
                  td_chainId := chainId;
                  td_to := to;
                  td_value := value;
                  td_data := data;
                  td_buttonText := buttonText;
                  td_details := details |} ;;
  tryCatch
    (emitTo E (userRoom userAddress)
       (PendingTransaction (tx_id savedTx) (ctx_chatId ctx) type to value
          data chainId details buttonText
          (Networks.getExplorerUrl chainId) approvalData))
    (fun _ => consoleError logMessage) ;;;
  ret savedTx.

(** The user row of the request; the handler returns its failure result
    when there is none. *)
Definition requireUser (userAddress : string) : M User :=
  user <- findUser userAddress ;;
  match user with
  | None => exit (Failure EUserNotFound)
  | Some user => ret user
  end.

Definition persistAndPublish (E : Env) (ctx : ToolContext) (userAddress : string)
           (type : TxType) (chainId : Z) (to : option string) (value : Z)
           (data : CallData) (buttonText : string) (details : Details)
           (approvalData : option ApprovalData) (logMessage : string)
  : M Transaction :=
  user <- requireUser userAddress ;;
  storeAndPublish E ctx userAddress user type chainId to value data
    buttonText details approvalData logMessage.

(* ------------------------------------------------------------------ *)
(** ** tools/transfer.ts                                               *)
(* ------------------------------------------------------------------ *)

Module Transfer.

Record Recipient := {
  address : string;
  resolvedFrom : option string
}.

(** Chains on which ENS names are resolved. *)
Definition ENS_CHAINS : list Z := [1; 11155111].

(** [user.contacts] as loaded with [where: { deletedAt: null }]. *)
Definition activeContacts (u : User) : list Contact :=
  filter (fun c => match deletedAt c with None => true | Some _ => false end)
         (contacts u).

Definition findContact (E : Env) (recipient : string) (user : option User)
  : option Contact :=
  match user with
  | Some u =>
      find (fun c => String.eqb (lowerCase E (contact_name c))
                                (lowerCase E recipient))
           (activeContacts u)
  | None => None
  end.

(** The [try] block around [provider.resolveName]: a rejection, [null] and
    the empty string all fall through. *)
Definition resolveEns (E : Env) (recipient : string) (chainId : Z) : M (option string) :=
  if (JsString.endsWith recipient ".eth" && Dex.includes chainId ENS_CHAINS)%bool
  then
    tryCatch
      (r <- call E (CallResolveName chainId recipient) ;;
       match r with
       | RStr ensAddress => ret (JsString.truthy (Some ensAddress))
       | RNull => ret None
       | RInt _ => throw (ERpc (CallResolveName chainId recipient))
       end)
      (fun _ => ret None)
  else ret None.

Definition resolveRecipient (E : Env) (recipient userAddress : string)
           (chainId : Z) : M Recipient :=
  if isAddress E recipient then
    ret {| address := recipient; resolvedFrom := None |}
  else
    user <- findUser userAddress ;;
    match findContact E recipient user with
    | Some contact =>
        ret {| address := contact_address contact;
               resolvedFrom :=
                 Some ("contact " ++ dquote ++ contact_name contact ++ dquote) |}
    | None =>
        ens <- resolveEns E recipient chainId ;;
        match ens with
        | Some ensAddress =>
            ret {| address := ensAddress;
                   resolvedFrom :=
                     Some ("ENS " ++ dquote ++ recipient ++ dquote) |}
        | None => throw (ERecipientUnresolved recipient)
        end
    end.

Definition TOKEN_ALIASES : list (string * string) :=
  [ ("dollar", "USDC");
    ("dolar", "USDC");
    ("usd", "USDC");
    ("$", "USDC");
    ("tether", "USDT");
    ("ether", "ETH");
    ("bitcoin", "WBTC");
    ("btc", "WBTC") ].

Record TokenRef := {
  token_address : option string;
  token_symbol : string;
  token_decimals : Z
}.

(** [resolveToken], with the alias table and the token registry it reads
    as arguments. *)
Definition resolveTokenWith (aliases : list (string * string))
           (tokens : list (string * Tokens.TokenConfig))
           (E : Env) (tokenInput : option string) (chainId : Z)
  : Err + TokenRef :=
  match JsString.truthy tokenInput with
  | None =>
      inr {| token_address := None;
             token_symbol := Networks.getNativeSymbol chainId;
             token_decimals := 18 |}
  | Some tokenInput =>
      if isAddress E tokenInput then
        inr {| token_address := Some tokenInput;
               token_symbol := "TOKEN";
               token_decimals := 18 |}
      else
        let normalizedInput := JsString.trim (JsString.toLowerCase tokenInput) in
        let resolvedSymbol :=
          match lookup normalizedInput aliases with
          | Some s => s
          | None => tokenInput
          end in
        if Tokens.isNativeToken resolvedSymbol chainId then
          inr {| token_address := None;
                 token_symbol := Networks.getNativeSymbol chainId;
                 token_decimals := 18 |}
        else
          match Tokens.getTokenFrom tokens resolvedSymbol chainId with
          | Some token =>
              inr {| token_address := Some (Tokens.address token);
                     token_symbol := JsString.toUpperCase resolvedSymbol;
                     token_decimals := Tokens.info_decimals token |}
          | None => inl (ETokenNotFound tokenInput)
          end
  end.

Definition resolveToken : Env -> option string -> Z -> Err + TokenRef :=
  resolveTokenWith TOKEN_ALIASES Tokens.TOKENS.

Definition NETWORK_NAMES : list (string * Z) :=
  [ ("ethereum", 1); ("eth", 1); ("mainnet", 1);
    ("polygon", 137); ("matic", 137);
    ("arbitrum", 42161); ("arb", 42161);
    ("optimism", 10); ("op", 10);
    ("base", 8453);
    ("avalanche", 43114); ("avax", 43114);
    ("bsc", 56); ("bnb", 56);
    ("sepolia", 11155111) ].

Record Params := {
  to : string;
  amount : string;
  token : option string;
  network : option string
}.

Record PreparedTx := {
  p_to : string;
  p_value : Z;
  p_data : CallData;
  p_chainId : Z
}.

(** Handler lines 169-205: the optional network switch; yields the chain
    the transfer is prepared on. *)
Definition switchNetwork (E : Env) (network : option string)
           (userAddress : string) (chainId : Z) : M Z :=
  match JsString.truthy network with
  | None => ret chainId
  | Some network =>
      let networkLower := JsString.toLowerCase network in
      let targetChainId :=
        match lookup networkLower NETWORK_NAMES with
        | Some c => Some c
        | None => parseInt E network
        end in
      match targetChainId with
      | None => ret chainId
      | Some targetChainId =>
          if targetChainId =? chainId then ret chainId
          else
            match Networks.getNetwork targetChainId with
            | None => exit (Failure (EUnknownNetwork network))
            | Some networkInfo =>
                agentSwitchNetwork E targetChainId ;;;
                tryCatch
                  (emitTo E (userRoom userAddress) (NetworkSwitch networkInfo))
                  (fun _ => ret tt) ;;;
                ret targetChainId
            end
      end
  end.

(** Handler lines 232-242: decimals and symbol read from the contract,
    the registry values kept when the read fails. *)
Definition fetchTokenMetadata (E : Env) (chainId : Z) (tokenAddress : string)
           (defaults : Z * string) : M (Z * string) :=
  tryCatch
    (rs <- promiseAll2 E (CallDecimals chainId tokenAddress)
                         (CallSymbol chainId tokenAddress) ;;
     match rs with
     | (RInt decimals, RStr symbol) => ret (decimals, symbol)
     | _ => throw (ERpc (CallDecimals chainId tokenAddress))
     end)
    (fun _ => ret defaults).

(** Handler lines 246-258 and 276-288: the balance check.  A balance
    below the amount returns the failure result; a failed query is
    ignored. *)
Definition checkBalance (E : Env) (query : Call) (amountWei : Z)
           (tokenSymbol : string) : M unit :=
  tryCatch
    (balance <- callInt E query ;;
     if balance <? amountWei
     then exit (Failure (EInsufficientBalance tokenSymbol balance))
     else ret tt)
    (fun _ => ret tt).

(** Handler lines 228-296: the transaction and the symbol to display. *)
Definition prepare (E : Env) (tokenInfo : TokenRef) (recipientAddress : string)
           (userAddress amount : string) (chainId : Z) : M (PreparedTx * string) :=
  match JsString.truthy (token_address tokenInfo) with
  | Some tokenAddress =>
      meta <- fetchTokenMetadata E chainId tokenAddress
                (token_decimals tokenInfo, token_symbol tokenInfo) ;;
      let (tokenDecimals, tokenSymbol) := meta in
      amountWei <- parseUnitsM E amount tokenDecimals ;;
      checkBalance E (CallBalanceOf chainId tokenAddress userAddress)
                   amountWei tokenSymbol ;;;
      transferData <- encodeFunctionData E (Erc20Transfer recipientAddress amountWei) ;;
      ret ({| p_to := tokenAddress; p_value := 0; p_data := transferData;
              p_chainId := chainId |}, tokenSymbol)
  | None =>
      let tokenSymbol := token_symbol tokenInfo in
      amountWei <- parseUnitsM E amount 18 ;;
      checkBalance E (CallGetBalance chainId userAddress) amountWei tokenSymbol ;;;
      value <- toQuantity amountWei ;;
      ret ({| p_to := recipientAddress; p_value := value; p_data := Raw0x;
              p_chainId := chainId |}, tokenSymbol)
  end.

Definition body (E : Env) (params : Params) (ctx : ToolContext)
           (userAddress : string) : M ToolResult :=
  chainId <- switchNetwork E (network params) userAddress (contextChainId ctx) ;;
  recipient <- resolveRecipient E (to params) userAddress chainId ;;
  tokenInfo <- liftResult (resolveToken E (token params) chainId) ;;
  prepared <- prepare E tokenInfo (address recipient) userAddress
                      (amount params) chainId ;;
  let (transaction, tokenSymbol) := prepared in
  let buttonText := "Send " ++ amount params ++ " " ++ tokenSymbol in
  let details :=
    TransferDetails userAddress (address recipient) (amount params) tokenSymbol
                    (token_address tokenInfo) (resolvedFrom recipient) in
  persistAndPublish E ctx userAddress TTransfer chainId
    (Some (p_to transaction)) (p_value transaction) (p_data transaction)
    buttonText details None "Failed to emit transaction request:" ;;;
  ret (Success (TransferSummary userAddress (address recipient) (amount params)
                  tokenSymbol (token_address tokenInfo) chainId
                  (resolvedFrom recipient))).

(** [transferTool.handler]. *)
Definition handler (E : Env) (params : Params) (ctx : ToolContext)
  : World -> ToolResult * World :=
  match JsString.truthy (ctx_userAddress ctx) with
  | None => fun w => (Failure EUserAddressMissing, w)
  | Some userAddress => run (body E params ctx userAddress)
  end.

End Transfer.


(* ------------------------------------------------------------------ *)
(** ** tools/approve.ts                                                *)
(* ------------------------------------------------------------------ *)

Module Approve.

Definition PROTOCOL_ADDRESSES : list (string * list (Z * string)) :=
  [ ("uniswap",
      [(1, "0x68b3465833fb72A70ecDF485E0e4C7bD8665Fc45");
       (137, "0x68b3465833fb72A70ecDF485E0e4C7bD8665Fc45");
       (42161, "0x68b3465833fb72A70ecDF485E0e4C7bD8665Fc45");
       (10, "0x68b3465833fb72A70ecDF485E0e4C7bD8665Fc45");
       (8453, "0x3fC91A3afd70395Cd496C647d5a6CC9D4B2b7FAD")]);
    ("aave",
      [(1, "0x87870Bca3F3fD6335C3F4ce8392D69350B4fA4E2");
       (137, "0x794a61358D6845594F94dc1DB02A252b5b4814aD");
       (42161, "0x794a61358D6845594F94dc1DB02A252b5b4814aD");
       (10, "0x794a61358D6845594F94dc1DB02A252b5b4814aD");
       (43114, "0x794a61358D6845594F94dc1DB02A252b5b4814aD")]);
    ("sushiswap",
      [(1, "0xd9e1cE17f2641f24aE83637ab66a2cca9C378B9F");
       (137, "0x1b02dA8Cb0d097eB8D57A175b88c7D8b47997506");
       (42161, "0x1b02dA8Cb0d097eB8D57A175b88c7D8b47997506")]) ].

Record Spender := {
  address : string;
  protocol : option string
}.

Definition resolveSpender (E : Env) (spender : string) (chainId : Z)
  : Err + Spender :=
  if isAddress E spender then
    inr {| address := spender; protocol := None |}
  else
    let lowerSpender := JsString.toLowerCase spender in
    match lookup lowerSpender PROTOCOL_ADDRESSES with
    | Some table =>
        match JsString.truthy (lookupZ chainId table) with
        | Some a => inr {| address := a; protocol := Some spender |}
        | None => inl (ESpenderUnresolved spender)
        end
    | None => inl (ESpenderUnresolved spender)
    end.

Definition TOKEN_ALIASES : list (string * string) :=
  [ ("dollar", "USDC");
    ("dolar", "USDC");
    ("usd", "USDC");
    ("$", "USDC");
    ("tether", "USDT");
    ("bitcoin", "WBTC");
    ("btc", "WBTC") ].

Record TokenRef := {
  token_address : string;
  token_symbol : string;
  token_decimals : Z
}.

(** [resolveToken], with the alias table and the token registry it reads
    as arguments. *)
Definition resolveTokenWith (aliases : list (string * string))
           (tokens : list (string * Tokens.TokenConfig))
           (E : Env) (tokenInput : string) (chainId : Z)
  : Err + TokenRef :=
  if isAddress E tokenInput then
    inr {| token_address := tokenInput;
           token_symbol := "TOKEN";
           token_decimals := 18 |}
  else
    let normalizedInput := JsString.trim (JsString.toLowerCase tokenInput) in
    let resolvedSymbol :=
      match lookup normalizedInput aliases with
      | Some s => s
      | None => tokenInput
      end in
    match Tokens.getTokenFrom tokens resolvedSymbol chainId with
    | Some token =>
        inr {| token_address := Tokens.address token;
               token_symbol := JsString.toUpperCase resolvedSymbol;
               token_decimals := Tokens.info_decimals token |}
    | None => inl (ETokenNotFound tokenInput)
    end.

Definition resolveToken : Env -> string -> Z -> Err + TokenRef :=
  resolveTokenWith TOKEN_ALIASES Tokens.TOKENS.

Record Params := {
  token : string;
  spender : string;
  amount : string
}.

(** [ethers.MaxUint256]. *)
Definition MaxUint256 : Z := 2 ^ 256 - 1.

(** Handler lines 155-168: the approved amount and the amount shown. *)
Definition approvalAmount (E : Env) (amount : string) (tokenDecimals : Z)
  : M (Z * string) :=
  if (String.eqb (lowerCase E amount) "unlimited"
      || String.eqb (lowerCase E amount) "max")%bool
  then ret (MaxUint256, "unlimited")
  else if (String.eqb amount "0"
           || String.eqb (lowerCase E amount) "revoke")%bool
  then ret (0, "0 (revoke)")
  else
    amountWei <- parseUnitsM E amount tokenDecimals ;;
    ret (amountWei, amount).

(** Handler lines 196-199. *)
Definition approveButtonText (displayAmount tokenSymbol : string) : string :=
  if String.eqb displayAmount "0 (revoke)"
  then "Revoke " ++ tokenSymbol ++ " approval"
  else "Approve " ++ displayAmount ++ " " ++ tokenSymbol.

Definition body (E : Env) (params : Params) (ctx : ToolContext)
           (userAddress : string) : M ToolResult :=
  let chainId := contextChainId ctx in
  tokenInfo <- liftResult (resolveToken E (token params) chainId) ;;
  spenderInfo <- liftResult (resolveSpender E (spender params) chainId) ;;
  let spenderAddress := address spenderInfo in
  meta <- Transfer.fetchTokenMetadata E chainId (token_address tokenInfo)
            (token_decimals tokenInfo, token_symbol tokenInfo) ;;
  let (tokenDecimals, tokenSymbol) := meta in
  amounts <- approvalAmount E (amount params) tokenDecimals ;;
  let (amountWei, displayAmount) := amounts in
  approveData <- encodeFunctionData E (Erc20Approve spenderAddress amountWei) ;;
  let buttonText := approveButtonText displayAmount tokenSymbol in
  let details :=
    ApproveDetails userAddress (token_address tokenInfo) tokenSymbol
                   spenderAddress (protocol spenderInfo) displayAmount in
  persistAndPublish E ctx userAddress TApprove chainId
    (Some (token_address tokenInfo)) 0 approveData buttonText details None
    "Failed to emit approval request:" ;;;
  ret (Success (ApproveSummary userAddress (token_address tokenInfo) tokenSymbol
                  spenderAddress (protocol spenderInfo) displayAmount chainId)).

(** [approveTool.handler]. *)
Definition handler (E : Env) (params : Params) (ctx : ToolContext)
  : World -> ToolResult * World :=
  match JsString.truthy (ctx_userAddress ctx) with
  | None => fun w => (Failure EUserAddressMissing, w)
  | Some userAddress => run (body E params ctx userAddress)
  end.

End Approve.


(* ------------------------------------------------------------------ *)
(** ** tools/swap.ts                                                   *)
(* ------------------------------------------------------------------ *)

Module Swap.

Definition TOKEN_ALIASES : list (string * string) :=
  [ ("dollar", "USDC");
    ("dolar", "USDC");
    ("usd", "USDC");
    ("tether", "USDT");
    ("bitcoin", "WBTC");
    ("btc", "WBTC");
    ("ether", "ETH");
    ("eth", "ETH");
    ("ethereum", "ETH") ].

Record TokenRef := {
  address : string;
  symbol : string;
  decimals : Z;
  isNative : bool
}.

(** [resolveToken] (lines 374-411), with the alias table and the token
    registry it reads as arguments; [None] is the source's [null]. *)
Definition resolveTokenWith (aliases : list (string * string))
           (tokens : list (string * Tokens.TokenConfig))
           (E : Env) (tokenInput : string) (chainId : Z)
  : option TokenRef :=
  if isAddress E tokenInput then
    Some {| address := tokenInput; symbol := "TOKEN"; decimals := 18;
            isNative := false |}
  else
    let normalizedInput := JsString.trim (JsString.toLowerCase tokenInput) in
    let resolvedSymbol :=
      match lookup normalizedInput aliases with
      | Some s => s
      | None => JsString.toUpperCase tokenInput
      end in
    if Tokens.isNativeToken resolvedSymbol chainId then
      match JsString.truthy (lookupZ chainId Dex.WRAPPED_NATIVE) with
      | None => None
      | Some wrappedAddress =>
          Some {| address := wrappedAddress; symbol := resolvedSymbol;
                  decimals := 18; isNative := true |}
      end
    else
      match Tokens.getTokenFrom tokens resolvedSymbol chainId with
      | Some token =>
          Some {| address := Tokens.address token; symbol := resolvedSymbol;
                  decimals := Tokens.info_decimals token; isNative := false |}
      | None => None
      end.

Definition resolveToken : Env -> string -> Z -> option TokenRef :=
  resolveTokenWith TOKEN_ALIASES Tokens.TOKENS.

(** [getUniswapV3Quote] (lines 414-435): a rejected call yields [null]. *)
Definition getUniswapV3Quote (E : Env) (chainId : Z)
           (quoterAddress tokenIn tokenOut : string) (amountIn fee : Z)
  : M (option Z) :=
  tryCatch
    (amountOut <- callInt E (CallQuoteExactInputSingle chainId quoterAddress
                               tokenIn tokenOut amountIn fee) ;;
     ret (Some amountOut))
    (fun _ => ret None).

(** [getV2Quote] (lines 438-452): [amounts[1]] of [getAmountsOut],
    [null] on rejection. *)
Definition getV2Quote (E : Env) (chainId : Z)
           (routerAddress tokenIn tokenOut : string) (amountIn : Z)
  : M (option Z) :=
  tryCatch
    (amountOut <- callInt E (CallGetAmountsOut chainId routerAddress amountIn
                               [tokenIn; tokenOut]) ;;
     ret (Some amountOut))
    (fun _ => ret None).

Record SwapQuote := {
  dex : Dex.DexConfig;
  amountOut : Z;
  amountOutFormatted : string
}.

(** [amountOut && amountOut > 0n]. *)
Definition positive (amountOut : option Z) : bool :=
  match amountOut with
  | Some n => 0 <? n
  | None => false
  end.

(** The fee tiers tried for a single-hop venue, in this order. *)
Definition QUOTE_FEE_TIERS : list Z :=
  [Dex.FEE_TIERS.MEDIUM; Dex.FEE_TIERS.LOW; Dex.FEE_TIERS.HIGH].

(** [getAllQuotes] lines 478-488: the loop over fee tiers, left at the
    first positive amount; [amountOut] is the variable assigned by every
    iteration. *)
Fixpoint tryFeeTiers (E : Env) (chainId : Z) (quoterAddress tokenIn tokenOut : string)
         (amountIn : Z) (fees : list Z) (amountOut : option Z) : M (option Z) :=
  match fees with
  | [] => ret amountOut
  | fee :: fees' =>
      amountOut' <- getUniswapV3Quote E chainId quoterAddress tokenIn tokenOut
                      amountIn fee ;;
      if positive amountOut' then ret amountOut'
      else tryFeeTiers E chainId quoterAddress tokenIn tokenOut amountIn
                       fees' amountOut'
  end.

Definition quoterFor (d : Dex.DexConfig) (chainId : Z) : option string :=
  match Dex.quoterAddress d with
  | Some table => JsString.truthy (lookupZ chainId table)
  | None => None
  end.

Definition routerFor (d : Dex.DexConfig) (chainId : Z) : option string :=
  lookupZ chainId (Dex.routerAddress d).

(** [getAllQuotes] lines 474-498: the amount quoted by one venue. *)
Definition quoteDex (E : Env) (chainId : Z) (tokenIn tokenOut : string)
           (amountIn : Z) (d : Dex.DexConfig) : M (option Z) :=
  match (if String.eqb (Dex.slug d) "uniswap" then quoterFor d chainId else None) with
  | Some quoterAddress =>
      tryFeeTiers E chainId quoterAddress tokenIn tokenOut amountIn
                  QUOTE_FEE_TIERS None
  | None =>
      match JsString.truthy (routerFor d chainId) with
      | Some routerAddress =>
          getV2Quote E chainId routerAddress tokenIn tokenOut amountIn
      | None => ret None
      end
  end.

(** [getAllQuotes] lines 500-506: a positive amount is pushed with its
    formatted text; [formatUnits] is not inside a [try]. *)
Definition pushQuote (E : Env) (tokenOutDecimals : Z) (d : Dex.DexConfig)
           (a : option Z) (quotes : list SwapQuote) : M (list SwapQuote) :=
  match a with
  | Some n =>
      if 0 <? n then
        text <- formatUnitsM E n tokenOutDecimals ;;
        ret (quotes ++ [{| dex := d; amountOut := n;
                           amountOutFormatted := text |}])%list
      else ret quotes
  | None => ret quotes
  end.

(** [getAllQuotes] lines 473-507: the loop over the venues of the chain;
    [quotes] grows by [push]. *)
Fixpoint collectQuotes (E : Env) (chainId : Z) (tokenIn tokenOut : string)
         (amountIn tokenOutDecimals : Z) (dexes : list Dex.DexConfig)
         (quotes : list SwapQuote) : M (list SwapQuote) :=
  match dexes with
  | [] => ret quotes
  | d :: dexes' =>
      a <- quoteDex E chainId tokenIn tokenOut amountIn d ;;
      quotes' <- pushQuote E tokenOutDecimals d a quotes ;;
      collectQuotes E chainId tokenIn tokenOut amountIn tokenOutDecimals
                    dexes' quotes'
  end.

(** The comparator of line 510: [(a, b) => (b.amountOut > a.amountOut ? 1 : -1)]. *)
Definition compareQuotes (a b : SwapQuote) : Z :=
  if amountOut b >? amountOut a then 1 else -1.

(** [getAllQuotes] (lines 462-513). *)
Definition getAllQuotes (E : Env) (chainId : Z) (tokenIn tokenOut : string)
           (amountIn tokenOutDecimals : Z) : M (list SwapQuote) :=
  quotes <- collectQuotes E chainId tokenIn tokenOut amountIn tokenOutDecimals
              (Dex.getDexesForChain chainId) [] ;;
  ret (JsArray.sort compareQuotes quotes).

Record SwapTx := {
  tx_to : option string;
  tx_data : CallData;
  tx_value : Z
}.

(** [ethers.ZeroAddress]. *)
Definition ZeroAddress : string := "0x0000000000000000000000000000000000000000".

(** [buildSwapTransaction] (lines 516-588). *)
Definition buildSwapTransaction (E : Env) (d : Dex.DexConfig) (chainId : Z)
           (tokenIn tokenOut : TokenRef) (amountIn amountOutMin : Z)
           (recipient : string) (deadline : Z) : M SwapTx :=
  let routerAddress := routerFor d chainId in
  if String.eqb (Dex.slug d) "uniswap" then
    swapData <- encodeFunctionData E
                  (ExactInputSingle (address tokenIn) (address tokenOut)
                     Dex.FEE_TIERS.MEDIUM
                     (if isNative tokenOut then ZeroAddress else recipient)
                     amountIn amountOutMin 0) ;;
    multicallData <- encodeFunctionData E (Multicall deadline [swapData]) ;;
    value <- (if isNative tokenIn then toQuantity amountIn else ret 0) ;;
    ret {| tx_to := routerAddress; tx_data := multicallData; tx_value := value |}
  else
    let path := [address tokenIn; address tokenOut] in
    if isNative tokenIn then
      data <- encodeFunctionData E
                (SwapExactETHForTokens amountOutMin path recipient deadline) ;;
      value <- toQuantity amountIn ;;
      ret {| tx_to := routerAddress; tx_data := data; tx_value := value |}
    else if isNative tokenOut then
      data <- encodeFunctionData E
                (SwapExactTokensForETH amountIn amountOutMin path recipient deadline) ;;
      ret {| tx_to := routerAddress; tx_data := data; tx_value := 0 |}
    else
      data <- encodeFunctionData E
                (SwapExactTokensForTokens amountIn amountOutMin path recipient deadline) ;;
      ret {| tx_to := routerAddress; tx_data := data; tx_value := 0 |}.

Record Params := {
  fromToken : string;
  toToken : string;
  amount : string;
  preferredDex : option string;
  slippage : option string
}.

(** Handler lines 682-684; [None] when the parsed number is not finite,
    in which case [BigInt] throws at line 742. *)
Definition slippageBpsOf (E : Env) (slippageInput : option string) : option Z :=
  match JsString.truthy slippageInput with
  | Some s => parseSlippageBps E s
  | None => Some Dex.DEFAULT_SLIPPAGE_BPS
  end.

(** Handler lines 688-706: the balance check; a rejected query is not
    caught here. *)
Definition checkBalance (E : Env) (chainId : Z) (userAddress : string)
           (fromToken : TokenRef) (amountIn : Z) : M unit :=
  balance <- callInt E (if isNative fromToken
                        then CallGetBalance chainId userAddress
                        else CallBalanceOf chainId (address fromToken) userAddress) ;;
  if balance <? amountIn
  then exit (Failure (EInsufficientBalance (symbol fromToken) balance))
  else ret tt.

(** Handler lines 708-729: the ranked quotes, restricted to the requested
    venue after aggregation. *)
Definition selectQuotes (E : Env) (chainId : Z) (fromToken toToken : TokenRef)
           (amountIn : Z) (preferredDex : option string) : M (list SwapQuote) :=
  match JsString.truthy preferredDex with
  | Some preferred =>
      match Dex.getDex preferred with
      | None => exit (Failure (EDexNotSupported preferred))
      | Some d =>
          if negb (Dex.includes chainId (Dex.supportedChains d))
          then exit (Failure (EDexNotAvailable (Dex.name d)))
          else
            quotes <- getAllQuotes E chainId (address fromToken)
                        (address toToken) amountIn (decimals toToken) ;;
            ret (filter (fun q => String.eqb (Dex.slug (dex q)) preferred) quotes)
      end
  | None =>
      getAllQuotes E chainId (address fromToken) (address toToken) amountIn
                   (decimals toToken)
  end.

(** Handler line 742: BigInt arithmetic, the division truncates. *)
Definition amountOutMinOf (amountOut slippageBps : Z) : Z :=
  Z.quot (amountOut * (10000 - slippageBps)) 10000.

(** Handler lines 747-755. *)
Definition checkAllowance (E : Env) (chainId : Z) (userAddress : string)
           (fromToken : TokenRef) (spender : option string) (amountIn : Z)
  : M bool :=
  if isNative fromToken then ret false
  else
    currentAllowance <- callInt E (CallAllowance chainId (address fromToken)
                                     userAddress spender) ;;
    ret (currentAllowance <? amountIn).

(** Handler lines 708-879: quoting, building, storing and publishing. *)
Definition finish (E : Env) (params : Params) (ctx : ToolContext)
           (userAddress : string) (chainId : Z) (fromToken toToken : TokenRef)
           (amountIn : Z) (slippageBps : option Z) : M ToolResult :=
  quotes <- selectQuotes E chainId fromToken toToken amountIn
              (preferredDex params) ;;
  match quotes with
  | [] => exit (Failure ENoLiquidity)
  | bestQuote :: _ =>
      match slippageBps with
      | None => throw EInvalidNumber
      | Some slippageBps =>
          let amountOutMin := amountOutMinOf (amountOut bestQuote) slippageBps in
          let deadline := now E + Dex.SWAP_DEADLINE_SECONDS in
          let router := routerFor (dex bestQuote) chainId in
          needsApproval <- checkAllowance E chainId userAddress fromToken
                             router amountIn ;;
          swapTx <- buildSwapTransaction E (dex bestQuote) chainId
                      fromToken toToken amountIn amountOutMin
                      userAddress deadline ;;
          user <- requireUser userAddress ;;
          let quoted := amountOutFormatted bestQuote in
          let amountOutFormatted := toFixed6 E quoted in
          amountOutMinFormatted <- formatUnitsM E amountOutMin (decimals toToken) ;;
          let details :=
            SwapDetails userAddress (address fromToken) (symbol fromToken)
              (amount params) (address toToken) (symbol toToken)
              amountOutFormatted
              (toFixed6 E amountOutMinFormatted)
              (Dex.name (dex bestQuote))
              (rateOf E quoted (amount params))
              slippageBps needsApproval in
          let buttonText :=
            "Swap " ++ amount params ++ " " ++ symbol fromToken ++ " for ~"
            ++ amountOutFormatted ++ " " ++ symbol toToken in
          storeAndPublish E ctx userAddress user TSwap chainId
            (tx_to swapTx) (tx_value swapTx) (tx_data swapTx)
            buttonText details
            (if needsApproval
             then Some {| ap_token := address fromToken;
                          ap_tokenSymbol := symbol fromToken;
                          ap_spender := router;
                          ap_spenderName := Dex.name (dex bestQuote);
                          ap_amount := amountIn |}
             else None)
            "Failed to emit swap request:" ;;;
          ret (Success (SwapSummary userAddress (symbol fromToken)
                          (amount params) (symbol toToken)
                          amountOutFormatted (Dex.name (dex bestQuote))
                          chainId needsApproval))
      end
  end.

(** Handler lines 652-879: resolution, the self-swap guard, parsing and
    the balance check, then [finish]. *)
Definition body (E : Env) (params : Params) (ctx : ToolContext)
           (userAddress : string) : M ToolResult :=
  let chainId := contextChainId ctx in
  match resolveToken E (fromToken params) chainId,
        resolveToken E (toToken params) chainId with
  | None, _ => exit (Failure (ETokenNotFound (fromToken params)))
  | Some _, None => exit (Failure (ETokenNotFound (toToken params)))
  | Some fromToken, Some toToken =>
      if String.eqb (JsString.toLowerCase (address fromToken))
                    (JsString.toLowerCase (address toToken))
      then exit (Failure ESameToken)
      else
        amountIn <- parseUnitsM E (amount params) (decimals fromToken) ;;
        let slippageBps := slippageBpsOf E (slippage params) in
        checkBalance E chainId userAddress fromToken amountIn ;;;
        finish E params ctx userAddress chainId fromToken toToken amountIn
               slippageBps
  end.

(** [swapTool.handler]; its outer [catch] also writes to the console. *)
Definition handler (E : Env) (params : Params) (ctx : ToolContext)
  : World -> ToolResult * World :=
  match JsString.truthy (ctx_userAddress ctx) with
  | None => fun w => (Failure EWalletNotConnected, w)
  | Some userAddress =>
      run (tryCatch (body E params ctx userAddress)
             (fun e => consoleError "Swap error:" ;;; throw e))
  end.

End Swap.


(* ------------------------------------------------------------------ *)
(** ** Vocabulary of the specification                                 *)
(* ------------------------------------------------------------------ *)

(** [pendingTransaction] events published so far. *)
Definition isPendingEvent (e : Emit) : bool :=
  match payload e with
  | PendingTransaction _ _ _ _ _ _ _ _ _ _ _ => true
  | NetworkSwitch _ => false
  end.

Definition pendingPublished (w : World) : list Emit :=
  filter isPendingEvent (emitted w).

(** The decoded integer a provider call answers with, if any. *)
Definition replyInt (E : Env) (c : Call) : option Z :=
  match provider E c with
  | Some (RInt n) => Some n
  | _ => None
  end.

(** A step that leaves the store, the published transactions, the
    console, the socket and the users as they were. *)
Record Frame (w w' : World) : Prop := {
  frame_transactions : transactions w' = transactions w;
  frame_pending : pendingPublished w' = pendingPublished w;
  frame_console : console w' = console w;
  frame_io : ioInstance w' = ioInstance w;
  frame_users : users w' = users w
}.

Definition keeps {A : Type} (m : M A) : Prop :=
  forall w, Frame w (snd (m w)).

(** The outcome of a balance rejection. *)
Definition rejected {A : Type} (o : Outcome A) : Prop :=
  match o with
  | Return (Failure (EInsufficientBalance _ _)) => True
  | Throw (EInsufficientBalance _ _) => True
  | _ => False
  end.

Definition neverRejects {A : Type} (m : M A) : Prop :=
  forall w, ~ rejected (fst (m w)).

(** A failure result that reports an insufficient balance. *)
Definition isBalanceRejection (r : ToolResult) : Prop :=
  match r with
  | Failure (EInsufficientBalance _ _) => True
  | _ => False
  end.

Definition neverEndsRejected (m : M ToolResult) : Prop :=
  forall w, ~ isBalanceRejection (outcomeResult (fst (m w))).

(** A step that keeps the frame and never ends in a balance rejection. *)
Definition calm {A : Type} (m : M A) : Prop :=
  forall w, Frame w (snd (m w)) /\ ~ rejected (fst (m w)).

(** [row] was stored as pending between [w] and [w'], and its publication
    either reached the channel or failed and was logged. *)
Definition Stored (E : Env) (w w' : World) (row : Transaction) : Prop :=
  transactions w' = (transactions w ++ [row])%list /\
  tx_status row = Pending /\
  ((ioInstance w = true /\
    exists ev, channelAccepts E ev = true /\
               pendingPublished w' = (pendingPublished w ++ [ev])%list /\
               console w' = console w)
   \/
   ((ioInstance w = false \/ exists ev, channelAccepts E ev = false) /\
    pendingPublished w' = pendingPublished w /\
    exists message, console w' = (console w ++ [message])%list)).

Definition settles (E : Env) (m : M ToolResult) : Prop :=
  forall w,
    Frame w (snd (m w)) \/
    exists row s, fst (m w) = Val (Success s) /\ Stored E w (snd (m w)) row.

(** A handler either stores nothing and publishes nothing, or stores one
    pending row and reports success. *)
Definition StoresOrSucceeds (E : Env) (h : World -> ToolResult * World) : Prop :=
  forall w,
    (transactions (snd (h w)) = transactions w /\
     pendingPublished (snd (h w)) = pendingPublished w)
    \/ exists row s, fst (h w) = Success s /\ Stored E w (snd (h w)) row.

Module Spec.

(** A single-hop venue's tier as the specification describes it: the
    lowest-index tier whose quote call returns a positive amount, with
    that amount. *)
Fixpoint discoveredTier (answer : Z -> option Z) (fees : list Z) : option (Z * Z) :=
  match fees with
  | [] => None
  | fee :: fees' =>
      match answer fee with
      | Some n => if 0 <? n then Some (fee, n) else discoveredTier answer fees'
      | None => discoveredTier answer fees'
      end
  end.

(** The amount a venue offers, if positive. *)
Definition venueQuote (E : Env) (chainId : Z) (tokenIn tokenOut : string)
           (amountIn : Z) (d : Dex.DexConfig) : option Z :=
  match (if String.eqb (Dex.slug d) "uniswap" then Swap.quoterFor d chainId else None) with
  | Some quoter =>
      option_map snd
        (discoveredTier
           (fun fee => replyInt E (CallQuoteExactInputSingle chainId quoter
                                     tokenIn tokenOut amountIn fee))
           Swap.QUOTE_FEE_TIERS)
  | None =>
      match JsString.truthy (Swap.routerFor d chainId) with
      | Some router =>
          match replyInt E (CallGetAmountsOut chainId router amountIn
                              [tokenIn; tokenOut]) with
          | Some n => if 0 <? n then Some n else None
          | None => None
          end
      | None => None
      end
  end.

(** The text of an amount, empty where [formatUnits] throws. *)
Definition formatted (E : Env) (n decimals : Z) : string :=
  match formatUnits E n decimals with
  | Some text => text
  | None => EmptyString
  end.

(** The viable quotes of a chain, in venue registration order. *)
Fixpoint viableQuotes (E : Env) (chainId : Z) (tokenIn tokenOut : string)
         (amountIn decimals : Z) (dexes : list Dex.DexConfig)
  : list Swap.SwapQuote :=
  match dexes with
  | [] => []
  | d :: dexes' =>
      match venueQuote E chainId tokenIn tokenOut amountIn d with
      | Some n => {| Swap.dex := d; Swap.amountOut := n;
                     Swap.amountOutFormatted := formatted E n decimals |}
                    :: viableQuotes E chainId tokenIn tokenOut amountIn decimals
                                    dexes'
      | None => viableQuotes E chainId tokenIn tokenOut amountIn decimals dexes'
      end
  end.

(** [formatUnits] accepts the amount of every quote. *)
Definition formattable (E : Env) (decimals : Z) (quotes : list Swap.SwapQuote)
  : bool :=
  forallb (fun q => match formatUnits E (Swap.amountOut q) decimals with
                    | Some _ => true
                    | None => false
                    end)
          quotes.

(** The quotes among which the handler takes the first: all ranked
    quotes, or those of the requested venue. *)
Definition selection (preferredDex : option string)
           (ranked : list Swap.SwapQuote) : list Swap.SwapQuote :=
  match JsString.truthy preferredDex with
  | Some preferred =>
      filter (fun q => String.eqb (Dex.slug (Swap.dex q)) preferred) ranked
  | None => ranked
  end.

(** Descending ranking with ties in registration order: each quote goes
    behind every ranked quote that is at least as good. *)
Fixpoint insertStable (q : Swap.SwapQuote) (ranked : list Swap.SwapQuote)
  : list Swap.SwapQuote :=
  match ranked with
  | [] => [q]
  | r :: ranked' =>
      if Swap.amountOut r <? Swap.amountOut q then q :: ranked
      else r :: insertStable q ranked'
  end.

Definition rankStable (quotes : list Swap.SwapQuote) : list Swap.SwapQuote :=
  fold_left (fun ranked q => insertStable q ranked) quotes [].

(** The fee of an [exactInputSingle] call wrapped in [multicall]. *)
Definition encodedFee (c : CallData) : option Z :=
  match c with
  | Multicall _ [ExactInputSingle _ _ fee _ _ _ _] => Some fee
  | _ => None
  end.

(** A saved contact of [requestingUser] whose name is [input] up to
    case. *)
Definition savedContact (E : Env) (w : World) (requestingUser input : string)
           (c : Contact) : Prop :=
  exists u,
    find (fun u => String.eqb (user_address u) requestingUser) (users w) = Some u /\
    In c (contacts u) /\
    deletedAt c = None /\
    lowerCase E (contact_name c) = lowerCase E input.

End Spec.

(** Ranking by repeated insertion in front of the first element whose
    key is not greater. *)
Section RankLatestFirst.

Variable A : Type.
Variable key : A -> Z.

Fixpoint insertBefore (x : A) (ranked : list A) : list A :=
  match ranked with
  | [] => [x]
  | y :: ranked' =>
      if key y <=? key x then x :: ranked else y :: insertBefore x ranked'
  end.

Definition rankLatestFirst (l : list A) : list A :=
  fold_left (fun ranked x => insertBefore x ranked) l [].

(** [a] occurs in [l] at a position before an occurrence of [b]. *)
Fixpoint occursBefore (l : list A) (a b : A) : Prop :=
  match l with
  | [] => False
  | y :: l' => (y = a /\ In b l') \/ occursBefore l' a b
  end.

(** Orders on keys used to state that a list is ranked. *)
Definition descending (a b : A) : Prop := key b <= key a.
Definition ascending (a b : A) : Prop := key a <= key b.
Definition strictlyDescending (a b : A) : Prop := key b < key a.

End RankLatestFirst.

(* ------------------------------------------------------------------ *)
(** ** Sample requests                                                 *)
(* ------------------------------------------------------------------ *)

Module Sample.

Definition looksLikeAddress (s : string) : bool :=
  (String.prefix "0x" s && Nat.eqb (String.length s) 42)%bool.

(** Whole-number amounts. *)
Definition parseWhole (s : string) (decimals : Z) : option Z :=
  match lookup s [("1", 1); ("2", 2); ("100", 100)] with
  | Some n => Some (n * 10 ^ decimals)
  | None => None
  end.

Definition alice : string := "0x1111111111111111111111111111111111111111".
Definition bob : string := "0x2222222222222222222222222222222222222222".

Definition env (p : Call -> option Reply) : Env :=
  {| isAddress := looksLikeAddress;
     lowerCase := JsString.toLowerCase;
     parseUnits := parseWhole;
     parseInt := fun _ => None;
     parseSlippageBps := fun _ => None;
     formatUnits := fun _ decimals =>
                      if (0 <=? decimals) && (decimals <=? 80)
                      then Some "0.0" else None;
     toFixed6 := fun _ => "0.000000";
     rateOf := fun _ _ => "0.000000";
     encodable := fun _ => true;
     provider := p;
     storeAccepts := fun _ => true;
     channelAccepts := fun _ => true;
     agent := None;
     now := 1700000000 |}.

(** A store with one user and one contact; the socket is initialised or
    not. *)
Definition world (io : bool) : World :=
  {| users :=
       [ {| user_id := "user-1"; user_address := alice;
            contacts := [ {| contact_name := "Bob"; contact_address := bob;
                             deletedAt := None |} ] |} ];
     transactions := [];
     ioInstance := io;
     emitted := [];
     console := [];
     calls := [];
     agentNetwork := [] |}.

Definition ctx : ToolContext :=
  {| ctx_userAddress := Some alice; ctx_chainId := Some 1;
     ctx_chatId := Some "chat-1" |}.

Definition silent : Call -> option Reply := fun _ => None.

(** Every balance is [balance]; nothing else answers. *)
Definition balances (balance : Z) : Call -> option Reply :=
  fun c =>
    match c with
    | CallGetBalance _ _ => Some (RInt balance)
    | CallBalanceOf _ _ _ => Some (RInt balance)
    | _ => None
    end.

(** Uniswap's medium tier and SushiSwap both quote 5. *)
Definition tiedQuotes : Call -> option Reply :=
  fun c =>
    match c with
    | CallQuoteExactInputSingle _ _ _ _ _ fee =>
        if fee =? 3000 then Some (RInt 5) else None
    | CallGetAmountsOut _ router _ _ =>
        if String.eqb router "0xd9e1cE17f2641f24aE83637ab66a2cca9C378B9F"
        then Some (RInt 5) else None
    | _ => None
    end.

(** Only Uniswap's low tier has liquidity; balances are ample. *)
Definition lowTierOnly : Call -> option Reply :=
  fun c =>
    match c with
    | CallQuoteExactInputSingle _ _ _ _ _ fee =>
        if fee =? 500 then Some (RInt 7) else None
    | CallBalanceOf _ _ _ => Some (RInt (10 ^ 30))
    | CallGetBalance _ _ => Some (RInt (10 ^ 30))
    | CallAllowance _ _ _ _ => Some (RInt 0)
    | _ => None
    end.

(** The name service knows one name. *)
Definition nameService : Call -> option Reply :=
  fun c =>
    match c with
    | CallResolveName _ n =>
        if String.eqb n "carol.eth" then Some (RStr bob) else Some RNull
    | _ => None
    end.

Definition usdc : string := "0xA0b86991c6218b36c1d19D4a2e9Eb0cE3606eB48".
Definition weth : string := "0xC02aaA39b223FE8D0A0e5C4F27eAD9083C756Cc2".

Definition swapUsdcForEth : Swap.Params :=
  {| Swap.fromToken := "USDC"; Swap.toToken := "ETH"; Swap.amount := "100";
     Swap.preferredDex := None; Swap.slippage := None |}.

Definition swapEthForWeth : Swap.Params :=
  {| Swap.fromToken := "ETH"; Swap.toToken := "WETH"; Swap.amount := "1";
     Swap.preferredDex := None; Swap.slippage := None |}.

Definition sendTwoEthToBob : Transfer.Params :=
  {| Transfer.to := "bob"; Transfer.amount := "2"; Transfer.token := None;
     Transfer.network := None |}.

Definition approveUnlimited : Approve.Params :=
  {| Approve.token := "USDC"; Approve.spender := "uniswap";
     Approve.amount := "Unlimited" |}.

(** A token contract that reports six decimals and the symbol [SIX]. *)
Definition sixDecimals : Call -> option Reply :=
  fun c =>
    match c with
    | CallDecimals _ _ => Some (RInt 6)
    | CallSymbol _ _ => Some (RStr "SIX")
    | _ => None
    end.

(** Two units of the token at the address [usdc], given by address. *)
Definition approveTwoByAddress : Approve.Params :=
  {| Approve.token := usdc; Approve.spender := "uniswap";
     Approve.amount := "2" |}.

End Sample.


(* ================================================================== *)
(** * The remaining registries and tools                               *)
(* ================================================================== *)

(* ------------------------------------------------------------------ *)
(** ** JavaScript numbers, arrays and object keys                      *)
(* ------------------------------------------------------------------ *)

Module JsNumber.

(** [String(n)] for an integer [n]: its decimal digits, with a minus
    sign below zero. *)
Definition toString (n : Z) : string := NilZero.string_of_int (Z.to_int n).

End JsNumber.

Module JsObject.

(** [parts.join(sep)]. *)
Fixpoint join (sep : string) (parts : list string) : string :=
  match parts with
  | [] => EmptyString
  | p :: rest =>
      match rest with
      | [] => p
      | _ :: _ => p ++ sep ++ join sep rest
      end
  end.

Fixpoint insertKey (k : Z) (keys : list Z) : list Z :=
  match keys with
  | [] => [k]
  | k' :: rest => if k <? k' then k :: keys else k' :: insertKey k rest
  end.

(** [Object.keys(table).map(Number)] for an object literal with integer
    keys: the keys come in ascending order, whatever the order of the
    literal. *)
Definition integerKeys {A : Type} (table : list (Z * A)) : list Z :=
  fold_left (fun keys entry => insertKey (fst entry) keys) table [].

End JsObject.

(* ------------------------------------------------------------------ *)
(** ** config/networks.ts and config/tokens.ts, the remaining exports  *)
(* ------------------------------------------------------------------ *)

Module Registry.

(** [SUPPORTED_CHAINS] (config/networks.ts). *)
Definition SUPPORTED_CHAINS : list Z := JsObject.integerKeys Networks.NETWORKS.

Record ChainToken := {
  symbol : string;
  address : string;
  decimals : Z;
  name : string
}.

(** [getTokensForChain] (config/tokens.ts) over a registry [tokens]:
    the loop over [Object.entries], [found] grows by [push]. *)
Definition getTokensForChainFrom (tokens : list (string * Tokens.TokenConfig))
           (c : Z) : list ChainToken :=
  fold_left
    (fun found entry =>
       match JsString.truthy (lookupZ c (Tokens.addresses (snd entry))) with
       | Some a =>
           (found ++ [ {| symbol := fst entry;
                          address := a;
                          decimals := Tokens.decimals (snd entry);
                          name := Tokens.name (snd entry) |} ])%list
       | None => found
       end)
    tokens [].

Definition getTokensForChain : Z -> list ChainToken :=
  getTokensForChainFrom Tokens.TOKENS.

(** [getSupportedTokenSymbols]. *)
Definition getSupportedTokenSymbols : list string := map fst Tokens.TOKENS.

(** [getRouterAddress] (config/dex.ts lines 133-136). *)
Definition getRouterAddress (dexSlug : string) (c : Z) : option string :=
  match Dex.getDex dexSlug with
  | Some d => lookupZ c (Dex.routerAddress d)
  | None => None
  end.

End Registry.

(* ------------------------------------------------------------------ *)
(** ** Network information (second unit of config/dex.ts, lines 163-278) *)
(* ------------------------------------------------------------------ *)

Module NetworkInfo.

Record NetworkInfo := {
  chainId : Z;
  name : string;
  nativeToken : string;
  symbol : string;
  rpcUrl : option string
}.

Definition SUPPORTED_NETWORKS : list (Z * NetworkInfo) := [
  (1, {| chainId := 1; name := "Ethereum Mainnet"; nativeToken := "Ether";
         symbol := "ETH"; rpcUrl := None |});
  (56, {| chainId := 56; name := "BNB Smart Chain"; nativeToken := "BNB";
          symbol := "BNB"; rpcUrl := None |});
  (137, {| chainId := 137; name := "Polygon"; nativeToken := "MATIC";
           symbol := "MATIC"; rpcUrl := None |});
  (42161, {| chainId := 42161; name := "Arbitrum One"; nativeToken := "Ether";
             symbol := "ETH"; rpcUrl := None |});
  (10, {| chainId := 10; name := "Optimism"; nativeToken := "Ether";
          symbol := "ETH"; rpcUrl := None |});
  (8453, {| chainId := 8453; name := "Base"; nativeToken := "Ether";
            symbol := "ETH"; rpcUrl := None |});
  (43114, {| chainId := 43114; name := "Avalanche C-Chain"; nativeToken := "AVAX";
             symbol := "AVAX"; rpcUrl := None |});
  (250, {| chainId := 250; name := "Fantom Opera"; nativeToken := "FTM";
           symbol := "FTM"; rpcUrl := None |});
  (11155111, {| chainId := 11155111; name := "Sepolia Testnet";
                nativeToken := "Sepolia Ether"; symbol := "ETH"; rpcUrl := None |});
  (97, {| chainId := 97; name := "BNB Smart Chain Testnet";
          nativeToken := "Test BNB"; symbol := "tBNB"; rpcUrl := None |});
  (80001, {| chainId := 80001; name := "Mumbai Testnet";
             nativeToken := "Test MATIC"; symbol := "MATIC"; rpcUrl := None |})
].

(** [getNetworkInfo]: the table entry, or a placeholder that carries the
    chain id. *)
Definition getNetworkInfo (c : Z) : NetworkInfo :=
  match lookupZ c SUPPORTED_NETWORKS with
  | Some info => info
  | None =>
      {| chainId := c;
         name := "Unknown Network (" ++ JsNumber.toString c ++ ")";
         nativeToken := "Unknown";
         symbol := "???";
         rpcUrl := None |}
  end.

Definition getNetworkName (c : Z) : string := name (getNetworkInfo c).

Definition getNativeTokenSymbol (c : Z) : string := symbol (getNetworkInfo c).

(** [chainId in SUPPORTED_NETWORKS]. *)
Definition isNetworkSupported (c : Z) : bool :=
  match lookupZ c SUPPORTED_NETWORKS with
  | Some _ => true
  | None => false
  end.

End NetworkInfo.

(* ------------------------------------------------------------------ *)
(** ** Status route: [formatUptime]                                    *)
(* ------------------------------------------------------------------ *)

Module Status.

(** The amounts that [formatUptime] pushes, each with its unit letter:
    [Math.floor] of a quotient is [Z.div], [%] is [Z.rem]. *)
Definition uptimeParts (seconds : Z) : list (Z * string) :=
  let days := seconds / 86400 in
  let hours := Z.rem seconds 86400 / 3600 in
  let minutes := Z.rem seconds 3600 / 60 in
  let secs := Z.rem seconds 60 in
  let parts := [] in
  let parts := if 0 <? days then (parts ++ [(days, "d")])%list else parts in
  let parts := if 0 <? hours then (parts ++ [(hours, "h")])%list else parts in
  let parts := if 0 <? minutes then (parts ++ [(minutes, "m")])%list else parts in
  let parts :=
    if (0 <? secs) || Nat.eqb (List.length parts) 0
    then (parts ++ [(secs, "s")])%list else parts in
  parts.

(** [formatUptime(seconds)] for an integer number of seconds. *)
Definition formatUptime (seconds : Z) : string :=
  JsObject.join " "
    (map (fun part => JsNumber.toString (fst part) ++ snd part)
         (uptimeParts seconds)).

(** Seconds in a unit of [uptimeParts]. *)
Definition unitSeconds (unit : string) : Z :=
  match lookup unit [("d", 86400); ("h", 3600); ("m", 60); ("s", 1)] with
  | Some n => n
  | None => 0
  end.

(** The duration that a list of parts denotes. *)
Definition partsSeconds (parts : list (Z * string)) : Z :=
  fold_right (fun part total => fst part * unitSeconds (snd part) + total) 0 parts.

End Status.

(* ------------------------------------------------------------------ *)
(** ** tools/token-utils.ts: the utility tools (lines 6-248)           *)
(* ------------------------------------------------------------------ *)

(** [Promise.all([c1, c2, c3])]. *)
Definition promiseAll3 (E : Env) (c1 c2 c3 : Call) : M (Reply * Reply * Reply) :=
  fun w =>
    match provider E c1, provider E c2, provider E c3 with
    | Some r1, Some r2, Some r3 => (Val (r1, r2, r3), logCalls [c1; c2; c3] w)
    | None, _, _ => (Throw (ERpc c1), logCalls [c1; c2; c3] w)
    | _, None, _ => (Throw (ERpc c2), logCalls [c1; c2; c3] w)
    | _, _, None => (Throw (ERpc c3), logCalls [c1; c2; c3] w)
    end.

(** [getIO()]: throws until the socket server is initialised. *)
Definition getIO : M unit :=
  fun w => if ioInstance w then (Val tt, w) else (Throw ESocketNotInitialized, w).

Module TokenUtils.

Record TokenDetails := {
  symbol : string;
  name : string;
  address : option string;
  decimals : Z;
  isNative : bool;
  network : string
}.

(** Results of [resolve_token]; a failure carries the parts of its
    message. *)
Inductive ResolveResult :=
| Resolved (data : TokenDetails)
| UnsupportedChain (chainId : Z)
| NotListed (symbol network availableSymbols : string).

(** [resolveTokenTool.handler] (lines 17-75). *)
Definition resolveTokenHandler (sym : string) (ctx : ToolContext) : ResolveResult :=
  let chainId := contextChainId ctx in
  match Networks.getNetwork chainId with
  | None => UnsupportedChain chainId
  | Some network =>
      if Tokens.isNativeToken sym chainId then
        Resolved {| symbol := JsString.toUpperCase sym;
                    name := Networks.name network ++ " Native Token";
                    address := None;
                    decimals := 18;
                    isNative := true;
                    network := Networks.name network |}
      else
        match Tokens.getToken sym chainId with
        | Some token =>
            Resolved {| symbol := JsString.toUpperCase sym;
                        name := Tokens.info_name token;
                        address := Some (Tokens.address token);
                        decimals := Tokens.info_decimals token;
                        isNative := false;
                        network := Networks.name network |}
        | None =>
            let availableTokens := Registry.getTokensForChain chainId in
            let availableSymbols :=
              JsObject.join ", " (map Registry.symbol availableTokens) in
            NotListed sym (Networks.name network)
                      (if String.eqb availableSymbols EmptyString
                       then "none configured" else availableSymbols)
        end
  end.

Inductive IsNativeResult :=
| NativeAnswer (isNative : bool) (nativeSymbol networkName : string)
| NativeUnsupportedChain (chainId : Z).

(** [isNativeTokenTool.handler] (lines 90-113). *)
Definition isNativeTokenHandler (sym : string) (ctx : ToolContext) : IsNativeResult :=
  let chainId := contextChainId ctx in
  match Networks.getNetwork chainId with
  | None => NativeUnsupportedChain chainId
  | Some network =>
      NativeAnswer (Tokens.isNativeToken sym chainId)
                   (Networks.symbol network) (Networks.name network)
  end.

(** [balanceInfo] of [switch_network]; the formatted balance is a
    function of the raw balance and the decimals, which are kept. *)
Inductive BalanceInfo :=
| NativeBalance (token : string) (balance : Z)
| TokenBalance (token : string) (balance decimals : Z) (address : string)
| TokenNotFoundOn (checkToken network : string)
| BalanceLookupFailed (cause : Err).

Record SwitchData := {
  switchedTo : Networks.NetworkConfig;
  balance : option BalanceInfo
}.

Inductive SwitchResult :=
| Switched (data : SwitchData)
| SwitchUnsupported (chainId : Z) (supportedChains : list Z)
| SwitchFailed (cause : Err).

(** Lines 174-216: the balance looked up after the switch. *)
Definition checkTokenBalance (E : Env) (chainId : Z)
           (network : Networks.NetworkConfig) (checkToken userAddress : string)
  : M BalanceInfo :=
  tryCatch
    (if Tokens.isNativeToken checkToken chainId then
       balance <- callInt E (CallGetBalance chainId userAddress) ;;
       ret (NativeBalance (Networks.symbol network) balance)
     else
       match Tokens.getToken checkToken chainId with
       | Some tokenInfo =>
           let tokenAddress := Tokens.address tokenInfo in
           rs <- promiseAll3 E (CallBalanceOf chainId tokenAddress userAddress)
                               (CallDecimals chainId tokenAddress)
                               (CallSymbol chainId tokenAddress) ;;
           match rs with
           | (RInt balance, RInt decimals, RStr symbol) =>
               ret (TokenBalance symbol balance decimals tokenAddress)
           | _ => throw (ERpc (CallBalanceOf chainId tokenAddress userAddress))
           end
       | None => ret (TokenNotFoundOn checkToken (Networks.name network))
       end)
    (fun balanceError => ret (BalanceLookupFailed balanceError)).

(** Lines 148-217: the body of the outer [try]. *)
Definition switchBody (E : Env) (chainId : Z)
           (network : Networks.NetworkConfig) (checkToken : option string)
           (ctx : ToolContext) : M (option BalanceInfo) :=
  agentSwitchNetwork E chainId ;;;
  tryCatch
    (getIO ;;;
     match JsString.truthy (ctx_userAddress ctx) with
     | Some userAddress =>
         emitTo E (userRoom userAddress) (NetworkSwitch network)
     | None => ret tt
     end)
    (fun _ => ret tt) ;;;
  match JsString.truthy checkToken, JsString.truthy (ctx_userAddress ctx) with
  | Some checkToken, Some userAddress =>
      balanceInfo <- checkTokenBalance E chainId network checkToken userAddress ;;
      ret (Some balanceInfo)
  | _, _ => ret None
  end.

(** [switchNetworkTool.handler] (lines 133-247). *)
Definition switchNetworkHandler (E : Env) (chainId : Z)
           (checkToken : option string) (ctx : ToolContext)
  : World -> SwitchResult * World :=
  fun w =>
    match Networks.getNetwork chainId with
    | None => (SwitchUnsupported chainId Registry.SUPPORTED_CHAINS, w)
    | Some network =>
        match switchBody E chainId network checkToken ctx w with
        | (Val balanceInfo, w') =>
            (Switched {| switchedTo := network; balance := balanceInfo |}, w')
        | (Return r, w') => (SwitchFailed EAgent, w')
        | (Throw e, w') => (SwitchFailed e, w')
        end
    end.

End TokenUtils.

(* ------------------------------------------------------------------ *)
(** ** tools/contacts.ts                                               *)
(* ------------------------------------------------------------------ *)

Module Contacts.

(** A row of the user table, as far as the tools read it. *)
Record Account := {
  account_id : string;
  account_address : string
}.

(** A row of the contact table. *)
Record ContactRow := {
  row_id : nat;
  row_userId : string;
  row_name : string;
  row_address : string;
  row_notes : option string;
  row_createdAt : Z;
  row_deletedAt : option Z
}.

(** The two tables, rows in insertion order. *)
Record Db := {
  accounts : list Account;
  book : list ContactRow
}.

(** What the tools cannot control: whether the store accepts a write,
    and the time of the request. *)
Record Store := {
  createAccepts : ContactRow -> bool;
  updateAccepts : nat -> bool;
  clock : Z
}.

Inductive Error :=
| MissingUserAddress
| UserNotFound
| ContactNotFound
| StoreRefused.

(** The contact as the tools report it. *)
Record ContactView := {
  view_id : option nat;
  view_name : string;
  view_address : string;
  view_notes : option (option string)
}.

Inductive Result :=
| Added (contact : ContactView)
| Listed (contacts : list ContactView)
| Resolved (contact : ContactView)
| Deleted (name : string)
| Failed (error : Error).

(** [db.user.findUnique({ where: { address } })]; without an address the
    query is rejected. *)
Definition findUser (userAddress : option string) (db : Db) : Error + Account :=
  match userAddress with
  | None => inl MissingUserAddress
  | Some a =>
      match find (fun u => String.eqb (account_address u) a) (accounts db) with
      | Some user => inr user
      | None => inl UserNotFound
      end
  end.

Definition isActive (r : ContactRow) : bool :=
  match row_deletedAt r with
  | None => true
  | Some _ => false
  end.

(** [include: { contacts: { where: { deletedAt: null } } }]. *)
Definition activeContacts (user : Account) (db : Db) : list ContactRow :=
  filter (fun r => String.eqb (row_userId r) (account_id user) && isActive r)%bool
         (book db).

(** [c.name.toLowerCase() === name.toLowerCase()]. *)
Definition named (E : Env) (query : string) (r : ContactRow) : bool :=
  String.eqb (lowerCase E (row_name r)) (lowerCase E query).

(** A key that no row of the table has. *)
Definition freshId (rows : list ContactRow) : nat :=
  S (fold_right Nat.max 0%nat (map row_id rows)).

(** [addContactTool.handler] (lines 28-63). *)
Definition addContact (S : Store) (contactName contactAddress : string)
           (contactNotes : option string) (ctx : ToolContext) (db : Db)
  : Result * Db :=
  match findUser (ctx_userAddress ctx) db with
  | inl e => (Failed e, db)
  | inr user =>
      let row := {| row_id := freshId (book db);
                    row_userId := account_id user;
                    row_name := contactName;
                    row_address := contactAddress;
                    row_notes := contactNotes;
                    row_createdAt := clock S;
                    row_deletedAt := None |} in
      if createAccepts S row then
        (Added {| view_id := Some (row_id row);
                  view_name := row_name row;
                  view_address := row_address row;
                  view_notes := Some (row_notes row) |},
         {| accounts := accounts db; book := (book db ++ [row])%list |})
      else (Failed StoreRefused, db)
  end.

Fixpoint insertNewest (r : ContactRow) (sorted : list ContactRow)
  : list ContactRow :=
  match sorted with
  | [] => [r]
  | r' :: rest =>
      if row_createdAt r' <? row_createdAt r then r :: sorted
      else r' :: insertNewest r rest
  end.

(** [orderBy: { createdAt: 'desc' }]; rows of equal time keep their
    table order. *)
Definition newestFirst (rows : list ContactRow) : list ContactRow :=
  fold_left (fun sorted r => insertNewest r sorted) rows [].

(** [listContactsTool.handler] (lines 70-98). *)
Definition listContacts (ctx : ToolContext) (db : Db) : Result :=
  match findUser (ctx_userAddress ctx) db with
  | inl e => Failed e
  | inr user =>
      Listed (map (fun c => {| view_id := Some (row_id c);
                               view_name := row_name c;
                               view_address := row_address c;
                               view_notes := Some (row_notes c) |})
                  (newestFirst (activeContacts user db)))
  end.

(** [resolveContactTool.handler] (lines 115-147). *)
Definition resolveContact (E : Env) (query : string) (ctx : ToolContext)
           (db : Db) : Result :=
  match findUser (ctx_userAddress ctx) db with
  | inl e => Failed e
  | inr user =>
      match find (named E query) (activeContacts user db) with
      | None => Failed ContactNotFound
      | Some contact =>
          Resolved {| view_id := None;
                      view_name := row_name contact;
                      view_address := row_address contact;
                      view_notes := None |}
      end
  end.

(** [db.contact.update({ where: { id }, data: { deletedAt } })]. *)
Definition markDeleted (key : nat) (time : Z) (rows : list ContactRow)
  : list ContactRow :=
  map (fun r => if Nat.eqb (row_id r) key
                then {| row_id := row_id r;
                        row_userId := row_userId r;
                        row_name := row_name r;
                        row_address := row_address r;
                        row_notes := row_notes r;
                        row_createdAt := row_createdAt r;
                        row_deletedAt := Some time |}
                else r)
      rows.

(** [deleteContactTool.handler] (lines 163-197). *)
Definition deleteContact (E : Env) (S : Store) (query : string)
           (ctx : ToolContext) (db : Db) : Result * Db :=
  match findUser (ctx_userAddress ctx) db with
  | inl e => (Failed e, db)
  | inr user =>
      match find (named E query) (activeContacts user db) with
      | None => (Failed ContactNotFound, db)
      | Some contact =>
          if updateAccepts S (row_id contact) then
            (Deleted query,
             {| accounts := accounts db;
                book := markDeleted (row_id contact) (clock S) (book db) |})
          else (Failed StoreRefused, db)
      end
  end.

(** The store as the transfer tool reads it: a contact row and an
    account with its contact rows. *)
Definition asContact (r : ContactRow) : Contact :=
  {| contact_name := row_name r;
     contact_address := row_address r;
     deletedAt := row_deletedAt r |}.

Definition asUser (db : Db) (a : Account) : User :=
  {| user_id := account_id a;
     user_address := account_address a;
     contacts :=
       map asContact
           (filter (fun r => String.eqb (row_userId r) (account_id a))
                   (book db)) |}.

Definition asUsers (db : Db) : list User := map (asUser db) (accounts db).

Definition withStore (db : Db) (w : World) : World :=
  {| users := asUsers db;
     transactions := transactions w;
     ioInstance := ioInstance w;
     emitted := emitted w;
     console := console w;
     calls := calls w;
     agentNetwork := agentNetwork w |}.

(** Active contacts of [user] that answer to [query]. *)
Definition matches (E : Env) (query : string) (user : Account) (db : Db)
  : list ContactRow :=
  filter (named E query) (activeContacts user db).

End Contacts.

(* ------------------------------------------------------------------ *)
(** ** Reading a stored swap call                                      *)
(* ------------------------------------------------------------------ *)

Module Decode.

(** The single call wrapped by [multicall], or the call itself. *)
Definition inner (c : CallData) : CallData :=
  match c with
  | Multicall _ [c'] => c'
  | _ => c
  end.

(** The least amount of the output token that the call accepts. *)
Definition minimumOut (c : CallData) : option Z :=
  match inner c with
  | ExactInputSingle _ _ _ _ _ m _ => Some m
  | SwapExactETHForTokens m _ _ _ => Some m
  | SwapExactTokensForETH _ m _ _ _ => Some m
  | SwapExactTokensForTokens _ m _ _ _ => Some m
  | _ => None
  end.

(** The time after which the call reverts. *)
Definition deadline (c : CallData) : option Z :=
  match c with
  | Multicall d _ => Some d
  | SwapExactETHForTokens _ _ _ d => Some d
  | SwapExactTokensForETH _ _ _ _ d => Some d
  | SwapExactTokensForTokens _ _ _ _ d => Some d
  | _ => None
  end.

(** Input and output token of the call. *)
Definition route (c : CallData) : option (string * string) :=
  match inner c with
  | ExactInputSingle i o _ _ _ _ _ => Some (i, o)
  | SwapExactETHForTokens _ [i; o] _ _ => Some (i, o)
  | SwapExactTokensForETH _ _ [i; o] _ _ => Some (i, o)
  | SwapExactTokensForTokens _ _ [i; o] _ _ => Some (i, o)
  | _ => None
  end.

(** The account that receives the output. *)
Definition recipient (c : CallData) : option string :=
  match inner c with
  | ExactInputSingle _ _ _ r _ _ _ => Some r
  | SwapExactETHForTokens _ _ r _ => Some r
  | SwapExactTokensForETH _ _ _ r _ => Some r
  | SwapExactTokensForTokens _ _ _ r _ => Some r
  | _ => None
  end.

End Decode.

(* ------------------------------------------------------------------ *)
(** ** Well-formed addresses                                           *)
(* ------------------------------------------------------------------ *)

Definition isHexDigit (c : ascii) : bool :=
  let n := N_of_ascii c in
  ((N.leb 48 n && N.leb n 57)
   || (N.leb 65 n && N.leb n 70)
   || (N.leb 97 n && N.leb n 102))%bool.

Fixpoint allHex (s : string) : bool :=
  match s with
  | EmptyString => true
  | String c s' => (isHexDigit c && allHex s')%bool
  end.

(** [0x] followed by forty hexadecimal digits. *)
Definition wellFormedAddress (s : string) : bool :=
  match s with
  | String "0" (String "x" digits) =>
      (Nat.eqb (String.length digits) 40 && allHex digits)%bool
  | _ => false
  end.

(* ------------------------------------------------------------------ *)
(** ** Vocabulary for the outcome of a handler                         *)
(* ------------------------------------------------------------------ *)

(** A step that never leaves its handler early with a success result:
    every [return] before the end reports a failure. *)
Definition neverReturnsSuccess {A : Type} (m : M A) : Prop :=
  forall w s w', m w <> (Return (Success s), w').

(** The viable quotes of a swap request, once its tokens and amount
    are known. *)
Definition viableFor (E : Env) (ctx : ToolContext)
           (fromToken toToken : Swap.TokenRef) (amountIn : Z)
  : list Swap.SwapQuote :=
  Spec.viableQuotes E (contextChainId ctx) (Swap.address fromToken)
    (Swap.address toToken) amountIn (Swap.decimals toToken)
    (Dex.getDexesForChain (contextChainId ctx)).

(** A swap request that passes every check of the handler: the wallet is
    connected and known to the store, both tokens resolve to different
    addresses, the amount parses and the balance covers it, the slippage
    parses, a requested venue is known and serves the chain, the
    selection of quotes starts with [bestQuote], the allowance of a
    token input can be read, and the libraries, the store and the
    formatter accept what the handler hands them. *)
Record SwapReady (E : Env) (p : Swap.Params) (ctx : ToolContext) (w : World)
       (userAddress : string) (fromToken toToken : Swap.TokenRef)
       (amountIn slippageBps : Z) (bestQuote : Swap.SwapQuote) : Prop := {
  ready_wallet : JsString.truthy (ctx_userAddress ctx) = Some userAddress;
  ready_account :
    exists user,
      find (fun u => String.eqb (user_address u) userAddress) (users w)
      = Some user;
  ready_from :
    Swap.resolveToken E (Swap.fromToken p) (contextChainId ctx) = Some fromToken;
  ready_to :
    Swap.resolveToken E (Swap.toToken p) (contextChainId ctx) = Some toToken;
  ready_distinct :
    JsString.toLowerCase (Swap.address fromToken)
    <> JsString.toLowerCase (Swap.address toToken);
  ready_amount :
    parseUnits E (Swap.amount p) (Swap.decimals fromToken) = Some amountIn;
  ready_sign : 0 <= amountIn;
  ready_slippage : Swap.slippageBpsOf E (Swap.slippage p) = Some slippageBps;
  ready_balance :
    exists balance,
      replyInt E (if Swap.isNative fromToken
                  then CallGetBalance (contextChainId ctx) userAddress
                  else CallBalanceOf (contextChainId ctx)
                         (Swap.address fromToken) userAddress)
      = Some balance
      /\ amountIn <= balance;
  ready_venue :
    forall name,
      JsString.truthy (Swap.preferredDex p) = Some name ->
      exists d, Dex.getDex name = Some d
                /\ Dex.includes (contextChainId ctx) (Dex.supportedChains d) = true;
  ready_texts :
    Spec.formattable E (Swap.decimals toToken)
      (viableFor E ctx fromToken toToken amountIn) = true;
  ready_quotes :
    exists rest,
      Spec.selection (Swap.preferredDex p)
        (JsArray.sort Swap.compareQuotes
           (viableFor E ctx fromToken toToken amountIn))
      = bestQuote :: rest;
  ready_allowance :
    Swap.isNative fromToken = false ->
    exists allowance,
      replyInt E (CallAllowance (contextChainId ctx) (Swap.address fromToken)
                    userAddress
                    (Swap.routerFor (Swap.dex bestQuote) (contextChainId ctx)))
      = Some allowance;
  ready_minimum :
    exists text,
      formatUnits E (Swap.amountOutMinOf (Swap.amountOut bestQuote) slippageBps)
        (Swap.decimals toToken) = Some text;
  ready_encoder : forall c, encodable E c = true;
  ready_store : forall d, storeAccepts E d = true
}.

(** The row that a handler appended to the transaction table. *)
Definition appended (w w' : World) (row : Transaction) : Prop :=
  transactions w' = (transactions w ++ [row])%list
  /\ tx_status row = Pending
  /\ tx_id row = List.length (transactions w).

(** The way a stored row is made known: the event published to the
    room of [userAddress] repeats the key and the fields of the row; or
    nothing was published and a line went to the console instead. *)
Definition Announced (ctx : ToolContext) (userAddress : string)
           (w w' : World) (row : Transaction) : Prop :=
  appended w w' row
  /\ ((pendingPublished w' = pendingPublished w
       /\ exists message, console w' = (console w ++ [message])%list)
      \/
      (console w' = console w
       /\ exists approval,
            pendingPublished w'
            = (pendingPublished w ++
               [{| room := userRoom userAddress;
                   payload :=
                     PendingTransaction (tx_id row) (ctx_chatId ctx)
                       (td_type (tx_fields row)) (td_to (tx_fields row))
                       (td_value (tx_fields row)) (td_data (tx_fields row))
                       (td_chainId (tx_fields row))
                       (td_details (tx_fields row))
                       (td_buttonText (tx_fields row))
                       (Networks.getExplorerUrl (td_chainId (tx_fields row)))
                       approval |}])%list)).

Definition announces (ctx : ToolContext) (userAddress : string)
           (m : M ToolResult) : Prop :=
  forall w s w',
    m w = (Val (Success s), w') -> exists row, Announced ctx userAddress w w' row.

(** The environment [E] with another notification channel. *)
Definition withChannel (accepts : Emit -> bool) (E : Env) : Env :=
  {| isAddress := isAddress E;
     lowerCase := lowerCase E;
     parseUnits := parseUnits E;
     parseInt := parseInt E;
     parseSlippageBps := parseSlippageBps E;
     formatUnits := formatUnits E;
     toFixed6 := toFixed6 E;
     rateOf := rateOf E;
     encodable := encodable E;
     provider := provider E;
     storeAccepts := storeAccepts E;
     channelAccepts := accepts;
     agent := agent E;
     now := now E |}.

(** The world [w] with the socket initialised or not. *)
Definition withSocket (up : bool) (w : World) : World :=
  {| users := users w; transactions := transactions w;
     ioInstance := up; emitted := emitted w;
     console := console w; calls := calls w;
     agentNetwork := agentNetwork w |}.

(** A channel on which the publication of a pending transaction fails:
    the socket is not initialised, or the channel refuses every
    [pendingTransaction] event. *)
Definition publishFails (accepts : Emit -> bool) (up : bool) : Prop :=
  up = false \/ forall e, isPendingEvent e = true -> accepts e = false.

(** The three tools that prepare a transaction. *)
Inductive Preparation :=
| PrepareTransfer (p : Transfer.Params)
| PrepareApprove (p : Approve.Params)
| PrepareSwap (p : Swap.Params).

Definition prepareWith (E : Env) (request : Preparation) (ctx : ToolContext)
  : World -> ToolResult * World :=
  match request with
  | PrepareTransfer p => Transfer.handler E p ctx
  | PrepareApprove p => Approve.handler E p ctx
  | PrepareSwap p => Swap.handler E p ctx
  end.

(** Two worlds with the same users and the same transaction table, the
    second with the socket in state [up] and with [published] as its
    pending transactions published so far. *)
Definition sameStore (up : bool) (published : list Emit) (a b : World) : Prop :=
  users a = users b
  /\ transactions a = transactions b
  /\ ioInstance b = up
  /\ pendingPublished b = published.

(** Two computations that, from worlds with the same store, end alike
    and leave worlds with the same store. *)
Definition alike (up : bool) (published : list Emit) {A : Type}
           (m1 m2 : M A) : Prop :=
  forall a b,
    sameStore up published a b ->
    fst (m1 a) = fst (m2 b)
    /\ sameStore up published (snd (m1 a)) (snd (m2 b)).

(** The chain that a [network] argument of the transfer tool names: a
    known network name first, else the number it parses to. *)
Definition namedChain (E : Env) (network : string) : option Z :=
  match lookup (JsString.toLowerCase network) Transfer.NETWORK_NAMES with
  | Some c => Some c
  | None => parseInt E network
  end.

(* ------------------------------------------------------------------ *)
(** ** More sample requests                                            *)
(* ------------------------------------------------------------------ *)

Module Scenario.

(** The environment of [Sample.env] with a number parser that knows a
    few chain ids and slippage percentages. *)
Definition env (p : Call -> option Reply) : Env :=
  {| isAddress := Sample.looksLikeAddress;
     lowerCase := JsString.toLowerCase;
     parseUnits := Sample.parseWhole;
     parseInt := fun s => lookup s [("250", 250); ("10", 10); ("137", 137)];
     parseSlippageBps := fun s => lookup s [("1", 100); ("0.5", 50)];
     formatUnits := fun _ decimals =>
                      if (0 <=? decimals) && (decimals <=? 80)
                      then Some "0.0" else None;
     toFixed6 := fun _ => "0.000000";
     rateOf := fun _ _ => "0.000000";
     encodable := fun _ => true;
     provider := p;
     storeAccepts := fun _ => true;
     channelAccepts := fun _ => true;
     agent := Some (fun _ => true);
     now := 1700000000 |}.

Definition sendOnFantom : Transfer.Params :=
  {| Transfer.to := "bob"; Transfer.amount := "1"; Transfer.token := None;
     Transfer.network := Some "250" |}.

Definition sendOnPolygon : Transfer.Params :=
  {| Transfer.to := "bob"; Transfer.amount := "2"; Transfer.token := None;
     Transfer.network := Some "Polygon" |}.

(** The request of [Sample.swapUsdcForEth] with the venue named as its
    display name and as its slug. *)
Definition swapViaDisplayName : Swap.Params :=
  {| Swap.fromToken := "USDC"; Swap.toToken := "ETH"; Swap.amount := "100";
     Swap.preferredDex := Some "Uniswap"; Swap.slippage := None |}.

Definition swapViaSlug : Swap.Params :=
  {| Swap.fromToken := "USDC"; Swap.toToken := "ETH"; Swap.amount := "100";
     Swap.preferredDex := Some "uniswap"; Swap.slippage := None |}.

(** An address book with one account and one contact, as in
    [Sample.world]. *)
Definition addressBook : Contacts.Db :=
  {| Contacts.accounts :=
       [ {| Contacts.account_id := "user-1";
            Contacts.account_address := Sample.alice |} ];
     Contacts.book :=
       [ {| Contacts.row_id := 1%nat;
            Contacts.row_userId := "user-1";
            Contacts.row_name := "Bob";
            Contacts.row_address := Sample.bob;
            Contacts.row_notes := None;
            Contacts.row_createdAt := 100;
            Contacts.row_deletedAt := None |} ] |}.

Definition store : Contacts.Store :=
  {| Contacts.createAccepts := fun _ => true;
     Contacts.updateAccepts := fun _ => true;
     Contacts.clock := 200 |}.

Definition carol : string := "0x3333333333333333333333333333333333333333".

(** A contact whose name starts with a letter outside the ASCII range:
    the UTF-8 bytes of the name with a capital and with a small O with
    diaeresis. *)
Definition capitalOmer : string := String "195" (String "150" "mer").
Definition smallOmer : string := String "195" (String "182" "mer").

(** A [toLowerCase] that knows this one letter beyond the ASCII range. *)
Definition lowerLatin (s : string) : string :=
  if String.eqb s capitalOmer then smallOmer else JsString.toLowerCase s.

Definition latinEnv : Env :=
  {| isAddress := Sample.looksLikeAddress;
     lowerCase := lowerLatin;
     parseUnits := Sample.parseWhole;
     parseInt := fun _ => None;
     parseSlippageBps := fun _ => None;
     formatUnits := fun _ _ => Some "0.0";
     toFixed6 := fun _ => "0.000000";
     rateOf := fun _ _ => "0.000000";
     encodable := fun _ => true;
     provider := Sample.silent;
     storeAccepts := fun _ => true;
     channelAccepts := fun _ => true;
     agent := None;
     now := 1700000000 |}.

Definition latinWorld : World :=
  {| users :=
       [ {| user_id := "user-1"; user_address := Sample.alice;
            contacts := [ {| contact_name := capitalOmer;
                             contact_address := Sample.bob;
                             deletedAt := None |} ] |} ];
     transactions := [];
     ioInstance := true;
     emitted := [];
     console := [];
     calls := [];
     agentNetwork := [] |}.

End Scenario.

(** Contact rows from the newest to the oldest. *)
Definition newerFirst (a b : Contacts.ContactRow) : Prop :=
  Contacts.row_createdAt b <= Contacts.row_createdAt a.


(* ================================================================== *)
(** * Properties                                                       *)
(* ================================================================== *)

(** From here on [++] is list concatenation; string concatenation is
    written with its scope. *)
Open Scope list_scope.

(* ------------------------------------------------------------------ *)
(** ** Sorting with a key comparator                                   *)
(* ------------------------------------------------------------------ *)

(** The model on small arrays: an ordinary comparator sorts, and the
    constant comparators reverse the array or leave it as it is, as the
    engine does. *)
Example sort_ascending : JsArray.sort Z.sub [3; 1; 2; 1] = [1; 1; 2; 3].
Proof. reflexivity. Qed.

Example sort_always_negative : JsArray.sort (fun _ _ : Z => -1) [1; 2; 3] = [3; 2; 1].
Proof. reflexivity. Qed.

Example sort_always_positive : JsArray.sort (fun _ _ : Z => 1) [1; 2; 3] = [1; 2; 3].
Proof. reflexivity. Qed.

Section SortByKey.

Variable A : Type.
Variable key : A -> Z.
Variable comparefn : A -> A -> Z.

(** The comparator is negative exactly when its first argument has at
    least the key of its second. *)
Hypothesis comparefn_neg :
  forall a b, (comparefn a b <? 0) = (key b <=? key a).
Hypothesis comparefn_nonneg :
  forall a b, (0 <=? comparefn a b) = negb (key b <=? key a).


Lemma descending_trans : Relations_1.Transitive (descending key).
Proof. unfold Relations_1.Transitive, descending. intros; lia. Qed.

Lemma ascending_trans : Relations_1.Transitive (ascending key).
Proof. unfold Relations_1.Transitive, ascending. intros; lia. Qed.

Lemma StronglySorted_app (R : A -> A -> Prop) (l1 l2 : list A) :
  StronglySorted R l1 -> StronglySorted R l2 ->
  (forall a b, In a l1 -> In b l2 -> R a b) ->
  StronglySorted R (l1 ++ l2).
Proof.
  induction l1 as [|x l1 IH]; simpl; intros H1 H2 H; auto.
  inversion H1; subst. constructor.
  - apply IH; auto.
  - rewrite Forall_forall in *. intros y Hy.
    apply in_app_or in Hy. destruct Hy; auto.
Qed.

Lemma StronglySorted_app_inv (R : A -> A -> Prop) (l1 l2 : list A) :
  StronglySorted R (l1 ++ l2) ->
  StronglySorted R l1 /\ StronglySorted R l2 /\
  (forall a b, In a l1 -> In b l2 -> R a b).
Proof.
  induction l1 as [|x l1 IH]; simpl; intros H.
  - repeat split; auto. constructor. intros a b [].
  - inversion H; subst. destruct (IH H2) as (S1 & S2 & S3).
    rewrite Forall_forall in H3.
    repeat split; auto.
    + constructor; auto. rewrite Forall_forall. intros y Hy.
      apply H3. apply in_or_app; auto.
    + intros a b [->|Ha] Hb; auto. apply H3. apply in_or_app; auto.
Qed.

Lemma StronglySorted_rev (l : list A) :
  StronglySorted (ascending key) l -> StronglySorted (descending key) (rev l).
Proof.
  induction 1 as [|x l Hs IH Hx]; simpl.
  - constructor.
  - apply StronglySorted_app; auto.
    + repeat constructor.
    + intros a b Ha [<-|[]]. rewrite Forall_forall in Hx.
      apply in_rev in Ha. apply Hx in Ha. exact Ha.
Qed.

(** *** The initial run *)

Lemma extendRun_descending (previous : A) (rest : list A) :
  Sorted (ascending key)
    (previous :: firstn (JsArray.extendRun comparefn true previous rest) rest).
Proof.
  revert previous. induction rest as [|current rest IH]; intros previous; simpl.
  - repeat constructor.
  - rewrite comparefn_nonneg.
    destruct (key previous <=? key current) eqn:Hk; simpl.
    + constructor; [apply IH|]. constructor. unfold ascending. lia.
    + repeat constructor.
Qed.

Lemma extendRun_ascending (previous : A) (rest : list A) :
  Sorted (descending key)
    (previous :: firstn (JsArray.extendRun comparefn false previous rest) rest).
Proof.
  revert previous. induction rest as [|current rest IH]; intros previous; simpl.
  - repeat constructor.
  - rewrite comparefn_neg.
    destruct (key previous <=? key current) eqn:Hk; simpl.
    + repeat constructor.
    + constructor; [apply IH|]. constructor. unfold descending. lia.
Qed.

Lemma CountAndMakeRun_spec (l : list A) :
  let (run, pending) := JsArray.CountAndMakeRun comparefn l in
  StronglySorted (descending key) run /\ Permutation l (run ++ pending).
Proof.
  destruct l as [|x [|y rest]]; simpl.
  - split; [constructor | reflexivity].
  - split; [repeat constructor | reflexivity].
  - rewrite comparefn_neg.
    set (n := JsArray.extendRun comparefn _ y rest).
    destruct (key x <=? key y) eqn:Hk; subst n.
    + split.
      * change (StronglySorted (descending key)
                  (rev (x :: y :: firstn (JsArray.extendRun comparefn true y rest) rest))).
        apply StronglySorted_rev.
        apply Sorted_StronglySorted; [apply ascending_trans|].
        constructor; [apply extendRun_descending|].
        constructor. unfold ascending. lia.
      * set (n := JsArray.extendRun comparefn true y rest).
        change ((rev (firstn n rest) ++ [y]) ++ [x]) with (rev (x :: y :: firstn n rest)).
        rewrite <- (firstn_skipn n rest) at 1.
        change (x :: y :: firstn n rest ++ skipn n rest)
          with ((x :: y :: firstn n rest) ++ skipn n rest).
        apply Permutation_app_tail. apply Permutation_rev.
    + split.
      * apply Sorted_StronglySorted; [apply descending_trans|].
        constructor; [apply extendRun_ascending|].
        constructor. unfold descending. lia.
      * simpl. rewrite firstn_skipn. reflexivity.
Qed.

(** *** The insertion point *)

Lemma StronglySorted_nth (l : list A) (i j : nat) (a b : A) :
  StronglySorted (descending key) l -> (i <= j)%nat ->
  nth_error l i = Some a -> nth_error l j = Some b -> key b <= key a.
Proof.
  intros Hs. revert i j. induction Hs as [|x l Hs IH Hx]; intros i j Hij Hi Hj.
  - destruct i; discriminate.
  - destruct i as [|i], j as [|j]; simpl in *.
    + inversion Hi; inversion Hj; subst. lia.
    + inversion Hi; subst. rewrite Forall_forall in Hx.
      apply nth_error_In in Hj. apply Hx in Hj. exact Hj.
    + lia.
    + apply (IH i j); auto. lia.
Qed.

Lemma div2_lt (n : nat) : (0 < n)%nat -> (Nat.div2 n < n)%nat.
Proof. intros H. apply Nat.lt_div2. exact H. Qed.

Lemma findInsertionPoint_spec (work : list A) (pivot : A) :
  StronglySorted (descending key) work ->
  forall fuel left right,
    (left <= right <= List.length work)%nat ->
    (right - left <= fuel)%nat ->
    (forall i e, (i < left)%nat -> nth_error work i = Some e -> key pivot < key e) ->
    (forall i e, (right <= i)%nat -> nth_error work i = Some e -> key e <= key pivot) ->
    let p := JsArray.findInsertionPoint comparefn fuel work pivot left right in
    (p <= List.length work)%nat /\
    (forall i e, (i < p)%nat -> nth_error work i = Some e -> key pivot < key e) /\
    (forall i e, (p <= i)%nat -> nth_error work i = Some e -> key e <= key pivot).
Proof.
  intros Hs. induction fuel as [|fuel IH]; intros left right Hb Hf Hl Hr; simpl.
  - assert (left = right) by lia. subst. repeat split; auto; lia.
  - destruct (left <? right)%nat eqn:Hlt.
    + apply Nat.ltb_lt in Hlt.
      assert (Hd : (Nat.div2 (right - left) < right - left)%nat)
        by (apply div2_lt; lia).
      remember (Nat.div2 (right - left)) as half eqn:Hhalf. clear Hhalf.
      set (mid := (left + half)%nat) in *.
      assert (Hmid : (left <= mid < right)%nat) by (unfold mid; lia).
      destruct (nth_error work mid) as [element|] eqn:Hm.
      * rewrite comparefn_neg.
        destruct (key element <=? key pivot) eqn:Hk.
        -- apply IH; auto; try lia.
           intros i e Hi He. apply Z.leb_le in Hk.
           pose proof (StronglySorted_nth Hs Hi Hm He). lia.
        -- apply IH; auto; try lia.
           intros i e Hi He. apply Z.leb_gt in Hk.
           assert (Hle : (i <= mid)%nat) by lia.
           pose proof (StronglySorted_nth Hs Hle He Hm). lia.
      * apply nth_error_None in Hm. lia.
    + apply Nat.ltb_ge in Hlt. assert (left = right) by lia. subst.
      repeat split; auto; lia.
Qed.

Lemma In_firstn_nth (l : list A) (p : nat) (a : A) :
  In a (firstn p l) -> exists i, (i < p)%nat /\ nth_error l i = Some a.
Proof.
  revert l. induction p as [|p IH]; intros [|x l]; simpl; try tauto.
  intros [<-|H].
  - exists O. split; [lia | reflexivity].
  - destruct (IH _ H) as (i & Hi & Hn). exists (S i). split; [lia | exact Hn].
Qed.

Lemma In_skipn_nth (l : list A) (p : nat) (a : A) :
  In a (skipn p l) -> exists i, (p <= i)%nat /\ nth_error l i = Some a.
Proof.
  revert l. induction p as [|p IH]; intros l; simpl.
  - intros H. apply In_nth_error in H. destruct H as (i & Hi).
    exists i. split; [lia | exact Hi].
  - destruct l as [|x l]; [intros [] |].
    intros H. destruct (IH _ H) as (i & Hi & Hn).
    exists (S i). split; [lia | exact Hn].
Qed.

Lemma insert_sorted (work : list A) (pivot : A) :
  StronglySorted (descending key) work ->
  let n := List.length work in
  let p := JsArray.findInsertionPoint comparefn n work pivot O n in
  StronglySorted (descending key) (firstn p work ++ pivot :: skipn p work).
Proof.
  intros Hs n p.
  assert (Hright : forall i e, (n <= i)%nat -> nth_error work i = Some e ->
                                key e <= key pivot).
  { intros i e Hi He. assert (Hn : nth_error work i <> None) by congruence.
    apply nth_error_Some in Hn. unfold n in Hi. lia. }
  assert (Hleft : forall i e, (i < O)%nat -> nth_error work i = Some e ->
                               key pivot < key e).
  { intros i e Hi. inversion Hi. }
  destruct (@findInsertionPoint_spec work pivot Hs n O n
              ltac:(unfold n; lia) ltac:(lia) Hleft Hright)
    as (Hp & Hbefore & Hafter).
  fold p in Hp, Hbefore, Hafter.
  pose proof Hs as Hsplit. rewrite <- (firstn_skipn p work) in Hsplit.
  apply StronglySorted_app_inv in Hsplit. destruct Hsplit as (S1 & S2 & S3).
  apply StronglySorted_app; auto.
  - constructor; auto. rewrite Forall_forall. intros y Hy.
    apply In_skipn_nth in Hy. destruct Hy as (i & Hi & Hn).
    unfold descending. eapply Hafter; eauto.
  - intros a b Ha [<-|Hb]; auto.
    apply In_firstn_nth in Ha. destruct Ha as (i & Hi & Hn).
    unfold descending. pose proof (Hbefore _ _ Hi Hn). lia.
Qed.

Lemma insert_permutation (work : list A) (pivot : A) (p : nat) :
  Permutation (work ++ [pivot]) (firstn p work ++ pivot :: skipn p work).
Proof.
  rewrite <- (firstn_skipn p work) at 1.
  rewrite <- app_assoc. apply Permutation_app_head.
  symmetry. apply Permutation_cons_append.
Qed.

Lemma BinaryInsertionSort_spec (pending sorted : list A) :
  StronglySorted (descending key) sorted ->
  StronglySorted (descending key) (JsArray.BinaryInsertionSort comparefn sorted pending)
  /\ Permutation (sorted ++ pending)
                 (JsArray.BinaryInsertionSort comparefn sorted pending).
Proof.
  revert sorted. induction pending as [|pivot pending IH]; intros sorted Hs; simpl.
  - rewrite app_nil_r. split; [exact Hs | reflexivity].
  - destruct (IH _ (@insert_sorted sorted pivot Hs)) as (H1 & H2).
    split; [exact H1|].
    etransitivity; [|exact H2].
    change (pivot :: pending) with ([pivot] ++ pending).
    rewrite app_assoc. apply Permutation_app_tail. apply insert_permutation.
Qed.

Lemma sort_spec (l : list A) :
  StronglySorted (descending key) (JsArray.sort comparefn l)
  /\ Permutation l (JsArray.sort comparefn l).
Proof.
  unfold JsArray.sort.
  destruct l as [|x [|y rest]].
  - split; [constructor | reflexivity].
  - split; [repeat constructor | reflexivity].
  - pose proof (CountAndMakeRun_spec (x :: y :: rest)) as H.
    destruct (JsArray.CountAndMakeRun comparefn (x :: y :: rest)) as [run pending].
    destruct H as (Hs & Hp).
    destruct (@BinaryInsertionSort_spec pending run Hs) as (H1 & H2).
    split; [exact H1|]. etransitivity; eauto.
Qed.

(** *** The order among equal keys *)

Lemma insertBefore_at (work : list A) (pivot : A) (p : nat) :
  (forall i e, (i < p)%nat -> nth_error work i = Some e -> key pivot < key e) ->
  (forall i e, (p <= i)%nat -> nth_error work i = Some e -> key e <= key pivot) ->
  (p <= List.length work)%nat ->
  firstn p work ++ pivot :: skipn p work = insertBefore key pivot work.
Proof.
  revert p. induction work as [|y work IH]; intros p Hbefore Hafter Hp; simpl in *.
  - assert (p = O) by lia. subst. reflexivity.
  - destruct p as [|p]; simpl.
    + specialize (Hafter O y (Nat.le_refl _) eq_refl).
      destruct (Z.leb_spec (key y) (key pivot)); [reflexivity | lia].
    + specialize (Hbefore O y ltac:(lia) eq_refl) as Hy.
      destruct (Z.leb_spec (key y) (key pivot)); [lia|].
      f_equal. apply IH.
      * intros i e Hi He. apply (Hbefore (S i) e); [lia | exact He].
      * intros i e Hi He. apply (Hafter (S i) e); [lia | exact He].
      * lia.
Qed.

Lemma BinaryInsertionSort_rank (pending sorted : list A) :
  StronglySorted (descending key) sorted ->
  JsArray.BinaryInsertionSort comparefn sorted pending
  = fold_left (fun ranked x => insertBefore key x ranked) pending sorted.
Proof.
  revert sorted. induction pending as [|pivot pending IH]; intros sorted Hs; simpl.
  - reflexivity.
  - set (n := List.length sorted).
    set (p := JsArray.findInsertionPoint comparefn n sorted pivot O n).
    assert (Hright : forall i e, (n <= i)%nat -> nth_error sorted i = Some e ->
                                  key e <= key pivot).
    { intros i e Hi He. assert (Hn : nth_error sorted i <> None) by congruence.
      apply nth_error_Some in Hn. unfold n in Hi. lia. }
    assert (Hleft : forall i e, (i < O)%nat -> nth_error sorted i = Some e ->
                                 key pivot < key e).
    { intros i e Hi. inversion Hi. }
    destruct (@findInsertionPoint_spec sorted pivot Hs n O n
                ltac:(unfold n; lia) ltac:(lia) Hleft Hright)
      as (Hp & Hbefore & Hafter).
    fold p in Hp, Hbefore, Hafter.
    rewrite <- (@insertBefore_at sorted pivot p Hbefore Hafter Hp).
    apply IH. apply (@insert_sorted sorted pivot Hs).
Qed.

Lemma rank_ascending_run (l ranked : list A) :
  StronglySorted (ascending key) l ->
  (forall a x, In a ranked -> In x l -> key a <= key x) ->
  fold_left (fun ranked x => insertBefore key x ranked) l ranked = rev l ++ ranked.
Proof.
  revert ranked. induction l as [|x l IH]; intros ranked Hs Hle; simpl.
  - reflexivity.
  - inversion Hs as [|? ? Hs' Hx]; subst. rewrite Forall_forall in Hx.
    assert (Hins : insertBefore key x ranked = x :: ranked).
    { destruct ranked as [|y ranked]; simpl; [reflexivity|].
      specialize (Hle y x (or_introl eq_refl) (or_introl eq_refl)).
      destruct (Z.leb_spec (key y) (key x)); [reflexivity | lia]. }
    rewrite Hins, IH; auto.
    + rewrite <- app_assoc. reflexivity.
    + intros a z [<-|Ha] Hz.
      * apply Hx. exact Hz.
      * apply Hle; [exact Ha | right; exact Hz].
Qed.


Lemma insertBefore_last (x : A) (ranked : list A) :
  (forall a, In a ranked -> key x < key a) ->
  insertBefore key x ranked = ranked ++ [x].
Proof.
  induction ranked as [|y ranked IH]; intros H; simpl; [reflexivity|].
  specialize (H y (or_introl eq_refl)) as Hy.
  destruct (Z.leb_spec (key y) (key x)); [lia|].
  f_equal. apply IH. intros a Ha. apply H. right. exact Ha.
Qed.

Lemma rank_descending_run (l ranked : list A) :
  StronglySorted (strictlyDescending key) (ranked ++ l) ->
  fold_left (fun ranked x => insertBefore key x ranked) l ranked = ranked ++ l.
Proof.
  revert ranked. induction l as [|x l IH]; intros ranked Hs; simpl.
  - rewrite app_nil_r. reflexivity.
  - rewrite insertBefore_last.
    + rewrite IH; rewrite <- app_assoc; [reflexivity | exact Hs].
    + intros a Ha.
      apply StronglySorted_app_inv in Hs. destruct Hs as (_ & _ & Hs).
      apply (Hs a x Ha). left. reflexivity.
Qed.

Lemma extendRun_strict (previous : A) (rest : list A) :
  Sorted (strictlyDescending key)
    (previous :: firstn (JsArray.extendRun comparefn false previous rest) rest).
Proof.
  revert previous. induction rest as [|current rest IH]; intros previous; simpl.
  - repeat constructor.
  - rewrite comparefn_neg.
    destruct (Z.leb_spec (key previous) (key current)); simpl.
    + repeat constructor.
    + constructor; [apply IH|]. constructor. unfold strictlyDescending. lia.
Qed.

Lemma strictlyDescending_trans : Relations_1.Transitive (strictlyDescending key).
Proof. unfold Relations_1.Transitive, strictlyDescending. intros; lia. Qed.

Lemma fold_left_firstn_skipn (f : list A -> A -> list A) (n : nat) (l acc : list A) :
  fold_left f l acc = fold_left f (skipn n l) (fold_left f (firstn n l) acc).
Proof.
  rewrite <- fold_left_app, firstn_skipn. reflexivity.
Qed.

Lemma insertBefore_In (x a : A) (ranked : list A) :
  In a (insertBefore key x ranked) <-> a = x \/ In a ranked.
Proof.
  induction ranked as [|y ranked IH]; simpl.
  - intuition.
  - destruct (key y <=? key x); simpl; [intuition|].
    rewrite IH. intuition.
Qed.

Lemma insertBefore_keeps_order (x a b : A) (ranked : list A) :
  occursBefore ranked a b -> occursBefore (insertBefore key x ranked) a b.
Proof.
  induction ranked as [|y ranked IH]; simpl; [tauto|].
  intros H. destruct (key y <=? key x); simpl.
  - right. exact H.
  - destruct H as [[Hy Hb]|H].
    + left. split; [exact Hy|]. apply insertBefore_In. right. exact Hb.
    + right. apply IH. exact H.
Qed.

Lemma insertBefore_in_front (x a : A) (ranked : list A) :
  In a ranked -> key a <= key x ->
  occursBefore (insertBefore key x ranked) x a.
Proof.
  induction ranked as [|y ranked IH]; simpl; [tauto|].
  intros Hin Hle. destruct (Z.leb_spec (key y) (key x)); simpl.
  - left. split; [reflexivity | exact Hin].
  - right. destruct Hin as [->|Hin]; [lia|]. apply IH; assumption.
Qed.

(** Ranking turns the input order around wherever the later element has
    at least the key of the earlier one. *)
Lemma rank_order (l : list A) :
  forall ranked,
    let r := fold_left (fun ranked x => insertBefore key x ranked) l ranked in
    (forall a, In a ranked -> In a r)
    /\ (forall a b, occursBefore ranked a b -> occursBefore r a b)
    /\ (forall a b, In a ranked -> In b l -> key a <= key b -> occursBefore r b a)
    /\ (forall a b, occursBefore l a b -> key a <= key b -> occursBefore r b a).
Proof.
  induction l as [|x l IH]; intros ranked; simpl.
  - repeat split; auto; intros a b; tauto.
  - destruct (IH (insertBefore key x ranked)) as (Hin & Hkeep & Hnew & Hold).
    repeat split.
    + intros a Ha. apply Hin, insertBefore_In. right. exact Ha.
    + intros a b H. apply Hkeep, insertBefore_keeps_order. exact H.
    + intros a b Ha [<-|Hb] Hle.
      * apply Hkeep, insertBefore_in_front; assumption.
      * apply Hnew; auto. apply insertBefore_In. right. exact Ha.
    + intros a b [[-> Hb]|H] Hle.
      * apply Hnew; auto. apply insertBefore_In. left. reflexivity.
      * apply Hold; assumption.
Qed.

(** The engine's sort with this comparator is insertion in front of the
    first element that is not greater: among equal keys the element that
    came later in the input ends up first. *)
Lemma sort_rankLatestFirst (l : list A) :
  JsArray.sort comparefn l = rankLatestFirst key l.
Proof.
  unfold JsArray.sort, rankLatestFirst.
  destruct l as [|x [|y rest]]; try reflexivity.
  pose proof (CountAndMakeRun_spec (x :: y :: rest)) as Hspec.
  unfold JsArray.CountAndMakeRun in *. rewrite comparefn_neg in *.
  destruct (Z.leb_spec (key x) (key y)) as [Hxy|Hxy].
  - set (n := (2 + JsArray.extendRun comparefn true y rest)%nat) in *.
    destruct Hspec as [Hs _].
    erewrite BinaryInsertionSort_rank by exact Hs.
    rewrite (@fold_left_firstn_skipn
               (fun ranked x => insertBefore key x ranked) n (x :: y :: rest) []).
    f_equal. rewrite rank_ascending_run.
    + rewrite app_nil_r. reflexivity.
    + apply Sorted_StronglySorted; [apply ascending_trans|].
      unfold n. simpl. constructor; [apply extendRun_descending; assumption|].
      constructor. unfold ascending. lia.
    + intros a z [].
  - set (n := (2 + JsArray.extendRun comparefn false y rest)%nat) in *.
    destruct Hspec as [Hs _].
    erewrite BinaryInsertionSort_rank by exact Hs.
    rewrite (@fold_left_firstn_skipn
               (fun ranked x => insertBefore key x ranked) n (x :: y :: rest) []).
    f_equal. rewrite rank_descending_run; [reflexivity|].
    apply Sorted_StronglySorted; [apply strictlyDescending_trans|].
    unfold n. simpl. constructor; [apply extendRun_strict|].
    constructor. unfold strictlyDescending. lia.
Qed.

End SortByKey.

(* ------------------------------------------------------------------ *)
(** ** Frame reasoning                                                 *)
(* ------------------------------------------------------------------ *)

Lemma Frame_refl (w : World) : Frame w w.
Proof. constructor; reflexivity. Qed.

Lemma Frame_trans (w1 w2 w3 : World) :
  Frame w1 w2 -> Frame w2 w3 -> Frame w1 w3.
Proof.
  intros [a1 b1 c1 d1 e1] [a2 b2 c2 d2 e2].
  constructor; congruence.
Qed.

Lemma Frame_logCalls (cs : list Call) (w : World) : Frame w (logCalls cs w).
Proof. constructor; reflexivity. Qed.

Create HintDb frame.

Lemma calm_keeps (A : Type) (m : M A) : calm m -> keeps m.
Proof. intros H w. apply H. Qed.

Lemma calm_ret (A : Type) (a : A) : calm (ret a).
Proof. intros w. split; [apply Frame_refl | intros []]. Qed.

Lemma calm_throw (A : Type) (e : Err) :
  ~ rejected (@Throw A e) -> calm (@throw A e).
Proof. intros H w. split; [apply Frame_refl | exact H]. Qed.

Lemma calm_exit (A : Type) (r : ToolResult) :
  ~ rejected (@Return A r) -> calm (@exit A r).
Proof. intros H w. split; [apply Frame_refl | exact H]. Qed.

Lemma calm_bind (A B : Type) (m : M A) (k : A -> M B) :
  calm m -> (forall a, calm (k a)) -> calm (bind m k).
Proof.
  intros Hm Hk w. unfold bind. specialize (Hm w).
  destruct (m w) as [[a|r|e] w1]; simpl in *; auto.
  destruct Hm as [Hf _]. destruct (Hk a w1) as [Hf' Hr'].
  split; [eapply Frame_trans; eauto | exact Hr'].
Qed.

Lemma calm_tryCatch (A : Type) (m : M A) (h : Err -> M A) :
  calm m -> (forall e, calm (h e)) -> calm (tryCatch m h).
Proof.
  intros Hm Hh w. unfold tryCatch. specialize (Hm w).
  destruct (m w) as [[a|r|e] w1]; simpl in *; auto.
  destruct Hm as [Hf _]. destruct (Hh e w1) as [Hf' Hr'].
  split; [eapply Frame_trans; eauto | exact Hr'].
Qed.

Lemma keeps_bind (A B : Type) (m : M A) (k : A -> M B) :
  keeps m -> (forall a, keeps (k a)) -> keeps (bind m k).
Proof.
  intros Hm Hk w. unfold bind. specialize (Hm w).
  destruct (m w) as [[a|r|e] w1]; simpl in *; auto.
  eapply Frame_trans; [exact Hm | apply Hk].
Qed.

Lemma keeps_exit (A : Type) (r : ToolResult) : keeps (@exit A r).
Proof. intros w. apply Frame_refl. Qed.

Lemma keeps_tryCatch (A : Type) (m : M A) (h : Err -> M A) :
  keeps m -> (forall e, keeps (h e)) -> keeps (tryCatch m h).
Proof.
  intros Hm Hh w. unfold tryCatch. specialize (Hm w).
  destruct (m w) as [[a|r|e] w1]; simpl in *; auto.
  eapply Frame_trans; [exact Hm | apply Hh].
Qed.

Lemma calm_call (E : Env) (c : Call) : calm (call E c).
Proof.
  intros w. unfold call.
  destruct (provider E c); (split; [apply Frame_logCalls | intros []]).
Qed.

Lemma calm_promiseAll2 (E : Env) (c1 c2 : Call) : calm (promiseAll2 E c1 c2).
Proof.
  intros w. unfold promiseAll2.
  destruct (provider E c1), (provider E c2);
    (split; [apply Frame_logCalls | intros []]).
Qed.

Lemma calm_findUser (a : string) : calm (findUser a).
Proof. intros w. split; [apply Frame_refl | intros []]. Qed.

Lemma calm_agentSwitchNetwork (E : Env) (c : Z) : calm (agentSwitchNetwork E c).
Proof.
  intros w. unfold agentSwitchNetwork.
  destruct (agent E) as [switch|]; [destruct (switch c)|];
    (split; [constructor; reflexivity | intros []]).
Qed.

Lemma calm_emit_networkSwitch (E : Env) (r : string) (n : Networks.NetworkConfig) :
  calm (emitTo E r (NetworkSwitch n)).
Proof.
  intros w. unfold emitTo.
  destruct (ioInstance w) eqn:Hio; [|split; [apply Frame_refl | intros []]].
  destruct (channelAccepts E _); [|split; [apply Frame_refl | intros []]].
  split; [|intros []].
  constructor; simpl; auto.
  unfold pendingPublished. simpl. rewrite filter_app. simpl. apply app_nil_r.
Qed.

#[local] Hint Resolve calm_ret calm_call calm_promiseAll2 calm_findUser
  calm_agentSwitchNetwork calm_emit_networkSwitch : frame.

(** Descends through binds, handlers and case distinctions. *)
Ltac calm :=
  repeat first
    [ progress intros
    | apply calm_bind
    | apply calm_tryCatch
    | solve [auto with frame]
    | solve [apply calm_throw; intros []]
    | solve [apply calm_exit; intros []]
    | match goal with
      | |- calm (match ?x with _ => _ end) => destruct x
      | |- calm (let (_, _) := ?x in _) => destruct x
      | |- calm (if ?b then _ else _) => destruct b
      end ].

Ltac frame :=
  repeat first
    [ progress intros
    | apply keeps_bind
    | apply keeps_tryCatch
    | apply keeps_exit
    | solve [auto with frame]
    | solve [apply calm_keeps; calm]
    | match goal with
      | |- keeps (match ?x with _ => _ end) => destruct x
      | |- keeps (let (_, _) := ?x in _) => destruct x
      | |- keeps (if ?b then _ else _) => destruct b
      end ].

Lemma calm_callInt (E : Env) (c : Call) : calm (callInt E c).
Proof. unfold callInt. calm. Qed.

Lemma calm_liftResult (A : Type) (r : Err + A) :
  (forall e, r = inl e -> ~ rejected (@Throw A e)) -> calm (liftResult r).
Proof.
  destruct r as [e|a]; simpl; intros H;
    [apply calm_throw; apply H; reflexivity | apply calm_ret].
Qed.

Lemma calm_parseUnitsM (E : Env) (a : string) (d : Z) : calm (parseUnitsM E a d).
Proof. unfold parseUnitsM. calm. Qed.

Lemma calm_encodeFunctionData (E : Env) (c : CallData) :
  calm (encodeFunctionData E c).
Proof. unfold encodeFunctionData. calm. Qed.

Lemma calm_toQuantity (n : Z) : calm (toQuantity n).
Proof. unfold toQuantity. calm. Qed.

#[local] Hint Resolve calm_callInt calm_parseUnitsM calm_encodeFunctionData
  calm_toQuantity : frame.

Lemma calm_resolveEns (E : Env) (r : string) (c : Z) :
  calm (Transfer.resolveEns E r c).
Proof. unfold Transfer.resolveEns. calm. Qed.

#[local] Hint Resolve calm_resolveEns : frame.

Lemma calm_resolveRecipient (E : Env) (r u : string) (c : Z) :
  calm (Transfer.resolveRecipient E r u c).
Proof. unfold Transfer.resolveRecipient. calm. Qed.

Lemma calm_switchNetwork (E : Env) (n : option string) (u : string) (c : Z) :
  calm (Transfer.switchNetwork E n u c).
Proof. unfold Transfer.switchNetwork. calm. Qed.

Lemma calm_fetchTokenMetadata (E : Env) (c : Z) (t : string) (d : Z * string) :
  calm (Transfer.fetchTokenMetadata E c t d).
Proof. unfold Transfer.fetchTokenMetadata. calm. Qed.

#[local] Hint Resolve calm_resolveRecipient calm_switchNetwork
  calm_fetchTokenMetadata : frame.

Lemma keeps_transfer_checkBalance (E : Env) (q : Call) (a : Z) (s : string) :
  keeps (Transfer.checkBalance E q a s).
Proof.
  unfold Transfer.checkBalance. frame.
Qed.

Lemma keeps_prepare (E : Env) (t : Transfer.TokenRef) (r u a : string) (c : Z) :
  keeps (Transfer.prepare E t r u a c).
Proof.
  unfold Transfer.prepare. pose proof keeps_transfer_checkBalance as Hc. frame.
Qed.

#[local] Hint Resolve keeps_transfer_checkBalance keeps_prepare : frame.

Lemma calm_transfer_resolveToken (E : Env) (t : option string) (c : Z) :
  calm (liftResult (Transfer.resolveToken E t c)).
Proof.
  apply calm_liftResult. unfold Transfer.resolveToken, Transfer.resolveTokenWith.
  intros e H.
  repeat match type of H with
         | context [match ?x with _ => _ end] => destruct x
         | context [if ?b then _ else _] => destruct b
         end; inversion H; subst; intros [].
Qed.

Lemma calm_approve_resolveToken (E : Env) (t : string) (c : Z) :
  calm (liftResult (Approve.resolveToken E t c)).
Proof.
  apply calm_liftResult. unfold Approve.resolveToken, Approve.resolveTokenWith.
  intros e H.
  repeat match type of H with
         | context [match ?x with _ => _ end] => destruct x
         | context [if ?b then _ else _] => destruct b
         end; inversion H; subst; intros [].
Qed.

Lemma calm_resolveSpender (E : Env) (s : string) (c : Z) :
  calm (liftResult (Approve.resolveSpender E s c)).
Proof.
  apply calm_liftResult. unfold Approve.resolveSpender.
  intros e H.
  repeat match type of H with
         | context [match ?x with _ => _ end] => destruct x
         | context [if ?b then _ else _] => destruct b
         end; inversion H; subst; intros [].
Qed.

Lemma calm_approvalAmount (E : Env) (a : string) (d : Z) :
  calm (Approve.approvalAmount E a d).
Proof. unfold Approve.approvalAmount. calm. Qed.

Lemma calm_getUniswapV3Quote (E : Env) (c : Z) (q i o : string) (a f : Z) :
  calm (Swap.getUniswapV3Quote E c q i o a f).
Proof. unfold Swap.getUniswapV3Quote. calm. Qed.

Lemma calm_getV2Quote (E : Env) (c : Z) (r i o : string) (a : Z) :
  calm (Swap.getV2Quote E c r i o a).
Proof. unfold Swap.getV2Quote. calm. Qed.

#[local] Hint Resolve calm_transfer_resolveToken calm_approve_resolveToken
  calm_resolveSpender calm_approvalAmount calm_getUniswapV3Quote
  calm_getV2Quote : frame.

Lemma calm_tryFeeTiers (E : Env) (c : Z) (q i o : string) (a : Z)
      (fees : list Z) (a0 : option Z) :
  calm (Swap.tryFeeTiers E c q i o a fees a0).
Proof.
  revert a0. induction fees as [|fee fees IH]; intros a0; simpl; calm.
Qed.

#[local] Hint Resolve calm_tryFeeTiers : frame.

Lemma calm_quoteDex (E : Env) (c : Z) (i o : string) (a : Z) (d : Dex.DexConfig) :
  calm (Swap.quoteDex E c i o a d).
Proof. unfold Swap.quoteDex. calm. Qed.

#[local] Hint Resolve calm_quoteDex : frame.

Lemma calm_formatUnitsM (E : Env) (n d : Z) : calm (formatUnitsM E n d).
Proof. unfold formatUnitsM. calm. Qed.

#[local] Hint Resolve calm_formatUnitsM : frame.

Lemma calm_pushQuote (E : Env) (decimals : Z) (d : Dex.DexConfig)
      (a : option Z) (quotes : list Swap.SwapQuote) :
  calm (Swap.pushQuote E decimals d a quotes).
Proof. unfold Swap.pushQuote. calm. Qed.

#[local] Hint Resolve calm_pushQuote : frame.

Lemma calm_collectQuotes (E : Env) (c : Z) (i o : string) (a t : Z)
      (dexes : list Dex.DexConfig) (quotes : list Swap.SwapQuote) :
  calm (Swap.collectQuotes E c i o a t dexes quotes).
Proof.
  revert quotes. induction dexes as [|d dexes IH]; intros quotes; simpl; calm.
Qed.

#[local] Hint Resolve calm_collectQuotes : frame.

Lemma calm_getAllQuotes (E : Env) (c : Z) (i o : string) (a t : Z) :
  calm (Swap.getAllQuotes E c i o a t).
Proof. unfold Swap.getAllQuotes. calm. Qed.

#[local] Hint Resolve calm_getAllQuotes : frame.

Lemma calm_selectQuotes (E : Env) (c : Z) (f t : Swap.TokenRef) (a : Z)
      (p : option string) :
  calm (Swap.selectQuotes E c f t a p).
Proof. unfold Swap.selectQuotes. calm. Qed.

Lemma keeps_swap_checkBalance (E : Env) (c : Z) (u : string) (f : Swap.TokenRef)
      (a : Z) :
  keeps (Swap.checkBalance E c u f a).
Proof.
  unfold Swap.checkBalance. frame.
Qed.

#[local] Hint Resolve keeps_swap_checkBalance : frame.

Lemma calm_checkAllowance (E : Env) (c : Z) (u : string) (f : Swap.TokenRef)
      (s : option string) (a : Z) :
  calm (Swap.checkAllowance E c u f s a).
Proof. unfold Swap.checkAllowance. calm. Qed.

Lemma calm_buildSwapTransaction (E : Env) (d : Dex.DexConfig) (c : Z)
      (i o : Swap.TokenRef) (a m : Z) (r : string) (dl : Z) :
  calm (Swap.buildSwapTransaction E d c i o a m r dl).
Proof. unfold Swap.buildSwapTransaction. calm. Qed.

#[local] Hint Resolve calm_selectQuotes calm_checkAllowance
  calm_buildSwapTransaction : frame.

(* ------------------------------------------------------------------ *)
(** ** Persisting and publishing                                       *)
(* ------------------------------------------------------------------ *)

Lemma settles_frame (E : Env) (m : M ToolResult) : keeps m -> settles E m.
Proof. intros H w. left. apply H. Qed.

Lemma Stored_frame (E : Env) (w w1 w2 : World) (row : Transaction) :
  Frame w w1 -> Stored E w1 w2 row -> Stored E w w2 row.
Proof.
  intros [Ht Hp Hc Hi Hu] (H1 & H2 & H3). unfold Stored.
  rewrite <- Ht, <- Hp, <- Hc, <- Hi. auto.
Qed.

Lemma settles_bind (E : Env) (A : Type) (m : M A) (k : A -> M ToolResult) :
  keeps m -> (forall a, settles E (k a)) -> settles E (bind m k).
Proof.
  intros Hm Hk w. unfold bind. specialize (Hm w).
  destruct (m w) as [[a|r|e] w1]; simpl in *; auto.
  destruct (Hk a w1) as [Hf|(row & s & Hv & Hs)].
  - left. eapply Frame_trans; eauto.
  - right. exists row, s. split; [exact Hv|]. eapply Stored_frame; eauto.
Qed.

Lemma calm_requireUser (userAddress : string) : calm (requireUser userAddress).
Proof. unfold requireUser. calm. Qed.

#[local] Hint Resolve calm_requireUser : frame.

(** What [storeAndPublish] does, case by case. *)
Lemma storeAndPublish_cases (E : Env) (ctx : ToolContext) (userAddress : string)
      (user : User)
      (type : TxType) (chainId : Z) (to : option string) (value : Z)
      (data : CallData) (buttonText : string) (details : Details)
      (approvalData : option ApprovalData) (logMessage : string) (w : World) :
  let result := storeAndPublish E ctx userAddress user type chainId to value data
                  buttonText details approvalData logMessage w in
  (Frame w (snd result) /\ fst result = Throw EPersistence)
  \/
  (exists row, fst result = Val row /\ Stored E w (snd result) row /\
               tx_id row = List.length (transactions w) /\
               td_type (tx_fields row) = type /\
               td_to (tx_fields row) = to /\
               td_value (tx_fields row) = value /\
               td_data (tx_fields row) = data /\
               td_buttonText (tx_fields row) = buttonText /\
               td_details (tx_fields row) = details /\
               td_chainId (tx_fields row) = chainId).
Proof.
  unfold storeAndPublish, bind, createTransaction; simpl.
  destruct to as [to|]; simpl.
  2:{ left. split; [apply Frame_refl | auto]. }
  destruct (storeAccepts E _) eqn:Hstore; simpl.
  2:{ left. split; [apply Frame_refl | auto]. }
  right. unfold tryCatch, emitTo, consoleError; simpl.
  destruct (ioInstance w) eqn:Hio; simpl.
  - match goal with |- context [channelAccepts E ?e] =>
      destruct (channelAccepts E e) eqn:Hch; set (ev := e) in * end; simpl.
    + eexists. split; [reflexivity|]. repeat split; simpl; auto.
      left. split; [exact Hio|]. exists ev. repeat split; auto.
      unfold pendingPublished. simpl. rewrite filter_app. reflexivity.
    + eexists. split; [reflexivity|]. repeat split; simpl; auto.
      right. split; [right; exists ev; exact Hch|]. split; [reflexivity|].
      exists logMessage. reflexivity.
  - eexists. split; [reflexivity|]. repeat split; simpl; auto.
    right. split; [left; exact Hio|]. split; [reflexivity|].
    exists logMessage. reflexivity.
Qed.

Lemma persistAndPublish_eq (E : Env) (ctx : ToolContext) (userAddress : string)
      (type : TxType) (chainId : Z) (to : option string) (value : Z)
      (data : CallData) (buttonText : string) (details : Details)
      (approvalData : option ApprovalData) (logMessage : string) (w : World) :
  persistAndPublish E ctx userAddress type chainId to value data
    buttonText details approvalData logMessage w
  = match find (fun u => String.eqb (user_address u) userAddress) (users w) with
    | Some user =>
        storeAndPublish E ctx userAddress user type chainId to value data
          buttonText details approvalData logMessage w
    | None => (Return (Failure EUserNotFound), w)
    end.
Proof.
  unfold persistAndPublish, requireUser, findUser, bind.
  destruct (find _ (users w)); reflexivity.
Qed.

(** What [persistAndPublish] does, case by case. *)
Lemma persistAndPublish_cases (E : Env) (ctx : ToolContext) (userAddress : string)
      (type : TxType) (chainId : Z) (to : option string) (value : Z)
      (data : CallData) (buttonText : string) (details : Details)
      (approvalData : option ApprovalData) (logMessage : string) (w : World) :
  let result := persistAndPublish E ctx userAddress type chainId to value data
                  buttonText details approvalData logMessage w in
  (Frame w (snd result) /\
   (fst result = Return (Failure EUserNotFound) \/ fst result = Throw EPersistence))
  \/
  (exists row, fst result = Val row /\ Stored E w (snd result) row /\
               tx_id row = List.length (transactions w) /\
               td_type (tx_fields row) = type /\
               td_to (tx_fields row) = to /\
               td_value (tx_fields row) = value /\
               td_data (tx_fields row) = data /\
               td_buttonText (tx_fields row) = buttonText /\
               td_details (tx_fields row) = details /\
               td_chainId (tx_fields row) = chainId).
Proof.
  intros result. subst result.
  rewrite persistAndPublish_eq.
  destruct (find _ (users w)) as [user|].
  2:{ left. split; [apply Frame_refl | auto]. }
  destruct (storeAndPublish_cases E ctx userAddress user type chainId to value
              data buttonText details approvalData logMessage w)
    as [[Hf He]|Hrow]; [left; auto | right; exact Hrow].
Qed.

Lemma settles_storeAndPublish (E : Env) (ctx : ToolContext) (userAddress : string)
      (user : User)
      (type : TxType) (chainId : Z) (to : option string) (value : Z)
      (data : CallData) (buttonText : string) (details : Details)
      (approvalData : option ApprovalData) (logMessage : string) (s : Summary) :
  settles E (storeAndPublish E ctx userAddress user type chainId to value data
               buttonText details approvalData logMessage ;;; ret (Success s)).
Proof.
  intros w.
  pose proof (storeAndPublish_cases E ctx userAddress user type chainId to value
                data buttonText details approvalData logMessage w) as H.
  unfold bind. simpl in H.
  destruct (storeAndPublish _ _ _ _ _ _ _ _ _ _ _ _ _ w) as [[row|r|e] w1];
    simpl in *.
  - destruct H as [[_ H]|(row' & Hv & Hs & _)]; try discriminate.
    inversion Hv; subst. right. exists row', s. split; [reflexivity | exact Hs].
  - destruct H as [[Hf _]|(row' & Hv & _)]; [left; exact Hf | discriminate].
  - destruct H as [[Hf _]|(row' & Hv & _)]; [left; exact Hf | discriminate].
Qed.

Lemma settles_persistAndPublish (E : Env) (ctx : ToolContext) (userAddress : string)
      (type : TxType) (chainId : Z) (to : option string) (value : Z)
      (data : CallData) (buttonText : string) (details : Details)
      (approvalData : option ApprovalData) (logMessage : string) (s : Summary) :
  settles E (persistAndPublish E ctx userAddress type chainId to value data
               buttonText details approvalData logMessage ;;; ret (Success s)).
Proof.
  intros w.
  pose proof (persistAndPublish_cases E ctx userAddress type chainId to value
                data buttonText details approvalData logMessage w) as H.
  unfold bind. simpl in H.
  destruct (persistAndPublish _ _ _ _ _ _ _ _ _ _ _ _ w) as [[row|r|e] w1];
    simpl in *.
  - destruct H as [[_ [H|H]]|(row' & Hv & Hs & _)]; try discriminate.
    inversion Hv; subst. right. exists row', s. split; [reflexivity | exact Hs].
  - destruct H as [[Hf _]|(row' & Hv & _)]; [left; exact Hf | discriminate].
  - destruct H as [[Hf _]|(row' & Hv & _)]; [left; exact Hf | discriminate].
Qed.

Ltac settle :=
  repeat first
    [ progress intros
    | apply settles_persistAndPublish
    | apply settles_storeAndPublish
    | apply settles_bind; [solve [frame] |]
    | solve [apply settles_frame; frame]
    | match goal with
      | |- settles _ (match ?x with _ => _ end) => destruct x
      | |- settles _ (let (_, _) := ?x in _) => destruct x
      | |- settles _ (if ?b then _ else _) => destruct b
      end ].

Lemma settles_transfer (E : Env) (p : Transfer.Params) (ctx : ToolContext)
      (userAddress : string) :
  settles E (Transfer.body E p ctx userAddress).
Proof.
  unfold Transfer.body. settle.
Qed.

Lemma settles_approve (E : Env) (p : Approve.Params) (ctx : ToolContext)
      (userAddress : string) :
  settles E (Approve.body E p ctx userAddress).
Proof. unfold Approve.body. settle. Qed.

Lemma settles_finish (E : Env) (p : Swap.Params) (ctx : ToolContext)
      (userAddress : string) (chainId : Z) (fromToken toToken : Swap.TokenRef)
      (amountIn : Z) (slippageBps : option Z) :
  settles E (Swap.finish E p ctx userAddress chainId fromToken toToken amountIn
                         slippageBps).
Proof. unfold Swap.finish. settle. Qed.

Lemma settles_swap (E : Env) (p : Swap.Params) (ctx : ToolContext)
      (userAddress : string) :
  settles E (Swap.body E p ctx userAddress).
Proof.
  unfold Swap.body. settle.
Qed.

Lemma run_settles (E : Env) (m : M ToolResult) :
  settles E m -> StoresOrSucceeds E (run m).
Proof.
  intros H w. unfold run. specialize (H w).
  destruct (m w) as [[r|r|e] w1]; simpl in *.
  - destruct H as [[Ht Hp]|(row & s & Hv & Hs)]; [left; auto|].
    right. inversion Hv; subst. exists row, s. auto.
  - destruct H as [[Ht Hp]|(row & s & Hv & Hs)]; [left; auto | discriminate].
  - destruct H as [[Ht Hp]|(row & s & Hv & Hs)]; [left; auto | discriminate].
Qed.

Lemma transfer_handler_outcome (E : Env) (p : Transfer.Params) (ctx : ToolContext) :
  StoresOrSucceeds E (Transfer.handler E p ctx).
Proof.
  unfold Transfer.handler.
  destruct (JsString.truthy (ctx_userAddress ctx)) as [userAddress|].
  - apply run_settles, settles_transfer.
  - intros w. left. split; reflexivity.
Qed.

Lemma approve_handler_outcome (E : Env) (p : Approve.Params) (ctx : ToolContext) :
  StoresOrSucceeds E (Approve.handler E p ctx).
Proof.
  unfold Approve.handler.
  destruct (JsString.truthy (ctx_userAddress ctx)) as [userAddress|].
  - apply run_settles, settles_approve.
  - intros w. left. split; reflexivity.
Qed.

Lemma swap_handler_outcome (E : Env) (p : Swap.Params) (ctx : ToolContext) :
  StoresOrSucceeds E (Swap.handler E p ctx).
Proof.
  unfold Swap.handler.
  destruct (JsString.truthy (ctx_userAddress ctx)) as [userAddress|].
  - intros w. pose proof (settles_swap E p ctx userAddress w) as H.
    unfold run, tryCatch, bind, consoleError, throw.
    destruct (Swap.body E p ctx userAddress w) as [[r|r|e] w1]; simpl in *.
    + destruct H as [[Ht Hp]|(row & s & Hv & Hs)]; [left; auto|].
      right. inversion Hv; subst. exists row, s. auto.
    + destruct H as [[Ht Hp]|(row & s & Hv & Hs)]; [left; auto | discriminate].
    + destruct H as [[Ht Hp]|(row & s & Hv & Hs)]; [left; auto | discriminate].
  - intros w. left. split; reflexivity.
Qed.

(* ------------------------------------------------------------------ *)
(** ** Preflight balance check                                         *)
(* ------------------------------------------------------------------ *)

Lemma callInt_reply (E : Env) (c : Call) (n : Z) (w : World) :
  replyInt E c = Some n -> callInt E c w = (Val n, logCalls [c] w).
Proof.
  unfold replyInt, callInt, call, bind. intros H.
  destruct (provider E c) as [[m|s|]|]; try discriminate.
  inversion H; subst. reflexivity.
Qed.

Lemma callInt_no_reply (E : Env) (c : Call) (w : World) :
  replyInt E c = None -> callInt E c w = (Throw (ERpc c), logCalls [c] w).
Proof.
  unfold replyInt, callInt, call, bind, throw. intros H.
  destruct (provider E c) as [[m|s|]|]; try discriminate; reflexivity.
Qed.

Lemma transfer_checkBalance_spec (E : Env) (query : Call) (amountWei : Z)
      (sym : string) (w : World) (b : Z) :
  replyInt E query = Some b ->
  Transfer.checkBalance E query amountWei sym w =
  (if b <? amountWei
   then Return (Failure (EInsufficientBalance sym b))
   else Val tt, logCalls [query] w).
Proof.
  intros H. unfold Transfer.checkBalance, tryCatch, bind.
  erewrite callInt_reply by exact H.
  destruct (b <? amountWei); reflexivity.
Qed.

Lemma swap_checkBalance_spec (E : Env) (chainId : Z) (userAddress : string)
      (fromToken : Swap.TokenRef) (amountIn : Z) (w : World) (b : Z) :
  let query := if Swap.isNative fromToken
               then CallGetBalance chainId userAddress
               else CallBalanceOf chainId (Swap.address fromToken) userAddress in
  replyInt E query = Some b ->
  Swap.checkBalance E chainId userAddress fromToken amountIn w =
  (if b <? amountIn
   then Return (Failure (EInsufficientBalance (Swap.symbol fromToken) b))
   else Val tt, logCalls [query] w).
Proof.
  intros query H. unfold Swap.checkBalance, bind. fold query.
  erewrite callInt_reply by exact H.
  destruct (b <? amountIn); reflexivity.
Qed.

(** The transfer preparation from the balance check on: it rejects
    exactly when the balance is below the amount. *)
Lemma prepare_native_eq (E : Env) (tokenInfo : Transfer.TokenRef)
      (recipient userAddress amount : string) (chainId : Z) (w : World)
      (amountWei b : Z) :
  JsString.truthy (Transfer.token_address tokenInfo) = None ->
  parseUnits E amount 18 = Some amountWei ->
  replyInt E (CallGetBalance chainId userAddress) = Some b ->
  Transfer.prepare E tokenInfo recipient userAddress amount chainId w =
  let w1 := logCalls [CallGetBalance chainId userAddress] w in
  if b <? amountWei
  then (Return (Failure (EInsufficientBalance (Transfer.token_symbol tokenInfo) b)), w1)
  else (value <- toQuantity amountWei ;;
        ret ({| Transfer.p_to := recipient; Transfer.p_value := value;
                Transfer.p_data := Raw0x; Transfer.p_chainId := chainId |},
             Transfer.token_symbol tokenInfo)) w1.
Proof.
  intros Hn Hp Hb. unfold Transfer.prepare. rewrite Hn.
  unfold bind at 1. unfold parseUnitsM. rewrite Hp. unfold ret at 1.
  unfold bind at 1. erewrite transfer_checkBalance_spec by exact Hb.
  destruct (b <? amountWei); reflexivity.
Qed.

Lemma prepare_token_eq (E : Env) (tokenInfo : Transfer.TokenRef)
      (recipient userAddress amount : string) (chainId : Z) (w w1 : World)
      (tokenAddress sym : string) (tokenDecimals amountWei b : Z) :
  JsString.truthy (Transfer.token_address tokenInfo) = Some tokenAddress ->
  Transfer.fetchTokenMetadata E chainId tokenAddress
    (Transfer.token_decimals tokenInfo, Transfer.token_symbol tokenInfo) w
  = (Val (tokenDecimals, sym), w1) ->
  parseUnits E amount tokenDecimals = Some amountWei ->
  replyInt E (CallBalanceOf chainId tokenAddress userAddress) = Some b ->
  Transfer.prepare E tokenInfo recipient userAddress amount chainId w =
  let w2 := logCalls [CallBalanceOf chainId tokenAddress userAddress] w1 in
  if b <? amountWei
  then (Return (Failure (EInsufficientBalance sym b)), w2)
  else (transferData <- encodeFunctionData E (Erc20Transfer recipient amountWei) ;;
        ret ({| Transfer.p_to := tokenAddress; Transfer.p_value := 0;
                Transfer.p_data := transferData; Transfer.p_chainId := chainId |},
             sym)) w2.
Proof.
  intros Hn Hf Hp Hb. unfold Transfer.prepare. rewrite Hn.
  unfold bind at 1. rewrite Hf.
  unfold bind at 1. unfold parseUnitsM. rewrite Hp. unfold ret at 1.
  unfold bind at 1. erewrite transfer_checkBalance_spec by exact Hb.
  destruct (b <? amountWei); reflexivity.
Qed.

Lemma fetchTokenMetadata_returns (E : Env) (chainId : Z) (tokenAddress : string)
      (defaults : Z * string) (w : World) :
  exists meta,
    Transfer.fetchTokenMetadata E chainId tokenAddress defaults w =
    (Val meta, logCalls [CallDecimals chainId tokenAddress;
                         CallSymbol chainId tokenAddress] w).
Proof.
  unfold Transfer.fetchTokenMetadata, tryCatch, bind, promiseAll2, throw, ret.
  destruct (provider E (CallDecimals chainId tokenAddress)) as [[d|d|]|];
    destruct (provider E (CallSymbol chainId tokenAddress)) as [[s|s|]|];
    eexists; reflexivity.
Qed.

Lemma calm_neverRejects (A : Type) (m : M A) : calm m -> neverRejects m.
Proof. intros H w. apply H. Qed.

Lemma neverEndsRejected_bind (A : Type) (m : M A) (k : A -> M ToolResult) :
  neverRejects m -> (forall a, neverEndsRejected (k a)) ->
  neverEndsRejected (bind m k).
Proof.
  intros Hm Hk w. unfold bind. specialize (Hm w).
  destruct (m w) as [[a|r|e] w1]; simpl in *.
  - apply Hk.
  - destruct r as [s|[]]; simpl in *; auto.
  - destruct e; simpl in *; auto.
Qed.

Lemma neverEndsRejected_exit (r : ToolResult) :
  ~ isBalanceRejection r -> neverEndsRejected (exit r).
Proof. intros H w. exact H. Qed.

Lemma neverEndsRejected_throw (e : Err) :
  ~ isBalanceRejection (Failure e) -> neverEndsRejected (throw e).
Proof. intros H w. exact H. Qed.

Lemma neverEndsRejected_persist (E : Env) (ctx : ToolContext) (userAddress : string)
      (type : TxType) (chainId : Z) (to : option string) (value : Z)
      (data : CallData) (buttonText : string) (details : Details)
      (approvalData : option ApprovalData) (logMessage : string) (s : Summary) :
  neverEndsRejected (persistAndPublish E ctx userAddress type chainId to value
                       data buttonText details approvalData logMessage ;;;
                     ret (Success s)).
Proof.
  intros w.
  pose proof (persistAndPublish_cases E ctx userAddress type chainId to value
                data buttonText details approvalData logMessage w) as H.
  unfold bind. simpl in H.
  destruct (persistAndPublish _ _ _ _ _ _ _ _ _ _ _ _ w) as [[row|r|e] w1];
    simpl in *.
  - intros [].
  - destruct H as [[_ [H|H]]|(row & H & _)]; inversion H; subst; intros [].
  - destruct H as [[_ [H|H]]|(row & H & _)]; inversion H; subst; intros [].
Qed.

Lemma neverEndsRejected_store (E : Env) (ctx : ToolContext) (userAddress : string)
      (user : User)
      (type : TxType) (chainId : Z) (to : option string) (value : Z)
      (data : CallData) (buttonText : string) (details : Details)
      (approvalData : option ApprovalData) (logMessage : string) (s : Summary) :
  neverEndsRejected (storeAndPublish E ctx userAddress user type chainId to value
                       data buttonText details approvalData logMessage ;;;
                     ret (Success s)).
Proof.
  intros w.
  pose proof (storeAndPublish_cases E ctx userAddress user type chainId to value
                data buttonText details approvalData logMessage w) as H.
  unfold bind. simpl in H.
  destruct (storeAndPublish _ _ _ _ _ _ _ _ _ _ _ _ _ w) as [[row|r|e] w1];
    simpl in *.
  - intros [].
  - destruct H as [[_ H]|(row & H & _)]; inversion H; subst; intros [].
  - destruct H as [[_ H]|(row & H & _)]; inversion H; subst; intros [].
Qed.

Ltac quiet :=
  repeat first
    [ progress intros
    | apply neverEndsRejected_persist
    | apply neverEndsRejected_store
    | apply neverEndsRejected_bind; [solve [apply calm_neverRejects; calm] |]
    | solve [apply neverEndsRejected_exit; intros []]
    | solve [apply neverEndsRejected_throw; intros []]
    | match goal with
      | |- neverEndsRejected (match ?x with _ => _ end) => destruct x
      | |- neverEndsRejected (let (_, _) := ?x in _) => destruct x
      | |- neverEndsRejected (if ?b then _ else _) => destruct b
      end ].

(** The swap handler from the quotes on. *)
Lemma neverEndsRejected_finish (E : Env) (p : Swap.Params) (ctx : ToolContext)
      (userAddress : string) (chainId : Z) (fromToken toToken : Swap.TokenRef)
      (amountIn : Z) (slippageBps : option Z) :
  neverEndsRejected
    (Swap.finish E p ctx userAddress chainId fromToken toToken amountIn
                 slippageBps).
Proof. unfold Swap.finish. quiet. Qed.

Lemma swap_handler_result (E : Env) (p : Swap.Params) (ctx : ToolContext)
      (userAddress : string) (w : World) :
  JsString.truthy (ctx_userAddress ctx) = Some userAddress ->
  fst (Swap.handler E p ctx w) =
  outcomeResult (fst (Swap.body E p ctx userAddress w)).
Proof.
  intros Hu. unfold Swap.handler. rewrite Hu.
  unfold run, tryCatch, bind, consoleError, throw.
  destruct (Swap.body E p ctx userAddress w) as [[r|r|e] w1]; reflexivity.
Qed.

(** The swap handler from the balance check on. *)
Lemma swap_handler_from_balance (E : Env) (p : Swap.Params) (ctx : ToolContext)
      (userAddress : string) (fromToken toToken : Swap.TokenRef)
      (amountIn b : Z) (w : World) :
  let query := if Swap.isNative fromToken
               then CallGetBalance (contextChainId ctx) userAddress
               else CallBalanceOf (contextChainId ctx) (Swap.address fromToken)
                                  userAddress in
  JsString.truthy (ctx_userAddress ctx) = Some userAddress ->
  Swap.resolveToken E (Swap.fromToken p) (contextChainId ctx) = Some fromToken ->
  Swap.resolveToken E (Swap.toToken p) (contextChainId ctx) = Some toToken ->
  String.eqb (JsString.toLowerCase (Swap.address fromToken))
             (JsString.toLowerCase (Swap.address toToken)) = false ->
  parseUnits E (Swap.amount p) (Swap.decimals fromToken) = Some amountIn ->
  replyInt E query = Some b ->
  (b < amountIn ->
   Swap.handler E p ctx w =
   (Failure (EInsufficientBalance (Swap.symbol fromToken) b), logCalls [query] w))
  /\ (amountIn <= b -> ~ isBalanceRejection (fst (Swap.handler E p ctx w))).
Proof.
  intros query Hu Hf Ht Hne Hp Hb.
  pose proof (@swap_checkBalance_spec E (contextChainId ctx) userAddress
                fromToken amountIn w b Hb) as Hc.
  fold query in Hc.
  split; intros Hlt.
  - unfold Swap.handler. rewrite Hu.
    unfold run, tryCatch, Swap.body. rewrite Hf, Ht, Hne.
    unfold bind at 1. unfold parseUnitsM. rewrite Hp. unfold ret at 1.
    unfold bind at 1. rewrite Hc.
    destruct (Z.ltb_spec b amountIn); [reflexivity | lia].
  - rewrite (@swap_handler_result E p ctx userAddress w Hu).
    unfold Swap.body. rewrite Hf, Ht, Hne.
    unfold bind at 1. unfold parseUnitsM. rewrite Hp. unfold ret at 1.
    unfold bind at 1. rewrite Hc.
    destruct (Z.ltb_spec b amountIn); [lia|].
    apply neverEndsRejected_finish.
Qed.

Lemma run_fst (m : M ToolResult) (w : World) :
  fst (run m w) = outcomeResult (fst (m w)).
Proof. unfold run. destruct (m w); reflexivity. Qed.

Lemma rejected_outcomeResult (o : Outcome ToolResult) :
  rejected o -> isBalanceRejection (outcomeResult o).
Proof.
  destruct o as [r|[s|e]|e]; simpl; try tauto; destruct e; simpl; tauto.
Qed.

(** With the recipient and the token resolved, the transfer handler
    reports a balance rejection exactly when the preparation rejects. *)
Lemma transfer_handler_rejects_iff (E : Env) (p : Transfer.Params)
      (ctx : ToolContext) (userAddress : string) (w w1 w2 : World)
      (chainId : Z) (recipient : Transfer.Recipient)
      (tokenInfo : Transfer.TokenRef) :
  JsString.truthy (ctx_userAddress ctx) = Some userAddress ->
  Transfer.switchNetwork E (Transfer.network p) userAddress (contextChainId ctx) w
  = (Val chainId, w1) ->
  Transfer.resolveRecipient E (Transfer.to p) userAddress chainId w1
  = (Val recipient, w2) ->
  Transfer.resolveToken E (Transfer.token p) chainId = inr tokenInfo ->
  (isBalanceRejection (fst (Transfer.handler E p ctx w)) <->
   rejected (fst (Transfer.prepare E tokenInfo (Transfer.address recipient)
                    userAddress (Transfer.amount p) chainId w2))).
Proof.
  intros Hu Hs Hr Ht. unfold Transfer.handler. rewrite Hu.
  rewrite run_fst. unfold Transfer.body.
  unfold bind at 1. rewrite Hs.
  unfold bind at 1. rewrite Hr.
  unfold bind at 1. rewrite Ht. unfold liftResult, ret at 1.
  unfold bind at 1.
  destruct (Transfer.prepare E tokenInfo (Transfer.address recipient) userAddress
              (Transfer.amount p) chainId w2) as [[[tx sym]|r|e] w3].
  - split; [|intros []]. intros H. exfalso.
    eapply neverEndsRejected_persist. exact H.
  - simpl. destruct r as [s|[]]; simpl; tauto.
  - simpl. destruct e; simpl; tauto.
Qed.

(** A balance rejection reported by the transfer handler comes from the
    preparation stage. *)
Lemma transfer_rejection_origin (E : Env) (p : Transfer.Params)
      (ctx : ToolContext) (w : World) :
  isBalanceRejection (fst (Transfer.handler E p ctx w)) ->
  exists userAddress chainId w1 recipient w2 tokenInfo,
    JsString.truthy (ctx_userAddress ctx) = Some userAddress /\
    Transfer.switchNetwork E (Transfer.network p) userAddress (contextChainId ctx) w
    = (Val chainId, w1) /\
    Transfer.resolveRecipient E (Transfer.to p) userAddress chainId w1
    = (Val recipient, w2) /\
    Transfer.resolveToken E (Transfer.token p) chainId = inr tokenInfo /\
    rejected (fst (Transfer.prepare E tokenInfo (Transfer.address recipient)
                     userAddress (Transfer.amount p) chainId w2)).
Proof.
  unfold Transfer.handler.
  destruct (JsString.truthy (ctx_userAddress ctx)) as [userAddress|] eqn:Hu;
    [|intros []].
  intros H. exists userAddress. rewrite run_fst in H.
  pose proof (calm_switchNetwork E (Transfer.network p) userAddress
                (contextChainId ctx) w) as [_ Hs].
  destruct (Transfer.switchNetwork E (Transfer.network p) userAddress
              (contextChainId ctx) w) as [[chainId|r|e] w1] eqn:Es.
  2:{ exfalso. apply Hs. unfold Transfer.body, bind in H. rewrite Es in H.
      simpl in *. destruct r as [s|[]]; simpl in *; auto. }
  2:{ exfalso. apply Hs. unfold Transfer.body, bind in H. rewrite Es in H.
      simpl in *. destruct e; simpl in *; auto. }
  pose proof (calm_resolveRecipient E (Transfer.to p) userAddress chainId w1)
    as [_ Hr].
  destruct (Transfer.resolveRecipient E (Transfer.to p) userAddress chainId w1)
    as [[recipient|r|e] w2] eqn:Er.
  2:{ exfalso. apply Hr. unfold Transfer.body in H.
      unfold bind at 1 in H. rewrite Es in H. unfold bind at 1 in H.
      rewrite Er in H. simpl in *. destruct r as [s|[]]; simpl in *; auto. }
  2:{ exfalso. apply Hr. unfold Transfer.body in H.
      unfold bind at 1 in H. rewrite Es in H. unfold bind at 1 in H.
      rewrite Er in H. simpl in *. destruct e; simpl in *; auto. }
  pose proof (calm_transfer_resolveToken E (Transfer.token p) chainId w2)
    as [_ Ht].
  destruct (Transfer.resolveToken E (Transfer.token p) chainId)
    as [e|tokenInfo] eqn:Et.
  { exfalso. apply Ht. unfold Transfer.body in H.
    unfold bind at 1 in H. rewrite Es in H. unfold bind at 1 in H.
    rewrite Er in H. unfold bind at 1 in H. rewrite Et in H.
    simpl in *. destruct e; simpl in *; auto. }
  exists chainId, w1, recipient, w2, tokenInfo.
  repeat split; auto.
  apply (@transfer_handler_rejects_iff E p ctx userAddress w w1 w2 chainId
           recipient tokenInfo Hu Es Er Et).
  unfold Transfer.handler. rewrite Hu. rewrite run_fst. exact H.
Qed.

(* ------------------------------------------------------------------ *)
(** ** Token resolution                                                *)
(* ------------------------------------------------------------------ *)

(** C9. A token input that is a well-formed address resolves to itself
    in the transfer, approval and swap paths, whatever the alias table
    and the token registry contain. *)
Theorem resolveToken_address_unchanged (E : Env)
        (aliases : list (string * string))
        (tokens : list (string * Tokens.TokenConfig))
        (input : string) (chainId : Z) :
  isAddress E EmptyString = false ->
  isAddress E input = true ->
  (exists r, Transfer.resolveTokenWith aliases tokens E (Some input) chainId = inr r
             /\ Transfer.token_address r = Some input)
  /\ (exists r, Approve.resolveTokenWith aliases tokens E input chainId = inr r
                /\ Approve.token_address r = input)
  /\ (exists r, Swap.resolveTokenWith aliases tokens E input chainId = Some r
                /\ Swap.address r = input).
Proof.
  intros Hempty Haddr. repeat split.
  - unfold Transfer.resolveTokenWith, JsString.truthy.
    destruct (String.eqb_spec input EmptyString) as [->|_]; [congruence|].
    rewrite Haddr. eexists. split; reflexivity.
  - unfold Approve.resolveTokenWith. rewrite Haddr. eexists. split; reflexivity.
  - unfold Swap.resolveTokenWith. rewrite Haddr. eexists. split; reflexivity.
Qed.

Lemma resolveToken_address_unchanged_witness :
  (exists r, Transfer.resolveTokenWith Transfer.TOKEN_ALIASES Tokens.TOKENS
               (Sample.env Sample.silent) (Some Sample.usdc) 1 = inr r
             /\ Transfer.token_address r = Some Sample.usdc)
  /\ (exists r, Approve.resolveTokenWith Transfer.TOKEN_ALIASES Tokens.TOKENS
                  (Sample.env Sample.silent) Sample.usdc 1 = inr r
                /\ Approve.token_address r = Sample.usdc)
  /\ (exists r, Swap.resolveTokenWith Transfer.TOKEN_ALIASES Tokens.TOKENS
                  (Sample.env Sample.silent) Sample.usdc 1 = Some r
                /\ Swap.address r = Sample.usdc).
Proof.
  apply resolveToken_address_unchanged; reflexivity.
Defined.

(** The source functions are the instances at their own tables. *)
Lemma resolveToken_address_instances (E : Env) (input : string) (chainId : Z) :
  isAddress E EmptyString = false ->
  isAddress E input = true ->
  Transfer.resolveToken E (Some input) chainId
  = inr {| Transfer.token_address := Some input;
           Transfer.token_symbol := "TOKEN";
           Transfer.token_decimals := 18 |}
  /\ Approve.resolveToken E input chainId
     = inr {| Approve.token_address := input;
              Approve.token_symbol := "TOKEN";
              Approve.token_decimals := 18 |}
  /\ Swap.resolveToken E input chainId
     = Some {| Swap.address := input; Swap.symbol := "TOKEN";
               Swap.decimals := 18; Swap.isNative := false |}.
Proof.
  intros Hempty Haddr.
  unfold Transfer.resolveToken, Transfer.resolveTokenWith,
    Approve.resolveToken, Approve.resolveTokenWith,
    Swap.resolveToken, Swap.resolveTokenWith, JsString.truthy.
  destruct (String.eqb_spec input EmptyString) as [->|_]; [congruence|].
  rewrite Haddr. repeat split.
Qed.

(* ------------------------------------------------------------------ *)
(** ** The self-swap guard                                             *)
(* ------------------------------------------------------------------ *)

(** C10. When the two token inputs of a swap resolve to the same address
    up to case, the handler fails and the world is untouched: no provider
    call (balance, quote, allowance), no stored row, no publication. *)
Theorem swap_same_address_fails_first (E : Env) (p : Swap.Params)
        (ctx : ToolContext) (w : World) (fromToken toToken : Swap.TokenRef) :
  Swap.resolveToken E (Swap.fromToken p) (contextChainId ctx) = Some fromToken ->
  Swap.resolveToken E (Swap.toToken p) (contextChainId ctx) = Some toToken ->
  JsString.toLowerCase (Swap.address fromToken)
  = JsString.toLowerCase (Swap.address toToken) ->
  exists e,
    Swap.handler E p ctx w = (Failure e, w)
    /\ (forall userAddress,
          JsString.truthy (ctx_userAddress ctx) = Some userAddress ->
          e = ESameToken).
Proof.
  intros Hf Ht Heq. unfold Swap.handler.
  destruct (JsString.truthy (ctx_userAddress ctx)) as [userAddress|].
  - exists ESameToken. split; [|reflexivity].
    unfold run, tryCatch, Swap.body. rewrite Hf, Ht, Heq, String.eqb_refl.
    reflexivity.
  - exists EWalletNotConnected. split; [reflexivity | discriminate].
Qed.

(** The native asset against its wrapped form on chain 1. *)
Lemma swap_same_address_fails_first_witness :
  exists e,
    Swap.handler (Sample.env Sample.lowTierOnly) Sample.swapEthForWeth
                 Sample.ctx (Sample.world true)
    = (Failure e, Sample.world true)
    /\ (forall userAddress,
          JsString.truthy (ctx_userAddress Sample.ctx) = Some userAddress ->
          e = ESameToken).
Proof.
  apply (@swap_same_address_fails_first (Sample.env Sample.lowTierOnly)
           Sample.swapEthForWeth Sample.ctx (Sample.world true)
           {| Swap.address := Sample.weth; Swap.symbol := "ETH";
              Swap.decimals := 18; Swap.isNative := true |}
           {| Swap.address := Sample.weth; Swap.symbol := "WETH";
              Swap.decimals := 18; Swap.isNative := false |});
    reflexivity.
Defined.

(** On Sepolia the registry's WETH is not the wrapped-native address, so
    the guard does not fire for that pair. *)
Example sepolia_native_and_wrapped_differ :
  option_map Swap.address (Swap.resolveToken (Sample.env Sample.silent) "ETH" 11155111)
  = Some "0xfFf9976782d46CC05630D1f6eBAb18b2324d6B14"
  /\ option_map Swap.address (Swap.resolveToken (Sample.env Sample.silent) "WETH" 11155111)
     = Some "0x7b79995e5f793A07Bc00c21412e50Ecae098E7f9".
Proof. split; reflexivity. Qed.

(** A native input resolves to the wrapped-native address of the chain,
    so it meets the guard when paired with that address. *)
Lemma swap_native_resolves_to_wrapped (E : Env) (input : string) (chainId : Z)
      (r : Swap.TokenRef) :
  Swap.resolveToken E input chainId = Some r ->
  Swap.isNative r = true ->
  lookupZ chainId Dex.WRAPPED_NATIVE = Some (Swap.address r).
Proof.
  unfold Swap.resolveToken, Swap.resolveTokenWith, JsString.truthy.
  destruct (isAddress E input); [intros H; inversion H; subst; discriminate|].
  destruct (Tokens.isNativeToken _ chainId).
  - destruct (lookupZ chainId Dex.WRAPPED_NATIVE) as [a|]; [|discriminate].
    destruct (String.eqb a EmptyString); [discriminate|].
    intros H _. inversion H; subst. reflexivity.
  - destruct (Tokens.getTokenFrom _ _ _); intros H; inversion H; subst;
      discriminate.
Qed.

(* ------------------------------------------------------------------ *)
(** ** Recipient resolution                                            *)
(* ------------------------------------------------------------------ *)

Lemma findContact_sound (E : Env) (w : World) (requestingUser input : string)
      (c : Contact) :
  Transfer.findContact E input
    (find (fun u => String.eqb (user_address u) requestingUser) (users w)) = Some c ->
  Spec.savedContact E w requestingUser input c.
Proof.
  unfold Transfer.findContact, Spec.savedContact.
  destruct (find _ (users w)) as [u|] eqn:Hu; [|discriminate].
  intros Hc. exists u. split; [reflexivity|].
  apply find_some in Hc. destruct Hc as [Hin Hname].
  unfold Transfer.activeContacts in Hin. apply filter_In in Hin.
  destruct Hin as [Hin Hdel].
  repeat split; auto.
  - destruct (deletedAt c); [discriminate | reflexivity].
  - apply String.eqb_eq. exact Hname.
Qed.

Lemma findContact_complete (E : Env) (w : World) (requestingUser input : string) :
  Transfer.findContact E input
    (find (fun u => String.eqb (user_address u) requestingUser) (users w)) = None ->
  forall c, ~ Spec.savedContact E w requestingUser input c.
Proof.
  unfold Transfer.findContact, Spec.savedContact.
  intros Hnone c (u & Hu & Hin & Hdel & Hname).
  rewrite Hu in Hnone.
  eapply find_none in Hnone.
  - rewrite Hname, String.eqb_refl in Hnone. discriminate.
  - unfold Transfer.activeContacts. apply filter_In. split; [exact Hin|].
    rewrite Hdel. reflexivity.
Qed.

(** C5. [resolveRecipient] follows this precedence: (a) a well-formed
    address is returned as it is, untagged; (b) otherwise a saved contact
    of the requesting user whose name matches up to case -- the two
    names have the same [toLowerCase], whatever their alphabet -- gives
    its address, tagged with the contact; (c) otherwise, for a name
    ending in [.eth] on a chain with name-service support, the name is
    looked up once, and an address it yields is returned tagged with the
    name; (d) in every other case, and when the lookup yields nothing,
    the call fails with the recipient resolution error. *)
Theorem resolveRecipient_precedence (E : Env) (input requestingUser : string)
        (chainId : Z) (w : World) :
  let result := Transfer.resolveRecipient E input requestingUser chainId w in
  let lookup := CallResolveName chainId input in
  let supported := (JsString.endsWith input ".eth"
                    && Dex.includes chainId Transfer.ENS_CHAINS)%bool in
  (isAddress E input = true ->
   result = (Val {| Transfer.address := input; Transfer.resolvedFrom := None |}, w))
  /\
  (isAddress E input = false ->
   (exists c, Spec.savedContact E w requestingUser input c) ->
   exists c,
     Spec.savedContact E w requestingUser input c /\
     result = (Val {| Transfer.address := contact_address c;
                      Transfer.resolvedFrom :=
                        Some ("contact " ++ dquote ++ contact_name c ++ dquote)%string |},
               w))
  /\
  (isAddress E input = false ->
   (forall c, ~ Spec.savedContact E w requestingUser input c) ->
   supported = true ->
   snd result = logCalls [lookup] w /\
   (forall a, provider E lookup = Some (RStr a) -> a <> EmptyString ->
      fst result = Val {| Transfer.address := a;
                          Transfer.resolvedFrom :=
                            Some ("ENS " ++ dquote ++ input ++ dquote)%string |}) /\
   ((provider E lookup = None \/ provider E lookup = Some RNull
     \/ provider E lookup = Some (RStr EmptyString)) ->
      fst result = Throw (ERecipientUnresolved input)))
  /\
  (isAddress E input = false ->
   (forall c, ~ Spec.savedContact E w requestingUser input c) ->
   supported = false ->
   result = (Throw (ERecipientUnresolved input), w)).
Proof.
  intros result lookup supported. subst result.
  unfold Transfer.resolveRecipient.
  destruct (isAddress E input) eqn:Ha.
  { repeat split; intros; try discriminate; reflexivity. }
  unfold bind, findUser.
  destruct (Transfer.findContact E input _) as [c|] eqn:Hfind.
  { apply findContact_sound in Hfind.
    split; [discriminate|]. split; [|split].
    - intros _ _. exists c. split; [exact Hfind | reflexivity].
    - intros _ Hnone. exfalso. exact (Hnone c Hfind).
    - intros _ Hnone. exfalso. exact (Hnone c Hfind). }
  pose proof (@findContact_complete E w requestingUser input Hfind) as Hnone.
  split; [discriminate|]. split.
  { intros _ [c Hc]. exfalso. exact (Hnone c Hc). }
  unfold Transfer.resolveEns. fold supported.
  destruct supported eqn:Hsup.
  - split; [|intros; discriminate]. intros _ _ _.
    unfold tryCatch, bind, call, throw, ret. fold lookup.
    destruct (provider E lookup) as [[n|a|]|] eqn:Hp; simpl.
    + repeat split; auto; try discriminate;
        intros [H|[H|H]]; discriminate.
    + destruct (String.eqb_spec a EmptyString) as [->|Hne]; simpl.
      * repeat split; auto. intros a' Ha' Hne'. congruence.
      * repeat split; auto.
        -- intros a' Ha' _. congruence.
        -- intros [H|[H|H]]; congruence.
    + repeat split; auto; discriminate.
    + repeat split; auto; discriminate.
  - split; [intros; discriminate|]. intros _ _ _. reflexivity.
Qed.

(** The contact "Bob", addressed as "bob". *)
Lemma resolveRecipient_precedence_witness :
  exists c,
    Spec.savedContact (Sample.env Sample.silent) (Sample.world true)
      Sample.alice "bob" c /\
    Transfer.resolveRecipient (Sample.env Sample.silent) "bob" Sample.alice 1
      (Sample.world true)
    = (Val {| Transfer.address := contact_address c;
              Transfer.resolvedFrom :=
                Some ("contact " ++ dquote ++ contact_name c ++ dquote)%string |},
       Sample.world true).
Proof.
  destruct (@resolveRecipient_precedence (Sample.env Sample.silent) "bob"
              Sample.alice 1 (Sample.world true)) as (_ & Hb & _).
  apply Hb.
  - reflexivity.
  - exists {| contact_name := "Bob"; contact_address := Sample.bob;
              deletedAt := None |}.
    eexists. split; [reflexivity|]. simpl. repeat split. left. reflexivity.
Defined.

(** The other three cases on the same store. *)
Example resolveRecipient_address :
  fst (Transfer.resolveRecipient (Sample.env Sample.nameService) Sample.bob
         Sample.alice 1 (Sample.world true))
  = Val {| Transfer.address := Sample.bob; Transfer.resolvedFrom := None |}.
Proof. reflexivity. Qed.

Example resolveRecipient_ens :
  Transfer.resolveRecipient (Sample.env Sample.nameService) "carol.eth"
    Sample.alice 1 (Sample.world true)
  = (Val {| Transfer.address := Sample.bob;
            Transfer.resolvedFrom :=
              Some ("ENS " ++ dquote ++ "carol.eth" ++ dquote)%string |},
     logCalls [CallResolveName 1 "carol.eth"] (Sample.world true)).
Proof. reflexivity. Qed.

Example resolveRecipient_ens_unsupported_chain :
  Transfer.resolveRecipient (Sample.env Sample.nameService) "carol.eth"
    Sample.alice 137 (Sample.world true)
  = (Throw (ERecipientUnresolved "carol.eth"), Sample.world true).
Proof. reflexivity. Qed.

(** A name outside the ASCII range is matched up to case as well. *)
Example resolveRecipient_contact_beyond_ascii :
  Transfer.resolveRecipient Scenario.latinEnv Scenario.smallOmer Sample.alice 1
    Scenario.latinWorld
  = (Val {| Transfer.address := Sample.bob;
            Transfer.resolvedFrom :=
              Some ("contact " ++ dquote ++ Scenario.capitalOmer ++ dquote)%string |},
     Scenario.latinWorld)
  /\ JsString.toLowerCase Scenario.capitalOmer <> Scenario.smallOmer.
Proof. split; [reflexivity | intros H; discriminate H]. Qed.

Example resolveRecipient_unknown_name :
  fst (Transfer.resolveRecipient (Sample.env Sample.nameService) "dave.eth"
         Sample.alice 1 (Sample.world true))
  = Throw (ERecipientUnresolved "dave.eth").
Proof. reflexivity. Qed.

(* ------------------------------------------------------------------ *)
(** ** Quote aggregation                                               *)
(* ------------------------------------------------------------------ *)

Lemma logCalls_nil (w : World) : logCalls [] w = w.
Proof. destruct w. unfold logCalls. simpl. rewrite app_nil_r. reflexivity. Qed.

Lemma logCalls_logCalls (cs1 cs2 : list Call) (w : World) :
  logCalls cs2 (logCalls cs1 w) = logCalls (cs1 ++ cs2) w.
Proof. unfold logCalls. simpl. rewrite app_assoc. reflexivity. Qed.

Lemma getUniswapV3Quote_eq (E : Env) (chainId : Z)
      (quoter tokenIn tokenOut : string) (amountIn fee : Z) (w : World) :
  let c := CallQuoteExactInputSingle chainId quoter tokenIn tokenOut amountIn fee in
  Swap.getUniswapV3Quote E chainId quoter tokenIn tokenOut amountIn fee w
  = (Val (replyInt E c), logCalls [c] w).
Proof.
  intros c. unfold Swap.getUniswapV3Quote, tryCatch, bind, callInt, call,
    replyInt, throw, ret. fold c.
  destruct (provider E c) as [[n|s|]|]; reflexivity.
Qed.

Lemma getV2Quote_eq (E : Env) (chainId : Z)
      (router tokenIn tokenOut : string) (amountIn : Z) (w : World) :
  let c := CallGetAmountsOut chainId router amountIn [tokenIn; tokenOut] in
  Swap.getV2Quote E chainId router tokenIn tokenOut amountIn w
  = (Val (replyInt E c), logCalls [c] w).
Proof.
  intros c. unfold Swap.getV2Quote, tryCatch, bind, callInt, call,
    replyInt, throw, ret. fold c.
  destruct (provider E c) as [[n|s|]|]; reflexivity.
Qed.

Section FeeTiers.

Variable E : Env.
Variable chainId : Z.
Variables quoter tokenIn tokenOut : string.
Variable amountIn : Z.

(** The quote call for one tier, and its decoded answer. *)
Let tierCall (fee : Z) : Call :=
  CallQuoteExactInputSingle chainId quoter tokenIn tokenOut amountIn fee.

Let answer (fee : Z) : option Z := replyInt E (tierCall fee).

Lemma tryFeeTiers_hit (fees : list Z) :
  forall (i : nat) (fee n : Z) (amountOut : option Z) (w : World),
    nth_error fees i = Some fee ->
    answer fee = Some n -> 0 < n ->
    (forall j fee', (j < i)%nat -> nth_error fees j = Some fee' ->
                    Swap.positive (answer fee') = false) ->
    Swap.tryFeeTiers E chainId quoter tokenIn tokenOut amountIn fees amountOut w
    = (Val (Some n), logCalls (map tierCall (firstn (S i) fees)) w).
Proof.
  induction fees as [|fee0 fees IH]; intros i fee n amountOut w Hi Ha Hn Hbefore.
  - destruct i; discriminate.
  - cbn [Swap.tryFeeTiers]. unfold bind. rewrite getUniswapV3Quote_eq.
    fold (tierCall fee0). fold (answer fee0).
    destruct i as [|i].
    + simpl in Hi. inversion Hi; subst fee0. rewrite Ha. simpl.
      destruct (Z.ltb_spec 0 n); [reflexivity | lia].
    + rewrite (Hbefore O fee0 ltac:(lia) eq_refl).
      rewrite (IH i fee n (answer fee0) _ Hi Ha Hn).
      * rewrite logCalls_logCalls. reflexivity.
      * intros j fee' Hj Hf. apply (Hbefore (S j) fee'); [lia | exact Hf].
Qed.

Lemma tryFeeTiers_miss (fees : list Z) :
  forall (amountOut : option Z) (w : World),
    (forall fee, In fee fees -> Swap.positive (answer fee) = false) ->
    Swap.positive amountOut = false ->
    exists a,
      Swap.tryFeeTiers E chainId quoter tokenIn tokenOut amountIn fees amountOut w
      = (Val a, logCalls (map tierCall fees) w)
      /\ Swap.positive a = false.
Proof.
  induction fees as [|fee0 fees IH]; intros amountOut w Hall Ha.
  - exists amountOut. simpl. rewrite logCalls_nil. split; [reflexivity | exact Ha].
  - cbn [Swap.tryFeeTiers]. unfold bind. rewrite getUniswapV3Quote_eq.
    fold (tierCall fee0). fold (answer fee0).
    rewrite (Hall fee0 (or_introl eq_refl)).
    destruct (IH (answer fee0) (logCalls [tierCall fee0] w)) as (a & Heq & Hpos).
    + intros fee Hin. apply Hall. right. exact Hin.
    + apply Hall. left. reflexivity.
    + exists a. rewrite Heq, logCalls_logCalls. split; [reflexivity | exact Hpos].
Qed.

(** The amount kept for the venue is the one of the discovered tier. *)
Lemma tryFeeTiers_discovered (fees : list Z) :
  forall (amountOut : option Z) (w : World),
    Swap.positive amountOut = false ->
    exists a w',
      Swap.tryFeeTiers E chainId quoter tokenIn tokenOut amountIn fees amountOut w
      = (Val a, w')
      /\ (if Swap.positive a then a else None)
         = option_map snd (Spec.discoveredTier answer fees).
Proof.
  induction fees as [|fee0 fees IH]; intros amountOut w Ha.
  - exists amountOut, w. simpl. rewrite Ha. split; reflexivity.
  - cbn [Swap.tryFeeTiers Spec.discoveredTier]. unfold bind.
    rewrite getUniswapV3Quote_eq.
    fold (tierCall fee0). fold (answer fee0).
    destruct (answer fee0) as [n|] eqn:Hn; simpl.
    + destruct (0 <? n) eqn:Hpos.
      * eexists _, _. split; [reflexivity|]. simpl. rewrite Hpos. reflexivity.
      * apply IH. simpl. exact Hpos.
    + apply IH. reflexivity.
Qed.

End FeeTiers.

(** C4. For a single-hop venue the quote calls go through the fixed list
    of fee tiers [3000; 500; 10000] in order.  The first tier that
    answers with a positive amount gives the venue's quote and is the
    last call made for that venue: the quote is pushed with the text of
    its amount, and where [formatUnits] throws for that amount the
    aggregation throws after the same calls.  When no tier answers with
    a positive amount every tier has been called and the venue adds no
    quote. *)
Theorem fee_tiers_first_positive_wins (E : Env) (chainId : Z)
        (tokenIn tokenOut : string) (amountIn tokenOutDecimals : Z)
        (d : Dex.DexConfig)
        (quoter : string) (quotes : list Swap.SwapQuote) (w : World) :
  Dex.slug d = "uniswap" ->
  Swap.quoterFor d chainId = Some quoter ->
  let tierCall fee :=
    CallQuoteExactInputSingle chainId quoter tokenIn tokenOut amountIn fee in
  let answer fee := replyInt E (tierCall fee) in
  let venue := Swap.collectQuotes E chainId tokenIn tokenOut amountIn
                 tokenOutDecimals [d] quotes w in
  Swap.QUOTE_FEE_TIERS = [3000; 500; 10000]
  /\ (forall i fee n,
        nth_error Swap.QUOTE_FEE_TIERS i = Some fee ->
        answer fee = Some n -> 0 < n ->
        (forall j fee', (j < i)%nat ->
                        nth_error Swap.QUOTE_FEE_TIERS j = Some fee' ->
                        Swap.positive (answer fee') = false) ->
        venue = (match formatUnits E n tokenOutDecimals with
                 | Some text =>
                     Val (quotes ++ [{| Swap.dex := d; Swap.amountOut := n;
                                        Swap.amountOutFormatted := text |}])
                 | None => Throw (EFormat n tokenOutDecimals)
                 end,
                 logCalls (map tierCall (firstn (S i) Swap.QUOTE_FEE_TIERS)) w))
  /\ ((forall fee, In fee Swap.QUOTE_FEE_TIERS ->
                   Swap.positive (answer fee) = false) ->
      venue = (Val quotes, logCalls (map tierCall Swap.QUOTE_FEE_TIERS) w)).
Proof.
  intros Hslug Hquoter tierCall answer venue.
  split; [reflexivity|].
  subst venue. cbn [Swap.collectQuotes]. unfold Swap.quoteDex.
  rewrite Hslug, Hquoter. simpl String.eqb. cbv iota.
  split.
  - intros i fee n Hi Ha Hn Hbefore. unfold bind at 1.
    rewrite (@tryFeeTiers_hit E chainId quoter tokenIn tokenOut amountIn
               Swap.QUOTE_FEE_TIERS i fee n None w Hi Ha Hn Hbefore).
    unfold Swap.pushQuote, formatUnitsM, bind, ret, throw.
    destruct (Z.ltb_spec 0 n); [|lia].
    destruct (formatUnits E n tokenOutDecimals); reflexivity.
  - intros Hall. unfold bind at 1.
    destruct (@tryFeeTiers_miss E chainId quoter tokenIn tokenOut amountIn
                Swap.QUOTE_FEE_TIERS None w Hall eq_refl) as (a & Heq & Hpos).
    rewrite Heq. unfold Swap.pushQuote, bind, ret.
    destruct a as [n|]; [|reflexivity].
    simpl in Hpos. rewrite Hpos. reflexivity.
Qed.

(** Uniswap on chain 1 when only the low tier answers: two calls, the
    quote of the second. *)
Lemma fee_tiers_first_positive_wins_witness :
  let E := Sample.env Sample.lowTierOnly in
  let quoter := "0x61fFE014bA17989E743c5F6cB21bF9697530B21e" in
  let tierCall fee :=
    CallQuoteExactInputSingle 1 quoter Sample.usdc Sample.weth 100 fee in
  Swap.collectQuotes E 1 Sample.usdc Sample.weth 100 18 [Dex.UNISWAP] []
                     (Sample.world true)
  = (Val [{| Swap.dex := Dex.UNISWAP; Swap.amountOut := 7;
             Swap.amountOutFormatted := "0.0" |}],
     logCalls [tierCall 3000; tierCall 500] (Sample.world true)).
Proof.
  intros E quoter tierCall.
  destruct (@fee_tiers_first_positive_wins E 1 Sample.usdc Sample.weth 100 18
              Dex.UNISWAP quoter [] (Sample.world true) eq_refl eq_refl)
    as (_ & Hhit & _).
  apply (Hhit 1%nat 500 7); try reflexivity.
  intros [|j] fee' Hj Hf; [|lia]. inversion Hf; subst. reflexivity.
Defined.

Lemma quoteDex_venueQuote (E : Env) (chainId : Z) (tokenIn tokenOut : string)
      (amountIn : Z) (d : Dex.DexConfig) (w : World) :
  exists a w',
    Swap.quoteDex E chainId tokenIn tokenOut amountIn d w = (Val a, w')
    /\ (if Swap.positive a then a else None)
       = Spec.venueQuote E chainId tokenIn tokenOut amountIn d.
Proof.
  unfold Swap.quoteDex, Spec.venueQuote.
  destruct (if String.eqb (Dex.slug d) "uniswap"
            then Swap.quoterFor d chainId else None) as [quoter|].
  - apply tryFeeTiers_discovered. reflexivity.
  - destruct (JsString.truthy (Swap.routerFor d chainId)) as [router|].
    + rewrite getV2Quote_eq. eexists _, _. split; [reflexivity|].
      destruct (replyInt E _) as [n|]; simpl; [|reflexivity].
      destruct (0 <? n); reflexivity.
    + exists None, w. split; reflexivity.
Qed.

Lemma collectQuotes_viable (E : Env) (chainId : Z) (tokenIn tokenOut : string)
      (amountIn decimals : Z) (dexes : list Dex.DexConfig) :
  Spec.formattable E decimals
    (Spec.viableQuotes E chainId tokenIn tokenOut amountIn decimals dexes) = true ->
  forall (quotes : list Swap.SwapQuote) (w : World),
    exists w',
      Swap.collectQuotes E chainId tokenIn tokenOut amountIn decimals dexes quotes w
      = (Val (quotes ++ Spec.viableQuotes E chainId tokenIn tokenOut amountIn
                          decimals dexes),
         w').
Proof.
  induction dexes as [|d dexes IH]; intros Hfmt quotes w.
  - exists w. simpl. rewrite app_nil_r. reflexivity.
  - cbn [Swap.collectQuotes Spec.viableQuotes] in *. unfold bind at 1.
    destruct (quoteDex_venueQuote E chainId tokenIn tokenOut amountIn d w)
      as (a & w1 & Heq & Hv).
    rewrite Heq. rewrite <- Hv in *.
    unfold Swap.pushQuote, formatUnitsM, Spec.formatted.
    destruct a as [n|]; cbn [Swap.positive] in *; [destruct (0 <? n)|].
    + cbn [Spec.formattable forallb Swap.amountOut] in Hfmt.
      apply andb_true_iff in Hfmt. destruct Hfmt as [Hn Hrest].
      destruct (formatUnits E n decimals) as [text|]; [|discriminate Hn].
      unfold bind, ret.
      destruct (IH Hrest (quotes ++ [{| Swap.dex := d; Swap.amountOut := n;
                                        Swap.amountOutFormatted := text |}]) w1)
        as (w' & Hc).
      exists w'. rewrite Hc, <- app_assoc. reflexivity.
    + unfold bind, ret. apply IH. exact Hfmt.
    + unfold bind, ret. apply IH. exact Hfmt.
Qed.

(** Where [formatUnits] refuses the amount of a viable quote, the
    aggregation throws. *)
Lemma collectQuotes_unformattable (E : Env) (chainId : Z)
      (tokenIn tokenOut : string) (amountIn decimals : Z)
      (dexes : list Dex.DexConfig) :
  Spec.formattable E decimals
    (Spec.viableQuotes E chainId tokenIn tokenOut amountIn decimals dexes) = false ->
  forall (quotes : list Swap.SwapQuote) (w : World),
    exists n w',
      Swap.collectQuotes E chainId tokenIn tokenOut amountIn decimals dexes quotes w
      = (Throw (EFormat n decimals), w')
      /\ formatUnits E n decimals = None.
Proof.
  induction dexes as [|d dexes IH]; intros Hfmt quotes w.
  - discriminate Hfmt.
  - cbn [Swap.collectQuotes Spec.viableQuotes] in *. unfold bind at 1.
    destruct (quoteDex_venueQuote E chainId tokenIn tokenOut amountIn d w)
      as (a & w1 & Heq & Hv).
    rewrite Heq. rewrite <- Hv in *.
    unfold Swap.pushQuote, formatUnitsM, Spec.formatted.
    destruct a as [n|]; cbn [Swap.positive] in *; [destruct (0 <? n)|].
    + cbn [Spec.formattable forallb Swap.amountOut] in Hfmt.
      destruct (formatUnits E n decimals) as [text|] eqn:Hn.
      * unfold bind, ret. apply IH. exact Hfmt.
      * exists n, w1. split; [reflexivity | exact Hn].
    + unfold bind, ret. apply IH. exact Hfmt.
    + unfold bind, ret. apply IH. exact Hfmt.
Qed.

Lemma venueQuote_positive (E : Env) (chainId : Z) (tokenIn tokenOut : string)
      (amountIn : Z) (d : Dex.DexConfig) (n : Z) :
  Spec.venueQuote E chainId tokenIn tokenOut amountIn d = Some n -> 0 < n.
Proof.
  unfold Spec.venueQuote.
  destruct (if String.eqb (Dex.slug d) "uniswap"
            then Swap.quoterFor d chainId else None) as [quoter|].
  - generalize Swap.QUOTE_FEE_TIERS. intros fees.
    induction fees as [|fee fees IH]; simpl; [discriminate|].
    destruct (replyInt E _) as [m|]; [|exact IH].
    destruct (Z.ltb_spec 0 m) as [Hm|Hm]; [|exact IH].
    simpl. intros Heq. inversion Heq; subst. exact Hm.
  - destruct (JsString.truthy _); [|discriminate].
    destruct (replyInt E _) as [m|]; [|discriminate].
    destruct (Z.ltb_spec 0 m) as [Hm|Hm]; [|discriminate].
    intros Heq. inversion Heq; subst. exact Hm.
Qed.

Lemma viableQuotes_positive (E : Env) (chainId : Z) (tokenIn tokenOut : string)
      (amountIn decimals : Z) (dexes : list Dex.DexConfig) (q : Swap.SwapQuote) :
  In q (Spec.viableQuotes E chainId tokenIn tokenOut amountIn decimals dexes) ->
  0 < Swap.amountOut q.
Proof.
  induction dexes as [|d dexes IH]; simpl; [intros []|].
  destruct (Spec.venueQuote E chainId tokenIn tokenOut amountIn d) as [n|] eqn:Hv;
    [|exact IH].
  intros [<-|Hin]; [|exact (IH Hin)].
  simpl. eapply venueQuote_positive; eauto.
Qed.

Lemma compareQuotes_neg (a b : Swap.SwapQuote) :
  (Swap.compareQuotes a b <? 0) = (Swap.amountOut b <=? Swap.amountOut a).
Proof.
  unfold Swap.compareQuotes.
  destruct (Z.gtb_spec (Swap.amountOut b) (Swap.amountOut a)),
           (Z.leb_spec (Swap.amountOut b) (Swap.amountOut a));
    try reflexivity; lia.
Qed.

Lemma compareQuotes_nonneg (a b : Swap.SwapQuote) :
  (0 <=? Swap.compareQuotes a b) = negb (Swap.amountOut b <=? Swap.amountOut a).
Proof.
  unfold Swap.compareQuotes.
  destruct (Z.gtb_spec (Swap.amountOut b) (Swap.amountOut a)),
           (Z.leb_spec (Swap.amountOut b) (Swap.amountOut a));
    try reflexivity; lia.
Qed.

(** The comparator of line 510 is not a consistent comparison: two quotes
    of equal amount are each reported as coming before the other. *)
Lemma compareQuotes_tie (a b : Swap.SwapQuote) :
  Swap.amountOut a = Swap.amountOut b ->
  Swap.compareQuotes a b = -1 /\ Swap.compareQuotes b a = -1.
Proof.
  intros H. unfold Swap.compareQuotes. rewrite H.
  destruct (Z.gtb_spec (Swap.amountOut b) (Swap.amountOut b)); [lia|].
  split; reflexivity.
Qed.

Lemma StronglySorted_filter (A : Type) (R : A -> A -> Prop) (f : A -> bool)
      (l : list A) :
  StronglySorted R l -> StronglySorted R (filter f l).
Proof.
  induction 1 as [|x l Hs IH Hx]; simpl; [constructor|].
  destruct (f x); [|exact IH].
  constructor; [exact IH|].
  rewrite Forall_forall in *. intros y Hy. apply filter_In in Hy. apply Hx, Hy.
Qed.

(** The array that [getAllQuotes] sorts has at most five elements, one
    per registered venue. *)
Lemma viableQuotes_length (E : Env) (chainId : Z) (tokenIn tokenOut : string)
      (amountIn decimals : Z) :
  (List.length (Spec.viableQuotes E chainId tokenIn tokenOut amountIn decimals
                  (Dex.getDexesForChain chainId)) <= 5)%nat.
Proof.
  assert (Hd : (List.length (Dex.getDexesForChain chainId) <= 5)%nat).
  { unfold Dex.getDexesForChain.
    etransitivity; [apply filter_length_le | simpl; lia]. }
  revert Hd. generalize (Dex.getDexesForChain chainId). intros dexes.
  assert (Hv : (List.length (Spec.viableQuotes E chainId tokenIn tokenOut
                               amountIn decimals dexes) <= List.length dexes)%nat).
  { induction dexes as [|d dexes IH]; simpl; [lia|].
    destruct (Spec.venueQuote E chainId tokenIn tokenOut amountIn d); simpl; lia. }
  lia.
Qed.

(** [getAllQuotes] where every viable amount has a text: the sorted
    viable quotes. *)
Lemma getAllQuotes_val (E : Env) (chainId : Z) (tokenIn tokenOut : string)
      (amountIn decimals : Z) (w : World) :
  let viable := Spec.viableQuotes E chainId tokenIn tokenOut amountIn decimals
                  (Dex.getDexesForChain chainId) in
  Spec.formattable E decimals viable = true ->
  exists w',
    Swap.getAllQuotes E chainId tokenIn tokenOut amountIn decimals w
    = (Val (JsArray.sort Swap.compareQuotes viable), w').
Proof.
  intros viable Hfmt. unfold Swap.getAllQuotes, bind.
  destruct (@collectQuotes_viable E chainId tokenIn tokenOut amountIn decimals
              (Dex.getDexesForChain chainId) Hfmt [] w) as (w' & Hc).
  rewrite Hc. exists w'. reflexivity.
Qed.

Lemma getAllQuotes_throws (E : Env) (chainId : Z) (tokenIn tokenOut : string)
      (amountIn decimals : Z) (w : World) :
  Spec.formattable E decimals
    (Spec.viableQuotes E chainId tokenIn tokenOut amountIn decimals
       (Dex.getDexesForChain chainId)) = false ->
  exists n w',
    Swap.getAllQuotes E chainId tokenIn tokenOut amountIn decimals w
    = (Throw (EFormat n decimals), w')
    /\ formatUnits E n decimals = None.
Proof.
  intros Hfmt. unfold Swap.getAllQuotes, bind.
  destruct (@collectQuotes_unformattable E chainId tokenIn tokenOut amountIn
              decimals (Dex.getDexesForChain chainId) Hfmt [] w)
    as (n & w' & Hc & Hn).
  rewrite Hc. exists n, w'. auto.
Qed.

(** A run of [getAllQuotes] that returns. *)
Lemma getAllQuotes_inv (E : Env) (chainId : Z) (tokenIn tokenOut : string)
      (amountIn decimals : Z) (w w' : World) (ranked : list Swap.SwapQuote) :
  let viable := Spec.viableQuotes E chainId tokenIn tokenOut amountIn decimals
                  (Dex.getDexesForChain chainId) in
  Swap.getAllQuotes E chainId tokenIn tokenOut amountIn decimals w
  = (Val ranked, w') ->
  Spec.formattable E decimals viable = true
  /\ ranked = JsArray.sort Swap.compareQuotes viable.
Proof.
  intros viable Hrun.
  destruct (Spec.formattable E decimals viable) eqn:Hfmt.
  - destruct (@getAllQuotes_val E chainId tokenIn tokenOut amountIn decimals w Hfmt)
      as (w1 & Hv).
    fold viable in Hv. rewrite Hv in Hrun. injection Hrun as <- _. auto.
  - destruct (@getAllQuotes_throws E chainId tokenIn tokenOut amountIn decimals w
                Hfmt) as (n & w1 & Ht & _).
    rewrite Ht in Hrun. discriminate Hrun.
Qed.

(** What the sort of [getAllQuotes] gives on the viable quotes. *)
Lemma sorted_viable (E : Env) (chainId : Z) (tokenIn tokenOut : string)
      (amountIn decimals : Z) :
  let viable := Spec.viableQuotes E chainId tokenIn tokenOut amountIn decimals
                  (Dex.getDexesForChain chainId) in
  let ranked := JsArray.sort Swap.compareQuotes viable in
  Permutation viable ranked
  /\ StronglySorted (descending Swap.amountOut) ranked
  /\ (forall q, In q ranked -> In q viable /\ 0 < Swap.amountOut q)
  /\ ranked = rankLatestFirst Swap.amountOut viable.
Proof.
  intros viable ranked.
  destruct (@sort_spec _ Swap.amountOut Swap.compareQuotes compareQuotes_neg
              compareQuotes_nonneg viable) as (Hsorted & Hperm).
  split; [exact Hperm|]. split; [exact Hsorted|]. split.
  - intros q Hq.
    assert (Hin : In q viable)
      by (eapply Permutation_in; [symmetry; exact Hperm | exact Hq]).
    split; [exact Hin|].
    exact (@viableQuotes_positive E chainId tokenIn tokenOut amountIn decimals
             (Dex.getDexesForChain chainId) q Hin).
  - apply (@sort_rankLatestFirst _ Swap.amountOut Swap.compareQuotes
             compareQuotes_neg compareQuotes_nonneg).
Qed.

(** The first quote of a selection is at least as good as every viable
    quote of the selection. *)
Lemma selection_head_is_best (preferredDex : option string)
      (viable : list Swap.SwapQuote) (bestQuote : Swap.SwapQuote)
      (rest : list Swap.SwapQuote) :
  Spec.selection preferredDex (JsArray.sort Swap.compareQuotes viable)
  = bestQuote :: rest ->
  In bestQuote viable
  /\ (forall name, JsString.truthy preferredDex = Some name ->
                   Dex.slug (Swap.dex bestQuote) = name)
  /\ forall q,
       In q viable ->
       (forall name, JsString.truthy preferredDex = Some name ->
                     Dex.slug (Swap.dex q) = name) ->
       Swap.amountOut q <= Swap.amountOut bestQuote.
Proof.
  destruct (@sort_spec _ Swap.amountOut Swap.compareQuotes compareQuotes_neg
              compareQuotes_nonneg viable) as (Hsorted & Hperm).
  set (ranked := JsArray.sort Swap.compareQuotes viable) in *.
  set (keep := fun q : Swap.SwapQuote =>
                 match JsString.truthy preferredDex with
                 | Some name => String.eqb (Dex.slug (Swap.dex q)) name
                 | None => true
                 end).
  assert (Hsel : Spec.selection preferredDex ranked = filter keep ranked).
  { unfold Spec.selection, keep.
    destruct (JsString.truthy preferredDex); [reflexivity|].
    clear. induction ranked as [|x l IH]; simpl; congruence. }
  rewrite Hsel. intros Hf.
  assert (Hbest : In bestQuote (filter keep ranked))
    by (rewrite Hf; left; reflexivity).
  apply filter_In in Hbest. destruct Hbest as [Hbest Hkeep].
  split; [eapply Permutation_in; [symmetry; exact Hperm | exact Hbest]|].
  split.
  { intros name Hname. unfold keep in Hkeep. rewrite Hname in Hkeep.
    apply String.eqb_eq. exact Hkeep. }
  intros q Hq Hpref.
  pose proof (StronglySorted_filter keep Hsorted) as Hs. rewrite Hf in Hs.
  assert (Hin : In q (bestQuote :: rest)).
  { rewrite <- Hf. apply filter_In. split.
    - eapply Permutation_in; eauto.
    - unfold keep. destruct (JsString.truthy preferredDex) as [name|];
        [|reflexivity].
      apply String.eqb_eq. apply Hpref. reflexivity. }
  destruct Hin as [<-|Hin]; [lia|].
  inversion Hs as [|? ? _ Hall]; subst. rewrite Forall_forall in Hall.
  apply Hall. exact Hin.
Qed.

(* ------------------------------------------------------------------ *)
(** ** Call data of a single-hop swap                                  *)
(* ------------------------------------------------------------------ *)

(** C3, as the code has it.  For a single-hop venue
    [buildSwapTransaction] encodes [exactInputSingle] with the fixed
    mid-tier fee 3000 inside a [multicall] carrying the deadline, for
    every provider, hence whichever tier produced the quote: the quote
    carries no tier and the builder takes none. *)
Theorem buildSwapTransaction_fixed_fee (E : Env) (d : Dex.DexConfig)
        (chainId : Z) (tokenIn tokenOut : Swap.TokenRef)
        (amountIn amountOutMin : Z) (recipient : string) (deadline : Z)
        (w w' : World) (tx : Swap.SwapTx) :
  Dex.slug d = "uniswap" ->
  Swap.buildSwapTransaction E d chainId tokenIn tokenOut amountIn amountOutMin
                            recipient deadline w = (Val tx, w') ->
  Swap.tx_data tx
  = Multicall deadline
      [ExactInputSingle (Swap.address tokenIn) (Swap.address tokenOut)
         Dex.FEE_TIERS.MEDIUM
         (if Swap.isNative tokenOut then Swap.ZeroAddress else recipient)
         amountIn amountOutMin 0]
  /\ Spec.encodedFee (Swap.tx_data tx) = Some 3000.
Proof.
  intros Hslug. unfold Swap.buildSwapTransaction. rewrite Hslug. simpl String.eqb.
  cbv iota. unfold bind, encodeFunctionData, toQuantity, ret, throw.
  destruct (encodable E (ExactInputSingle _ _ _ _ _ _ _)); [|discriminate].
  destruct (encodable E (Multicall _ _)); [|discriminate].
  destruct (Swap.isNative tokenIn); [destruct (amountIn <? 0)|];
    intros H; inversion H; subst; simpl; split; reflexivity.
Qed.

Lemma buildSwapTransaction_fixed_fee_witness :
  exists tx,
    Swap.tx_data tx
    = Multicall 1700001200
        [ExactInputSingle Sample.usdc Sample.weth Dex.FEE_TIERS.MEDIUM
           Swap.ZeroAddress 100000000 6 0]
    /\ Spec.encodedFee (Swap.tx_data tx) = Some 3000.
Proof.
  eexists.
  apply (@buildSwapTransaction_fixed_fee (Sample.env Sample.lowTierOnly)
           Dex.UNISWAP 1
           {| Swap.address := Sample.usdc; Swap.symbol := "USDC";
              Swap.decimals := 6; Swap.isNative := false |}
           {| Swap.address := Sample.weth; Swap.symbol := "ETH";
              Swap.decimals := 18; Swap.isNative := true |}
           100000000 6 Sample.alice 1700001200
           (Sample.world true) (Sample.world true));
    reflexivity.
Defined.

(** C3, as stated, fails: with liquidity only in the low tier the quote
    is discovered at tier 500, and the swap the handler stores is encoded
    with fee 3000. *)
Lemma discovered_tier_is_not_encoded :
  let E := Sample.env Sample.lowTierOnly in
  let quoter := "0x61fFE014bA17989E743c5F6cB21bF9697530B21e" in
  let outcome := Swap.handler E Sample.swapUsdcForEth Sample.ctx
                              (Sample.world true) in
  Swap.quoterFor Dex.UNISWAP 1 = Some quoter
  /\ Spec.discoveredTier
       (fun fee => replyInt E (CallQuoteExactInputSingle 1 quoter Sample.usdc
                                 Sample.weth 100000000 fee))
       Swap.QUOTE_FEE_TIERS
     = Some (500, 7)
  /\ map (fun row => Spec.encodedFee (td_data (tx_fields row)))
         (transactions (snd outcome))
     = [Some 3000]
  /\ Some 3000 <> Some 500.
Proof.
  intros E quoter outcome.
  split; [reflexivity|]. split; [vm_compute; reflexivity|].
  split; [vm_compute; reflexivity | discriminate].
Qed.

Lemma prepare_native_rejects_iff (E : Env) (tokenInfo : Transfer.TokenRef)
      (recipient userAddress amount : string) (chainId : Z) (w : World)
      (amountWei b : Z) :
  JsString.truthy (Transfer.token_address tokenInfo) = None ->
  parseUnits E amount 18 = Some amountWei ->
  replyInt E (CallGetBalance chainId userAddress) = Some b ->
  let outcome := fst (Transfer.prepare E tokenInfo recipient userAddress amount
                        chainId w) in
  (rejected outcome <-> b < amountWei)
  /\ (b < amountWei ->
      outcome = Return (Failure (EInsufficientBalance
                                   (Transfer.token_symbol tokenInfo) b))).
Proof.
  intros Hn Hp Hb outcome. subst outcome.
  rewrite (@prepare_native_eq E tokenInfo recipient userAddress amount chainId w
             amountWei b Hn Hp Hb).
  cbv zeta. destruct (Z.ltb_spec b amountWei) as [Hlt|Hge].
  - simpl. split; [tauto | reflexivity].
  - split; [|lia]. split; [|lia].
    unfold bind, toQuantity, throw, ret.
    destruct (amountWei <? 0); simpl; intros [].
Qed.

Lemma prepare_token_rejects_iff (E : Env) (tokenInfo : Transfer.TokenRef)
      (recipient userAddress amount : string) (chainId : Z) (w : World)
      (tokenAddress sym : string) (tokenDecimals amountWei b : Z) :
  JsString.truthy (Transfer.token_address tokenInfo) = Some tokenAddress ->
  fst (Transfer.fetchTokenMetadata E chainId tokenAddress
         (Transfer.token_decimals tokenInfo, Transfer.token_symbol tokenInfo) w)
  = Val (tokenDecimals, sym) ->
  parseUnits E amount tokenDecimals = Some amountWei ->
  replyInt E (CallBalanceOf chainId tokenAddress userAddress) = Some b ->
  let outcome := fst (Transfer.prepare E tokenInfo recipient userAddress amount
                        chainId w) in
  (rejected outcome <-> b < amountWei)
  /\ (b < amountWei -> outcome = Return (Failure (EInsufficientBalance sym b))).
Proof.
  intros Hn Hf Hp Hb outcome. subst outcome.
  destruct (Transfer.fetchTokenMetadata E chainId tokenAddress
              (Transfer.token_decimals tokenInfo, Transfer.token_symbol tokenInfo) w)
    as [o w1] eqn:Hfetch.
  simpl in Hf. subst o.
  rewrite (@prepare_token_eq E tokenInfo recipient userAddress amount chainId w w1
             tokenAddress sym tokenDecimals amountWei b Hn Hfetch Hp Hb).
  cbv zeta. destruct (Z.ltb_spec b amountWei) as [Hlt|Hge].
  - simpl. split; [tauto | reflexivity].
  - split; [|lia]. split; [|lia].
    unfold bind, encodeFunctionData, throw, ret.
    destruct (encodable E _); simpl; intros [].
Qed.

Lemma rejection_is_not_success (r : ToolResult) (s : Summary) :
  isBalanceRejection r -> r <> Success s.
Proof. destruct r; simpl; [intros [] | discriminate]. Qed.

Lemma rejection_stores_nothing (E : Env) (h : World -> ToolResult * World)
      (w : World) :
  StoresOrSucceeds E h ->
  isBalanceRejection (fst (h w)) ->
  transactions (snd (h w)) = transactions w
  /\ pendingPublished (snd (h w)) = pendingPublished w.
Proof.
  intros Hout Hrej. destruct (Hout w) as [H|(row & s & Hs & _)]; [exact H|].
  exfalso. exact (@rejection_is_not_success (fst (h w)) s Hrej Hs).
Qed.

(* ------------------------------------------------------------------ *)
(** ** C6                                                              *)
(* ------------------------------------------------------------------ *)



(** On exact equality the transfer goes through. *)
Example balance_equal_to_amount_is_accepted :
  exists s,
    fst (Transfer.handler (Sample.env (Sample.balances (2 * 10 ^ 18)))
           Sample.sendTwoEthToBob Sample.ctx (Sample.world true))
    = Success s.
Proof. eexists. vm_compute. reflexivity. Qed.

(* ------------------------------------------------------------------ *)
(** ** Tables that grow by one row                                     *)
(* ------------------------------------------------------------------ *)

Lemma app_singleton_inv (A : Type) (l : list A) (x y : A) :
  l ++ [x] = l ++ [y] -> x = y.
Proof. intros H. apply app_inv_head in H. inversion H. reflexivity. Qed.

Lemma not_self_append (A : Type) (l : list A) (x : A) : l <> l ++ [x].
Proof.
  intros H. apply (f_equal (@List.length A)) in H.
  rewrite length_app in H. simpl in H. lia.
Qed.

(* ------------------------------------------------------------------ *)
(** ** Approval amounts                                                *)
(* ------------------------------------------------------------------ *)

(** The three forms of an approval amount, in the order of the tests. *)
Lemma approvalAmount_cases (E : Env) (amount : string) (tokenDecimals : Z)
      (w : World) :
  let lower := lowerCase E amount in
  let result := Approve.approvalAmount E amount tokenDecimals w in
  ((lower = "unlimited" \/ lower = "max") ->
   result = (Val (2 ^ 256 - 1, "unlimited"), w))
  /\ (lower <> "unlimited" -> lower <> "max" ->
      (amount = "0" \/ lower = "revoke") ->
      result = (Val (0, "0 (revoke)"), w))
  /\ (lower <> "unlimited" -> lower <> "max" -> amount <> "0" ->
      lower <> "revoke" ->
      result = match parseUnits E amount tokenDecimals with
               | Some n => (Val (n, amount), w)
               | None => (Throw (EInvalidAmount amount), w)
               end).
Proof.
  intros lower result. subst result. unfold Approve.approvalAmount.
  fold lower.
  destruct (String.eqb_spec lower "unlimited") as [Hu|Hu];
    [|destruct (String.eqb_spec lower "max") as [Hm|Hm]]; simpl.
  - split; [reflexivity|]. split; tauto.
  - split; [reflexivity|]. split; tauto.
  - split; [tauto|].
    destruct (String.eqb_spec amount "0") as [H0|H0];
      [|destruct (String.eqb_spec lower "revoke") as [Hr|Hr]]; simpl.
    + split; [reflexivity | tauto].
    + split; [reflexivity | tauto].
    + split; [tauto|]. intros _ _ _ _.
      unfold bind, parseUnitsM, ret, throw.
      destruct (parseUnits E amount tokenDecimals); reflexivity.
Qed.

Lemma approvalAmount_outcome (E : Env) (amount : string) (tokenDecimals : Z)
      (w : World) :
  (exists v, Approve.approvalAmount E amount tokenDecimals w = (Val v, w))
  \/ Approve.approvalAmount E amount tokenDecimals w
     = (Throw (EInvalidAmount amount), w).
Proof.
  unfold Approve.approvalAmount, bind, parseUnitsM, ret, throw.
  destruct (_ || _)%bool; [left; eexists; reflexivity|].
  destruct (_ || _)%bool; [left; eexists; reflexivity|].
  destruct (parseUnits E amount tokenDecimals);
    [left; eexists; reflexivity | right; reflexivity].
Qed.

(** Decimals and symbol of a token: those the contract reports when both
    reads answer, else the given defaults; both reads are always made. *)
Lemma fetchTokenMetadata_eq (E : Env) (chainId : Z) (tokenAddress : string)
      (defaults : Z * string) (w : World) :
  Transfer.fetchTokenMetadata E chainId tokenAddress defaults w
  = (Val match provider E (CallDecimals chainId tokenAddress),
               provider E (CallSymbol chainId tokenAddress) with
         | Some (RInt decimals), Some (RStr symbol) => (decimals, symbol)
         | _, _ => defaults
         end,
     logCalls [CallDecimals chainId tokenAddress;
               CallSymbol chainId tokenAddress] w).
Proof.
  unfold Transfer.fetchTokenMetadata, tryCatch, bind, promiseAll2, throw, ret.
  destruct (provider E (CallDecimals chainId tokenAddress)) as [[d|d|]|];
    destruct (provider E (CallSymbol chainId tokenAddress)) as [[s|s|]|];
    reflexivity.
Qed.



(** "Unlimited" USDC for the protocol name "uniswap". *)
Example approve_unlimited :
  map (fun row => td_data (tx_fields row))
      (transactions
         (snd (Approve.handler (Sample.env Sample.silent)
                 Sample.approveUnlimited Sample.ctx (Sample.world true))))
  = [Erc20Approve "0x68b3465833fb72A70ecDF485E0e4C7bD8665Fc45" (2 ^ 256 - 1)].
Proof. vm_compute. reflexivity. Qed.

(** The amount "0" revokes. *)
Example approve_zero_is_revoke :
  map (fun row => (td_data (tx_fields row), td_buttonText (tx_fields row)))
      (transactions
         (snd (Approve.handler (Sample.env Sample.silent)
                 {| Approve.token := "USDC"; Approve.spender := "uniswap";
                    Approve.amount := "0" |}
                 Sample.ctx (Sample.world true))))
  = [(Erc20Approve "0x68b3465833fb72A70ecDF485E0e4C7bD8665Fc45" 0,
      "Revoke USDC approval")].
Proof. vm_compute. reflexivity. Qed.

(* ================================================================== *)
(** * Properties of the remaining registries and tools                 *)
(* ================================================================== *)

(* ------------------------------------------------------------------ *)
(** ** Case conversion and table lookup                                *)
(* ------------------------------------------------------------------ *)

Lemma upperChar_idem (c : ascii) :
  JsString.upperChar (JsString.upperChar c) = JsString.upperChar c.
Proof. destruct c as [[] [] [] [] [] [] [] []]; reflexivity. Qed.

Lemma lowerChar_upperChar (c : ascii) :
  JsString.lowerChar (JsString.upperChar c) = JsString.lowerChar c.
Proof. destruct c as [[] [] [] [] [] [] [] []]; reflexivity. Qed.

Lemma upperChar_lowerChar (c : ascii) :
  JsString.upperChar (JsString.lowerChar c) = JsString.upperChar c.
Proof. destruct c as [[] [] [] [] [] [] [] []]; reflexivity. Qed.

Lemma toUpperCase_idem (s : string) :
  JsString.toUpperCase (JsString.toUpperCase s) = JsString.toUpperCase s.
Proof.
  induction s as [|c s IH]; simpl; [reflexivity|].
  unfold JsString.toUpperCase in *. simpl. now rewrite upperChar_idem, IH.
Qed.

Lemma toLowerCase_toUpperCase (s : string) :
  JsString.toLowerCase (JsString.toUpperCase s) = JsString.toLowerCase s.
Proof.
  induction s as [|c s IH]; simpl; [reflexivity|].
  unfold JsString.toLowerCase, JsString.toUpperCase in *. simpl.
  now rewrite lowerChar_upperChar, IH.
Qed.

Lemma toUpperCase_toLowerCase (s : string) :
  JsString.toUpperCase (JsString.toLowerCase s) = JsString.toUpperCase s.
Proof.
  induction s as [|c s IH]; simpl; [reflexivity|].
  unfold JsString.toLowerCase, JsString.toUpperCase in *. simpl.
  now rewrite upperChar_lowerChar, IH.
Qed.

Lemma lookup_In (A : Type) (k : string) (v : A) (table : list (string * A)) :
  lookup k table = Some v -> In (k, v) table.
Proof.
  induction table as [|[k' v'] table IH]; simpl; [discriminate|].
  destruct (String.eqb_spec k k') as [->|Hne].
  - intros H. inversion H. left. reflexivity.
  - intros H. right. apply IH. exact H.
Qed.

Lemma In_lookup (A : Type) (k : string) (v : A) (table : list (string * A)) :
  NoDup (map fst table) -> In (k, v) table -> lookup k table = Some v.
Proof.
  induction table as [|[k' v'] table IH]; simpl; [tauto|].
  intros Hnd [Hin|Hin].
  - inversion Hin; subst. now rewrite String.eqb_refl.
  - inversion Hnd as [|? ? Hnotin Hnd']; subst.
    destruct (String.eqb_spec k k') as [->|Hne].
    + exfalso. apply Hnotin. apply (in_map fst) in Hin. exact Hin.
    + apply IH; assumption.
Qed.

(* ------------------------------------------------------------------ *)
(** ** The token registry                                              *)
(* ------------------------------------------------------------------ *)

Lemma In_getTokensForChainFrom (c : Z) (t : Registry.ChainToken)
      (tokens : list (string * Tokens.TokenConfig)) :
  In t (Registry.getTokensForChainFrom tokens c) <->
  exists k config a,
    In (k, config) tokens
    /\ JsString.truthy (lookupZ c (Tokens.addresses config)) = Some a
    /\ t = {| Registry.symbol := k; Registry.address := a;
              Registry.decimals := Tokens.decimals config;
              Registry.name := Tokens.name config |}.
Proof.
  unfold Registry.getTokensForChainFrom.
  enough (H : forall found,
             In t (fold_left
                     (fun found entry =>
                        match JsString.truthy
                                (lookupZ c (Tokens.addresses (snd entry))) with
                        | Some a =>
                            found ++ [ {| Registry.symbol := fst entry;
                                          Registry.address := a;
                                          Registry.decimals := Tokens.decimals (snd entry);
                                          Registry.name := Tokens.name (snd entry) |} ]
                        | None => found
                        end) tokens found)
             <-> In t found \/
                 exists k config a,
                   In (k, config) tokens
                   /\ JsString.truthy (lookupZ c (Tokens.addresses config)) = Some a
                   /\ t = {| Registry.symbol := k; Registry.address := a;
                             Registry.decimals := Tokens.decimals config;
                             Registry.name := Tokens.name config |}).
  { rewrite H. simpl. tauto. }
  induction tokens as [|[k config] tokens IH]; intros found; simpl.
  - split; [auto|]. intros [H|(k & config & a & [] & _)]. exact H.
  - rewrite IH. clear IH.
    destruct (JsString.truthy (lookupZ c (Tokens.addresses config))) as [a|] eqn:Ha.
    + rewrite in_app_iff. simpl. split.
      * intros [[H|[H|[]]]|(k' & config' & a' & Hin & Ha' & Ht)].
        -- left. exact H.
        -- right. exists k, config, a. auto.
        -- right. exists k', config', a'. auto.
      * intros [H|(k' & config' & a' & [Hin|Hin] & Ha' & Ht)].
        -- left. left. exact H.
        -- inversion Hin; subst. left. right. left. congruence.
        -- right. exists k', config', a'. auto.
    + split.
      * intros [H|(k' & config' & a' & Hin & Ha' & Ht)]; [left; exact H|].
        right. exists k', config', a'. auto.
      * intros [H|(k' & config' & a' & [Hin|Hin] & Ha' & Ht)]; [left; exact H| |].
        -- inversion Hin; subst. congruence.
        -- right. exists k', config', a'. auto.
Qed.

(** X1. Over a registry whose keys are distinct and in upper case,
    [getTokensForChain] lists, under each registry key, exactly what
    [getToken] finds for that key on the chain: same address, decimals
    and name, and nothing for a token without an address there. *)
Theorem getTokensForChain_lists_what_getToken_finds
        (tokens : list (string * Tokens.TokenConfig)) (c : Z)
        (t : Registry.ChainToken) :
  NoDup (map fst tokens) ->
  (forall k, In k (map fst tokens) -> JsString.toUpperCase k = k) ->
  (In t (Registry.getTokensForChainFrom tokens c) <->
   In (Registry.symbol t) (map fst tokens)
   /\ Tokens.getTokenFrom tokens (Registry.symbol t) c
      = Some {| Tokens.address := Registry.address t;
                Tokens.info_decimals := Registry.decimals t;
                Tokens.info_name := Registry.name t |}).
Proof.
  intros Hnd Hupper. rewrite In_getTokensForChainFrom. split.
  - intros (k & config & a & Hin & Ha & ->). simpl.
    assert (Hk : In k (map fst tokens)) by (apply (in_map fst) in Hin; exact Hin).
    split; [exact Hk|].
    unfold Tokens.getTokenFrom. rewrite (Hupper k Hk).
    rewrite (@In_lookup _ k config tokens Hnd Hin), Ha. reflexivity.
  - intros [Hk Hget]. unfold Tokens.getTokenFrom in Hget.
    rewrite (Hupper _ Hk) in Hget.
    destruct (lookup (Registry.symbol t) tokens) as [config|] eqn:Hl; [|discriminate].
    destruct (JsString.truthy (lookupZ c (Tokens.addresses config))) as [a|] eqn:Ha;
      [|discriminate].
    exists (Registry.symbol t), config, a. split; [apply lookup_In; exact Hl|].
    split; [exact Ha|]. inversion Hget. destruct t; simpl in *. congruence.
Qed.

Lemma TOKENS_keys_distinct : NoDup (map fst Tokens.TOKENS).
Proof.
  simpl. repeat (constructor; [simpl; intuition discriminate|]). constructor.
Qed.

Lemma TOKENS_keys_upper (k : string) :
  In k (map fst Tokens.TOKENS) -> JsString.toUpperCase k = k.
Proof.
  simpl. intros H.
  repeat (destruct H as [<-|H]; [reflexivity|]). destruct H.
Qed.

Lemma getTokensForChain_lists_what_getToken_finds_witness :
  In {| Registry.symbol := "WBNB";
        Registry.address := "0xbb4CdB9CBd36B01bD1cBaEBF2De08d9173bc095c";
        Registry.decimals := 18; Registry.name := "Wrapped BNB" |}
     (Registry.getTokensForChain 56)
  <-> In "WBNB" (map fst Tokens.TOKENS)
      /\ Tokens.getToken "WBNB" 56
         = Some {| Tokens.address := "0xbb4CdB9CBd36B01bD1cBaEBF2De08d9173bc095c";
                   Tokens.info_decimals := 18;
                   Tokens.info_name := "Wrapped BNB" |}.
Proof.
  apply (@getTokensForChain_lists_what_getToken_finds Tokens.TOKENS 56
           {| Registry.symbol := "WBNB";
              Registry.address := "0xbb4CdB9CBd36B01bD1cBaEBF2De08d9173bc095c";
              Registry.decimals := 18; Registry.name := "Wrapped BNB" |}).
  - exact TOKENS_keys_distinct.
  - exact TOKENS_keys_upper.
Defined.

(* ------------------------------------------------------------------ *)
(** ** Venues and their routers                                        *)
(* ------------------------------------------------------------------ *)

Lemma In_rankLatestFirst (A : Type) (key : A -> Z) (x : A) (l : list A) :
  In x (rankLatestFirst key l) <-> In x l.
Proof.
  unfold rankLatestFirst.
  enough (H : forall ranked,
             In x (fold_left (fun ranked y => insertBefore key y ranked) l ranked)
             <-> In x ranked \/ In x l).
  { rewrite H. simpl. tauto. }
  induction l as [|y l IH]; intros ranked; simpl; [tauto|].
  rewrite IH, insertBefore_In. intuition.
Qed.

Lemma viableQuotes_venue (E : Env) (chainId : Z) (tokenIn tokenOut : string)
      (amountIn decimals : Z) (dexes : list Dex.DexConfig) (q : Swap.SwapQuote) :
  In q (Spec.viableQuotes E chainId tokenIn tokenOut amountIn decimals dexes) ->
  In (Swap.dex q) dexes.
Proof.
  induction dexes as [|d dexes IH]; simpl; [intros []|].
  destruct (Spec.venueQuote E chainId tokenIn tokenOut amountIn d) as [n|].
  - intros [<-|Hin]; [left; reflexivity | right; exact (IH Hin)].
  - intros Hin. right. exact (IH Hin).
Qed.

(** The text of a viable quote is what [formatUnits] gives for its
    amount. *)
Lemma viableQuotes_text (E : Env) (chainId : Z) (tokenIn tokenOut : string)
      (amountIn decimals : Z) (dexes : list Dex.DexConfig) (q : Swap.SwapQuote) :
  In q (Spec.viableQuotes E chainId tokenIn tokenOut amountIn decimals dexes) ->
  Swap.amountOutFormatted q = Spec.formatted E (Swap.amountOut q) decimals.
Proof.
  induction dexes as [|d dexes IH]; simpl; [intros []|].
  destruct (Spec.venueQuote E chainId tokenIn tokenOut amountIn d) as [n|].
  - intros [<-|Hin]; [reflexivity | exact (IH Hin)].
  - exact IH.
Qed.

(** Every venue registered for a chain has a router address there. *)
Lemma venue_has_router (chainId : Z) (d : Dex.DexConfig) :
  In d (Dex.getDexesForChain chainId) ->
  exists router,
    Swap.routerFor d chainId = Some router /\ router <> EmptyString.
Proof.
  unfold Dex.getDexesForChain. rewrite filter_In. intros [Hd Hc].
  unfold Dex.includes in Hc. apply existsb_exists in Hc.
  destruct Hc as (c & Hin & Heq). apply Z.eqb_eq in Heq. subst c.
  simpl in Hd.
  repeat (destruct Hd as [<-|Hd];
          [simpl in Hin;
           repeat (destruct Hin as [<-|Hin];
                   [eexists; split; [reflexivity | discriminate]|]);
           destruct Hin|]).
  destruct Hd.
Qed.

(** The quotes of one call: positive amounts of registered venues. *)
Lemma getAllQuotes_members (E : Env) (chainId : Z) (tokenIn tokenOut : string)
      (amountIn decimals : Z) (w w' : World) (ranked : list Swap.SwapQuote) :
  Swap.getAllQuotes E chainId tokenIn tokenOut amountIn decimals w
  = (Val ranked, w') ->
  forall q,
    In q ranked ->
    0 < Swap.amountOut q
    /\ In (Swap.dex q) (Dex.getDexesForChain chainId)
    /\ formatUnits E (Swap.amountOut q) decimals = Some (Swap.amountOutFormatted q).
Proof.
  intros Hrun q Hq.
  apply getAllQuotes_inv in Hrun. destruct Hrun as [Hfmt ->].
  destruct (sorted_viable E chainId tokenIn tokenOut amountIn decimals)
    as (_ & _ & Hmem & _).
  destruct (Hmem q Hq) as [Hin Hpos].
  split; [exact Hpos|]. split; [exact (viableQuotes_venue _ _ _ _ _ _ _ _ Hin)|].
  rewrite (viableQuotes_text _ _ _ _ _ _ _ _ Hin). unfold Spec.formatted.
  unfold Spec.formattable in Hfmt. rewrite forallb_forall in Hfmt.
  specialize (Hfmt q Hin).
  destruct (formatUnits E (Swap.amountOut q) decimals); [reflexivity|discriminate].
Qed.

(** X2. [getAllQuotes] returns exactly when [formatUnits] accepts the
    amount of every viable quote, and throws otherwise.  Every quote
    that it returns is a positive amount from a venue registered for the
    chain, carries the text of its amount, and its venue has a non-empty
    router address on the chain: the swap built from any returned quote
    has a destination. *)
Theorem getAllQuotes_quotes_have_routers (E : Env) (chainId : Z)
        (tokenIn tokenOut : string) (amountIn tokenOutDecimals : Z) (w : World) :
  let viable := Spec.viableQuotes E chainId tokenIn tokenOut amountIn
                  tokenOutDecimals (Dex.getDexesForChain chainId) in
  let result := Swap.getAllQuotes E chainId tokenIn tokenOut amountIn
                  tokenOutDecimals w in
  (if Spec.formattable E tokenOutDecimals viable
   then exists ranked, fst result = Val ranked
   else exists n, fst result = Throw (EFormat n tokenOutDecimals)
                  /\ formatUnits E n tokenOutDecimals = None)
  /\ forall ranked,
       fst result = Val ranked ->
       forall q,
         In q ranked ->
         0 < Swap.amountOut q
         /\ In (Swap.dex q) (Dex.getDexesForChain chainId)
         /\ formatUnits E (Swap.amountOut q) tokenOutDecimals
            = Some (Swap.amountOutFormatted q)
         /\ exists router,
              Swap.routerFor (Swap.dex q) chainId = Some router
              /\ router <> EmptyString.
Proof.
  intros viable result. split.
  - destruct (Spec.formattable E tokenOutDecimals viable) eqn:Hfmt.
    + destruct (@getAllQuotes_val E chainId tokenIn tokenOut amountIn
                  tokenOutDecimals w Hfmt) as (w' & Hv).
      eexists. unfold result. rewrite Hv. reflexivity.
    + destruct (@getAllQuotes_throws E chainId tokenIn tokenOut amountIn
                  tokenOutDecimals w Hfmt) as (n & w' & Ht & Hn).
      exists n. unfold result. rewrite Ht. auto.
  - intros ranked Hrun q Hq. unfold result in Hrun.
    destruct (Swap.getAllQuotes E chainId tokenIn tokenOut amountIn
                tokenOutDecimals w) as [o w'] eqn:Heq.
    cbn [fst] in Hrun. subst o.
    destruct (getAllQuotes_members _ _ _ _ _ _ _ Heq q Hq) as (Hpos & Hvenue & Htext).
    repeat split; auto. apply venue_has_router. exact Hvenue.
Qed.

(** Two venues quote on chain 1; with 18 decimals both quotes are
    returned, with 81 decimals the aggregation throws. *)
Example getAllQuotes_returns_or_throws :
  (exists ranked,
      fst (Swap.getAllQuotes (Sample.env Sample.tiedQuotes) 1 Sample.usdc
             Sample.weth 100 18 (Sample.world true)) = Val ranked
      /\ List.length ranked = 2%nat)
  /\ fst (Swap.getAllQuotes (Sample.env Sample.tiedQuotes) 1 Sample.usdc
            Sample.weth 100 81 (Sample.world true))
     = Throw (EFormat 5 81).
Proof. split; [eexists; split|]; vm_compute; reflexivity. Qed.

(* ------------------------------------------------------------------ *)
(** ** Network information                                             *)
(* ------------------------------------------------------------------ *)

(** The chains of the tools' network table. *)
Lemma known_chain (c : Z) (n : Networks.NetworkConfig) :
  Networks.getNetwork c = Some n -> In c (map fst Networks.NETWORKS).
Proof.
  unfold Networks.getNetwork, Networks.NETWORKS. cbn [lookupZ map fst].
  repeat match goal with
         | |- context [c =? ?k] =>
             destruct (Z.eqb_spec c k) as [->|?]; [intros _; simpl; tauto|]
         end.
  intros H. discriminate H.
Qed.

(** X3. [getNetworkInfo] answers for every chain id and always echoes
    it; for a chain outside its table the name is the placeholder that
    quotes the id and the symbol is [???]; and on every chain that the
    tools' own network table knows, the chain is supported here too and
    both tables give the same native symbol. *)
Theorem getNetworkInfo_echoes_chain (c : Z) :
  NetworkInfo.chainId (NetworkInfo.getNetworkInfo c) = c
  /\ (NetworkInfo.isNetworkSupported c = false ->
      NetworkInfo.getNetworkName c
      = ("Unknown Network (" ++ JsNumber.toString c ++ ")")%string
      /\ NetworkInfo.getNativeTokenSymbol c = "???"%string)
  /\ (forall n, Networks.getNetwork c = Some n ->
                NetworkInfo.isNetworkSupported c = true
                /\ NetworkInfo.getNativeTokenSymbol c = Networks.getNativeSymbol c).
Proof.
  split; [|split].
  - unfold NetworkInfo.getNetworkInfo, NetworkInfo.SUPPORTED_NETWORKS.
    cbn [lookupZ].
    repeat match goal with
           | |- context [c =? ?k] =>
               destruct (Z.eqb_spec c k) as [->|?]; [reflexivity|]
           end.
    reflexivity.
  - unfold NetworkInfo.getNetworkName, NetworkInfo.getNativeTokenSymbol,
      NetworkInfo.getNetworkInfo, NetworkInfo.isNetworkSupported.
    destruct (lookupZ c NetworkInfo.SUPPORTED_NETWORKS); [discriminate|].
    intros _. split; reflexivity.
  - intros n Hn. apply known_chain in Hn. simpl in Hn.
    repeat (destruct Hn as [<-|Hn]; [split; reflexivity|]).
    destruct Hn.
Qed.

(* ------------------------------------------------------------------ *)
(** ** Uptime formatting                                               *)
(* ------------------------------------------------------------------ *)

Example formatUptime_zero : Status.formatUptime 0 = "0s"%string.
Proof. reflexivity. Qed.

Example formatUptime_all_units :
  Status.formatUptime 93784 = "1d 2h 3m 4s"%string.
Proof. reflexivity. Qed.

Example formatUptime_skips_zero_units :
  Status.formatUptime 86460 = "1d 1m"%string.
Proof. reflexivity. Qed.

(** Below zero only the remainder of the seconds is shown. *)
Example formatUptime_negative : Status.formatUptime (-3725) = "-5s"%string.
Proof. reflexivity. Qed.

(** X4. For a non-negative number of seconds the parts that
    [formatUptime] prints account for every second: days, hours, minutes
    and seconds add up to the input; hours stay below 24, minutes and
    seconds below 60; a unit is printed only with a positive amount,
    except the single part [0s] for zero seconds; and at least one part
    is printed. *)
Theorem uptime_parts_account_for_every_second (seconds : Z) :
  0 <= seconds ->
  Status.partsSeconds (Status.uptimeParts seconds) = seconds
  /\ Status.uptimeParts seconds <> []
  /\ (forall n u, In (n, u) (Status.uptimeParts seconds) ->
                  0 < n \/ Status.uptimeParts seconds = [(0, "s"%string)])
  /\ (forall n, In (n, "h"%string) (Status.uptimeParts seconds) -> n < 24)
  /\ (forall n, In (n, "m"%string) (Status.uptimeParts seconds) -> n < 60)
  /\ (forall n, In (n, "s"%string) (Status.uptimeParts seconds) -> n < 60).
Proof.
  intros Hs. unfold Status.uptimeParts.
  rewrite !Z.rem_mod_nonneg by lia.
  set (days := seconds / 86400).
  set (hours := seconds mod 86400 / 3600).
  set (minutes := seconds mod 3600 / 60).
  set (secs := seconds mod 60).
  assert (Hsum : days * 86400 + hours * 3600 + minutes * 60 + secs = seconds).
  { subst days hours minutes secs.
    rewrite <- (Z.mod_mod_divide seconds 3600 60) by (exists 60; reflexivity).
    rewrite <- (Z.mod_mod_divide seconds 86400 3600) by (exists 24; reflexivity).
    Z.div_mod_to_equations. lia. }
  assert (Hd : 0 <= days) by (subst days; Z.div_mod_to_equations; lia).
  assert (Hh : 0 <= hours < 24) by (subst hours; Z.div_mod_to_equations; lia).
  assert (Hm : 0 <= minutes < 60) by (subst minutes; Z.div_mod_to_equations; lia).
  assert (Hc : 0 <= secs < 60) by (subst secs; Z.div_mod_to_equations; lia).
  clearbody days hours minutes secs.
  destruct (Z.ltb_spec 0 days), (Z.ltb_spec 0 hours), (Z.ltb_spec 0 minutes),
    (Z.ltb_spec 0 secs); cbn;
    (split; [unfold Status.unitSeconds; cbn; lia|]);
    (split; [discriminate|]);
    (split; [intros n u Hin;
             repeat (destruct Hin as [Hin|Hin];
                     [inversion Hin; subst; first [left; lia | right; repeat f_equal; lia]|]);
             destruct Hin|]);
    repeat split; intros n Hin;
    repeat (destruct Hin as [Hin|Hin];
            [inversion Hin; subst; lia|]);
    destruct Hin.
Qed.

Lemma uptime_parts_account_for_every_second_witness :
  Status.partsSeconds (Status.uptimeParts 93784) = 93784
  /\ Status.uptimeParts 93784 <> []
  /\ (forall n u, In (n, u) (Status.uptimeParts 93784) ->
                  0 < n \/ Status.uptimeParts 93784 = [(0, "s"%string)])
  /\ (forall n, In (n, "h"%string) (Status.uptimeParts 93784) -> n < 24)
  /\ (forall n, In (n, "m"%string) (Status.uptimeParts 93784) -> n < 60)
  /\ (forall n, In (n, "s"%string) (Status.uptimeParts 93784) -> n < 60).
Proof. apply uptime_parts_account_for_every_second. lia. Defined.

(* ------------------------------------------------------------------ *)
(** ** Token symbols and letter case                                   *)
(* ------------------------------------------------------------------ *)

Lemma same_case_lower (a b : string) :
  JsString.toUpperCase a = JsString.toUpperCase b ->
  JsString.toLowerCase a = JsString.toLowerCase b.
Proof.
  intros H. rewrite <- (toLowerCase_toUpperCase a), H.
  apply toLowerCase_toUpperCase.
Qed.

Lemma toUpperCase_empty (s : string) :
  JsString.toUpperCase s = EmptyString -> s = EmptyString.
Proof. destruct s; [reflexivity | discriminate]. Qed.

Lemma isNativeToken_same_case (a b : string) (c : Z) :
  JsString.toUpperCase a = JsString.toUpperCase b ->
  Tokens.isNativeToken a c = Tokens.isNativeToken b c.
Proof. intros H. unfold Tokens.isNativeToken. rewrite H. reflexivity. Qed.

Lemma getTokenFrom_same_case (tokens : list (string * Tokens.TokenConfig))
      (a b : string) (c : Z) :
  JsString.toUpperCase a = JsString.toUpperCase b ->
  Tokens.getTokenFrom tokens a c = Tokens.getTokenFrom tokens b c.
Proof. intros H. unfold Tokens.getTokenFrom. rewrite H. reflexivity. Qed.

Lemma truthy_same_case (a b : string) :
  JsString.toUpperCase a = JsString.toUpperCase b ->
  (JsString.truthy (Some a) = Some a /\ JsString.truthy (Some b) = Some b)
  \/ (a = EmptyString /\ b = EmptyString).
Proof.
  intros H. destruct a as [|x a], b as [|y b]; try discriminate.
  - right. split; reflexivity.
  - left. split; reflexivity.
Qed.

(** X5. Two token inputs that differ only in letter case, neither of
    them an address, are resolved alike by the transfer, approval and
    swap tools: the same token whenever one of them resolves, for any
    alias table and registry. *)
Theorem resolveToken_ignores_case (E : Env)
        (aliases : list (string * string))
        (tokens : list (string * Tokens.TokenConfig))
        (a b : string) (chainId : Z) :
  JsString.toUpperCase a = JsString.toUpperCase b ->
  isAddress E a = false ->
  isAddress E b = false ->
  (forall r,
      Transfer.resolveTokenWith aliases tokens E (Some a) chainId = inr r ->
      Transfer.resolveTokenWith aliases tokens E (Some b) chainId = inr r)
  /\ (forall r,
         Approve.resolveTokenWith aliases tokens E a chainId = inr r ->
         Approve.resolveTokenWith aliases tokens E b chainId = inr r)
  /\ Swap.resolveTokenWith aliases tokens E a chainId
     = Swap.resolveTokenWith aliases tokens E b chainId.
Proof.
  intros Hcase Ha Hb. pose proof (same_case_lower a b Hcase) as Hlower.
  split; [|split].
  - intros r. unfold Transfer.resolveTokenWith.
    destruct (truthy_same_case a b Hcase) as [[Hta Htb]|[-> ->]]; [|auto].
    rewrite Hta, Htb, Ha, Hb, Hlower. cbv zeta.
    destruct (lookup (JsString.trim (JsString.toLowerCase b)) aliases) as [s|];
      cbv beta iota.
    { destruct (Tokens.isNativeToken s chainId); [auto|].
      destruct (Tokens.getTokenFrom tokens s chainId); [auto | discriminate]. }
    rewrite (isNativeToken_same_case a b chainId Hcase).
    destruct (Tokens.isNativeToken b chainId); [auto|].
    rewrite (getTokenFrom_same_case tokens a b chainId Hcase), Hcase.
    destruct (Tokens.getTokenFrom tokens b chainId); [auto | discriminate].
  - intros r. unfold Approve.resolveTokenWith.
    rewrite Ha, Hb, Hlower. cbv zeta.
    destruct (lookup (JsString.trim (JsString.toLowerCase b)) aliases) as [s|];
      cbv beta iota.
    { destruct (Tokens.getTokenFrom tokens s chainId); [auto | discriminate]. }
    rewrite (getTokenFrom_same_case tokens a b chainId Hcase), Hcase.
    destruct (Tokens.getTokenFrom tokens b chainId); [auto | discriminate].
  - unfold Swap.resolveTokenWith. rewrite Ha, Hb, Hlower, Hcase. reflexivity.
Qed.

Lemma resolveToken_ignores_case_witness :
  (forall r,
      Transfer.resolveToken (Sample.env Sample.silent) (Some "usdc") 1 = inr r ->
      Transfer.resolveToken (Sample.env Sample.silent) (Some "USDC") 1 = inr r)
  /\ (forall r,
         Approve.resolveToken (Sample.env Sample.silent) "usdc" 1 = inr r ->
         Approve.resolveToken (Sample.env Sample.silent) "USDC" 1 = inr r)
  /\ Swap.resolveToken (Sample.env Sample.silent) "usdc" 1
     = Swap.resolveToken (Sample.env Sample.silent) "USDC" 1.
Proof.
  split; [|split].
  - apply (@resolveToken_ignores_case (Sample.env Sample.silent)
             Transfer.TOKEN_ALIASES Tokens.TOKENS "usdc" "USDC" 1);
      reflexivity.
  - apply (@resolveToken_ignores_case (Sample.env Sample.silent)
             Approve.TOKEN_ALIASES Tokens.TOKENS "usdc" "USDC" 1);
      reflexivity.
  - apply (@resolveToken_ignores_case (Sample.env Sample.silent)
             Swap.TOKEN_ALIASES Tokens.TOKENS "usdc" "USDC" 1);
      reflexivity.
Defined.

(* ------------------------------------------------------------------ *)
(** ** The [resolve_token] and [is_native_token] tools                 *)
(* ------------------------------------------------------------------ *)

(** A registry symbol is not an alias of any tool. *)
Lemma registry_symbol_is_no_alias (sym : string) (config : Tokens.TokenConfig) :
  lookup (JsString.toUpperCase sym) Tokens.TOKENS = Some config ->
  lookup (JsString.trim (JsString.toLowerCase sym)) Transfer.TOKEN_ALIASES = None
  /\ lookup (JsString.trim (JsString.toLowerCase sym)) Approve.TOKEN_ALIASES = None
  /\ lookup (JsString.trim (JsString.toLowerCase sym)) Swap.TOKEN_ALIASES = None.
Proof.
  intros H. apply lookup_In in H.
  rewrite <- (toLowerCase_toUpperCase sym).
  unfold Tokens.TOKENS in H. cbn [In] in H.
  repeat (destruct H as [H|H];
          [injection H as Hk Hc; rewrite <- Hk; repeat split; reflexivity|]).
  destruct H.
Qed.

(** The native symbols of each chain, in upper case. *)
Lemma isNativeToken_cases (sym : string) (c : Z) :
  Tokens.isNativeToken sym c = true ->
  In (c, JsString.toUpperCase sym)
     [ (1, "ETH"%string); (1, "ETHER"%string);
       (137, "MATIC"%string); (137, "POL"%string);
       (42161, "ETH"%string); (42161, "ETHER"%string);
       (10, "ETH"%string); (10, "ETHER"%string);
       (8453, "ETH"%string); (8453, "ETHER"%string);
       (43114, "AVAX"%string); (56, "BNB"%string);
       (11155111, "ETH"%string); (11155111, "ETHER"%string) ].
Proof.
  unfold Tokens.isNativeToken, Tokens.nativeTokens. cbn [lookupZ].
  repeat match goal with
         | |- context [c =? ?k] =>
             destruct (Z.eqb_spec c k) as [->|?];
             [cbn [existsb]; rewrite ?orb_false_r;
              intros H; repeat (apply orb_prop in H; destruct H as [H|H]);
              apply String.eqb_eq in H; rewrite H; simpl; tauto|]
         end.
  intros H. discriminate H.
Qed.

(** A native symbol stays native through the alias tables of transfer
    and swap, and its chain has a wrapped native address. *)
Lemma native_symbol_resolution (sym : string) (c : Z) :
  Tokens.isNativeToken sym c = true ->
  Tokens.isNativeToken
    (match lookup (JsString.trim (JsString.toLowerCase sym))
             Transfer.TOKEN_ALIASES with
     | Some s => s
     | None => sym
     end) c = true
  /\ Tokens.isNativeToken
       (match lookup (JsString.trim (JsString.toLowerCase sym))
                Swap.TOKEN_ALIASES with
        | Some s => s
        | None => JsString.toUpperCase sym
        end) c = true
  /\ exists wrapped,
       JsString.truthy (lookupZ c Dex.WRAPPED_NATIVE) = Some wrapped
       /\ lookupZ c Dex.WRAPPED_NATIVE = Some wrapped.
Proof.
  intros Hnative. pose proof (isNativeToken_cases sym c Hnative) as Hcases.
  rewrite <- (toLowerCase_toUpperCase sym).
  rewrite <- (isNativeToken_same_case (JsString.toUpperCase sym) sym c
                (toUpperCase_idem sym)) in Hnative.
  remember (lookup (JsString.trim (JsString.toLowerCase (JsString.toUpperCase sym)))
                   Transfer.TOKEN_ALIASES) as aliasT eqn:HT.
  remember (lookup (JsString.trim (JsString.toLowerCase (JsString.toUpperCase sym)))
                   Swap.TOKEN_ALIASES) as aliasS eqn:HS.
  cbn [In] in Hcases.
  repeat (destruct Hcases as [Hc|Hcases];
          [injection Hc as Hchain Hsym; subst c;
           rewrite <- Hsym in HT, HS, Hnative;
           vm_compute in HT; vm_compute in HS; subst aliasT aliasS;
           split; [first [reflexivity
                         | rewrite <- (isNativeToken_same_case
                                         (JsString.toUpperCase sym) sym _
                                         (toUpperCase_idem sym)), <- Hsym;
                           reflexivity]|];
           split; [first [reflexivity | rewrite <- Hsym; reflexivity]|];
           eexists; split; reflexivity|]).
  destruct Hcases.
Qed.

(** X6. A symbol that the [resolve_token] tool resolves is resolved the
    same way by the transfer, approval and swap tools, provided the
    symbol is not itself taken for an address: for a registry token the
    three tools use the address and decimals that [resolve_token]
    reports; for a native symbol transfer prepares a native transfer and
    swap uses the wrapped native address of the chain. *)
Theorem resolve_token_agrees_with_handlers (E : Env) (sym : string)
        (ctx : ToolContext) (d : TokenUtils.TokenDetails) :
  TokenUtils.resolveTokenHandler sym ctx = TokenUtils.Resolved d ->
  isAddress E sym = false ->
  let chainId := contextChainId ctx in
  match TokenUtils.address d with
  | Some a =>
      TokenUtils.isNative d = false
      /\ Transfer.resolveToken E (Some sym) chainId
         = inr {| Transfer.token_address := Some a;
                  Transfer.token_symbol := TokenUtils.symbol d;
                  Transfer.token_decimals := TokenUtils.decimals d |}
      /\ Approve.resolveToken E sym chainId
         = inr {| Approve.token_address := a;
                  Approve.token_symbol := TokenUtils.symbol d;
                  Approve.token_decimals := TokenUtils.decimals d |}
      /\ Swap.resolveToken E sym chainId
         = Some {| Swap.address := a;
                   Swap.symbol := TokenUtils.symbol d;
                   Swap.decimals := TokenUtils.decimals d;
                   Swap.isNative := false |}
  | None =>
      TokenUtils.isNative d = true
      /\ Transfer.resolveToken E (Some sym) chainId
         = inr {| Transfer.token_address := None;
                  Transfer.token_symbol := Networks.getNativeSymbol chainId;
                  Transfer.token_decimals := 18 |}
      /\ exists wrapped r,
           lookupZ chainId Dex.WRAPPED_NATIVE = Some wrapped
           /\ Swap.resolveToken E sym chainId = Some r
           /\ Swap.address r = wrapped
           /\ Swap.isNative r = true
           /\ Swap.decimals r = 18
  end.
Proof.
  intros Hres Haddr. unfold TokenUtils.resolveTokenHandler in Hres.
  cbv zeta in *. set (chainId := contextChainId ctx) in *. clearbody chainId.
  destruct (Networks.getNetwork chainId) as [network|]; [|discriminate].
  destruct (Tokens.isNativeToken sym chainId) eqn:Hnative.
  - inversion Hres; subst d; clear Hres. cbn [TokenUtils.address TokenUtils.isNative].
    split; [reflexivity|].
    destruct (native_symbol_resolution sym chainId Hnative)
      as (HT & HS & wrapped & Hw & Hw').
    assert (Hne : JsString.truthy (Some sym) = Some sym).
    { destruct sym; [|reflexivity].
      apply isNativeToken_cases in Hnative. cbn in Hnative.
      repeat (destruct Hnative as [Hc|Hnative]; [discriminate Hc|]).
      destruct Hnative. }
    unfold Transfer.resolveToken, Transfer.resolveTokenWith,
      Swap.resolveToken, Swap.resolveTokenWith.
    rewrite Hne, Haddr. cbv zeta. rewrite HT, HS, Hw.
    split; [reflexivity|]. eexists _, _.
    split; [exact Hw'|]. split; [reflexivity|]. repeat split; reflexivity.
  - destruct (Tokens.getToken sym chainId) as [token|] eqn:Htoken; [|discriminate].
    inversion Hres; subst d; clear Hres.
    cbn [TokenUtils.address TokenUtils.isNative TokenUtils.symbol
           TokenUtils.decimals].
    split; [reflexivity|].
    pose proof Htoken as Hlookup. unfold Tokens.getToken, Tokens.getTokenFrom in Hlookup.
    destruct (lookup (JsString.toUpperCase sym) Tokens.TOKENS) as [config|] eqn:Hcfg;
      [|discriminate]. clear Hlookup.
    destruct (registry_symbol_is_no_alias sym Hcfg) as (Ht & Ha & Hs).
    assert (Hne : JsString.truthy (Some sym) = Some sym).
    { destruct sym; [discriminate Hcfg | reflexivity]. }
    unfold Transfer.resolveToken, Transfer.resolveTokenWith,
      Approve.resolveToken, Approve.resolveTokenWith,
      Swap.resolveToken, Swap.resolveTokenWith.
    rewrite Hne, Haddr, Ht, Ha, Hs. cbv zeta beta iota.
    rewrite (isNativeToken_same_case (JsString.toUpperCase sym) sym chainId
               (toUpperCase_idem sym)).
    rewrite (getTokenFrom_same_case Tokens.TOKENS (JsString.toUpperCase sym) sym
               chainId (toUpperCase_idem sym)).
    rewrite Hnative. fold Tokens.getToken. rewrite Htoken.
    repeat split; reflexivity.
Qed.

Lemma resolve_token_agrees_with_handlers_witness :
  Transfer.resolveToken (Sample.env Sample.silent) (Some "usdc") 1
  = inr {| Transfer.token_address := Some Sample.usdc;
           Transfer.token_symbol := "USDC";
           Transfer.token_decimals := 6 |}
  /\ Swap.resolveToken (Sample.env Sample.silent) "usdc" 1
     = Some {| Swap.address := Sample.usdc; Swap.symbol := "USDC";
               Swap.decimals := 6; Swap.isNative := false |}.
Proof.
  pose proof (@resolve_token_agrees_with_handlers (Sample.env Sample.silent)
                "usdc" Sample.ctx
                {| TokenUtils.symbol := "USDC"; TokenUtils.name := "USD Coin";
                   TokenUtils.address := Some Sample.usdc;
                   TokenUtils.decimals := 6; TokenUtils.isNative := false;
                   TokenUtils.network := "Ethereum" |}
                eq_refl eq_refl) as H.
  cbv zeta in H. cbn [TokenUtils.address] in H.
  destruct H as (_ & Ht & _ & Hs). split; [exact Ht | exact Hs].
Defined.

(* ------------------------------------------------------------------ *)
(** ** Spenders named by venue                                         *)
(* ------------------------------------------------------------------ *)

(** X7. When the approval tool resolves a spender given by the name of
    a swap venue, the address it approves is, on every chain except
    Base (8453), the router through which the swap tool trades on that
    venue.  On Base the name [uniswap] resolves to a contract that is
    not the router of the swap tool, so an approval by name does not
    cover a later swap there. *)
Theorem named_spender_is_swap_router (E : Env) (name : string) (chainId : Z)
        (s : Approve.Spender) :
  isAddress E name = false ->
  Approve.resolveSpender E name chainId = inr s ->
  Dex.getDex name <> None ->
  (chainId <> 8453 ->
   Registry.getRouterAddress name chainId = Some (Approve.address s))
  /\ (chainId = 8453 ->
      JsString.toLowerCase name = "uniswap"%string
      /\ exists router,
           Registry.getRouterAddress name chainId = Some router
           /\ router <> Approve.address s).
Proof.
  intros Haddr Hres Hdex.
  unfold Approve.resolveSpender in Hres. rewrite Haddr in Hres. cbv zeta in Hres.
  unfold Registry.getRouterAddress, Dex.getDex in *.
  remember (JsString.toLowerCase name) as lower eqn:Hlower. clear Hlower.
  unfold Approve.PROTOCOL_ADDRESSES in Hres. cbn [lookup] in Hres.
  destruct (String.eqb_spec lower "uniswap") as [Heq|Huni].
  - subst lower. cbn [lookupZ] in Hres. cbn.
    repeat match type of Hres with
           | context [chainId =? ?k] =>
               destruct (Z.eqb_spec chainId k) as [->|?];
               [cbn in Hres; injection Hres as <-; cbn;
                split; [intros Hne; first [reflexivity | congruence]|];
                intros He; first [discriminate He
                                 | split; [reflexivity|]; eexists;
                                   split; [reflexivity | discriminate]]|]
           end.
    discriminate Hres.
  - destruct (String.eqb_spec lower "aave") as [Heq|Haave].
    + subst lower. exfalso. apply Hdex. reflexivity.
    + destruct (String.eqb_spec lower "sushiswap") as [Heq|Hsushi];
        [|discriminate Hres].
      subst lower. cbn [lookupZ] in Hres. cbn.
      repeat match type of Hres with
             | context [chainId =? ?k] =>
                 destruct (Z.eqb_spec chainId k) as [->|?];
                 [cbn in Hres; injection Hres as <-; cbn;
                  split; [intros _; reflexivity | intros He; discriminate He]|]
             end.
      discriminate Hres.
Qed.

Lemma named_spender_is_swap_router_witness :
  (1 <> 8453 ->
   Registry.getRouterAddress "SushiSwap" 1
   = Some "0xd9e1cE17f2641f24aE83637ab66a2cca9C378B9F"%string)
  /\ (1 = 8453 ->
      JsString.toLowerCase "SushiSwap" = "uniswap"%string
      /\ exists router,
           Registry.getRouterAddress "SushiSwap" 1 = Some router
           /\ router <> "0xd9e1cE17f2641f24aE83637ab66a2cca9C378B9F"%string).
Proof.
  apply (@named_spender_is_swap_router (Sample.env Sample.silent) "SushiSwap" 1
           {| Approve.address := "0xd9e1cE17f2641f24aE83637ab66a2cca9C378B9F";
              Approve.protocol := Some "SushiSwap" |});
    [reflexivity | reflexivity | discriminate].
Defined.

(** The mismatch on Base. *)
Example uniswap_spender_on_base :
  Approve.resolveSpender (Sample.env Sample.silent) "uniswap" 8453
  = inr {| Approve.address := "0x3fC91A3afd70395Cd496C647d5a6CC9D4B2b7FAD";
           Approve.protocol := Some "uniswap"%string |}
  /\ Registry.getRouterAddress "uniswap" 8453
     = Some "0x2626664c2603336E57B271c5C0b26F421741e481"%string.
Proof. split; reflexivity. Qed.

(* ------------------------------------------------------------------ *)
(** ** The swap transaction builder                                    *)
(* ------------------------------------------------------------------ *)

Lemma encodeFunctionData_val (E : Env) (c c' : CallData) (w w' : World) :
  encodeFunctionData E c w = (Val c', w') -> c' = c /\ w' = w.
Proof.
  unfold encodeFunctionData. destruct (encodable E c); cbn; intros H;
    inversion H; auto.
Qed.

Lemma toQuantity_val (n v : Z) (w w' : World) :
  toQuantity n w = (Val v, w') -> v = n /\ w' = w /\ 0 <= n.
Proof.
  unfold toQuantity. destruct (Z.ltb_spec n 0) as [Hn|Hn]; cbn; intros Heq;
    inversion Heq.
  subst. auto.
Qed.

(** What [buildSwapTransaction] returns, field by field. *)
Lemma buildSwapTransaction_val (E : Env) (d : Dex.DexConfig) (chainId : Z)
      (tokenIn tokenOut : Swap.TokenRef) (amountIn amountOutMin : Z)
      (recipient : string) (deadline : Z) (w w' : World) (tx : Swap.SwapTx) :
  Swap.buildSwapTransaction E d chainId tokenIn tokenOut amountIn amountOutMin
    recipient deadline w = (Val tx, w') ->
  w' = w
  /\ Swap.tx_to tx = Swap.routerFor d chainId
  /\ Swap.tx_value tx = (if Swap.isNative tokenIn then amountIn else 0)
  /\ (Swap.isNative tokenIn = true -> 0 <= amountIn)
  /\ Swap.tx_data tx
     = (if String.eqb (Dex.slug d) "uniswap"
        then Multicall deadline
               [ExactInputSingle (Swap.address tokenIn) (Swap.address tokenOut)
                  Dex.FEE_TIERS.MEDIUM
                  (if Swap.isNative tokenOut then Swap.ZeroAddress else recipient)
                  amountIn amountOutMin 0]
        else if Swap.isNative tokenIn
        then SwapExactETHForTokens amountOutMin
               [Swap.address tokenIn; Swap.address tokenOut] recipient deadline
        else if Swap.isNative tokenOut
        then SwapExactTokensForETH amountIn amountOutMin
               [Swap.address tokenIn; Swap.address tokenOut] recipient deadline
        else SwapExactTokensForTokens amountIn amountOutMin
               [Swap.address tokenIn; Swap.address tokenOut] recipient deadline).
Proof.
  unfold Swap.buildSwapTransaction, bind, ret.
  destruct (String.eqb (Dex.slug d) "uniswap").
  - destruct (encodeFunctionData E _ w) as [[c1|r|e] w1] eqn:H1;
      try (intros H; discriminate H).
    apply encodeFunctionData_val in H1. destruct H1 as [-> ->].
    destruct (encodeFunctionData E _ w) as [[c2|r|e] w2] eqn:H2;
      try (intros H; discriminate H).
    apply encodeFunctionData_val in H2. destruct H2 as [-> ->].
    destruct (Swap.isNative tokenIn).
    + destruct (toQuantity amountIn w) as [[v|r|e] w3] eqn:H3;
        try (intros H; discriminate H).
      apply toQuantity_val in H3. destruct H3 as (-> & -> & Hpos).
      intros H. inversion H; subst. cbn. auto.
    + cbn. intros H. inversion H; subst. cbn.
      repeat split; auto. intros Hf. discriminate Hf.
  - destruct (Swap.isNative tokenIn).
    + destruct (encodeFunctionData E _ w) as [[c1|r|e] w1] eqn:H1;
        try (intros H; discriminate H).
      apply encodeFunctionData_val in H1. destruct H1 as [-> ->].
      destruct (toQuantity amountIn w) as [[v|r|e] w3] eqn:H3;
        try (intros H; discriminate H).
      apply toQuantity_val in H3. destruct H3 as (-> & -> & Hpos).
      intros H. inversion H; subst. cbn. auto.
    + destruct (Swap.isNative tokenOut);
        (destruct (encodeFunctionData E _ w) as [[c1|r|e] w1] eqn:H1;
         try (intros H; discriminate H);
         apply encodeFunctionData_val in H1; destruct H1 as [-> ->];
         intros H; inversion H; subst; cbn;
         repeat split; auto; intros Hf; discriminate Hf).
Qed.

(** X8. Whatever the venue, a swap transaction that
    [buildSwapTransaction] returns is addressed to the venue's router on
    the chain and carries native value exactly when the input token is
    the native one: then the value is the input amount (which is not
    negative), otherwise zero.  Building touches nothing of the world. *)
Theorem swap_value_follows_native_input (E : Env) (d : Dex.DexConfig)
        (chainId : Z) (tokenIn tokenOut : Swap.TokenRef)
        (amountIn amountOutMin : Z) (recipient : string) (deadline : Z)
        (w w' : World) (tx : Swap.SwapTx) :
  Swap.buildSwapTransaction E d chainId tokenIn tokenOut amountIn amountOutMin
    recipient deadline w = (Val tx, w') ->
  w' = w
  /\ Swap.tx_to tx = Swap.routerFor d chainId
  /\ Swap.tx_value tx = (if Swap.isNative tokenIn then amountIn else 0)
  /\ (Swap.isNative tokenIn = true -> 0 <= amountIn).
Proof.
  intros H. apply buildSwapTransaction_val in H. tauto.
Qed.

Lemma swap_value_follows_native_input_witness :
  exists tx,
    Swap.tx_to tx = Some "0xd9e1cE17f2641f24aE83637ab66a2cca9C378B9F"%string
    /\ Swap.tx_value tx = 10 ^ 18.
Proof.
  eexists.
  pose proof (@swap_value_follows_native_input (Sample.env Sample.silent)
                Dex.SUSHISWAP 1
                {| Swap.address := Sample.weth; Swap.symbol := "ETH";
                   Swap.decimals := 18; Swap.isNative := true |}
                {| Swap.address := Sample.usdc; Swap.symbol := "USDC";
                   Swap.decimals := 6; Swap.isNative := false |}
                (10 ^ 18) 1990 Sample.alice 1700001200
                (Sample.world true) (Sample.world true) _ eq_refl)
    as (_ & Hto & Hvalue & _).
  split; [exact Hto | exact Hvalue].
Defined.

(** X9. The call data of a built swap carries the limits it was given,
    for every venue and every combination of native and token sides:
    the minimum output, the deadline, the route from the input to the
    output token, and as receiver the given recipient -- except on the
    single-hop venue with a native output, where the receiver is the
    zero address. *)
Theorem swap_call_carries_limits (E : Env) (d : Dex.DexConfig)
        (chainId : Z) (tokenIn tokenOut : Swap.TokenRef)
        (amountIn amountOutMin : Z) (recipient : string) (deadline : Z)
        (w w' : World) (tx : Swap.SwapTx) :
  Swap.buildSwapTransaction E d chainId tokenIn tokenOut amountIn amountOutMin
    recipient deadline w = (Val tx, w') ->
  Decode.minimumOut (Swap.tx_data tx) = Some amountOutMin
  /\ Decode.deadline (Swap.tx_data tx) = Some deadline
  /\ Decode.route (Swap.tx_data tx)
     = Some (Swap.address tokenIn, Swap.address tokenOut)
  /\ Decode.recipient (Swap.tx_data tx)
     = Some (if (String.eqb (Dex.slug d) "uniswap" && Swap.isNative tokenOut)%bool
             then Swap.ZeroAddress else recipient).
Proof.
  intros H. apply buildSwapTransaction_val in H.
  destruct H as (_ & _ & _ & _ & ->).
  destruct (String.eqb (Dex.slug d) "uniswap"), (Swap.isNative tokenIn),
    (Swap.isNative tokenOut); repeat split; reflexivity.
Qed.

Lemma swap_call_carries_limits_witness :
  exists tx,
    Decode.minimumOut (Swap.tx_data tx) = Some 1990
    /\ Decode.deadline (Swap.tx_data tx) = Some 1700001200
    /\ Decode.route (Swap.tx_data tx) = Some (Sample.usdc, Sample.weth)
    /\ Decode.recipient (Swap.tx_data tx) = Some Swap.ZeroAddress.
Proof.
  eexists.
  apply (@swap_call_carries_limits (Sample.env Sample.silent)
           Dex.UNISWAP 1
           {| Swap.address := Sample.usdc; Swap.symbol := "USDC";
              Swap.decimals := 6; Swap.isNative := false |}
           {| Swap.address := Sample.weth; Swap.symbol := "ETH";
              Swap.decimals := 18; Swap.isNative := true |}
           2000 1990 Sample.alice 1700001200
           (Sample.world true) (Sample.world true) _ eq_refl).
Defined.

(* ------------------------------------------------------------------ *)
(** ** Reading a run backwards                                         *)
(* ------------------------------------------------------------------ *)

Lemma bind_val (A B : Type) (m : M A) (k : A -> M B) (w w' : World) (b : B) :
  bind m k w = (Val b, w') ->
  exists a w1, m w = (Val a, w1) /\ k a w1 = (Val b, w').
Proof.
  unfold bind. destruct (m w) as [[a|r|e] w1]; intros H; try discriminate H.
  exists a, w1. auto.
Qed.

Lemma tryCatch_val (A : Type) (m : M A) (h : Err -> M A) (w w' : World) (a : A) :
  tryCatch m h w = (Val a, w') ->
  m w = (Val a, w')
  \/ exists e w1, m w = (Throw e, w1) /\ h e w1 = (Val a, w').
Proof.
  unfold tryCatch. destruct (m w) as [[a'|r|e] w1]; intros H;
    try discriminate H.
  - left. exact H.
  - right. exists e, w1. auto.
Qed.

Lemma bind_of_val (A B : Type) (m : M A) (k : A -> M B) (w w1 : World) (a : A) :
  m w = (Val a, w1) -> bind m k w = k a w1.
Proof. intros H. unfold bind. rewrite H. reflexivity. Qed.

Lemma bind_of_throw (A B : Type) (m : M A) (k : A -> M B) (w w1 : World)
      (e : Err) :
  m w = (Throw e, w1) -> bind m k w = (Throw e, w1).
Proof. intros H. unfold bind. rewrite H. reflexivity. Qed.

Lemma nrs_ret (A : Type) (a : A) : neverReturnsSuccess (ret a).
Proof. intros w s w' H. discriminate H. Qed.

Lemma nrs_throw (A : Type) (e : Err) : neverReturnsSuccess (@throw A e).
Proof. intros w s w' H. discriminate H. Qed.

Lemma nrs_exit (A : Type) (e : Err) : neverReturnsSuccess (@exit A (Failure e)).
Proof. intros w s w' H. discriminate H. Qed.

Lemma nrs_bind (A B : Type) (m : M A) (k : A -> M B) :
  neverReturnsSuccess m -> (forall a, neverReturnsSuccess (k a)) ->
  neverReturnsSuccess (bind m k).
Proof.
  intros Hm Hk w s w'. unfold bind. specialize (Hm w s).
  destruct (m w) as [[a|r|e] w1].
  - apply Hk.
  - intros H. apply (Hm w1). inversion H; subst. reflexivity.
  - intros H. discriminate H.
Qed.

Lemma nrs_tryCatch (A : Type) (m : M A) (h : Err -> M A) :
  neverReturnsSuccess m -> (forall e, neverReturnsSuccess (h e)) ->
  neverReturnsSuccess (tryCatch m h).
Proof.
  intros Hm Hh w s w'. unfold tryCatch. specialize (Hm w s).
  destruct (m w) as [[a|r|e] w1].
  - intros H. discriminate H.
  - intros H. apply (Hm w1). inversion H; subst. reflexivity.
  - apply Hh.
Qed.

(** Steps that end in a value or an exception. *)
Ltac plain_step :=
  let w := fresh "w" in
  let s := fresh "s" in
  let w' := fresh "w'" in
  let H := fresh "H" in
  intros w s w';
  repeat match goal with
         | |- context [match ?x with _ => _ end] => destruct x
         | |- context [if ?b then _ else _] => destruct b
         end;
  intros H; discriminate H.

Lemma nrs_call (E : Env) (c : Call) : neverReturnsSuccess (call E c).
Proof. unfold call. plain_step. Qed.

Lemma nrs_promiseAll2 (E : Env) (c1 c2 : Call) :
  neverReturnsSuccess (promiseAll2 E c1 c2).
Proof. unfold promiseAll2. plain_step. Qed.

Lemma nrs_findUser (a : string) : neverReturnsSuccess (findUser a).
Proof. unfold findUser. plain_step. Qed.

Lemma nrs_createTransaction (E : Env) (d : TransactionData) :
  neverReturnsSuccess (createTransaction E d).
Proof. unfold createTransaction. plain_step. Qed.

Lemma nrs_emitTo (E : Env) (r : string) (p : Payload) :
  neverReturnsSuccess (emitTo E r p).
Proof. unfold emitTo. plain_step. Qed.

Lemma nrs_consoleError (m : string) : neverReturnsSuccess (consoleError m).
Proof. unfold consoleError. plain_step. Qed.

Lemma nrs_agentSwitchNetwork (E : Env) (c : Z) :
  neverReturnsSuccess (agentSwitchNetwork E c).
Proof. unfold agentSwitchNetwork. plain_step. Qed.

Lemma nrs_toQuantity (n : Z) : neverReturnsSuccess (toQuantity n).
Proof. unfold toQuantity. plain_step. Qed.

Lemma nrs_encodeFunctionData (E : Env) (c : CallData) :
  neverReturnsSuccess (encodeFunctionData E c).
Proof. unfold encodeFunctionData. plain_step. Qed.

Lemma nrs_parseUnitsM (E : Env) (a : string) (d : Z) :
  neverReturnsSuccess (parseUnitsM E a d).
Proof. unfold parseUnitsM. plain_step. Qed.

Lemma nrs_liftResult (A : Type) (r : Err + A) : neverReturnsSuccess (liftResult r).
Proof. unfold liftResult. plain_step. Qed.

Create HintDb nrs.

#[local] Hint Resolve nrs_ret nrs_throw nrs_exit nrs_call nrs_promiseAll2
  nrs_findUser nrs_createTransaction nrs_emitTo nrs_consoleError
  nrs_agentSwitchNetwork nrs_toQuantity nrs_encodeFunctionData
  nrs_parseUnitsM nrs_liftResult : nrs.

Ltac nrs :=
  repeat first
    [ progress intros
    | progress cbv zeta
    | solve [auto with nrs]
    | apply nrs_bind
    | apply nrs_tryCatch
    | match goal with
      | |- neverReturnsSuccess (match ?x with _ => _ end) => destruct x
      | |- neverReturnsSuccess (let (_, _) := ?x in _) => destruct x
      | |- neverReturnsSuccess (if ?b then _ else _) => destruct b
      end ].

Lemma nrs_callInt (E : Env) (c : Call) : neverReturnsSuccess (callInt E c).
Proof. unfold callInt. nrs. Qed.

#[local] Hint Resolve nrs_callInt : nrs.

Lemma nrs_persistAndPublish (E : Env) (ctx : ToolContext) (userAddress : string)
      (type : TxType) (chainId : Z) (to : option string) (value : Z)
      (data : CallData) (buttonText : string) (details : Details)
      (approvalData : option ApprovalData) (logMessage : string) :
  neverReturnsSuccess
    (persistAndPublish E ctx userAddress type chainId to value data buttonText
       details approvalData logMessage).
Proof. unfold persistAndPublish. nrs. Qed.

#[local] Hint Resolve nrs_persistAndPublish : nrs.

Lemma nrs_transfer_body (E : Env) (p : Transfer.Params) (ctx : ToolContext)
      (userAddress : string) :
  neverReturnsSuccess (Transfer.body E p ctx userAddress).
Proof.
  unfold Transfer.body, Transfer.switchNetwork, Transfer.resolveRecipient,
    Transfer.resolveEns, Transfer.prepare, Transfer.fetchTokenMetadata,
    Transfer.checkBalance.
  nrs.
Qed.

(** What a completed [storeAndPublish] has done to the store. *)
Lemma storeAndPublish_val (E : Env) (ctx : ToolContext) (userAddress : string)
      (user : User)
      (type : TxType) (chainId : Z) (to : option string) (value : Z)
      (data : CallData) (buttonText : string) (details : Details)
      (approvalData : option ApprovalData) (logMessage : string)
      (w w' : World) (row : Transaction) :
  storeAndPublish E ctx userAddress user type chainId to value data buttonText
    details approvalData logMessage w = (Val row, w') ->
  appended w w' row
  /\ tx_fields row
     = {| td_chatId := orEmpty (ctx_chatId ctx);
          td_userId := user_id user;
          td_type := type;
          td_chainId := chainId;
          td_to := to;
          td_value := value;
          td_data := data;
          td_buttonText := buttonText;
          td_details := details |}
  /\ (exists router, to = Some router /\ tx_to row = router)
  /\ users w' = users w.
Proof.
  unfold storeAndPublish, bind, createTransaction, appended.
  destruct to as [router|]; [|intros H; discriminate H].
  cbn [td_to]. destruct (storeAccepts E _); [|intros H; discriminate H].
  unfold tryCatch, emitTo, consoleError, ret. cbn [ioInstance].
  destruct (ioInstance w).
  - destruct (channelAccepts E _); intros H; inversion H; subst; clear H;
      (cbn; repeat split; eauto).
  - intros H; inversion H; subst; clear H.
    cbn; repeat split; eauto.
Qed.

Lemma requireUser_val (userAddress : string) (w w' : World) (user : User) :
  requireUser userAddress w = (Val user, w') ->
  find (fun u => String.eqb (user_address u) userAddress) (users w) = Some user
  /\ w' = w.
Proof.
  unfold requireUser, bind, findUser.
  destruct (find _ (users w)) as [u|]; cbn; intros H; inversion H; auto.
Qed.

(** What a completed [persistAndPublish] has done to the store. *)
Lemma persistAndPublish_val (E : Env) (ctx : ToolContext) (userAddress : string)
      (type : TxType) (chainId : Z) (to : option string) (value : Z)
      (data : CallData) (buttonText : string) (details : Details)
      (approvalData : option ApprovalData) (logMessage : string)
      (w w' : World) (row : Transaction) :
  persistAndPublish E ctx userAddress type chainId to value data buttonText
    details approvalData logMessage w = (Val row, w') ->
  exists user,
    find (fun u => String.eqb (user_address u) userAddress) (users w) = Some user
    /\ appended w w' row
    /\ tx_fields row
       = {| td_chatId := orEmpty (ctx_chatId ctx);
            td_userId := user_id user;
            td_type := type;
            td_chainId := chainId;
            td_to := to;
            td_value := value;
            td_data := data;
            td_buttonText := buttonText;
            td_details := details |}
    /\ (exists router, to = Some router /\ tx_to row = router)
    /\ users w' = users w.
Proof.
  rewrite persistAndPublish_eq.
  destruct (find _ (users w)) as [user|]; [|intros H; discriminate H].
  intros H. apply storeAndPublish_val in H. exists user. tauto.
Qed.

Lemma liftResult_val (A : Type) (r : Err + A) (w w' : World) (a : A) :
  liftResult r w = (Val a, w') -> r = inr a /\ w' = w.
Proof.
  destruct r as [e|a']; cbn; intros H; inversion H; auto.
Qed.

Lemma parseUnitsM_val (E : Env) (amount : string) (decimals n : Z) (w w' : World) :
  parseUnitsM E amount decimals w = (Val n, w') ->
  parseUnits E amount decimals = Some n /\ w' = w.
Proof.
  unfold parseUnitsM. destruct (parseUnits E amount decimals); cbn; intros H;
    inversion H; auto.
Qed.

(** The transaction that [prepare] hands over, by kind of transfer. *)
Lemma prepare_val (E : Env) (tokenInfo : Transfer.TokenRef)
      (recipient userAddress amount : string) (chainId : Z) (w w' : World)
      (tx : Transfer.PreparedTx) (sym : string) :
  Transfer.prepare E tokenInfo recipient userAddress amount chainId w
  = (Val (tx, sym), w') ->
  Transfer.p_chainId tx = chainId
  /\ match JsString.truthy (Transfer.token_address tokenInfo) with
     | Some token =>
         Transfer.p_to tx = token
         /\ Transfer.p_value tx = 0
         /\ exists decimals amountWei,
              parseUnits E amount decimals = Some amountWei
              /\ Transfer.p_data tx = Erc20Transfer recipient amountWei
     | None =>
         Transfer.p_to tx = recipient
         /\ Transfer.p_data tx = Raw0x
         /\ parseUnits E amount 18 = Some (Transfer.p_value tx)
         /\ 0 <= Transfer.p_value tx
         /\ sym = Transfer.token_symbol tokenInfo
     end.
Proof.
  unfold Transfer.prepare.
  destruct (JsString.truthy (Transfer.token_address tokenInfo)) as [token|].
  - intros H. apply bind_val in H. destruct H as ([decimals sym'] & w1 & _ & H).
    apply bind_val in H. destruct H as (amountWei & w2 & Hp & H).
    apply parseUnitsM_val in Hp. destruct Hp as [Hp ->].
    apply bind_val in H. destruct H as ([] & w3 & _ & H).
    apply bind_val in H. destruct H as (data & w4 & He & H).
    apply encodeFunctionData_val in He. destruct He as [-> ->].
    inversion H; subst. cbn. do 3 (split; [reflexivity|]).
    exists decimals, amountWei. split; [exact Hp | reflexivity].
  - intros H. apply bind_val in H. destruct H as (amountWei & w1 & Hp & H).
    apply parseUnitsM_val in Hp. destruct Hp as [Hp ->].
    apply bind_val in H. destruct H as ([] & w2 & _ & H).
    apply bind_val in H. destruct H as (value & w3 & Hq & H).
    apply toQuantity_val in Hq. destruct Hq as (-> & -> & Hpos).
    inversion H; subst. cbn. repeat split; auto.
Qed.

Lemma run_success (m : M ToolResult) (w w' : World) (s : Summary) :
  neverReturnsSuccess m ->
  run m w = (Success s, w') -> m w = (Val (Success s), w').
Proof.
  intros Hm. unfold run. specialize (Hm w s).
  destruct (m w) as [[r|r|e] w1]; cbn; intros H; inversion H; subst.
  - reflexivity.
  - exfalso. apply (Hm w'). reflexivity.
Qed.

(* ------------------------------------------------------------------ *)
(** ** What a prepared transfer stores                                 *)
(* ------------------------------------------------------------------ *)

(** X10. Whenever the transfer tool reports success, exactly one row
    was appended to the transaction table, pending, owned by the
    requesting user, of type transfer and on the chain that the report
    names, and the row is the transfer that the report describes: for a
    token, a call of [transfer(recipient, amount)] on the token contract
    that carries no native value; for the native asset, a payment of the
    parsed amount to the recipient with empty call data. *)
Theorem transfer_success_matches_stored_row (E : Env) (p : Transfer.Params)
        (ctx : ToolContext) (w w' : World) (s : Summary) :
  Transfer.handler E p ctx w = (Success s, w') ->
  exists from to symbol tokenAddress chainId resolvedFrom row user amountWei,
    s = TransferSummary from to (Transfer.amount p) symbol tokenAddress chainId
          resolvedFrom
    /\ JsString.truthy (ctx_userAddress ctx) = Some from
    /\ find (fun u => String.eqb (user_address u) from) (users w) = Some user
    /\ appended w w' row
    /\ td_userId (tx_fields row) = user_id user
    /\ td_type (tx_fields row) = TTransfer
    /\ td_chainId (tx_fields row) = chainId
    /\ td_details (tx_fields row)
       = TransferDetails from to (Transfer.amount p) symbol tokenAddress resolvedFrom
    /\ match JsString.truthy tokenAddress with
       | Some token =>
           td_to (tx_fields row) = Some token
           /\ td_value (tx_fields row) = 0
           /\ td_data (tx_fields row) = Erc20Transfer to amountWei
           /\ exists decimals,
                parseUnits E (Transfer.amount p) decimals = Some amountWei
       | None =>
           td_to (tx_fields row) = Some to
           /\ td_value (tx_fields row) = amountWei
           /\ td_data (tx_fields row) = Raw0x
           /\ parseUnits E (Transfer.amount p) 18 = Some amountWei
           /\ 0 <= amountWei
       end.
Proof.
  unfold Transfer.handler.
  destruct (JsString.truthy (ctx_userAddress ctx)) as [userAddress|];
    [|intros H; discriminate H].
  intros H. apply run_success in H; [|apply nrs_transfer_body].
  unfold Transfer.body in H.
  apply bind_val in H. destruct H as (chainId & w1 & Hswitch & H).
  apply bind_val in H. destruct H as (recipient & w2 & Hrecipient & H).
  apply bind_val in H. destruct H as (tokenInfo & w3 & Htoken & H).
  apply liftResult_val in Htoken. destruct Htoken as [Htoken ->].
  apply bind_val in H. destruct H as ([tx sym] & w4 & Hprepare & H).
  apply bind_val in H. destruct H as (row & w5 & Hpersist & H).
  inversion H; subst; clear H.
  pose proof (calm_keeps (@calm_switchNetwork E (Transfer.network p) userAddress
                            (contextChainId ctx)) w) as F1.
  rewrite Hswitch in F1.
  pose proof (calm_keeps (@calm_resolveRecipient E (Transfer.to p) userAddress
                            chainId) w1) as F2.
  rewrite Hrecipient in F2.
  pose proof (@keeps_prepare E tokenInfo (Transfer.address recipient) userAddress
                (Transfer.amount p) chainId w2) as F3.
  rewrite Hprepare in F3. cbn [snd] in F1, F2, F3.
  pose proof (Frame_trans F1 (Frame_trans F2 F3)) as F.
  apply persistAndPublish_val in Hpersist.
  destruct Hpersist as (user & Huser & (Happ & Hstatus & Hid) & Hfields & _ & _).
  apply prepare_val in Hprepare. destruct Hprepare as [Hchain Hshape].
  exists userAddress, (Transfer.address recipient), sym,
    (Transfer.token_address tokenInfo), chainId,
    (Transfer.resolvedFrom recipient), row, user.
  exists (match JsString.truthy (Transfer.token_address tokenInfo) with
          | Some _ =>
              match Transfer.p_data tx with
              | Erc20Transfer _ n => n
              | _ => 0
              end
          | None => Transfer.p_value tx
          end).
  rewrite Hfields. cbn [td_userId td_type td_chainId td_details td_to td_value td_data].
  split; [reflexivity|]. split; [reflexivity|].
  split; [rewrite <- (frame_users F); exact Huser|].
  split.
  { unfold appended. rewrite <- (frame_transactions F). auto. }
  do 4 (split; [reflexivity|]).
  destruct (JsString.truthy (Transfer.token_address tokenInfo)) as [token|].
  - destruct Hshape as (Hto & Hvalue & decimals & amountWei & Hparse & Hdata).
    rewrite Hto, Hvalue, Hdata. repeat split. exists decimals. exact Hparse.
  - destruct Hshape as (Hto & Hdata & Hparse & Hpos & _).
    rewrite Hto, Hdata. auto.
Qed.

Lemma transfer_success_matches_stored_row_witness :
  exists row,
    appended (Sample.world true)
      (snd (Transfer.handler (Sample.env (Sample.balances (10 ^ 30)))
              Sample.sendTwoEthToBob Sample.ctx (Sample.world true))) row
    /\ td_to (tx_fields row) = Some Sample.bob
    /\ td_value (tx_fields row) = 2 * 10 ^ 18
    /\ td_data (tx_fields row) = Raw0x.
Proof.
  destruct (@transfer_success_matches_stored_row
              (Sample.env (Sample.balances (10 ^ 30)))
              Sample.sendTwoEthToBob Sample.ctx (Sample.world true)
              (snd (Transfer.handler (Sample.env (Sample.balances (10 ^ 30)))
                      Sample.sendTwoEthToBob Sample.ctx (Sample.world true)))
              (TransferSummary Sample.alice Sample.bob "2" "ETH" None 1
                 (Some ("contact " ++ dquote ++ "Bob" ++ dquote)%string))
              ltac:(vm_compute; reflexivity))
    as (from & to & sym & tokenAddress & chainId & resolvedFrom & row & user
        & amountWei & Hs & _ & _ & Happ & _ & _ & _ & _ & Hshape).
  injection Hs as <- <- <- <- <- <-.
  cbn [JsString.truthy] in Hshape.
  destruct Hshape as (Hto & Hvalue & Hdata & Hparse & _).
  vm_compute in Hparse. injection Hparse as <-.
  exists row. repeat split; try apply Happ; assumption.
Defined.

(* ------------------------------------------------------------------ *)
(** ** The network switch of a transfer                                *)
(* ------------------------------------------------------------------ *)

(** The four ways in which the switch of lines 169-205 can end. *)
Lemma switchNetwork_outcomes (E : Env) (network : option string)
      (userAddress : string) (chainId : Z) (w : World) :
  let result := Transfer.switchNetwork E network userAddress chainId w in
  (result = (Val chainId, w)
   /\ (forall name target,
         JsString.truthy network = Some name ->
         namedChain E name = Some target -> target = chainId))
  \/ (exists name target,
        JsString.truthy network = Some name
        /\ namedChain E name = Some target
        /\ target <> chainId
        /\ Networks.getNetwork target = None
        /\ result = (Return (Failure (EUnknownNetwork name)), w))
  \/ (exists name target info,
        JsString.truthy network = Some name
        /\ namedChain E name = Some target
        /\ target <> chainId
        /\ Networks.getNetwork target = Some info
        /\ ((result = (Throw EAgent, w)
             /\ exists switch, agent E = Some switch /\ switch target = false)
            \/ (fst result = Val target
                /\ transactions (snd result) = transactions w
                /\ users (snd result) = users w
                /\ console (snd result) = console w
                /\ calls (snd result) = calls w
                /\ agentNetwork (snd result)
                   = agentNetwork w
                     ++ (match agent E with Some _ => [target] | None => [] end)
                /\ (emitted (snd result) = emitted w
                    \/ (ioInstance w = true
                        /\ emitted (snd result)
                           = emitted w
                             ++ [ {| room := userRoom userAddress;
                                     payload := NetworkSwitch info |} ]))))).
Proof.
  unfold Transfer.switchNetwork, namedChain.
  destruct (JsString.truthy network) as [name|];
    [|left; split; [reflexivity | intros ? ? H; discriminate H]].
  destruct (match lookup (JsString.toLowerCase name) Transfer.NETWORK_NAMES with
            | Some c => Some c
            | None => parseInt E name
            end) as [target|] eqn:Htarget;
    [|left; split; [reflexivity|];
      intros n t H1 H2; inversion H1; subst; rewrite Htarget in H2;
      discriminate H2].
  destruct (Z.eqb_spec target chainId) as [->|Hne].
  - left. split; [reflexivity|]. intros ? ? H1 H2. inversion H1; subst.
    congruence.
  - right. destruct (Networks.getNetwork target) as [info|] eqn:Hinfo.
    + right. exists name, target, info. do 4 (split; [auto|]).
      unfold bind, agentSwitchNetwork, tryCatch, emitTo, ret.
      destruct (agent E) as [switch|].
      * destruct (switch target) eqn:Hswitch.
        -- right. cbn [ioInstance].
           destruct (ioInstance w) eqn:Hio; [destruct (channelAccepts E _)|];
             cbn; repeat split; auto.
        -- left. split; [reflexivity|]. exists switch. auto.
      * right.
        destruct (ioInstance w) eqn:Hio; [destruct (channelAccepts E _)|];
          cbn; rewrite ?app_nil_r; repeat split; auto.
    + left. exists name, target. auto.
Qed.

(** X11. A transfer that names a network which is neither the current
    chain nor a configured one fails with the unknown-network error
    before anything else happens: the agent is not switched, no provider
    call is made, nothing is stored and nothing is published. *)
Theorem transfer_unknown_network_fails_first (E : Env) (p : Transfer.Params)
        (ctx : ToolContext) (w : World) (userAddress name : string) (target : Z) :
  JsString.truthy (ctx_userAddress ctx) = Some userAddress ->
  JsString.truthy (Transfer.network p) = Some name ->
  namedChain E name = Some target ->
  target <> contextChainId ctx ->
  Networks.getNetwork target = None ->
  Transfer.handler E p ctx w = (Failure (EUnknownNetwork name), w).
Proof.
  intros Huser Hname Htarget Hne Hnet.
  unfold Transfer.handler. rewrite Huser. unfold run, Transfer.body, bind.
  destruct (switchNetwork_outcomes E (Transfer.network p) userAddress
              (contextChainId ctx) w)
    as [[_ Hsame]|[(name' & target' & Hn & Ht & _ & _ & ->)
                  |(name' & target' & info & Hn & Ht & _ & Hi & _)]].
  - exfalso. apply Hne. eapply Hsame; eauto.
  - rewrite Hname in Hn. inversion Hn; subst. reflexivity.
  - rewrite Hname in Hn. inversion Hn; subst. congruence.
Qed.

Lemma transfer_unknown_network_fails_first_witness :
  Transfer.handler (Scenario.env Sample.silent) Scenario.sendOnFantom Sample.ctx
    (Sample.world true)
  = (Failure (EUnknownNetwork "250"), Sample.world true).
Proof.
  apply (@transfer_unknown_network_fails_first (Scenario.env Sample.silent)
           Scenario.sendOnFantom Sample.ctx (Sample.world true)
           Sample.alice "250" 250);
    [reflexivity | reflexivity | reflexivity | discriminate | reflexivity].
Defined.

(** X12. A successful transfer is prepared on the chain that the
    [network] argument names -- by a known network name, else by the
    number it parses to -- and on the chain of the context (1 when the
    context has none) when the argument is absent or names nothing. *)
Theorem transfer_is_prepared_on_named_chain (E : Env) (p : Transfer.Params)
        (ctx : ToolContext) (w w' : World)
        (from to amount symbol : string) (tokenAddress : option string)
        (chainId : Z) (resolvedFrom : option string) :
  Transfer.handler E p ctx w
  = (Success (TransferSummary from to amount symbol tokenAddress chainId
                resolvedFrom), w') ->
  chainId
  = match JsString.truthy (Transfer.network p) with
    | Some name =>
        match namedChain E name with
        | Some target => target
        | None => contextChainId ctx
        end
    | None => contextChainId ctx
    end.
Proof.
  unfold Transfer.handler.
  destruct (JsString.truthy (ctx_userAddress ctx)) as [userAddress|];
    [|intros H; discriminate H].
  intros H. apply run_success in H; [|apply nrs_transfer_body].
  unfold Transfer.body in H.
  apply bind_val in H. destruct H as (chain & w1 & Hswitch & H).
  apply bind_val in H. destruct H as (recipient & w2 & _ & H).
  apply bind_val in H. destruct H as (tokenInfo & w3 & _ & H).
  apply bind_val in H. destruct H as ([tx sym] & w4 & _ & H).
  apply bind_val in H. destruct H as (row & w5 & _ & H).
  pose proof (switchNetwork_outcomes E (Transfer.network p) userAddress
                (contextChainId ctx) w) as Hout.
  inversion H; subst; clear H. cbv zeta in Hout.
  destruct Hout
    as [[Hsame Hall]|[(name & target & _ & _ & _ & _ & Hfail)
                     |(name & target & info & Hn & Ht & _ & _
                       & [[Hfail _]|[Hval _]])]].
  - rewrite Hswitch in Hsame. inversion Hsame; subst.
    destruct (JsString.truthy (Transfer.network p)) as [name|]; [|reflexivity].
    destruct (namedChain E name) as [target|] eqn:Ht; [|reflexivity].
    symmetry. eapply Hall; eauto.
  - rewrite Hswitch in Hfail. discriminate Hfail.
  - rewrite Hswitch in Hfail. discriminate Hfail.
  - rewrite Hswitch in Hval. cbn in Hval. inversion Hval; subst.
    rewrite Hn, Ht. reflexivity.
Qed.

Lemma transfer_is_prepared_on_named_chain_witness :
  137
  = match JsString.truthy (Transfer.network Scenario.sendOnPolygon) with
    | Some name =>
        match namedChain (Scenario.env (Sample.balances (10 ^ 30))) name with
        | Some target => target
        | None => contextChainId Sample.ctx
        end
    | None => contextChainId Sample.ctx
    end.
Proof.
  apply (@transfer_is_prepared_on_named_chain
           (Scenario.env (Sample.balances (10 ^ 30)))
           Scenario.sendOnPolygon Sample.ctx (Sample.world true)
           (snd (Transfer.handler (Scenario.env (Sample.balances (10 ^ 30)))
                   Scenario.sendOnPolygon Sample.ctx (Sample.world true)))
           Sample.alice Sample.bob "2" "MATIC" None 137
           (Some ("contact " ++ dquote ++ "Bob" ++ dquote)%string)).
  vm_compute. reflexivity.
Defined.

(* ------------------------------------------------------------------ *)
(** ** What a prepared swap stores                                     *)
(* ------------------------------------------------------------------ *)

Lemma nrs_getAllQuotes (E : Env) (c : Z) (i o : string) (a t : Z) :
  neverReturnsSuccess (Swap.getAllQuotes E c i o a t).
Proof.
  intros w s w' H.
  destruct (Spec.formattable E t
              (Spec.viableQuotes E c i o a t (Dex.getDexesForChain c))) eqn:Hfmt.
  - destruct (@getAllQuotes_val E c i o a t w Hfmt) as (w1 & Hv).
    rewrite Hv in H. discriminate H.
  - destruct (@getAllQuotes_throws E c i o a t w Hfmt) as (n & w1 & Ht & _).
    rewrite Ht in H. discriminate H.
Qed.

Lemma nrs_formatUnitsM (E : Env) (n d : Z) :
  neverReturnsSuccess (formatUnitsM E n d).
Proof. unfold formatUnitsM. plain_step. Qed.

Lemma nrs_requireUser (userAddress : string) :
  neverReturnsSuccess (requireUser userAddress).
Proof. unfold requireUser, bind, findUser, exit, ret. plain_step. Qed.

Lemma nrs_storeAndPublish (E : Env) (ctx : ToolContext) (userAddress : string)
      (user : User)
      (type : TxType) (chainId : Z) (to : option string) (value : Z)
      (data : CallData) (buttonText : string) (details : Details)
      (approvalData : option ApprovalData) (logMessage : string) :
  neverReturnsSuccess
    (storeAndPublish E ctx userAddress user type chainId to value data
       buttonText details approvalData logMessage).
Proof. unfold storeAndPublish. nrs. Qed.

#[local] Hint Resolve nrs_getAllQuotes nrs_formatUnitsM nrs_requireUser
  nrs_storeAndPublish : nrs.

Lemma nrs_swap_body (E : Env) (p : Swap.Params) (ctx : ToolContext)
      (userAddress : string) :
  neverReturnsSuccess (Swap.body E p ctx userAddress).
Proof.
  unfold Swap.body, Swap.checkBalance, Swap.finish, Swap.selectQuotes,
    Swap.checkAllowance, Swap.buildSwapTransaction.
  nrs.
Qed.

Lemma swap_handler_success (E : Env) (p : Swap.Params) (ctx : ToolContext)
      (w w' : World) (s : Summary) :
  Swap.handler E p ctx w = (Success s, w') ->
  exists userAddress,
    JsString.truthy (ctx_userAddress ctx) = Some userAddress
    /\ Swap.body E p ctx userAddress w = (Val (Success s), w').
Proof.
  unfold Swap.handler.
  destruct (JsString.truthy (ctx_userAddress ctx)) as [userAddress|];
    [|intros H; discriminate H].
  intros H. exists userAddress. split; [reflexivity|].
  pose proof (@nrs_swap_body E p ctx userAddress w s) as Hn.
  unfold run, tryCatch, bind, consoleError, throw in H.
  destruct (Swap.body E p ctx userAddress w) as [[r|r|e] w1]; cbn in H;
    inversion H; subst.
  - reflexivity.
  - exfalso. apply (Hn w'). reflexivity.
Qed.

Lemma callInt_val (E : Env) (c : Call) (n : Z) (w w' : World) :
  callInt E c w = (Val n, w') -> replyInt E c = Some n /\ w' = logCalls [c] w.
Proof.
  unfold callInt, call, bind, replyInt.
  destruct (provider E c) as [[m|m|]|]; cbn; intros H; inversion H; auto.
Qed.

Lemma formatUnitsM_val (E : Env) (n d : Z) (text : string) (w w' : World) :
  formatUnitsM E n d w = (Val text, w') ->
  formatUnits E n d = Some text /\ w' = w.
Proof.
  unfold formatUnitsM. destruct (formatUnits E n d); cbn; intros H;
    inversion H; auto.
Qed.

Lemma swap_checkBalance_val (E : Env) (chainId : Z) (userAddress : string)
      (fromToken : Swap.TokenRef) (amountIn : Z) (w w' : World) :
  Swap.checkBalance E chainId userAddress fromToken amountIn w = (Val tt, w') ->
  exists balance,
    replyInt E (if Swap.isNative fromToken
                then CallGetBalance chainId userAddress
                else CallBalanceOf chainId (Swap.address fromToken) userAddress)
    = Some balance
    /\ amountIn <= balance
    /\ Frame w w'.
Proof.
  unfold Swap.checkBalance. intros H.
  apply bind_val in H. destruct H as (balance & w1 & Hc & H).
  apply callInt_val in Hc. destruct Hc as [Hc ->].
  exists balance. split; [exact Hc|].
  destruct (Z.ltb_spec balance amountIn); [discriminate H|].
  inversion H; subst. split; [assumption | apply Frame_logCalls].
Qed.

Lemma checkAllowance_val (E : Env) (chainId : Z) (userAddress : string)
      (fromToken : Swap.TokenRef) (spender : option string) (amountIn : Z)
      (w w' : World) (needsApproval : bool) :
  Swap.checkAllowance E chainId userAddress fromToken spender amountIn w
  = (Val needsApproval, w') ->
  Frame w w'
  /\ (Swap.isNative fromToken = true -> needsApproval = false /\ w' = w)
  /\ (Swap.isNative fromToken = false ->
      exists allowance,
        replyInt E (CallAllowance chainId (Swap.address fromToken) userAddress
                      spender) = Some allowance
        /\ needsApproval = (allowance <? amountIn)).
Proof.
  unfold Swap.checkAllowance. destruct (Swap.isNative fromToken).
  - intros H. inversion H; subst.
    split; [apply Frame_refl|]. split; [auto | intros Hf; discriminate Hf].
  - intros H. apply bind_val in H. destruct H as (allowance & w1 & Hc & H).
    apply callInt_val in Hc. destruct Hc as [Hc ->]. inversion H; subst.
    split; [apply Frame_logCalls|]. split; [intros Hf; discriminate Hf|].
    intros _. exists allowance. auto.
Qed.

(** The quotes among which the swap handler picks: the selection from
    the sorted viable quotes of the chain. *)
Lemma selectQuotes_val (E : Env) (chainId : Z) (fromToken toToken : Swap.TokenRef)
      (amountIn : Z) (preferredDex : option string) (w w' : World)
      (quotes : list Swap.SwapQuote) :
  Swap.selectQuotes E chainId fromToken toToken amountIn preferredDex w
  = (Val quotes, w') ->
  let viable := Spec.viableQuotes E chainId (Swap.address fromToken)
                  (Swap.address toToken) amountIn (Swap.decimals toToken)
                  (Dex.getDexesForChain chainId) in
  Frame w w'
  /\ Spec.formattable E (Swap.decimals toToken) viable = true
  /\ quotes = Spec.selection preferredDex (JsArray.sort Swap.compareQuotes viable).
Proof.
  intros H viable.
  split.
  { pose proof (calm_keeps (@calm_selectQuotes E chainId fromToken toToken
                              amountIn preferredDex) w) as F.
    rewrite H in F. exact F. }
  unfold Swap.selectQuotes, Spec.selection in *.
  destruct (JsString.truthy preferredDex) as [preferred|].
  - destruct (Dex.getDex preferred) as [d|]; [|discriminate H].
    destruct (negb (Dex.includes chainId (Dex.supportedChains d)));
      [discriminate H|].
    apply bind_val in H. destruct H as (ranked & w1 & Hq & H).
    apply getAllQuotes_inv in Hq. destruct Hq as [Hfmt ->].
    inversion H; subst. auto.
  - apply getAllQuotes_inv in H. destruct H as [Hfmt ->]. auto.
Qed.

(** The selection of a request, forwards. *)
Lemma selectQuotes_selection (E : Env) (chainId : Z)
      (fromToken toToken : Swap.TokenRef) (amountIn : Z)
      (preferredDex : option string) (w : World) :
  let viable := Spec.viableQuotes E chainId (Swap.address fromToken)
                  (Swap.address toToken) amountIn (Swap.decimals toToken)
                  (Dex.getDexesForChain chainId) in
  (forall name,
      JsString.truthy preferredDex = Some name ->
      exists d, Dex.getDex name = Some d
                /\ Dex.includes chainId (Dex.supportedChains d) = true) ->
  Spec.formattable E (Swap.decimals toToken) viable = true ->
  exists w',
    Swap.selectQuotes E chainId fromToken toToken amountIn preferredDex w
    = (Val (Spec.selection preferredDex (JsArray.sort Swap.compareQuotes viable)),
       w')
    /\ Frame w w'.
Proof.
  intros viable Hvenue Hfmt.
  destruct (@getAllQuotes_val E chainId (Swap.address fromToken)
              (Swap.address toToken) amountIn (Swap.decimals toToken) w Hfmt)
    as (w' & Hv).
  fold viable in Hv.
  assert (F : Frame w w').
  { pose proof (calm_keeps (@calm_getAllQuotes E chainId (Swap.address fromToken)
                              (Swap.address toToken) amountIn
                              (Swap.decimals toToken)) w) as F.
    rewrite Hv in F. exact F. }
  exists w'. split; [|exact F].
  unfold Swap.selectQuotes, Spec.selection.
  destruct (JsString.truthy preferredDex) as [preferred|]; [|exact Hv].
  destruct (Hvenue preferred eq_refl) as (d & -> & ->). cbn [negb].
  erewrite bind_of_val by exact Hv. reflexivity.
Qed.

(** The first quote of the selection of a request: a positive amount of
    a venue of the chain, of the requested venue if any, with the text
    of its amount, and at least as good as every viable quote that could
    have been selected. *)
Lemma selection_head (E : Env) (chainId : Z) (tokenIn tokenOut : string)
      (amountIn decimals : Z) (preferredDex : option string)
      (bestQuote : Swap.SwapQuote) (rest : list Swap.SwapQuote) :
  let viable := Spec.viableQuotes E chainId tokenIn tokenOut amountIn decimals
                  (Dex.getDexesForChain chainId) in
  Spec.formattable E decimals viable = true ->
  Spec.selection preferredDex (JsArray.sort Swap.compareQuotes viable)
  = bestQuote :: rest ->
  In bestQuote viable
  /\ 0 < Swap.amountOut bestQuote
  /\ In (Swap.dex bestQuote) (Dex.getDexesForChain chainId)
  /\ formatUnits E (Swap.amountOut bestQuote) decimals
     = Some (Swap.amountOutFormatted bestQuote)
  /\ (forall name, JsString.truthy preferredDex = Some name ->
                   Dex.slug (Swap.dex bestQuote) = name)
  /\ (exists router,
         Swap.routerFor (Swap.dex bestQuote) chainId = Some router
         /\ router <> EmptyString)
  /\ forall q,
       In q viable ->
       (forall name, JsString.truthy preferredDex = Some name ->
                     Dex.slug (Swap.dex q) = name) ->
       Swap.amountOut q <= Swap.amountOut bestQuote.
Proof.
  intros viable Hfmt Hsel.
  destruct (selection_head_is_best _ _ Hsel) as (Hin & Hpref & Hbest).
  assert (Hvenue : In (Swap.dex bestQuote) (Dex.getDexesForChain chainId))
    by exact (viableQuotes_venue _ _ _ _ _ _ _ _ Hin).
  split; [exact Hin|].
  split; [exact (viableQuotes_positive _ _ _ _ _ _ _ _ Hin)|].
  split; [exact Hvenue|].
  split.
  { rewrite (viableQuotes_text _ _ _ _ _ _ _ _ Hin). unfold Spec.formatted.
    unfold Spec.formattable in Hfmt. rewrite forallb_forall in Hfmt.
    specialize (Hfmt bestQuote Hin).
    destruct (formatUnits E (Swap.amountOut bestQuote) decimals);
      [reflexivity | discriminate]. }
  split; [exact Hpref|].
  split; [apply venue_has_router; exact Hvenue | exact Hbest].
Qed.

(** The handler from the quotes on, read backwards from its result. *)
Lemma finish_val (E : Env) (p : Swap.Params) (ctx : ToolContext)
      (userAddress : string) (chainId : Z) (fromToken toToken : Swap.TokenRef)
      (amountIn : Z) (slippageBps : option Z) (w w' : World) (r : ToolResult) :
  Swap.finish E p ctx userAddress chainId fromToken toToken amountIn slippageBps w
  = (Val r, w') ->
  let viable := Spec.viableQuotes E chainId (Swap.address fromToken)
                  (Swap.address toToken) amountIn (Swap.decimals toToken)
                  (Dex.getDexesForChain chainId) in
  exists bps bestQuote rest needsApproval swapTx minText row user,
    slippageBps = Some bps
    /\ Spec.formattable E (Swap.decimals toToken) viable = true
    /\ Spec.selection (Swap.preferredDex p)
         (JsArray.sort Swap.compareQuotes viable) = bestQuote :: rest
    /\ (Swap.isNative fromToken = true -> needsApproval = false)
    /\ (Swap.isNative fromToken = false ->
        exists allowance,
          replyInt E (CallAllowance chainId (Swap.address fromToken) userAddress
                        (Swap.routerFor (Swap.dex bestQuote) chainId))
          = Some allowance
          /\ needsApproval = (allowance <? amountIn))
    /\ (exists w0,
          Swap.buildSwapTransaction E (Swap.dex bestQuote) chainId fromToken
            toToken amountIn (Swap.amountOutMinOf (Swap.amountOut bestQuote) bps)
            userAddress (now E + Dex.SWAP_DEADLINE_SECONDS) w0 = (Val swapTx, w0))
    /\ formatUnits E (Swap.amountOutMinOf (Swap.amountOut bestQuote) bps)
         (Swap.decimals toToken) = Some minText
    /\ r = Success (SwapSummary userAddress (Swap.symbol fromToken)
                      (Swap.amount p) (Swap.symbol toToken)
                      (toFixed6 E (Swap.amountOutFormatted bestQuote))
                      (Dex.name (Swap.dex bestQuote)) chainId needsApproval)
    /\ find (fun u => String.eqb (user_address u) userAddress) (users w) = Some user
    /\ appended w w' row
    /\ tx_fields row
       = {| td_chatId := orEmpty (ctx_chatId ctx);
            td_userId := user_id user;
            td_type := TSwap;
            td_chainId := chainId;
            td_to := Swap.tx_to swapTx;
            td_value := Swap.tx_value swapTx;
            td_data := Swap.tx_data swapTx;
            td_buttonText :=
              ("Swap " ++ Swap.amount p ++ " " ++ Swap.symbol fromToken
               ++ " for ~" ++ toFixed6 E (Swap.amountOutFormatted bestQuote)
               ++ " " ++ Swap.symbol toToken)%string;
            td_details :=
              SwapDetails userAddress (Swap.address fromToken)
                (Swap.symbol fromToken) (Swap.amount p) (Swap.address toToken)
                (Swap.symbol toToken)
                (toFixed6 E (Swap.amountOutFormatted bestQuote))
                (toFixed6 E minText) (Dex.name (Swap.dex bestQuote))
                (rateOf E (Swap.amountOutFormatted bestQuote) (Swap.amount p))
                bps needsApproval |}.
Proof.
  intros H viable. unfold Swap.finish in H.
  apply bind_val in H. destruct H as (quotes & w1 & Hquotes & H).
  apply selectQuotes_val in Hquotes. cbv zeta in Hquotes. fold viable in Hquotes.
  destruct Hquotes as (F1 & Hfmt & ->).
  destruct (Spec.selection (Swap.preferredDex p)
              (JsArray.sort Swap.compareQuotes viable)) as [|bestQuote rest] eqn:Hsel;
    [discriminate H|].
  destruct slippageBps as [bps|]; [|discriminate H].
  apply bind_val in H. destruct H as (needsApproval & w2 & Hallow & H).
  apply checkAllowance_val in Hallow. destruct Hallow as (F2 & Hnative & Htoken).
  apply bind_val in H. destruct H as (swapTx & w3 & Hbuild & H).
  pose proof (buildSwapTransaction_val _ _ _ _ _ _ _ _ _ _ Hbuild) as Hb.
  destruct Hb as (-> & _).
  apply bind_val in H. destruct H as (user & w4 & Huser & H).
  apply requireUser_val in Huser. destruct Huser as [Hfind ->].
  apply bind_val in H. destruct H as (minText & w5 & Hmin & H).
  apply formatUnitsM_val in Hmin. destruct Hmin as [Hmin ->].
  apply bind_val in H. destruct H as (row & w6 & Hstore & H).
  inversion H; subst; clear H.
  apply storeAndPublish_val in Hstore.
  destruct Hstore as ((Happ & Hstatus & Hid) & Hfields & _ & _).
  pose proof (Frame_trans F1 F2) as F.
  exists bps, bestQuote, rest, needsApproval, swapTx, minText, row, user.
  split; [reflexivity|]. split; [exact Hfmt|]. split; [reflexivity|].
  split; [intros Hn; apply Hnative; exact Hn|].
  split; [exact Htoken|].
  split; [exists w2; exact Hbuild|].
  split; [exact Hmin|]. split; [reflexivity|].
  split; [rewrite <- (frame_users F); exact Hfind|].
  split; [|exact Hfields].
  unfold appended. rewrite <- (frame_transactions F). auto.
Qed.

(** A successful swap, step by step. *)
Lemma swap_success_inversion (E : Env) (p : Swap.Params) (ctx : ToolContext)
      (w w' : World) (s : Summary) :
  Swap.handler E p ctx w = (Success s, w') ->
  let chainId := contextChainId ctx in
  exists userAddress fromToken toToken amountIn bps balance bestQuote rest
         needsApproval swapTx minText row user,
    JsString.truthy (ctx_userAddress ctx) = Some userAddress
    /\ Swap.resolveToken E (Swap.fromToken p) chainId = Some fromToken
    /\ Swap.resolveToken E (Swap.toToken p) chainId = Some toToken
    /\ JsString.toLowerCase (Swap.address fromToken)
       <> JsString.toLowerCase (Swap.address toToken)
    /\ parseUnits E (Swap.amount p) (Swap.decimals fromToken) = Some amountIn
    /\ Swap.slippageBpsOf E (Swap.slippage p) = Some bps
    /\ replyInt E (if Swap.isNative fromToken
                   then CallGetBalance chainId userAddress
                   else CallBalanceOf chainId (Swap.address fromToken) userAddress)
       = Some balance
    /\ amountIn <= balance
    /\ Spec.formattable E (Swap.decimals toToken)
         (viableFor E ctx fromToken toToken amountIn) = true
    /\ Spec.selection (Swap.preferredDex p)
         (JsArray.sort Swap.compareQuotes
            (viableFor E ctx fromToken toToken amountIn))
       = bestQuote :: rest
    /\ (Swap.isNative fromToken = true -> needsApproval = false)
    /\ (Swap.isNative fromToken = false ->
        exists allowance,
          replyInt E (CallAllowance chainId (Swap.address fromToken) userAddress
                        (Swap.routerFor (Swap.dex bestQuote) chainId))
          = Some allowance
          /\ needsApproval = (allowance <? amountIn))
    /\ (exists w0,
          Swap.buildSwapTransaction E (Swap.dex bestQuote) chainId fromToken
            toToken amountIn (Swap.amountOutMinOf (Swap.amountOut bestQuote) bps)
            userAddress (now E + Dex.SWAP_DEADLINE_SECONDS) w0 = (Val swapTx, w0))
    /\ formatUnits E (Swap.amountOutMinOf (Swap.amountOut bestQuote) bps)
         (Swap.decimals toToken) = Some minText
    /\ s = SwapSummary userAddress (Swap.symbol fromToken) (Swap.amount p)
             (Swap.symbol toToken)
             (toFixed6 E (Swap.amountOutFormatted bestQuote))
             (Dex.name (Swap.dex bestQuote)) chainId needsApproval
    /\ find (fun u => String.eqb (user_address u) userAddress) (users w) = Some user
    /\ appended w w' row
    /\ td_userId (tx_fields row) = user_id user
    /\ td_type (tx_fields row) = TSwap
    /\ td_chainId (tx_fields row) = chainId
    /\ td_to (tx_fields row) = Swap.tx_to swapTx
    /\ td_value (tx_fields row) = Swap.tx_value swapTx
    /\ td_data (tx_fields row) = Swap.tx_data swapTx.
Proof.
  intros H chainId. apply swap_handler_success in H.
  destruct H as (userAddress & Huser & H).
  unfold Swap.body in H. fold chainId in H.
  destruct (Swap.resolveToken E (Swap.fromToken p) chainId) as [fromToken|] eqn:Hfrom;
    [|discriminate H].
  destruct (Swap.resolveToken E (Swap.toToken p) chainId) as [toToken|] eqn:Hto;
    [|discriminate H].
  destruct (String.eqb_spec (JsString.toLowerCase (Swap.address fromToken))
              (JsString.toLowerCase (Swap.address toToken))) as [Heq|Hdiff];
    [discriminate H|].
  apply bind_val in H. destruct H as (amountIn & w1 & Hparse & H).
  apply parseUnitsM_val in Hparse. destruct Hparse as [Hparse ->].
  apply bind_val in H. destruct H as ([] & w2 & Hbalance & H).
  apply swap_checkBalance_val in Hbalance.
  destruct Hbalance as (balance & Hreply & Henough & F1).
  apply finish_val in H. cbv zeta in H.
  destruct H as (bps & bestQuote & rest & needsApproval & swapTx & minText & row
                 & user & Hbps & Hfmt & Hsel & Hnative & Htoken & Hbuild & Hmin
                 & Hs & Hfind & Happ & Hfields).
  injection Hs as ->.
  exists userAddress, fromToken, toToken, amountIn, bps, balance, bestQuote, rest,
    needsApproval, swapTx, minText, row, user.
  rewrite Hfields. cbn [td_userId td_type td_chainId td_to td_value td_data].
  unfold viableFor. fold chainId.
  repeat match goal with
         | |- _ /\ _ => split
         end; auto.
  - rewrite <- (frame_users F1). exact Hfind.
  - unfold appended in *. rewrite <- (frame_transactions F1). exact Happ.
Qed.

(** Building a swap for a venue, forwards: with an encoder that accepts
    every call and a non-negative input amount the transaction is built,
    and nothing else happens. *)
Lemma buildSwapTransaction_builds (E : Env) (d : Dex.DexConfig) (chainId : Z)
      (tokenIn tokenOut : Swap.TokenRef) (amountIn amountOutMin : Z)
      (recipient : string) (deadline : Z) (w : World) :
  (forall c, encodable E c = true) ->
  0 <= amountIn ->
  exists tx,
    Swap.buildSwapTransaction E d chainId tokenIn tokenOut amountIn amountOutMin
      recipient deadline w = (Val tx, w)
    /\ Swap.tx_to tx = Swap.routerFor d chainId.
Proof.
  intros Henc Hpos.
  unfold Swap.buildSwapTransaction, bind, encodeFunctionData, toQuantity, ret.
  destruct (Z.ltb_spec amountIn 0) as [Hneg|_]; [lia|].
  repeat rewrite Henc.
  destruct (String.eqb (Dex.slug d) "uniswap"), (Swap.isNative tokenIn),
    (Swap.isNative tokenOut); cbn; rewrite ?Henc; cbn;
    eexists; split; reflexivity.
Qed.

(** Storing, forwards. *)
Lemma storeAndPublish_stores (E : Env) (ctx : ToolContext) (userAddress : string)
      (user : User)
      (type : TxType) (chainId : Z) (to : string) (value : Z)
      (data : CallData) (buttonText : string) (details : Details)
      (approvalData : option ApprovalData) (logMessage : string) (w : World) :
  (forall d, storeAccepts E d = true) ->
  exists row w',
    storeAndPublish E ctx userAddress user type chainId (Some to) value data
      buttonText details approvalData logMessage w = (Val row, w').
Proof.
  intros Hstore.
  unfold storeAndPublish, bind, createTransaction, tryCatch, emitTo,
    consoleError, ret.
  cbn [td_to]. rewrite Hstore. cbn [ioInstance].
  destruct (ioInstance w); [destruct (channelAccepts E _)|];
    eexists; eexists; reflexivity.
Qed.

(** A request that passes every check is prepared. *)
Lemma swap_handler_succeeds (E : Env) (p : Swap.Params) (ctx : ToolContext)
      (w : World) (userAddress : string) (fromToken toToken : Swap.TokenRef)
      (amountIn bps : Z) (bestQuote : Swap.SwapQuote) :
  SwapReady E p ctx w userAddress fromToken toToken amountIn bps bestQuote ->
  exists s w', Swap.handler E p ctx w = (Success s, w').
Proof.
  intros [Hwallet [user Huser] Hfrom Hto Hdistinct Hamount Hsign Hslippage
          [balance [Hbalance Henough]] Hvenue Htexts [rest Hquotes] Hallowance
          [minText Hminimum] Hencoder Hstore].
  unfold viableFor in *.
  set (chainId := contextChainId ctx) in *.
  assert (Hbody : exists s w',
             Swap.body E p ctx userAddress w = (Val (Success s), w')).
  { unfold Swap.body. fold chainId. rewrite Hfrom, Hto.
    destruct (String.eqb_spec (JsString.toLowerCase (Swap.address fromToken))
                (JsString.toLowerCase (Swap.address toToken))) as [Heq|_];
      [contradiction|].
    unfold parseUnitsM. rewrite Hamount. unfold bind at 1, ret at 1.
    rewrite Hslippage.
    pose proof (@swap_checkBalance_spec E chainId userAddress fromToken amountIn
                  w balance Hbalance) as Hcheck.
    cbv zeta in Hcheck.
    destruct (Z.ltb_spec balance amountIn) as [Hlt|_]; [lia|].
    erewrite bind_of_val by exact Hcheck.
    set (w1 := logCalls _ w).
    assert (Hu1 : users w1 = users w) by reflexivity.
    unfold Swap.finish.
    destruct (@selectQuotes_selection E chainId fromToken toToken amountIn
                (Swap.preferredDex p) w1 Hvenue Htexts) as (w2 & Hselect & F2).
    erewrite bind_of_val by exact Hselect.
    rewrite Hquotes.
    assert (Hcheck2 : exists needsApproval w3,
               Swap.checkAllowance E chainId userAddress fromToken
                 (Swap.routerFor (Swap.dex bestQuote) chainId) amountIn w2
               = (Val needsApproval, w3) /\ Frame w2 w3).
    { unfold Swap.checkAllowance.
      destruct (Swap.isNative fromToken) eqn:Hn.
      - exists false, w2. split; [reflexivity | apply Frame_refl].
      - destruct (Hallowance eq_refl) as (allowance & Hreply).
        eexists _, _. split.
        + unfold bind. erewrite callInt_reply by exact Hreply. reflexivity.
        + apply Frame_logCalls. }
    destruct Hcheck2 as (needsApproval & w3 & Hallow & F3).
    erewrite bind_of_val by exact Hallow.
    destruct (@buildSwapTransaction_builds E (Swap.dex bestQuote) chainId
                fromToken toToken amountIn
                (Swap.amountOutMinOf (Swap.amountOut bestQuote) bps)
                userAddress (now E + Dex.SWAP_DEADLINE_SECONDS) w3 Hencoder Hsign)
      as (swapTx & Hbuild & Htxto).
    erewrite bind_of_val by exact Hbuild.
    assert (Hrequire : requireUser userAddress w3 = (Val user, w3)).
    { unfold requireUser, bind, findUser.
      rewrite (frame_users F3), (frame_users F2), Hu1, Huser. reflexivity. }
    erewrite bind_of_val by exact Hrequire.
    unfold formatUnitsM. rewrite Hminimum. unfold bind at 1, ret at 1.
    destruct (@selection_head E chainId (Swap.address fromToken)
                (Swap.address toToken) amountIn (Swap.decimals toToken)
                (Swap.preferredDex p) bestQuote rest Htexts Hquotes)
      as (_ & _ & _ & _ & _ & (router & Hrouter & _) & _).
    rewrite Htxto, Hrouter.
    match goal with
    | |- context [storeAndPublish E ctx userAddress user TSwap chainId
                    (Some router) ?v ?d ?b ?dt ?a ?l] =>
        destruct (@storeAndPublish_stores E ctx userAddress user TSwap chainId
                    router v d b dt a l w3 Hstore) as (row & w4 & Hrow)
    end.
    erewrite bind_of_val by exact Hrow. eexists _, _. reflexivity. }
  destruct Hbody as (s & w' & Hbody).
  exists s, w'. unfold Swap.handler. rewrite Hwallet.
  unfold run, tryCatch. rewrite Hbody. reflexivity.
Qed.

(* ------------------------------------------------------------------ *)
(** ** Ranking and the quote a swap uses                               *)
(* ------------------------------------------------------------------ *)

(** The limits and the route that a built swap carries, read back from
    its call data. *)
Lemma built_swap_reads_back (E : Env) (d : Dex.DexConfig) (chainId : Z)
      (tokenIn tokenOut : Swap.TokenRef) (amountIn amountOutMin : Z)
      (recipient : string) (deadline : Z) (w w' : World) (tx : Swap.SwapTx) :
  Swap.buildSwapTransaction E d chainId tokenIn tokenOut amountIn amountOutMin
    recipient deadline w = (Val tx, w') ->
  Swap.tx_to tx = Swap.routerFor d chainId
  /\ Decode.minimumOut (Swap.tx_data tx) = Some amountOutMin
  /\ Decode.deadline (Swap.tx_data tx) = Some deadline
  /\ Decode.route (Swap.tx_data tx)
     = Some (Swap.address tokenIn, Swap.address tokenOut).
Proof.
  intros H. apply buildSwapTransaction_val in H.
  destruct H as (_ & Hto & _ & _ & Hdata). rewrite Hdata.
  split; [exact Hto|].
  destruct (String.eqb (Dex.slug d) "uniswap"), (Swap.isNative tokenIn),
    (Swap.isNative tokenOut); repeat split; reflexivity.
Qed.

(** Truncating division of a non-negative product is the floor. *)
Lemma amountOutMinOf_floor (amountOut slippageBps : Z) :
  0 <= amountOut ->
  0 <= slippageBps < 10000 ->
  Swap.amountOutMinOf amountOut slippageBps
  = (amountOut * (10000 - slippageBps)) / 10000
  /\ Swap.amountOutMinOf amountOut slippageBps * 10000
     <= amountOut * (10000 - slippageBps)
     < (Swap.amountOutMinOf amountOut slippageBps + 1) * 10000.
Proof.
  intros Ha Hs. unfold Swap.amountOutMinOf.
  assert (Hn : 0 <= amountOut * (10000 - slippageBps)) by nia.
  rewrite Z.quot_div_nonneg by lia.
  pose proof (Z.div_mod (amountOut * (10000 - slippageBps)) 10000 ltac:(lia)) as Hd.
  pose proof (Z.mod_pos_bound (amountOut * (10000 - slippageBps)) 10000 ltac:(lia)) as Hm.
  repeat split; lia.
Qed.



(** The order of equal amounts: each viable quote is placed in front of
    the first ranked quote that is not better, so of two venues quoting
    the same amount the one registered later is ranked first. *)
Lemma getAllQuotes_latest_first (E : Env) (chainId : Z) (tokenIn tokenOut : string)
      (amountIn decimals : Z) (w : World) :
  let viable := Spec.viableQuotes E chainId tokenIn tokenOut amountIn decimals
                  (Dex.getDexesForChain chainId) in
  Spec.formattable E decimals viable = true ->
  fst (Swap.getAllQuotes E chainId tokenIn tokenOut amountIn decimals w)
  = Val (rankLatestFirst Swap.amountOut viable).
Proof.
  intros viable Hfmt.
  destruct (@getAllQuotes_val E chainId tokenIn tokenOut amountIn decimals w Hfmt)
    as (w' & Hrun).
  rewrite Hrun. cbn [fst]. f_equal.
  apply (@sorted_viable E chainId tokenIn tokenOut amountIn decimals).
Qed.

(** Of two viable quotes with the same amount, the one whose venue is
    registered later is ranked before the other. *)
Lemma getAllQuotes_equal_amounts_latest_first (E : Env) (chainId : Z)
      (tokenIn tokenOut : string) (amountIn decimals : Z) (w : World)
      (earlier later : Swap.SwapQuote) :
  let viable := Spec.viableQuotes E chainId tokenIn tokenOut amountIn decimals
                  (Dex.getDexesForChain chainId) in
  Spec.formattable E decimals viable = true ->
  occursBefore viable earlier later ->
  Swap.amountOut earlier = Swap.amountOut later ->
  exists ranked,
    fst (Swap.getAllQuotes E chainId tokenIn tokenOut amountIn decimals w)
    = Val ranked
    /\ occursBefore ranked later earlier.
Proof.
  intros viable Hfmt Hbefore Heq. eexists.
  split; [apply getAllQuotes_latest_first; exact Hfmt|].
  unfold rankLatestFirst.
  apply (rank_order Swap.amountOut _ []); [exact Hbefore | lia].
Qed.


(* ------------------------------------------------------------------ *)
(** ** Slippage bound                                                  *)
(* ------------------------------------------------------------------ *)

(** C2. Take a swap request whose slippage tolerance is [slippageBps]
    basis points, in [0, 10000).  Whenever the handler reports the swap
    as prepared, the row it stored carries as minimum output
    [floor(amountOut * (10000 - slippageBps) / 10000)], where [amountOut]
    is the amount of the quote used, the first of the selection from the
    sorted viable quotes: the division truncates, so the bound is never
    rounded up, and it is the largest integer with that property.  And
    the handler does prepare the swap whenever the request passes its
    checks. *)
Theorem amountOutMin_is_floor (E : Env) (p : Swap.Params) (ctx : ToolContext)
        (w : World) (slippageBps : Z) :
  Swap.slippageBpsOf E (Swap.slippage p) = Some slippageBps ->
  0 <= slippageBps < 10000 ->
  (forall s w',
      Swap.handler E p ctx w = (Success s, w') ->
      exists fromToken toToken amountIn bestQuote rest row amountOutMin,
        Swap.resolveToken E (Swap.fromToken p) (contextChainId ctx) = Some fromToken
        /\ Swap.resolveToken E (Swap.toToken p) (contextChainId ctx) = Some toToken
        /\ parseUnits E (Swap.amount p) (Swap.decimals fromToken) = Some amountIn
        /\ Spec.selection (Swap.preferredDex p)
             (JsArray.sort Swap.compareQuotes
                (viableFor E ctx fromToken toToken amountIn))
           = bestQuote :: rest
        /\ appended w w' row
        /\ td_type (tx_fields row) = TSwap
        /\ Decode.minimumOut (td_data (tx_fields row)) = Some amountOutMin
        /\ amountOutMin
           = (Swap.amountOut bestQuote * (10000 - slippageBps)) / 10000
        /\ amountOutMin * 10000
           <= Swap.amountOut bestQuote * (10000 - slippageBps)
           < (amountOutMin + 1) * 10000)
  /\ (forall userAddress fromToken toToken amountIn bestQuote,
         SwapReady E p ctx w userAddress fromToken toToken amountIn slippageBps
           bestQuote ->
         exists s w', Swap.handler E p ctx w = (Success s, w')).
Proof.
  intros Hslippage Hrange. split.
  - intros s w' Hsuccess.
    apply swap_success_inversion in Hsuccess. cbv zeta in Hsuccess.
    destruct Hsuccess
      as (userAddress & fromToken & toToken & amountIn & bps & balance
          & bestQuote & rest & needsApproval & swapTx & minText & row & user
          & _ & Hfrom & Hto & _ & Hparse & Hbps & _ & _ & Hfmt & Hsel & _ & _
          & (wb & Hbuild) & _ & _ & _ & Happ & _ & Htype & _ & _ & _ & Hdata).
    rewrite Hslippage in Hbps. injection Hbps as <-.
    destruct (selection_head _ _ _ _ _ _ _ Hfmt Hsel) as (_ & Hpos & _).
    destruct (built_swap_reads_back _ _ _ _ _ _ _ _ _ _ Hbuild)
      as (_ & Hbmin & _).
    destruct (@amountOutMinOf_floor (Swap.amountOut bestQuote) slippageBps
                ltac:(lia) Hrange) as (Hfloor & Hbounds).
    exists fromToken, toToken, amountIn, bestQuote, rest, row,
      (Swap.amountOutMinOf (Swap.amountOut bestQuote) slippageBps).
    rewrite Hdata, Hbmin.
    do 6 (split; [assumption|]). split; [reflexivity|].
    split; [exact Hfloor|]. exact Hbounds.
  - intros userAddress fromToken toToken amountIn bestQuote Hready.
    exact (swap_handler_succeeds Hready).
Qed.

(** 100 USDC for ETH at the default tolerance of 50 basis points, the
    only quote being 7: the stored minimum is 6. *)
Lemma amountOutMin_is_floor_witness :
  exists s w' row,
    Swap.handler (Sample.env Sample.lowTierOnly) Sample.swapUsdcForEth Sample.ctx
      (Sample.world true) = (Success s, w')
    /\ appended (Sample.world true) w' row
    /\ Decode.minimumOut (td_data (tx_fields row)) = Some 6.
Proof.
  destruct (@amountOutMin_is_floor (Sample.env Sample.lowTierOnly)
              Sample.swapUsdcForEth Sample.ctx (Sample.world true) 50
              eq_refl ltac:(lia)) as [Hstored Hprepared].
  destruct (Hprepared Sample.alice
              {| Swap.address := Sample.usdc; Swap.symbol := "USDC";
                 Swap.decimals := 6; Swap.isNative := false |}
              {| Swap.address := Sample.weth; Swap.symbol := "ETH";
                 Swap.decimals := 18; Swap.isNative := true |}
              (100 * 10 ^ 6)
              {| Swap.dex := Dex.UNISWAP; Swap.amountOut := 7;
                 Swap.amountOutFormatted := "0.0" |})
    as (s & w' & Hrun).
  { constructor.
    - reflexivity.
    - eexists. vm_compute. reflexivity.
    - vm_compute. reflexivity.
    - vm_compute. reflexivity.
    - vm_compute. intros H. discriminate H.
    - vm_compute. reflexivity.
    - vm_compute. intros H. discriminate H.
    - reflexivity.
    - eexists. split; [vm_compute; reflexivity | vm_compute; intros H; discriminate H].
    - intros name H. discriminate H.
    - vm_compute. reflexivity.
    - eexists. vm_compute. reflexivity.
    - intros _. eexists. vm_compute. reflexivity.
    - eexists. vm_compute. reflexivity.
    - intros c. reflexivity.
    - intros d. reflexivity. }
  destruct (Hstored s w' Hrun)
    as (fromToken & toToken & amountIn & bestQuote & rest & row & amountOutMin
        & Hfrom & Hto & Hparse & Hsel & Happ & _ & Hmin & Hfloor & _).
  vm_compute in Hfrom. injection Hfrom as <-.
  vm_compute in Hto. injection Hto as <-.
  vm_compute in Hparse. injection Hparse as <-.
  vm_compute in Hsel. injection Hsel as <- _.
  exists s, w', row. split; [exact Hrun|]. split; [exact Happ|].
  rewrite Hmin, Hfloor. reflexivity.
Defined.

(** Scenario A of the specification: 0.05 ETH at 50 basis points. *)
Example scenario_A_minimum :
  Swap.amountOutMinOf 50000000000000000 Dex.DEFAULT_SLIPPAGE_BPS
  = 49750000000000000.
Proof. reflexivity. Qed.

(** X13. Whenever the swap tool reports success, exactly one pending
    row of type swap was appended for the user of the context on the
    chain of the context, and the row is the swap that the report names.
    The quote used is the first of the selection from the sorted viable
    quotes of the chain, so its venue is registered for the chain; the
    report names that venue and the row is addressed to that venue's
    router.  The row carries the input amount as native value exactly
    when the input is the native asset, and its call data has the route
    from the input to the output token, the deadline twenty minutes
    after the current time, and as minimum output the amount of the
    quote used, reduced by the slippage tolerance. *)
Theorem swap_success_matches_stored_row (E : Env) (p : Swap.Params)
        (ctx : ToolContext) (w w' : World) (s : Summary) :
  Swap.handler E p ctx w = (Success s, w') ->
  exists userAddress fromToken toToken amountIn bps bestQuote rest router
         needsApproval row user,
    JsString.truthy (ctx_userAddress ctx) = Some userAddress
    /\ Swap.resolveToken E (Swap.fromToken p) (contextChainId ctx) = Some fromToken
    /\ Swap.resolveToken E (Swap.toToken p) (contextChainId ctx) = Some toToken
    /\ parseUnits E (Swap.amount p) (Swap.decimals fromToken) = Some amountIn
    /\ Swap.slippageBpsOf E (Swap.slippage p) = Some bps
    /\ Spec.selection (Swap.preferredDex p)
         (JsArray.sort Swap.compareQuotes
            (viableFor E ctx fromToken toToken amountIn))
       = bestQuote :: rest
    /\ In (Swap.dex bestQuote) (Dex.getDexesForChain (contextChainId ctx))
    /\ Swap.routerFor (Swap.dex bestQuote) (contextChainId ctx) = Some router
    /\ s = SwapSummary userAddress (Swap.symbol fromToken) (Swap.amount p)
             (Swap.symbol toToken)
             (toFixed6 E (Swap.amountOutFormatted bestQuote))
             (Dex.name (Swap.dex bestQuote)) (contextChainId ctx) needsApproval
    /\ find (fun u => String.eqb (user_address u) userAddress) (users w) = Some user
    /\ appended w w' row
    /\ td_userId (tx_fields row) = user_id user
    /\ td_type (tx_fields row) = TSwap
    /\ td_chainId (tx_fields row) = contextChainId ctx
    /\ td_to (tx_fields row) = Some router
    /\ td_value (tx_fields row) = (if Swap.isNative fromToken then amountIn else 0)
    /\ Decode.route (td_data (tx_fields row))
       = Some (Swap.address fromToken, Swap.address toToken)
    /\ Decode.deadline (td_data (tx_fields row))
       = Some (now E + 20 * 60)
    /\ Decode.minimumOut (td_data (tx_fields row))
       = Some (Z.quot (Swap.amountOut bestQuote * (10000 - bps)) 10000).
Proof.
  intros H. apply swap_success_inversion in H. cbv zeta in H.
  destruct H as (userAddress & fromToken & toToken & amountIn & bps & balance
                 & bestQuote & rest & needsApproval & swapTx & minText & row & user
                 & Hwallet & Hfrom & Hto & _ & Hparse & Hbps & _ & _ & Hfmt & Hsel
                 & _ & _ & (w0 & Hbuild) & _ & Hs & Hfind & Happ & Huid
                 & Htype & Hchain & Htxto & Hvalue & Hdata).
  pose proof (buildSwapTransaction_val _ _ _ _ _ _ _ _ _ _ Hbuild)
    as (_ & Hbto & Hbvalue & _ & Hbdata).
  destruct (selection_head _ _ _ _ _ _ _ Hfmt Hsel)
    as (_ & _ & Hvenue & _ & _ & (router & Hrouter & _) & _).
  exists userAddress, fromToken, toToken, amountIn, bps, bestQuote, rest, router,
    needsApproval, row, user.
  rewrite Htxto, Hvalue, Hdata, Hbto, Hbvalue, Hbdata, Hrouter.
  do 16 (split; [assumption || reflexivity|]).
  destruct (String.eqb (Dex.slug (Swap.dex bestQuote)) "uniswap"),
    (Swap.isNative fromToken), (Swap.isNative toToken);
    repeat split; reflexivity.
Qed.

(** X14. A swap is reported as prepared only after its checks have
    passed: the two tokens resolve to addresses that differ up to case;
    the balance query was answered with a balance that covers the input
    amount; the quote used is the first of the selection from the sorted
    viable quotes, its amount is positive, and it comes from a venue of
    the chain -- from the requested venue when one was requested; the
    report names that venue and shows that amount; and the approval flag
    of the report is set exactly when the input is a token whose
    allowance to the venue's router is below the input amount. *)
Theorem swap_success_means_checks_passed (E : Env) (p : Swap.Params)
        (ctx : ToolContext) (w w' : World)
        (from fromSymbol fromAmount toSymbol toAmount dexName : string)
        (chainId : Z) (needsApproval : bool) :
  Swap.handler E p ctx w
  = (Success (SwapSummary from fromSymbol fromAmount toSymbol toAmount dexName
                chainId needsApproval), w') ->
  exists fromToken toToken amountIn balance bestQuote rest router,
    chainId = contextChainId ctx
    /\ JsString.truthy (ctx_userAddress ctx) = Some from
    /\ Swap.resolveToken E (Swap.fromToken p) chainId = Some fromToken
    /\ Swap.resolveToken E (Swap.toToken p) chainId = Some toToken
    /\ JsString.toLowerCase (Swap.address fromToken)
       <> JsString.toLowerCase (Swap.address toToken)
    /\ parseUnits E (Swap.amount p) (Swap.decimals fromToken) = Some amountIn
    /\ replyInt E (if Swap.isNative fromToken
                   then CallGetBalance chainId from
                   else CallBalanceOf chainId (Swap.address fromToken) from)
       = Some balance
    /\ amountIn <= balance
    /\ Spec.selection (Swap.preferredDex p)
         (JsArray.sort Swap.compareQuotes
            (viableFor E ctx fromToken toToken amountIn))
       = bestQuote :: rest
    /\ 0 < Swap.amountOut bestQuote
    /\ In (Swap.dex bestQuote) (Dex.getDexesForChain chainId)
    /\ Dex.name (Swap.dex bestQuote) = dexName
    /\ toFixed6 E (Swap.amountOutFormatted bestQuote) = toAmount
    /\ formatUnits E (Swap.amountOut bestQuote) (Swap.decimals toToken)
       = Some (Swap.amountOutFormatted bestQuote)
    /\ (forall name, JsString.truthy (Swap.preferredDex p) = Some name ->
                     Dex.slug (Swap.dex bestQuote) = name)
    /\ Swap.routerFor (Swap.dex bestQuote) chainId = Some router
    /\ (needsApproval = true <->
        Swap.isNative fromToken = false
        /\ exists allowance,
             replyInt E (CallAllowance chainId (Swap.address fromToken) from
                           (Some router)) = Some allowance
             /\ allowance < amountIn).
Proof.
  intros H. apply swap_success_inversion in H. cbv zeta in H.
  destruct H as (userAddress & fromToken & toToken & amountIn & bps & balance
                 & bestQuote & rest & needs & swapTx & minText & row & user
                 & Hwallet & Hfrom & Hto & Hdiff & Hparse & _ & Hreply & Henough
                 & Hfmt & Hsel & Hnative & Htoken & _ & _ & Hs & _).
  injection Hs as -> -> -> -> -> -> -> ->.
  destruct (selection_head _ _ _ _ _ _ _ Hfmt Hsel)
    as (_ & Hpos & Hvenue & Htext & Hpreferred & (router & Hrouter & _) & _).
  exists fromToken, toToken, amountIn, balance, bestQuote, rest, router.
  do 16 (split; [assumption || reflexivity|]).
  rewrite Hrouter in Htoken.
  destruct (Swap.isNative fromToken) eqn:Hn.
  - rewrite (Hnative eq_refl). split; [intros Hf; discriminate Hf|].
    intros [Hf _]. discriminate Hf.
  - destruct (Htoken eq_refl) as (allowance & Hallow & ->). split.
    + intros Hlt. apply Z.ltb_lt in Hlt. split; [reflexivity|].
      exists allowance. auto.
    + intros (_ & allowance' & Hallow' & Hlt). rewrite Hallow in Hallow'.
      inversion Hallow'; subst. apply Z.ltb_lt. exact Hlt.
Qed.

Lemma swap_success_matches_stored_row_witness :
  exists row router,
    appended (Sample.world true)
      (snd (Swap.handler (Sample.env Sample.lowTierOnly) Sample.swapUsdcForEth
              Sample.ctx (Sample.world true))) row
    /\ Swap.routerFor Dex.UNISWAP 1 = Some router
    /\ td_to (tx_fields row) = Some router
    /\ td_value (tx_fields row) = 0
    /\ Decode.deadline (td_data (tx_fields row)) = Some 1700001200.
Proof.
  destruct (@swap_success_matches_stored_row
              (Sample.env Sample.lowTierOnly) Sample.swapUsdcForEth Sample.ctx
              (Sample.world true)
              (snd (Swap.handler (Sample.env Sample.lowTierOnly)
                      Sample.swapUsdcForEth Sample.ctx (Sample.world true)))
              (SwapSummary Sample.alice "USDC" "100" "ETH" "0.000000" "Uniswap"
                 1 true)
              ltac:(vm_compute; reflexivity))
    as (userAddress & fromToken & toToken & amountIn & bps & bestQuote & rest
        & router & needsApproval & row & user & _ & Hfrom & Hto & Hparse & _
        & Hsel & _ & Hrouter & _ & _ & Happ & _ & _ & _ & Hrow & Hvalue & _
        & Hdeadline & _).
  vm_compute in Hfrom. injection Hfrom as <-.
  vm_compute in Hto. injection Hto as <-.
  vm_compute in Hparse. injection Hparse as <-.
  vm_compute in Hsel. injection Hsel as <- _.
  exists row, router. repeat split; try apply Happ; assumption.
Defined.

Lemma swap_success_means_checks_passed_witness :
  exists balance bestQuote,
    100 * 10 ^ 6 <= balance
    /\ 0 < Swap.amountOut bestQuote
    /\ In (Swap.dex bestQuote) (Dex.getDexesForChain 1)
    /\ Dex.name (Swap.dex bestQuote) = "Uniswap"%string.
Proof.
  destruct (@swap_success_means_checks_passed
              (Sample.env Sample.lowTierOnly) Sample.swapUsdcForEth Sample.ctx
              (Sample.world true)
              (snd (Swap.handler (Sample.env Sample.lowTierOnly)
                      Sample.swapUsdcForEth Sample.ctx (Sample.world true)))
              Sample.alice "USDC" "100" "ETH" "0.000000" "Uniswap" 1 true
              ltac:(vm_compute; reflexivity))
    as (fromToken & toToken & amountIn & balance & bestQuote & rest & router
        & _ & _ & Hfrom & _ & _ & Hparse & _ & Henough & _ & Hpos & Hvenue
        & Hname & _).
  vm_compute in Hfrom. injection Hfrom as <-.
  vm_compute in Hparse. injection Hparse as <-.
  exists balance, bestQuote. repeat split; assumption.
Defined.

(* ------------------------------------------------------------------ *)
(** ** The requested venue                                             *)
(* ------------------------------------------------------------------ *)

(** X15. The venue of a swap must be requested by its exact slug.  The
    lookup of the venue ignores case, but the quotes are then filtered
    by comparing each venue's slug with the name as given, so a name
    that is not literally one of the registered slugs (for example the
    display name [Uniswap]) leaves no quote: the tool never reports
    success for it, whatever liquidity the venue has. *)
Theorem swap_venue_needs_exact_slug (E : Env) (p : Swap.Params)
        (ctx : ToolContext) (w : World) (name : string) :
  JsString.truthy (Swap.preferredDex p) = Some name ->
  ~ In name (map (fun entry => Dex.slug (snd entry)) Dex.DEX_PROTOCOLS) ->
  exists e, fst (Swap.handler E p ctx w) = Failure e.
Proof.
  intros Hname Hnot.
  destruct (Swap.handler E p ctx w) as [[s|e] w'] eqn:H;
    [exfalso | exists e; reflexivity].
  apply swap_success_inversion in H. cbv zeta in H.
  destruct H as (userAddress & fromToken & toToken & amountIn & bps & balance
                 & bestQuote & rest & needs & swapTx & minText & row & user
                 & _ & _ & _ & _ & _ & _ & _ & _ & Hfmt & Hsel & _).
  destruct (selection_head _ _ _ _ _ _ _ Hfmt Hsel)
    as (_ & _ & Hvenue & _ & Hpreferred & _).
  apply Hnot. rewrite <- (Hpreferred name Hname).
  unfold Dex.getDexesForChain in Hvenue. apply filter_In in Hvenue.
  destruct Hvenue as [Hvenue _]. apply in_map_iff in Hvenue.
  destruct Hvenue as (entry & <- & Hentry).
  apply in_map_iff. exists entry. auto.
Qed.

Lemma swap_venue_needs_exact_slug_witness :
  exists e,
    fst (Swap.handler (Sample.env Sample.lowTierOnly) Scenario.swapViaDisplayName
           Sample.ctx (Sample.world true)) = Failure e.
Proof.
  apply (@swap_venue_needs_exact_slug (Sample.env Sample.lowTierOnly)
           Scenario.swapViaDisplayName Sample.ctx (Sample.world true) "Uniswap").
  - reflexivity.
  - cbn. intros H.
    repeat (destruct H as [H|H]; [discriminate H|]). destruct H.
Defined.

(** The same request succeeds under the slug and finds no liquidity
    under the display name, which [getDex] nevertheless accepts. *)
Example swap_by_display_name_finds_no_quote :
  Dex.getDex "Uniswap" = Some Dex.UNISWAP
  /\ fst (Swap.handler (Sample.env Sample.lowTierOnly) Scenario.swapViaDisplayName
            Sample.ctx (Sample.world true)) = Failure ENoLiquidity
  /\ fst (Swap.handler (Sample.env Sample.lowTierOnly) Scenario.swapViaSlug
            Sample.ctx (Sample.world true))
     = Success (SwapSummary Sample.alice "USDC" "100" "ETH" "0.000000" "Uniswap"
                  1 true).
Proof. repeat split; vm_compute; reflexivity. Qed.

(* ------------------------------------------------------------------ *)
(** ** The [switch_network] tool                                       *)
(* ------------------------------------------------------------------ *)

Example SUPPORTED_CHAINS_ascending :
  Registry.SUPPORTED_CHAINS = [1; 10; 56; 137; 8453; 42161; 43114; 11155111].
Proof. reflexivity. Qed.

Lemma supported_chains_known (c : Z) :
  In c Registry.SUPPORTED_CHAINS <-> exists n, Networks.getNetwork c = Some n.
Proof.
  split.
  - rewrite SUPPORTED_CHAINS_ascending. cbn [In]. intros H.
    repeat (destruct H as [<-|H]; [eexists; reflexivity|]). destruct H.
  - intros [n Hn]. apply known_chain in Hn. rewrite SUPPORTED_CHAINS_ascending.
    cbn in Hn. cbn [In]. intuition.
Qed.

(** The balance lookup of [switch_network] always yields an answer,
    possibly one that reports its own failure, and only reads the
    chain. *)
Lemma checkTokenBalance_answers (E : Env) (chainId : Z)
      (network : Networks.NetworkConfig) (checkToken userAddress : string)
      (w : World) :
  exists info queries,
    TokenUtils.checkTokenBalance E chainId network checkToken userAddress w
    = (Val info, logCalls queries w).
Proof.
  unfold TokenUtils.checkTokenBalance, tryCatch.
  destruct (Tokens.isNativeToken checkToken chainId).
  - unfold bind, callInt, call, ret, throw.
    repeat match goal with
           | |- context [provider E ?c] => destruct (provider E c) as [[?|?|]|]
           end; cbn; eexists _, _; reflexivity.
  - destruct (Tokens.getToken checkToken chainId) as [tokenInfo|].
    + unfold bind, promiseAll3, ret, throw.
      repeat match goal with
             | |- context [provider E ?c] => destruct (provider E c) as [[?|?|]|]
             end; cbn; eexists _, _; reflexivity.
    + exists (TokenUtils.TokenNotFoundOn checkToken (Networks.name network)), [].
      rewrite logCalls_nil. reflexivity.
Qed.

(** The notice to the wallet (lines 155-169) never fails; it publishes
    one event or nothing. *)
Lemma switch_notice (E : Env) (network : Networks.NetworkConfig)
      (ctx : ToolContext) (w : World) :
  exists w1,
    tryCatch
      (getIO ;;;
       match JsString.truthy (ctx_userAddress ctx) with
       | Some userAddress =>
           emitTo E (userRoom userAddress) (NetworkSwitch network)
       | None => ret tt
       end)
      (fun _ => ret tt) w = (Val tt, w1)
    /\ transactions w1 = transactions w
    /\ users w1 = users w
    /\ console w1 = console w
    /\ agentNetwork w1 = agentNetwork w
    /\ pendingPublished w1 = pendingPublished w
    /\ (emitted w1 = emitted w
        \/ exists userAddress,
             JsString.truthy (ctx_userAddress ctx) = Some userAddress
             /\ ioInstance w = true
             /\ emitted w1
                = emitted w
                  ++ [ {| room := userRoom userAddress;
                          payload := NetworkSwitch network |} ]).
Proof.
  unfold tryCatch, bind, getIO, emitTo, ret.
  destruct (ioInstance w) eqn:Hio.
  - destruct (JsString.truthy (ctx_userAddress ctx)) as [userAddress|] eqn:Huser.
    + rewrite Hio. destruct (channelAccepts E _).
      * eexists. split; [reflexivity|]. cbn. repeat split.
        -- unfold pendingPublished. cbn. rewrite filter_app. cbn.
           apply app_nil_r.
        -- right. exists userAddress. auto.
      * eexists. split; [reflexivity|]. repeat split; auto.
    + eexists. split; [reflexivity|]. repeat split; auto.
  - eexists. split; [reflexivity|]. repeat split; auto.
Qed.

(** The body of the outer [try] of [switch_network]. *)
Lemma switchBody_cases (E : Env) (chainId : Z) (network : Networks.NetworkConfig)
      (checkToken : option string) (ctx : ToolContext) (w : World) :
  (TokenUtils.switchBody E chainId network checkToken ctx w = (Throw EAgent, w)
   /\ exists switch, agent E = Some switch /\ switch chainId = false)
  \/ exists balance w',
       TokenUtils.switchBody E chainId network checkToken ctx w = (Val balance, w')
       /\ (balance = None <->
           JsString.truthy checkToken = None
           \/ JsString.truthy (ctx_userAddress ctx) = None)
       /\ transactions w' = transactions w
       /\ users w' = users w
       /\ console w' = console w
       /\ pendingPublished w' = pendingPublished w
       /\ (emitted w' = emitted w
           \/ exists userAddress,
                JsString.truthy (ctx_userAddress ctx) = Some userAddress
                /\ ioInstance w = true
                /\ emitted w'
                   = emitted w
                     ++ [ {| room := userRoom userAddress;
                             payload := NetworkSwitch network |} ]).
Proof.
  unfold TokenUtils.switchBody.
  assert (Hagent :
            (agentSwitchNetwork E chainId w = (Throw EAgent, w)
             /\ exists switch, agent E = Some switch /\ switch chainId = false)
            \/ exists w0,
                 agentSwitchNetwork E chainId w = (Val tt, w0)
                 /\ transactions w0 = transactions w
                 /\ users w0 = users w
                 /\ console w0 = console w
                 /\ emitted w0 = emitted w
                 /\ ioInstance w0 = ioInstance w).
  { unfold agentSwitchNetwork. destruct (agent E) as [switch|].
    - destruct (switch chainId) eqn:Hswitch.
      + right. eexists. split; [reflexivity|]. repeat split.
      + left. split; [reflexivity|]. exists switch. auto.
    - right. exists w. repeat split. }
  destruct Hagent as [[Hthrow Hrefused]|(w0 & Hval & Ht0 & Hu0 & Hc0 & He0 & Hi0)].
  { left. split; [|exact Hrefused]. erewrite bind_of_throw by exact Hthrow.
    reflexivity. }
  right. erewrite bind_of_val by exact Hval.
  destruct (switch_notice E network ctx w0)
    as (w1 & Hnotice & Ht1 & Hu1 & Hc1 & _ & Hp1 & He1).
  erewrite bind_of_val by exact Hnotice.
  assert (Hp0 : pendingPublished w0 = pendingPublished w)
    by (unfold pendingPublished; rewrite He0; reflexivity).
  assert (Hemit : emitted w1 = emitted w
                  \/ exists userAddress,
                       JsString.truthy (ctx_userAddress ctx) = Some userAddress
                       /\ ioInstance w = true
                       /\ emitted w1
                          = emitted w
                            ++ [ {| room := userRoom userAddress;
                                    payload := NetworkSwitch network |} ]).
  { destruct He1 as [He1|(u & Hu & Hio & He1)].
    - left. congruence.
    - right. exists u. rewrite <- Hi0, <- He0. auto. }
  destruct (JsString.truthy checkToken) as [token|] eqn:Htoken;
    [destruct (JsString.truthy (ctx_userAddress ctx)) as [userAddress|] eqn:Huser|].
  - destruct (checkTokenBalance_answers E chainId network token userAddress w1)
      as (info & queries & Hinfo).
    exists (Some info), (logCalls queries w1).
    split; [erewrite bind_of_val by exact Hinfo; reflexivity|].
    split; [split; [intros H; discriminate H
                   | intros [H|H]; discriminate H]|].
    unfold pendingPublished in *. cbn [logCalls transactions users console emitted].
    repeat split; first [congruence | exact Hemit].
  - exists None, w1.
    split; [reflexivity|].
    split; [split; auto|].
    repeat split; first [congruence | exact Hemit].
  - exists None, w1.
    split; [reflexivity|].
    split; [split; auto|].
    repeat split; first [congruence | exact Hemit].
Qed.

(** X16. The [switch_network] tool fails for a chain outside the network
    table, touching nothing and listing the supported chain ids, of
    which the requested one is none; for a chain of the table it fails
    only when the agent refuses the switch.  Otherwise it succeeds
    whatever the socket and the chain data provider do: it stores
    nothing, publishes no transaction, sends at most one [networkSwitch]
    event, to the room of the requesting user and with the
    configuration of the target chain, and reports a balance exactly
    when a token to check and a user address are given. *)
Theorem switch_network_tool_outcomes (E : Env) (chainId : Z)
        (checkToken : option string) (ctx : ToolContext) (w : World) :
  let result := TokenUtils.switchNetworkHandler E chainId checkToken ctx w in
  match Networks.getNetwork chainId with
  | None =>
      result = (TokenUtils.SwitchUnsupported chainId Registry.SUPPORTED_CHAINS, w)
      /\ ~ In chainId Registry.SUPPORTED_CHAINS
  | Some network =>
      (result = (TokenUtils.SwitchFailed EAgent, w)
       /\ exists switch, agent E = Some switch /\ switch chainId = false)
      \/ (exists balance,
            fst result
            = TokenUtils.Switched {| TokenUtils.switchedTo := network;
                                     TokenUtils.balance := balance |}
            /\ (balance = None <->
                JsString.truthy checkToken = None
                \/ JsString.truthy (ctx_userAddress ctx) = None)
            /\ transactions (snd result) = transactions w
            /\ users (snd result) = users w
            /\ console (snd result) = console w
            /\ pendingPublished (snd result) = pendingPublished w
            /\ (emitted (snd result) = emitted w
                \/ exists userAddress,
                     JsString.truthy (ctx_userAddress ctx) = Some userAddress
                     /\ ioInstance w = true
                     /\ emitted (snd result)
                        = emitted w
                          ++ [ {| room := userRoom userAddress;
                                  payload := NetworkSwitch network |} ]))
  end.
Proof.
  cbv zeta. unfold TokenUtils.switchNetworkHandler.
  destruct (Networks.getNetwork chainId) as [network|] eqn:Hnet.
  2:{ split; [reflexivity|]. intros Hin. apply supported_chains_known in Hin.
      destruct Hin as [n Hn]. congruence. }
  destruct (switchBody_cases E chainId network checkToken ctx w)
    as [[-> Hrefused]|(balance & w' & -> & Hprops)].
  - left. split; [reflexivity | exact Hrefused].
  - right. exists balance. split; [reflexivity | exact Hprops].
Qed.

Example switch_network_with_balance :
  fst (TokenUtils.switchNetworkHandler (Sample.env (Sample.balances 5)) 137
         (Some "matic"%string) Sample.ctx (Sample.world false))
  = TokenUtils.Switched
      {| TokenUtils.switchedTo :=
           {| Networks.chainId := 137; Networks.name := "Polygon";
              Networks.symbol := "MATIC";
              Networks.rpcUrl := "https://polygon-bor-rpc.publicnode.com";
              Networks.explorerUrl := "https://polygonscan.com" |};
         TokenUtils.balance := Some (TokenUtils.NativeBalance "MATIC" 5) |}.
Proof. reflexivity. Qed.

(* ------------------------------------------------------------------ *)
(** ** The address book                                                *)
(* ------------------------------------------------------------------ *)

Lemma find_over_appended (A : Type) (wanted : A -> bool) (older newer : list A) :
  find wanted (older ++ newer)
  = match find wanted older with
    | Some hit => Some hit
    | None => find wanted newer
    end.
Proof.
  induction older as [|x older IH]; simpl; [reflexivity|].
  destruct (wanted x); [reflexivity | exact IH].
Qed.

Lemma activeContacts_add (user : Contacts.Account) (db : Contacts.Db)
      (row : Contacts.ContactRow) :
  Contacts.row_userId row = Contacts.account_id user ->
  Contacts.row_deletedAt row = None ->
  Contacts.activeContacts user
    {| Contacts.accounts := Contacts.accounts db;
       Contacts.book := Contacts.book db ++ [row] |}
  = Contacts.activeContacts user db ++ [row].
Proof.
  intros Hu Hd. unfold Contacts.activeContacts. cbn [Contacts.book].
  rewrite filter_app. cbn. unfold Contacts.isActive.
  rewrite Hu, Hd, String.eqb_refl. reflexivity.
Qed.

(** X17. After [add_contact] has succeeded, [resolve_contact] finds the
    name: it answers with a contact whose name has the same
    [toLowerCase] as the name given, and with exactly the address just
    saved when no active contact answered to the name before.  Every
    name whose [toLowerCase] differs from that of the new one resolves
    as before, and the account table is untouched.  [toLowerCase] is
    JavaScript's own, on names of any alphabet. *)
Theorem added_contact_resolves (E : Env) (S : Contacts.Store) (name address : string)
        (notes : option string) (ctx : ToolContext) (db db' : Contacts.Db)
        (v : Contacts.ContactView) :
  Contacts.addContact S name address notes ctx db = (Contacts.Added v, db') ->
  (exists found,
      Contacts.resolveContact E name ctx db' = Contacts.Resolved found
      /\ lowerCase E (Contacts.view_name found)
         = lowerCase E name)
  /\ (Contacts.resolveContact E name ctx db
      = Contacts.Failed Contacts.ContactNotFound ->
      Contacts.resolveContact E name ctx db'
      = Contacts.Resolved {| Contacts.view_id := None;
                             Contacts.view_name := name;
                             Contacts.view_address := address;
                             Contacts.view_notes := None |})
  /\ (forall other,
         lowerCase E other <> lowerCase E name ->
         Contacts.resolveContact E other ctx db'
         = Contacts.resolveContact E other ctx db)
  /\ Contacts.accounts db' = Contacts.accounts db
  /\ Contacts.view_name v = name
  /\ Contacts.view_address v = address.
Proof.
  unfold Contacts.addContact.
  destruct (Contacts.findUser (ctx_userAddress ctx) db) as [e|user] eqn:Huser;
    [intros H; discriminate H|].
  cbv zeta. destruct (Contacts.createAccepts S _); [|intros H; discriminate H].
  intros H. inversion H; subst; clear H.
  set (row := {| Contacts.row_id := Contacts.freshId (Contacts.book db);
                 Contacts.row_userId := Contacts.account_id user;
                 Contacts.row_name := name;
                 Contacts.row_address := address;
                 Contacts.row_notes := notes;
                 Contacts.row_createdAt := Contacts.clock S;
                 Contacts.row_deletedAt := None |}).
  assert (Huser' : Contacts.findUser (ctx_userAddress ctx)
                     {| Contacts.accounts := Contacts.accounts db;
                        Contacts.book := Contacts.book db ++ [row] |}
                   = inr user) by exact Huser.
  assert (Hactive := @activeContacts_add user db row eq_refl eq_refl).
  assert (Hrow : Contacts.named E name row = true).
  { unfold Contacts.named. cbn. apply String.eqb_refl. }
  unfold Contacts.resolveContact. rewrite Huser, Huser', Hactive.
  split; [|split; [|split; [|repeat split]]].
  - rewrite find_over_appended.
    destruct (find (Contacts.named E name) (Contacts.activeContacts user db))
      as [c|] eqn:Hfind.
    + eexists. split; [reflexivity|]. cbn.
      apply find_some in Hfind. destruct Hfind as [_ Hc].
      apply String.eqb_eq. exact Hc.
    + cbn [find]. rewrite Hrow. eexists. split; reflexivity.
  - rewrite find_over_appended.
    destruct (find (Contacts.named E name) (Contacts.activeContacts user db));
      [intros H; discriminate H|].
    intros _. cbn [find]. rewrite Hrow. reflexivity.
  - intros other Hother. rewrite find_over_appended.
    destruct (find (Contacts.named E other) (Contacts.activeContacts user db));
      [reflexivity|].
    assert (Hno : Contacts.named E other row = false).
    { unfold Contacts.named. cbn [Contacts.row_name row].
      destruct (String.eqb_spec (lowerCase E name) (lowerCase E other)); [congruence | reflexivity]. }
    cbn [find]. rewrite Hno. reflexivity.
Qed.

Lemma same_id_same_row (l : list Contacts.ContactRow) (a b : Contacts.ContactRow) :
  NoDup (map Contacts.row_id l) -> In a l -> In b l ->
  Contacts.row_id a = Contacts.row_id b -> a = b.
Proof.
  induction l as [|x l IH]; simpl; [tauto|].
  intros Hnd Ha Hb Hid. inversion Hnd as [|? ? Hnotin Hnd']; subst.
  destruct Ha as [<-|Ha], Hb as [<-|Hb].
  - reflexivity.
  - exfalso. apply Hnotin. rewrite Hid. apply in_map. exact Hb.
  - exfalso. apply Hnotin. rewrite <- Hid. apply in_map. exact Ha.
  - apply IH; assumption.
Qed.

Lemma distinct_ids_filter (keep : Contacts.ContactRow -> bool)
      (rows : list Contacts.ContactRow) :
  NoDup (map Contacts.row_id rows) ->
  NoDup (map Contacts.row_id (filter keep rows)).
Proof.
  induction rows as [|r rows IH]; simpl; [auto|].
  intros Hnd. inversion Hnd as [|? ? Hfresh Hrest]; subst.
  destruct (keep r); simpl; [|auto].
  constructor; [|auto]. intros Hin. apply Hfresh.
  apply in_map_iff in Hin. destruct Hin as (r' & Hid & Hin).
  apply filter_In in Hin. rewrite <- Hid. apply in_map. tauto.
Qed.

(** The active contacts after a soft delete: all but the rows with the
    deleted key. *)
Lemma activeContacts_markDeleted (user : Contacts.Account) (db : Contacts.Db)
      (key : nat) (time : Z) :
  Contacts.activeContacts user
    {| Contacts.accounts := Contacts.accounts db;
       Contacts.book := Contacts.markDeleted key time (Contacts.book db) |}
  = filter (fun r => negb (Nat.eqb (Contacts.row_id r) key))
           (Contacts.activeContacts user db).
Proof.
  unfold Contacts.activeContacts, Contacts.markDeleted. cbn [Contacts.book].
  induction (Contacts.book db) as [|r rows IH]; [reflexivity|].
  cbn [map filter].
  destruct (Nat.eqb (Contacts.row_id r) key) eqn:Hkey.
  - cbn [Contacts.row_userId Contacts.isActive Contacts.row_deletedAt].
    rewrite andb_false_r, IH.
    destruct (String.eqb (Contacts.row_userId r) (Contacts.account_id user)
              && Contacts.isActive r)%bool; [|reflexivity].
    cbn [filter]. rewrite Hkey. reflexivity.
  - rewrite IH.
    destruct (String.eqb (Contacts.row_userId r) (Contacts.account_id user)
              && Contacts.isActive r)%bool; [|reflexivity].
    cbn [filter]. rewrite Hkey. reflexivity.
Qed.

Lemma filter_filter_comm (A : Type) (p q : A -> bool) (l : list A) :
  filter p (filter q l) = filter q (filter p l).
Proof.
  induction l as [|x l IH]; simpl; [reflexivity|].
  destruct (p x) eqn:Hp, (q x) eqn:Hq; simpl; rewrite ?Hp, ?Hq, IH; reflexivity.
Qed.

Lemma length_without_key (l : list Contacts.ContactRow) (c : Contacts.ContactRow) :
  NoDup (map Contacts.row_id l) -> In c l ->
  (List.length (filter (fun r => negb (Nat.eqb (Contacts.row_id r)
                                               (Contacts.row_id c))) l) + 1
   = List.length l)%nat.
Proof.
  induction l as [|x l IH]; simpl; [tauto|].
  intros Hnd Hin. inversion Hnd as [|? ? Hnotin Hnd']; subst.
  destruct (Nat.eqb_spec (Contacts.row_id x) (Contacts.row_id c)) as [Heq|Hne];
    simpl.
  - assert (Hall : filter (fun r => negb (Nat.eqb (Contacts.row_id r)
                                                  (Contacts.row_id c))) l = l).
    { apply forallb_filter_id. apply forallb_forall. intros r Hr.
      destruct (Nat.eqb_spec (Contacts.row_id r) (Contacts.row_id c)) as [He|];
        [|reflexivity].
      exfalso. apply Hnotin. rewrite Heq, <- He. apply in_map. exact Hr. }
    rewrite Hall. lia.
  - destruct Hin as [<-|Hin]; [congruence|].
    rewrite <- (IH Hnd' Hin). lia.
Qed.

Lemma find_filter_irrelevant (A : Type) (p g : A -> bool) (l : list A) :
  (forall x, In x l -> p x = true -> g x = true) ->
  find p (filter g l) = find p l.
Proof.
  induction l as [|x l IH]; simpl; [reflexivity|].
  intros H. destruct (g x) eqn:Hg; simpl.
  - destruct (p x); [reflexivity|]. apply IH. intros y Hy. apply H. auto.
  - destruct (p x) eqn:Hp.
    + rewrite (H x (or_introl eq_refl) Hp) in Hg. discriminate Hg.
    + apply IH. intros y Hy. apply H. auto.
Qed.

Lemma find_none_of_filter (A : Type) (p : A -> bool) (l : list A) :
  filter p l = [] -> find p l = None.
Proof.
  induction l as [|x l IH]; simpl; [reflexivity|].
  destruct (p x); [intros H; discriminate H | exact IH].
Qed.

(** X18. [delete_contact] deletes softly and exactly one contact.  When
    it succeeds on a store whose contact keys are distinct, no row is
    removed and the accounts are untouched; the contact it reports as
    deleted was an active contact of the requesting user answering to
    the name; afterwards the user has exactly one active contact fewer
    under that name, so that the name no longer resolves if it had a
    single bearer; and every name whose [toLowerCase] differs from that
    of the name given resolves as before.  [toLowerCase] is JavaScript's
    own, on names of any alphabet. *)
Theorem deleted_contact_no_longer_resolves (E : Env) (S : Contacts.Store) (query : string)
        (ctx : ToolContext) (db db' : Contacts.Db) (reported : string) :
  NoDup (map Contacts.row_id (Contacts.book db)) ->
  Contacts.deleteContact E S query ctx db = (Contacts.Deleted reported, db') ->
  exists user contact,
    Contacts.findUser (ctx_userAddress ctx) db = inr user
    /\ In contact (Contacts.matches E query user db)
    /\ reported = query
    /\ Contacts.accounts db' = Contacts.accounts db
    /\ List.length (Contacts.book db') = List.length (Contacts.book db)
    /\ (List.length (Contacts.matches E query user db') + 1
        = List.length (Contacts.matches E query user db))%nat
    /\ (Contacts.matches E query user db = [contact] ->
        Contacts.resolveContact E query ctx db'
        = Contacts.Failed Contacts.ContactNotFound)
    /\ (forall other,
           lowerCase E other <> lowerCase E query ->
           Contacts.resolveContact E other ctx db'
           = Contacts.resolveContact E other ctx db).
Proof.
  intros Hnd. unfold Contacts.deleteContact.
  destruct (Contacts.findUser (ctx_userAddress ctx) db) as [e|user] eqn:Huser;
    [intros H; discriminate H|].
  destruct (find (Contacts.named E query) (Contacts.activeContacts user db))
    as [contact|] eqn:Hfind; [|intros H; discriminate H].
  destruct (Contacts.updateAccepts S (Contacts.row_id contact));
    [|intros H; discriminate H].
  intros H. injection H as Hreported Hdb. subst db'.
  apply find_some in Hfind. destruct Hfind as [Hactive Hnamed].
  assert (Hmatch : In contact (Contacts.matches E query user db)).
  { unfold Contacts.matches. apply filter_In. auto. }
  assert (Huser' : Contacts.findUser (ctx_userAddress ctx)
                     {| Contacts.accounts := Contacts.accounts db;
                        Contacts.book :=
                          Contacts.markDeleted (Contacts.row_id contact)
                            (Contacts.clock S) (Contacts.book db) |}
                   = inr user) by exact Huser.
  assert (Hmatches :
            Contacts.matches E query user
              {| Contacts.accounts := Contacts.accounts db;
                 Contacts.book :=
                   Contacts.markDeleted (Contacts.row_id contact)
                     (Contacts.clock S) (Contacts.book db) |}
            = filter (fun r => negb (Nat.eqb (Contacts.row_id r)
                                             (Contacts.row_id contact)))
                     (Contacts.matches E query user db)).
  { unfold Contacts.matches. rewrite activeContacts_markDeleted.
    apply filter_filter_comm. }
  assert (HndA : NoDup (map Contacts.row_id (Contacts.activeContacts user db)))
    by (apply distinct_ids_filter; exact Hnd).
  exists user, contact.
  split; [reflexivity|]. split; [exact Hmatch|].
  split; [symmetry; exact Hreported|].
  split; [reflexivity|].
  split; [cbn [Contacts.book]; unfold Contacts.markDeleted; apply length_map|].
  split.
  { rewrite Hmatches. apply length_without_key; [|exact Hmatch].
    unfold Contacts.matches. apply distinct_ids_filter. exact HndA. }
  split.
  - intros Hsingle. unfold Contacts.resolveContact. rewrite Huser'.
    rewrite (@find_none_of_filter _ (Contacts.named E query)); [reflexivity|].
    fold (Contacts.matches E query user
            {| Contacts.accounts := Contacts.accounts db;
               Contacts.book :=
                 Contacts.markDeleted (Contacts.row_id contact)
                   (Contacts.clock S) (Contacts.book db) |}).
    rewrite Hmatches, Hsingle. cbn [filter]. rewrite Nat.eqb_refl. reflexivity.
  - intros other Hother. unfold Contacts.resolveContact.
    rewrite Huser, Huser', activeContacts_markDeleted.
    rewrite find_filter_irrelevant; [reflexivity|].
    intros r Hr Hrn.
    destruct (Nat.eqb_spec (Contacts.row_id r) (Contacts.row_id contact))
      as [Hid|]; [|reflexivity].
    exfalso. apply Hother.
    rewrite (@same_id_same_row _ r contact HndA Hr Hactive Hid) in Hrn.
    unfold Contacts.named in Hrn, Hnamed.
    apply String.eqb_eq in Hrn, Hnamed. congruence.
Qed.

Lemma added_contact_resolves_witness :
  Contacts.resolveContact (Sample.env Sample.silent) "CAROL" Sample.ctx
    (snd (Contacts.addContact Scenario.store "Carol" Scenario.carol None
            Sample.ctx Scenario.addressBook))
  = Contacts.Resolved {| Contacts.view_id := None;
                         Contacts.view_name := "Carol";
                         Contacts.view_address := Scenario.carol;
                         Contacts.view_notes := None |}.
Proof.
  pose proof (@added_contact_resolves (Sample.env Sample.silent) Scenario.store "Carol" Scenario.carol None
                Sample.ctx Scenario.addressBook
                (snd (Contacts.addContact Scenario.store "Carol" Scenario.carol
                        None Sample.ctx Scenario.addressBook))
                _ eq_refl) as (_ & Hnew & _).
  exact (Hnew eq_refl).
Defined.

Lemma deleted_contact_no_longer_resolves_witness :
  Contacts.resolveContact (Sample.env Sample.silent) "bob" Sample.ctx
    (snd (Contacts.deleteContact (Sample.env Sample.silent) Scenario.store "bob" Sample.ctx
            Scenario.addressBook))
  = Contacts.Failed Contacts.ContactNotFound.
Proof.
  assert (Hkeys : NoDup (map Contacts.row_id (Contacts.book Scenario.addressBook))).
  { cbn. constructor; [intros [] | constructor]. }
  destruct (@deleted_contact_no_longer_resolves (Sample.env Sample.silent)
              Scenario.store "bob" Sample.ctx
              Scenario.addressBook
              (snd (Contacts.deleteContact (Sample.env Sample.silent) Scenario.store "bob" Sample.ctx
                      Scenario.addressBook))
              "bob" Hkeys eq_refl)
    as (user & contact & Huser & Hin & _ & _ & _ & _ & Hsingle & _).
  apply Hsingle. injection Huser as <-.
  cbn in Hin. destruct Hin as [<-|[]]. reflexivity.
Defined.

(* ------------------------------------------------------------------ *)
(** ** Contacts as the transfer tool reads them                        *)
(* ------------------------------------------------------------------ *)

Lemma find_map (A B : Type) (f : A -> B) (p : B -> bool) (l : list A) :
  find p (map f l) = option_map f (find (fun x => p (f x)) l).
Proof.
  induction l as [|x l IH]; simpl; [reflexivity|].
  destruct (p (f x)); [reflexivity | exact IH].
Qed.

Lemma filter_map_comm (A B : Type) (f : A -> B) (p : B -> bool) (l : list A) :
  filter p (map f l) = map f (filter (fun x => p (f x)) l).
Proof.
  induction l as [|x l IH]; simpl; [reflexivity|].
  destruct (p (f x)); simpl; rewrite IH; reflexivity.
Qed.

Lemma filter_filter_andb (A : Type) (p q : A -> bool) (l : list A) :
  filter p (filter q l) = filter (fun x => q x && p x)%bool l.
Proof.
  induction l as [|x l IH]; simpl; [reflexivity|].
  destruct (q x); simpl; [destruct (p x)|]; rewrite IH; reflexivity.
Qed.

Lemma activeContacts_asUser (db : Contacts.Db) (a : Contacts.Account) :
  Transfer.activeContacts (Contacts.asUser db a)
  = map Contacts.asContact (Contacts.activeContacts a db).
Proof.
  unfold Transfer.activeContacts, Contacts.asUser, Contacts.activeContacts.
  cbn [contacts]. rewrite filter_map_comm, filter_filter_andb. reflexivity.
Qed.

(** X19. The transfer tool and [resolve_contact] read the address book
    alike.  For a recipient that is not an address, whenever
    [resolve_contact] finds a contact under the name, the transfer goes
    to that contact's address and says which contact it used; and
    whenever [resolve_contact] fails, the transfer finds no contact
    either and falls through to the name service. *)
Theorem transfer_finds_what_resolve_contact_finds (E : Env)
        (query userAddress : string) (ctx : ToolContext) (db : Contacts.Db)
        (w : World) (chainId : Z) :
  ctx_userAddress ctx = Some userAddress ->
  isAddress E query = false ->
  (forall found,
      Contacts.resolveContact E query ctx db = Contacts.Resolved found ->
      Transfer.resolveRecipient E query userAddress chainId
        (Contacts.withStore db w)
      = (Val {| Transfer.address := Contacts.view_address found;
                Transfer.resolvedFrom :=
                  Some ("contact " ++ dquote ++ Contacts.view_name found
                        ++ dquote)%string |},
         Contacts.withStore db w))
  /\ (forall e,
         Contacts.resolveContact E query ctx db = Contacts.Failed e ->
         Transfer.findContact E query
           (find (fun u => String.eqb (user_address u) userAddress)
                 (users (Contacts.withStore db w))) = None).
Proof.
  intros Hctx Haddr.
  assert (Hfind : Transfer.findContact E query
                    (find (fun u => String.eqb (user_address u) userAddress)
                          (users (Contacts.withStore db w)))
                  = match Contacts.findUser (ctx_userAddress ctx) db with
                    | inr user =>
                        option_map Contacts.asContact
                          (find (Contacts.named E query)
                                (Contacts.activeContacts user db))
                    | inl _ => None
                    end).
  { unfold Contacts.withStore, Contacts.asUsers, Contacts.findUser.
    cbn [users]. rewrite Hctx, find_map. cbn [Contacts.asUser user_address].
    destruct (find (fun u => String.eqb (Contacts.account_address u) userAddress)
                   (Contacts.accounts db)) as [user|]; [|reflexivity].
    cbn [option_map]. unfold Transfer.findContact.
    rewrite activeContacts_asUser, find_map. reflexivity. }
  split.
  - intros found Hres. unfold Transfer.resolveRecipient. rewrite Haddr.
    unfold bind, findUser. rewrite Hfind.
    unfold Contacts.resolveContact in Hres.
    destruct (Contacts.findUser (ctx_userAddress ctx) db) as [e|user];
      [discriminate Hres|].
    destruct (find (Contacts.named E query) (Contacts.activeContacts user db))
      as [contact|]; [|discriminate Hres].
    inversion Hres; subst. reflexivity.
  - intros e Hres. rewrite Hfind. unfold Contacts.resolveContact in Hres.
    destruct (Contacts.findUser (ctx_userAddress ctx) db) as [e'|user];
      [reflexivity|].
    destruct (find (Contacts.named E query) (Contacts.activeContacts user db));
      [discriminate Hres | reflexivity].
Qed.

Lemma transfer_finds_what_resolve_contact_finds_witness :
  Transfer.resolveRecipient (Sample.env Sample.silent) "BOB" Sample.alice 1
    (Contacts.withStore Scenario.addressBook (Sample.world true))
  = (Val {| Transfer.address := Sample.bob;
            Transfer.resolvedFrom :=
              Some ("contact " ++ dquote ++ "Bob" ++ dquote)%string |},
     Contacts.withStore Scenario.addressBook (Sample.world true)).
Proof.
  destruct (@transfer_finds_what_resolve_contact_finds
              (Sample.env Sample.silent) "BOB" Sample.alice Sample.ctx
              Scenario.addressBook (Sample.world true) 1 eq_refl eq_refl)
    as [Hfound _].
  exact (Hfound _ eq_refl).
Defined.

(* ------------------------------------------------------------------ *)
(** ** The listing of the address book                                 *)
(* ------------------------------------------------------------------ *)

Lemma insertNewest_perm (r : Contacts.ContactRow) (l : list Contacts.ContactRow) :
  Permutation (Contacts.insertNewest r l) (r :: l).
Proof.
  induction l as [|x l IH]; simpl; [apply Permutation_refl|].
  destruct (Contacts.row_createdAt x <? Contacts.row_createdAt r).
  - apply Permutation_refl.
  - eapply perm_trans; [apply perm_skip; exact IH | apply perm_swap].
Qed.

Lemma insertNewest_sorted (r : Contacts.ContactRow) (l : list Contacts.ContactRow) :
  StronglySorted newerFirst l ->
  StronglySorted newerFirst (Contacts.insertNewest r l).
Proof.
  induction l as [|x l IH]; intros Hs; simpl.
  - constructor; [constructor | constructor].
  - inversion Hs as [|? ? Hs' Hall]; subst.
    destruct (Z.ltb_spec (Contacts.row_createdAt x) (Contacts.row_createdAt r)).
    + constructor; [exact Hs|].
      constructor; [unfold newerFirst; lia|].
      eapply Forall_impl; [|exact Hall].
      unfold newerFirst. intros y Hy. lia.
    + constructor; [apply IH; exact Hs'|].
      apply Forall_forall. intros y Hy.
      apply (Permutation_in _ (insertNewest_perm r l)) in Hy.
      destruct Hy as [<-|Hy]; [unfold newerFirst; lia|].
      rewrite Forall_forall in Hall. apply Hall. exact Hy.
Qed.

Lemma newestFirst_spec (rows : list Contacts.ContactRow) :
  Permutation (Contacts.newestFirst rows) rows
  /\ StronglySorted newerFirst (Contacts.newestFirst rows).
Proof.
  unfold Contacts.newestFirst.
  enough (H : forall sorted,
             StronglySorted newerFirst sorted ->
             Permutation
               (fold_left (fun sorted r => Contacts.insertNewest r sorted)
                          rows sorted)
               (sorted ++ rows)
             /\ StronglySorted newerFirst
                  (fold_left (fun sorted r => Contacts.insertNewest r sorted)
                             rows sorted)).
  { apply (H []). constructor. }
  induction rows as [|r rows IH]; intros sorted Hs; simpl.
  - rewrite app_nil_r. split; [apply Permutation_refl | exact Hs].
  - destruct (IH (Contacts.insertNewest r sorted) (insertNewest_sorted r Hs))
      as [Hp Hsorted].
    split; [|exact Hsorted].
    eapply perm_trans; [exact Hp|].
    eapply perm_trans;
      [apply Permutation_app_tail; apply insertNewest_perm|].
    simpl. apply Permutation_middle.
Qed.

(** X20. [list_contacts] shows exactly the active contacts of the
    requesting user, each once, from the newest to the oldest: a deleted
    contact and a contact of another user are never listed. *)
Theorem listed_contacts_are_the_active_ones (ctx : ToolContext)
        (db : Contacts.Db) (views : list Contacts.ContactView) :
  Contacts.listContacts ctx db = Contacts.Listed views ->
  exists user rows,
    Contacts.findUser (ctx_userAddress ctx) db = inr user
    /\ views = map (fun c => {| Contacts.view_id := Some (Contacts.row_id c);
                                Contacts.view_name := Contacts.row_name c;
                                Contacts.view_address := Contacts.row_address c;
                                Contacts.view_notes := Some (Contacts.row_notes c) |})
                   rows
    /\ Permutation rows (Contacts.activeContacts user db)
    /\ StronglySorted newerFirst rows
    /\ forall c, In c rows ->
                 In c (Contacts.book db)
                 /\ Contacts.row_userId c = Contacts.account_id user
                 /\ Contacts.row_deletedAt c = None.
Proof.
  unfold Contacts.listContacts.
  destruct (Contacts.findUser (ctx_userAddress ctx) db) as [e|user];
    [intros H; discriminate H|].
  intros H. inversion H; subst; clear H.
  destruct (newestFirst_spec (Contacts.activeContacts user db)) as [Hperm Hsorted].
  exists user, (Contacts.newestFirst (Contacts.activeContacts user db)).
  split; [reflexivity|]. split; [reflexivity|].
  split; [exact Hperm|]. split; [exact Hsorted|].
  intros c Hc. apply (Permutation_in _ Hperm) in Hc.
  unfold Contacts.activeContacts in Hc. apply filter_In in Hc.
  destruct Hc as [Hin Hc]. apply andb_prop in Hc. destruct Hc as [Howner Hactive].
  split; [exact Hin|]. split; [apply String.eqb_eq; exact Howner|].
  unfold Contacts.isActive in Hactive.
  destruct (Contacts.row_deletedAt c); [discriminate Hactive | reflexivity].
Qed.

Lemma listed_contacts_are_the_active_ones_witness :
  exists rows,
    Permutation rows
      (Contacts.activeContacts
         {| Contacts.account_id := "user-1";
            Contacts.account_address := Sample.alice |}
         (snd (Contacts.addContact Scenario.store "Carol" Scenario.carol None
                 Sample.ctx Scenario.addressBook)))
    /\ StronglySorted newerFirst rows
    /\ map Contacts.row_name rows = ["Carol"%string; "Bob"%string].
Proof.
  destruct (@listed_contacts_are_the_active_ones Sample.ctx
              (snd (Contacts.addContact Scenario.store "Carol" Scenario.carol
                      None Sample.ctx Scenario.addressBook))
              _ eq_refl)
    as (user & rows & Huser & Hviews & Hperm & Hsorted & _).
  injection Huser as <-.
  exists rows. split; [exact Hperm|]. split; [exact Hsorted|].
  apply (f_equal (map Contacts.view_name)) in Hviews.
  rewrite !map_map in Hviews. symmetry. exact Hviews.
Defined.

(* ------------------------------------------------------------------ *)
(** ** Addresses of the registries                                     *)
(* ------------------------------------------------------------------ *)

Lemma lookupZ_In (A : Type) (k : Z) (v : A) (table : list (Z * A)) :
  lookupZ k table = Some v -> In (k, v) table.
Proof.
  induction table as [|[k' v'] table IH]; simpl; [intros H; discriminate H|].
  destruct (Z.eqb_spec k k') as [->|Hne].
  - intros H. inversion H. left. reflexivity.
  - intros H. right. apply IH. exact H.
Qed.

(** The one malformed entry: the mainnet address of DAI has a letter
    that is no hexadecimal digit. *)
Example dai_address_on_mainnet :
  option_map Tokens.address (Tokens.getToken "DAI" 1)
  = Some "0x6B175474E89094C44Da98b954EescdeCB5BE3830"%string
  /\ wellFormedAddress "0x6B175474E89094C44Da98b954EescdeCB5BE3830" = false.
Proof. split; reflexivity. Qed.

(** X21. Every address that the registries hand out is well formed --
    [0x] and forty hexadecimal digits -- with one exception: the token
    registry's address of DAI on chain 1.  This covers what [getToken]
    returns for any symbol and chain, the wrapped native addresses, and
    the routers and quoters of every venue. *)
Theorem registry_addresses_are_well_formed :
  (forall sym c info,
      Tokens.getToken sym c = Some info ->
      wellFormedAddress (Tokens.address info) = true
      \/ (JsString.toUpperCase sym = "DAI"%string /\ c = 1))
  /\ (forall c a,
         lookupZ c Dex.WRAPPED_NATIVE = Some a -> wellFormedAddress a = true)
  /\ (forall entry c a,
         In entry Dex.DEX_PROTOCOLS ->
         Swap.routerFor (snd entry) c = Some a \/ Swap.quoterFor (snd entry) c = Some a ->
         wellFormedAddress a = true).
Proof.
  split; [|split].
  - intros sym c info. unfold Tokens.getToken, Tokens.getTokenFrom.
    destruct (lookup (JsString.toUpperCase sym) Tokens.TOKENS) as [config|] eqn:Hc;
      [|intros H; discriminate H].
    apply lookup_In in Hc.
    destruct (lookupZ c (Tokens.addresses config)) as [a|] eqn:Ha;
      [|intros H; discriminate H].
    apply lookupZ_In in Ha.
    unfold JsString.truthy.
    destruct (String.eqb a EmptyString); [intros H; discriminate H|].
    intros H. inversion H; subst; clear H. cbn [Tokens.address].
    unfold Tokens.TOKENS in Hc. cbn [In] in Hc.
    repeat (destruct Hc as [Hc|Hc];
            [injection Hc as Hk <-; cbn [Tokens.addresses In] in Ha;
             repeat (destruct Ha as [Ha|Ha];
                     [injection Ha as <- <-;
                      first [left; reflexivity
                            | right; split; [symmetry; exact Hk | reflexivity]]|]);
             destruct Ha|]).
    destruct Hc.
  - intros c a H. apply lookupZ_In in H. unfold Dex.WRAPPED_NATIVE in H.
    cbn [In] in H.
    repeat (destruct H as [H|H]; [injection H as <- <-; reflexivity|]).
    destruct H.
  - intros entry c a Hentry Haddr.
    assert (Hcases : forall table,
               (forall k v, In (k, v) table -> wellFormedAddress v = true) ->
               forall found, lookupZ c table = Some found ->
                             wellFormedAddress found = true).
    { intros table Hall found Hfound. apply lookupZ_In in Hfound.
      exact (Hall _ _ Hfound). }
    unfold Dex.DEX_PROTOCOLS in Hentry. cbn [In] in Hentry.
    repeat (destruct Hentry as [Hentry|Hentry];
            [subst entry; cbn [snd] in Haddr;
             destruct Haddr as [Ha|Ha];
             [unfold Swap.routerFor in Ha; revert Ha; apply Hcases
             |unfold Swap.quoterFor in Ha; cbn [Dex.quoterAddress Dex.UNISWAP
                Dex.SUSHISWAP Dex.CURVE Dex.PANCAKESWAP Dex.TRADERJOE] in Ha;
              try discriminate Ha;
              unfold JsString.truthy in Ha;
              match type of Ha with
              | context [lookupZ c ?t] =>
                  destruct (lookupZ c t) as [q|] eqn:Hq; [|discriminate Ha];
                  destruct (String.eqb q EmptyString); [discriminate Ha|];
                  injection Ha as <-; revert Hq; apply Hcases
              end];
             intros k v Hin; cbn in Hin;
             repeat (destruct Hin as [Hin|Hin]; [injection Hin as <- <-; reflexivity|]);
             destruct Hin|]).
    destruct Hentry.
Qed.

(* ------------------------------------------------------------------ *)
(** ** What the wallet is told about a stored row                      *)
(* ------------------------------------------------------------------ *)

Lemma Announced_frame (ctx : ToolContext) (userAddress : string)
      (w w1 w2 : World) (row : Transaction) :
  Frame w w1 -> Announced ctx userAddress w1 w2 row ->
  Announced ctx userAddress w w2 row.
Proof.
  intros [Ht Hp Hc Hi Hu]. unfold Announced, appended.
  rewrite <- Ht, <- Hp, <- Hc. auto.
Qed.

Lemma announces_bind (ctx : ToolContext) (userAddress : string) (A : Type)
      (m : M A) (k : A -> M ToolResult) :
  keeps m -> (forall a, announces ctx userAddress (k a)) ->
  announces ctx userAddress (bind m k).
Proof.
  intros Hm Hk w s w' H. apply bind_val in H.
  destruct H as (a & w1 & Hrun & H).
  destruct (Hk a _ _ _ H) as (row & Hrow). exists row.
  eapply Announced_frame; [|exact Hrow].
  specialize (Hm w). rewrite Hrun in Hm. exact Hm.
Qed.

Lemma announces_throw (ctx : ToolContext) (userAddress : string) (e : Err) :
  announces ctx userAddress (throw e).
Proof. intros w s w' H. discriminate H. Qed.

Lemma announces_exit (ctx : ToolContext) (userAddress : string) (e : Err) :
  announces ctx userAddress (exit (Failure e)).
Proof. intros w s w' H. discriminate H. Qed.

Lemma announces_storeAndPublish (E : Env) (ctx : ToolContext)
      (userAddress : string) (user : User) (type : TxType) (chainId : Z)
      (to : option string) (value : Z) (data : CallData) (buttonText : string)
      (details : Details) (approvalData : option ApprovalData)
      (logMessage : string) (s : Summary) :
  announces ctx userAddress
    (storeAndPublish E ctx userAddress user type chainId to value data
       buttonText details approvalData logMessage ;;; ret (Success s)).
Proof.
  intros w s' w' H. apply bind_val in H. destruct H as (row & w1 & H & Hret).
  injection Hret as _ <-. exists row. revert H.
  unfold storeAndPublish, bind, createTransaction, Announced, appended.
  destruct to as [router|]; [|intros H; discriminate H].
  cbn [td_to]. destruct (storeAccepts E _); [|intros H; discriminate H].
  unfold tryCatch, emitTo, consoleError, ret, pendingPublished. cbn [ioInstance].
  destruct (ioInstance w).
  - destruct (channelAccepts E _); intros H; inversion H; subst; clear H; cbn.
    + split; [auto|]. right. split; [reflexivity|]. exists approvalData.
      rewrite filter_app. reflexivity.
    + split; [auto|]. left. split; [reflexivity|]. exists logMessage. reflexivity.
  - intros H; inversion H; subst; clear H; cbn.
    split; [auto|]. left. split; [reflexivity|]. exists logMessage. reflexivity.
Qed.

Lemma announces_persistAndPublish (E : Env) (ctx : ToolContext)
      (userAddress : string) (type : TxType) (chainId : Z) (to : option string)
      (value : Z) (data : CallData) (buttonText : string) (details : Details)
      (approvalData : option ApprovalData) (logMessage : string) (s : Summary) :
  announces ctx userAddress
    (persistAndPublish E ctx userAddress type chainId to value data
       buttonText details approvalData logMessage ;;; ret (Success s)).
Proof.
  intros w s' w' H. unfold bind in H. rewrite persistAndPublish_eq in H.
  destruct (find _ (users w)) as [user|]; [|discriminate H].
  apply (@announces_storeAndPublish E ctx userAddress user type chainId to value
           data buttonText details approvalData logMessage s w s' w').
  exact H.
Qed.

Ltac announce :=
  repeat first
    [ progress intros
    | apply announces_persistAndPublish
    | apply announces_storeAndPublish
    | apply announces_bind; [solve [frame] |]
    | solve [apply announces_throw]
    | solve [apply announces_exit]
    | match goal with
      | |- announces _ _ (match ?x with _ => _ end) => destruct x
      | |- announces _ _ (let (_, _) := ?x in _) => destruct x
      | |- announces _ _ (if ?b then _ else _) => destruct b
      end ].

Lemma announces_transfer (E : Env) (p : Transfer.Params) (ctx : ToolContext)
      (userAddress : string) :
  announces ctx userAddress (Transfer.body E p ctx userAddress).
Proof. unfold Transfer.body. announce. Qed.

Lemma announces_approve (E : Env) (p : Approve.Params) (ctx : ToolContext)
      (userAddress : string) :
  announces ctx userAddress (Approve.body E p ctx userAddress).
Proof. unfold Approve.body. announce. Qed.

Lemma announces_swap (E : Env) (p : Swap.Params) (ctx : ToolContext)
      (userAddress : string) :
  announces ctx userAddress (Swap.body E p ctx userAddress).
Proof. unfold Swap.body, Swap.finish. announce. Qed.

Lemma nrs_approve_body (E : Env) (p : Approve.Params) (ctx : ToolContext)
      (userAddress : string) :
  neverReturnsSuccess (Approve.body E p ctx userAddress).
Proof.
  unfold Approve.body, Approve.approvalAmount, Transfer.fetchTokenMetadata.
  nrs.
Qed.

(** X22. What the wallet is asked to sign is what was stored.  Whenever
    the transfer, approve or swap tool reports success, one pending row
    was appended to the transaction table, and the only
    [pendingTransaction] event of the call, if any, went to the room of
    the requesting user and repeats that row: its key, type, destination,
    value, call data, chain, details and button text.  If no event was
    published, one line was written to the console instead. *)
Theorem published_event_repeats_stored_row (E : Env) (ctx : ToolContext)
        (w w' : World) (s : Summary) :
  (exists p, Transfer.handler E p ctx w = (Success s, w'))
  \/ (exists p, Approve.handler E p ctx w = (Success s, w'))
  \/ (exists p, Swap.handler E p ctx w = (Success s, w')) ->
  exists userAddress row,
    JsString.truthy (ctx_userAddress ctx) = Some userAddress
    /\ Announced ctx userAddress w w' row.
Proof.
  intros [[p H]|[[p H]|[p H]]].
  - unfold Transfer.handler in H.
    destruct (JsString.truthy (ctx_userAddress ctx)) as [userAddress|];
      [|discriminate H].
    apply run_success in H; [|apply nrs_transfer_body].
    destruct (@announces_transfer E p ctx userAddress _ _ _ H) as (row & Hrow). eauto.
  - unfold Approve.handler in H.
    destruct (JsString.truthy (ctx_userAddress ctx)) as [userAddress|];
      [|discriminate H].
    apply run_success in H; [|apply nrs_approve_body].
    destruct (@announces_approve E p ctx userAddress _ _ _ H) as (row & Hrow). eauto.
  - apply swap_handler_success in H. destruct H as (userAddress & Huser & H).
    destruct (@announces_swap E p ctx userAddress _ _ _ H) as (row & Hrow). eauto.
Qed.

Lemma published_event_repeats_stored_row_witness :
  exists row,
    Announced Sample.ctx Sample.alice (Sample.world true)
      (snd (Transfer.handler (Sample.env (Sample.balances (10 ^ 30)))
              Sample.sendTwoEthToBob Sample.ctx (Sample.world true))) row.
Proof.
  destruct (@published_event_repeats_stored_row
              (Sample.env (Sample.balances (10 ^ 30))) Sample.ctx
              (Sample.world true)
              (snd (Transfer.handler (Sample.env (Sample.balances (10 ^ 30)))
                      Sample.sendTwoEthToBob Sample.ctx (Sample.world true)))
              (TransferSummary Sample.alice Sample.bob "2" "ETH" None 1
                 (Some ("contact " ++ dquote ++ "Bob" ++ dquote)%string))
              ltac:(left; exists Sample.sendTwoEthToBob; vm_compute; reflexivity))
    as (userAddress & row & Huser & Hrow).
  vm_compute in Huser. injection Huser as <-.
  exists row. exact Hrow.
Defined.

(* ------------------------------------------------------------------ *)
(** ** A publication that fails                                        *)
(* ------------------------------------------------------------------ *)

Section FailingChannel.

Variable accepts : Emit -> bool.
Variable up : bool.
Variable published : list Emit.
Hypothesis Hfails : publishFails accepts up.
Variable E : Env.

Lemma alike_ret (A : Type) (x : A) : alike up published (ret x) (ret x).
Proof. intros a b H. split; [reflexivity | exact H]. Qed.

Lemma alike_throw (A : Type) (e : Err) :
  alike up published (@throw A e) (@throw A e).
Proof. intros a b H. split; [reflexivity | exact H]. Qed.

Lemma alike_exit (A : Type) (r : ToolResult) :
  alike up published (@exit A r) (@exit A r).
Proof. intros a b H. split; [reflexivity | exact H]. Qed.

Lemma alike_bind (A B : Type) (m1 m2 : M A) (k1 k2 : A -> M B) :
  alike up published m1 m2 ->
  (forall x, alike up published (k1 x) (k2 x)) ->
  alike up published (bind m1 k1) (bind m2 k2).
Proof.
  intros Hm Hk a b H. unfold bind. destruct (Hm a b H) as [Ho Hw].
  destruct (m1 a) as [o1 a1], (m2 b) as [o2 b1]. cbn in Ho, Hw. subst o2.
  destruct o1 as [x|r|e]; [apply Hk; exact Hw | |]; split; auto.
Qed.

Lemma alike_tryCatch (A : Type) (m1 m2 : M A) (h1 h2 : Err -> M A) :
  alike up published m1 m2 ->
  (forall e, alike up published (h1 e) (h2 e)) ->
  alike up published (tryCatch m1 h1) (tryCatch m2 h2).
Proof.
  intros Hm Hh a b H. unfold tryCatch. destruct (Hm a b H) as [Ho Hw].
  destruct (m1 a) as [o1 a1], (m2 b) as [o2 b1]. cbn in Ho, Hw. subst o2.
  destruct o1 as [x|r|e]; [| |apply Hh; exact Hw]; split; auto.
Qed.

Lemma alike_call (c : Call) :
  alike up published (call E c) (call (withChannel accepts E) c).
Proof.
  intros a b H. unfold call. cbn [provider withChannel].
  destruct (provider E c); split; try reflexivity; exact H.
Qed.

Lemma alike_promiseAll2 (c1 c2 : Call) :
  alike up published (promiseAll2 E c1 c2)
    (promiseAll2 (withChannel accepts E) c1 c2).
Proof.
  intros a b H. unfold promiseAll2. cbn [provider withChannel].
  destruct (provider E c1), (provider E c2); split; try reflexivity; exact H.
Qed.

Lemma alike_findUser (address : string) :
  alike up published (findUser address) (findUser address).
Proof.
  intros a b H. unfold findUser. cbn [fst snd]. split; [|exact H].
  destruct H as (Hu & _). rewrite Hu. reflexivity.
Qed.

Lemma alike_createTransaction (d : TransactionData) :
  alike up published (createTransaction E d)
    (createTransaction (withChannel accepts E) d).
Proof.
  intros a b H. unfold createTransaction. cbn [storeAccepts withChannel].
  destruct (td_to d) as [to|]; [|split; [reflexivity | exact H]].
  destruct (storeAccepts E d); [|split; [reflexivity | exact H]].
  destruct H as (Hu & Ht & Hio & Hp). cbn [fst snd]. rewrite Ht.
  split; [reflexivity|]. repeat split; cbn; first [assumption | exact Hp].
Qed.

Lemma alike_agentSwitchNetwork (c : Z) :
  alike up published (agentSwitchNetwork E c)
    (agentSwitchNetwork (withChannel accepts E) c).
Proof.
  intros a b H. unfold agentSwitchNetwork. cbn [agent withChannel].
  destruct (agent E) as [switch|]; [destruct (switch c)|];
    split; try reflexivity; exact H.
Qed.

(** A [networkSwitch] event inside its [try]: whether it goes out or
    not, the step ends the same way. *)
Lemma alike_networkSwitch (r : string) (n : Networks.NetworkConfig) :
  alike up published
    (tryCatch (emitTo E r (NetworkSwitch n)) (fun _ => ret tt))
    (tryCatch (emitTo (withChannel accepts E) r (NetworkSwitch n))
       (fun _ => ret tt)).
Proof.
  intros a b (Hu & Ht & Hio & Hp). unfold tryCatch, emitTo, ret.
  cbn [channelAccepts withChannel].
  destruct (ioInstance a), (ioInstance b) eqn:Hb;
    try destruct (channelAccepts E _); try destruct (accepts _);
    cbn [fst snd]; (split; [reflexivity|]);
    repeat split; cbn;
    first [ assumption
          | congruence
          | exact Hp
          | rewrite filter_app; cbn; rewrite app_nil_r; exact Hp ].
Qed.

(** A [pendingTransaction] event inside its [try]: on the failing
    channel it is not published and its handler runs. *)
Lemma alike_pendingTransaction (r : string) (p : Payload) (message : string) :
  isPendingEvent {| room := r; payload := p |} = true ->
  alike up published
    (tryCatch (emitTo E r p) (fun _ => consoleError message))
    (tryCatch (emitTo (withChannel accepts E) r p)
       (fun _ => consoleError message)).
Proof.
  intros Hpending a b (Hu & Ht & Hio & Hp).
  assert (Hb : tryCatch (emitTo (withChannel accepts E) r p)
                 (fun _ => consoleError message) b
               = consoleError message b).
  { unfold tryCatch, emitTo. cbn [channelAccepts withChannel].
    destruct Hfails as [Hoff|Hrefuses].
    - rewrite Hio, Hoff. reflexivity.
    - rewrite (Hrefuses _ Hpending). destruct (ioInstance b); reflexivity. }
  rewrite Hb. unfold tryCatch, emitTo, consoleError.
  destruct (ioInstance a); [destruct (channelAccepts E _)|];
    cbn [fst snd]; (split; [reflexivity|]); repeat split; cbn;
    first [assumption | exact Hp].
Qed.

Create HintDb alike.

#[local] Hint Resolve alike_ret alike_throw alike_exit alike_call
  alike_promiseAll2 alike_findUser alike_createTransaction
  alike_agentSwitchNetwork alike_networkSwitch : alike.

(** Descends through both computations in step. *)
Ltac alike :=
  repeat first
    [ progress intros
    | progress cbv zeta
    | solve [auto with alike]
    | solve [apply alike_pendingTransaction; reflexivity]
    | apply alike_bind
    | apply alike_tryCatch
    | match goal with
      | |- alike _ _ (match ?x with _ => _ end) (match ?y with _ => _ end) =>
          change y with x; destruct x
      | |- alike _ _ (let (_, _) := ?x in _) (let (_, _) := ?y in _) =>
          change y with x; destruct x
      | |- alike _ _ (if ?x then _ else _) (if ?y then _ else _) =>
          change y with x; destruct x
      | |- alike _ _ (liftResult ?x) (liftResult ?y) =>
          change y with x; destruct x; cbn [liftResult]
      end ].

Lemma alike_callInt (c : Call) :
  alike up published (callInt E c) (callInt (withChannel accepts E) c).
Proof. unfold callInt. alike. Qed.

Lemma alike_parseUnitsM (amount : string) (decimals : Z) :
  alike up published (parseUnitsM E amount decimals)
    (parseUnitsM (withChannel accepts E) amount decimals).
Proof. unfold parseUnitsM. alike. Qed.

Lemma alike_formatUnitsM (value decimals : Z) :
  alike up published (formatUnitsM E value decimals)
    (formatUnitsM (withChannel accepts E) value decimals).
Proof. unfold formatUnitsM. alike. Qed.

Lemma alike_encodeFunctionData (c : CallData) :
  alike up published (encodeFunctionData E c)
    (encodeFunctionData (withChannel accepts E) c).
Proof. unfold encodeFunctionData. alike. Qed.

Lemma alike_toQuantity (n : Z) :
  alike up published (toQuantity n) (toQuantity n).
Proof. unfold toQuantity. alike. Qed.

Lemma alike_requireUser (userAddress : string) :
  alike up published (requireUser userAddress) (requireUser userAddress).
Proof. unfold requireUser. alike. Qed.

#[local] Hint Resolve alike_callInt alike_parseUnitsM alike_formatUnitsM
  alike_encodeFunctionData alike_toQuantity alike_requireUser : alike.

Lemma alike_storeAndPublish (ctx : ToolContext) (userAddress : string)
      (user : User) (type : TxType) (chainId : Z) (to : option string)
      (value : Z) (data : CallData) (buttonText : string) (details : Details)
      (approvalData : option ApprovalData) (logMessage : string) :
  alike up published
    (storeAndPublish E ctx userAddress user type chainId to value data
       buttonText details approvalData logMessage)
    (storeAndPublish (withChannel accepts E) ctx userAddress user type chainId
       to value data buttonText details approvalData logMessage).
Proof. unfold storeAndPublish. alike. Qed.

#[local] Hint Resolve alike_storeAndPublish : alike.

Lemma alike_persistAndPublish (ctx : ToolContext) (userAddress : string)
      (type : TxType) (chainId : Z) (to : option string)
      (value : Z) (data : CallData) (buttonText : string) (details : Details)
      (approvalData : option ApprovalData) (logMessage : string) :
  alike up published
    (persistAndPublish E ctx userAddress type chainId to value data
       buttonText details approvalData logMessage)
    (persistAndPublish (withChannel accepts E) ctx userAddress type chainId
       to value data buttonText details approvalData logMessage).
Proof. unfold persistAndPublish. alike. Qed.

#[local] Hint Resolve alike_persistAndPublish : alike.

Lemma alike_transfer_body (p : Transfer.Params) (ctx : ToolContext)
      (userAddress : string) :
  alike up published (Transfer.body E p ctx userAddress)
    (Transfer.body (withChannel accepts E) p ctx userAddress).
Proof.
  unfold Transfer.body, Transfer.switchNetwork, Transfer.resolveRecipient,
    Transfer.resolveEns, Transfer.prepare, Transfer.fetchTokenMetadata,
    Transfer.checkBalance.
  alike.
Qed.

Lemma alike_approve_body (p : Approve.Params) (ctx : ToolContext)
      (userAddress : string) :
  alike up published (Approve.body E p ctx userAddress)
    (Approve.body (withChannel accepts E) p ctx userAddress).
Proof.
  unfold Approve.body, Approve.approvalAmount, Transfer.fetchTokenMetadata.
  alike.
Qed.

Lemma alike_tryFeeTiers (c : Z) (q i o : string) (a : Z) (fees : list Z)
      (found : option Z) :
  alike up published (Swap.tryFeeTiers E c q i o a fees found)
    (Swap.tryFeeTiers (withChannel accepts E) c q i o a fees found).
Proof.
  revert found. induction fees as [|fee fees IH]; intros found; simpl;
    unfold Swap.getUniswapV3Quote; alike.
Qed.

#[local] Hint Resolve alike_tryFeeTiers : alike.

Lemma alike_quoteDex (c : Z) (i o : string) (a : Z) (d : Dex.DexConfig) :
  alike up published (Swap.quoteDex E c i o a d)
    (Swap.quoteDex (withChannel accepts E) c i o a d).
Proof. unfold Swap.quoteDex, Swap.getV2Quote. alike. Qed.

#[local] Hint Resolve alike_quoteDex : alike.

Lemma alike_collectQuotes (c : Z) (i o : string) (a t : Z)
      (dexes : list Dex.DexConfig) (quotes : list Swap.SwapQuote) :
  alike up published (Swap.collectQuotes E c i o a t dexes quotes)
    (Swap.collectQuotes (withChannel accepts E) c i o a t dexes quotes).
Proof.
  revert quotes. induction dexes as [|d dexes IH]; intros quotes; simpl;
    unfold Swap.pushQuote; alike.
Qed.

#[local] Hint Resolve alike_collectQuotes : alike.

Lemma alike_swap_body (p : Swap.Params) (ctx : ToolContext)
      (userAddress : string) :
  alike up published (Swap.body E p ctx userAddress)
    (Swap.body (withChannel accepts E) p ctx userAddress).
Proof.
  unfold Swap.body, Swap.checkBalance, Swap.finish, Swap.selectQuotes,
    Swap.getAllQuotes, Swap.checkAllowance, Swap.buildSwapTransaction.
  alike.
Qed.

End FailingChannel.

(** A body that announces what it stores, run a second time on a
    channel on which the publication fails. *)
Lemma second_run_on_failing_channel (accepts : Emit -> bool) (up : bool)
      (ctx : ToolContext) (userAddress : string) (m1 m2 : M ToolResult)
      (w w' : World) (s : Summary) :
  alike up (pendingPublished w) m1 m2 ->
  announces ctx userAddress m1 ->
  announces ctx userAddress m2 ->
  m1 w = (Val (Success s), w') ->
  exists row message w'',
    appended w w' row
    /\ m2 (withSocket up w) = (Val (Success s), w'')
    /\ transactions w'' = transactions w ++ [row]
    /\ pendingPublished w'' = pendingPublished w
    /\ console w'' = console w ++ [message].
Proof.
  intros Halike Hfirst Hsecond Hrun.
  assert (Hstart : sameStore up (pendingPublished w) w (withSocket up w))
    by (repeat split; reflexivity).
  destruct (Halike _ _ Hstart) as [Hout (_ & Ht & _ & Hp)].
  rewrite Hrun in Hout, Ht. cbn [fst snd] in Hout, Ht.
  destruct (m2 (withSocket up w)) as [o w''] eqn:Hrun2.
  cbn [fst snd] in Hout, Ht, Hp. subst o.
  destruct (Hfirst _ _ _ Hrun) as (row & Happ & _).
  destruct (Hsecond _ _ _ Hrun2) as (row2 & _ & [[_ [message Hlog]]|[_ [ap Hpub]]]).
  - exists row, message, w''. split; [exact Happ|]. split; [reflexivity|].
    destruct Happ as (Hrows & _). rewrite <- Ht, Hrows. auto.
  - exfalso. rewrite Hp in Hpub.
    exact (@not_self_append _ (pendingPublished w) _ Hpub).
Qed.

(** C7. Take a transfer, an approval or a swap that the handler prepares:
    it reports success and has stored its pending row.  Then on every
    channel on which the publication fails -- the socket is not
    initialised, or the channel refuses the event -- the same request
    from the same store is prepared all the same: the handler reports
    the same success, the same pending row is in the transaction table
    when it returns, no [pendingTransaction] event has been published,
    and one line has been written to the console. *)
Theorem publish_failure_is_swallowed (E : Env) (request : Preparation)
        (ctx : ToolContext) (w w' : World) (s : Summary)
        (accepts : Emit -> bool) (up : bool) :
  prepareWith E request ctx w = (Success s, w') ->
  publishFails accepts up ->
  exists row message w'',
    appended w w' row
    /\ prepareWith (withChannel accepts E) request ctx (withSocket up w)
       = (Success s, w'')
    /\ transactions w'' = transactions w ++ [row]
    /\ tx_status row = Pending
    /\ pendingPublished w'' = pendingPublished w
    /\ console w'' = console w ++ [message].
Proof.
  intros Hrun Hfails.
  assert (Hbody : exists userAddress m1 m2,
             alike up (pendingPublished w) m1 m2
             /\ announces ctx userAddress m1
             /\ announces ctx userAddress m2
             /\ m1 w = (Val (Success s), w')
             /\ forall w'',
                  m2 (withSocket up w) = (Val (Success s), w'') ->
                  prepareWith (withChannel accepts E) request ctx
                    (withSocket up w) = (Success s, w'')).
  { destruct request as [p|p|p]; cbn [prepareWith] in *.
    - unfold Transfer.handler in *.
      destruct (JsString.truthy (ctx_userAddress ctx)) as [userAddress|];
        [|discriminate Hrun].
      apply run_success in Hrun; [|apply nrs_transfer_body].
      exists userAddress, (Transfer.body E p ctx userAddress),
        (Transfer.body (withChannel accepts E) p ctx userAddress).
      split; [apply alike_transfer_body; exact Hfails|].
      split; [apply announces_transfer|]. split; [apply announces_transfer|].
      split; [exact Hrun|].
      intros w'' H2. unfold run. rewrite H2. reflexivity.
    - unfold Approve.handler in *.
      destruct (JsString.truthy (ctx_userAddress ctx)) as [userAddress|];
        [|discriminate Hrun].
      apply run_success in Hrun; [|apply nrs_approve_body].
      exists userAddress, (Approve.body E p ctx userAddress),
        (Approve.body (withChannel accepts E) p ctx userAddress).
      split; [apply alike_approve_body; exact Hfails|].
      split; [apply announces_approve|]. split; [apply announces_approve|].
      split; [exact Hrun|].
      intros w'' H2. unfold run. rewrite H2. reflexivity.
    - apply swap_handler_success in Hrun.
      destruct Hrun as (userAddress & Huser & Hrun).
      exists userAddress, (Swap.body E p ctx userAddress),
        (Swap.body (withChannel accepts E) p ctx userAddress).
      split; [apply alike_swap_body; exact Hfails|].
      split; [apply announces_swap|]. split; [apply announces_swap|].
      split; [exact Hrun|].
      intros w'' H2. unfold Swap.handler. rewrite Huser.
      unfold run, tryCatch. rewrite H2. reflexivity. }
  destruct Hbody as (userAddress & m1 & m2 & Halike & Hfirst & Hsecond & Hrun1
                     & Hback).
  destruct (@second_run_on_failing_channel accepts up ctx userAddress m1 m2 w w' s
              Halike Hfirst Hsecond Hrun1)
    as (row & message & w'' & Happ & Hrun2 & Hrows & Hpub & Hlog).
  exists row, message, w''.
  split; [exact Happ|]. split; [apply Hback; exact Hrun2|].
  split; [exact Hrows|]. split; [apply Happ|]. split; [exact Hpub | exact Hlog].
Qed.

(** A transfer to the contact "bob" that is prepared and published, run
    again on a channel that refuses every event. *)
Lemma publish_failure_is_swallowed_witness :
  let E := Sample.env (Sample.balances (2 * 10 ^ 18)) in
  let request := PrepareTransfer Sample.sendTwoEthToBob in
  let w := Sample.world true in
  let s := TransferSummary Sample.alice Sample.bob "2" "ETH" None 1
             (Some ("contact " ++ dquote ++ "Bob" ++ dquote)%string) in
  exists row message w'',
    appended w (snd (prepareWith E request Sample.ctx w)) row
    /\ prepareWith (withChannel (fun _ => false) E) request Sample.ctx
         (withSocket true w) = (Success s, w'')
    /\ transactions w'' = transactions w ++ [row]
    /\ tx_status row = Pending
    /\ pendingPublished w'' = pendingPublished w
    /\ console w'' = console w ++ [message].
Proof.
  intros E request w s.
  apply (@publish_failure_is_swallowed E request Sample.ctx w
           (snd (prepareWith E request Sample.ctx w)) s (fun _ => false) true).
  - vm_compute. reflexivity.
  - right. intros e _. reflexivity.
Defined.
